(* ===== verification/_CoqProject ===== *)
-Q . S2P
Prelude.v
Containers.v
Common.v
RuntimeStore.v
StoreSpec.v
StoreTheorems.v
StoreConcurrency.v
StoreInterleaving.v
StoreLinearizability.v
ManagerState.v
ManagerElection.v
ManagerPartitions.v
ManagerService.v
PartitionSpec.v
PartitionTheorems.v
ManagerTheorems.v
ManagerTyping.v
ElectionSafety.v
ElectionLiveness.v
WorkerState.v
WorkerSync.v
WorkerService.v
WorkerSpec.v
WorkerMigration.v
WorkerTheorems.v
WorkerHandover.v
WorkerPass.v
Rebalance.v
HandoverLiveness.v
WorkerTyping.v
ConformanceStore.v
ConformanceWorker.v
Conversions.v
Grpc.v
ManagerGrpc.v
WorkerGrpc.v
GrpcTheorems.v
Sessions.v
Handshake.v
Process.v
ManagerProcess.v
WorkerProcess.v
Client.v
ClientTheorems.v
EndToEnd.v
ClientConnection.v
ClientStreams.v
ClientErrors.v
Cli.v
CliArgs.v
Conformance.v
ConformanceManager.v
Main.v
Server.v
