(* ===== verification/Prelude.v ===== *)
(** * A verified model of no-sql-store

    no-sql-store is a distributed in-memory key-value store: manager nodes elect
    a leader that assigns 4096 partitions to worker nodes; workers keep records
    and move partitions between each other when the assignment changes; a client
    library routes reads and writes to the workers.  This library translates the
    Rust code under src/crates into Rocq definitions and proves what makes the
    parts correct.  Definitions keep the names of the source.

    ** The parts and how they interact

    A node runs a service loop over a state ([ManagerService], [WorkerService]).
    gRPC tasks turn wire events into protocol messages for the loop, and the
    messages the loop emits into wire events.  The loop handles one message at a
    time ([process]: dispatch to a handler, then [tick]) or the timer ([tick]).
    The worker's store is shared between the loop, the tasks that serve clients
    and the expiry task.  The loop and the output task of the gRPC layer are joined
    by two bounded channels; [run] of manager/mod.rs and worker/mod.rs wires them.

    ** Conventions

    - A handler [fn f(state: &mut State, output: &mut Vec<Msg>, ..)] is a function
      from the state to the new state and the messages it pushes, in order.
    - [now_millis()] and [get_random_number()] are arguments; where a function
      reads the clock several times there is one argument per read ([TickInput],
      [Clock]).
    - A panic ([expect], [unreachable!], a remainder by zero, a malformed
      identifier) is [None].
    - Integers are [Z], with the wrap-around of their width where the code
      computes ([u64_add], [as_u16], ...); theorems carry a bound where the result
      depends on it.
    - Hash maps and hash sets are stdpp's [gmap] and [gset].  Iteration over them
      is in the order of [map_to_list] and [elements]; no theorem depends on it.
    - Third-party code is a parameter: [SkipMap] and [DashMap] (classes with laws in
      [Containers]), [uuid] ([UuidApi], [UuidLaws] in [Common]), BLAKE3 ([Blake3],
      [Blake3Laws] in [Client]), the network ([net_connect], [net_exchange] in
      [Client]), clap's derived parser ([Clap], [ClapLaws] in [CliArgs]).  Reference
      instances show that the laws can hold.

    ** Files

    - [Prelude]: machine integers, iterator adaptors, tactics, hints, lemmas on
      lists and finite maps.
    - [Containers]: interfaces and laws of the concurrent maps; instances on [gmap].
    - [Common]: common.rs, manager/domain.rs, worker/domain.rs.
    - [RuntimeStore]: worker/runtime_store.rs.  [StoreSpec]: the abstract view
      ([lookup_store], a map from keys to mutations, with last-write-wins [lww] and
      [visible]), the invariant [store_wf], reachability.  [StoreTheorems]: claims.
      [StoreConcurrency]: the same methods as threads, one access to shared memory per
      step, under the guards of the DashMap they hold.  [StoreInterleaving]: the
      invariant of every interleaving.  [StoreLinearizability]: claims about it.
    - [ManagerState]: manager/service/state.rs, connection.rs, heartbeat.rs,
      cluster_state.rs.  [ManagerElection]: election.rs.  [ManagerPartitions]:
      partitions.rs.  [ManagerService]: manager/service.rs.  [PartitionSpec],
      [PartitionTheorems], [ManagerTheorems]: their properties.  [ManagerTyping]: the
      widths of its integers.  [ElectionSafety]: a cluster of managers exchanging
      messages over an unreliable network, as a step relation with a ghost log of
      votes and victories.  [ElectionLiveness]: one manager's election from its
      timeout to its announcement.
    - [WorkerState]: worker/service/state.rs, cluster_state.rs, election.rs,
      heartbeat.rs, connection.rs.  [WorkerSync]: worker/service/partitions.rs.
      [WorkerService]: worker/service.rs.  [WorkerSpec]: one transfer as seen from
      the receiver.  [WorkerMigration]: the transfer of a partition to one recipient
      as a step relation (sender, receiver, connection, clients on both sides) and
      its invariant.  [WorkerTheorems]: claims.  [WorkerHandover]: a worker's whole
      service with all its transfers and the peers that receive them.
      [HandoverLiveness]: the same service with peers that answer.  [WorkerTyping]:
      the widths of the worker's integers.  [WorkerPass]: what a worker's tick sends and
      keeps, for use with several workers.
    - [Rebalance]: the leader and all its workers as one system, from a new assignment
      to the last release.
    - [Conversions]: conversions.rs and the messages of the .proto files.  [Grpc]:
      sessions and input loops.  [ManagerGrpc], [WorkerGrpc]: the gRPC layers and the
      worker's client API.  [GrpcTheorems]: claims.  [Handshake]: both ends of a
      connection together.  [Sessions]: a session table under every interleaving of
      its connection tasks and the output task, over an interface ([SessionTasks])
      that the handlers of both layers implement.
    - [Process]: the two tasks of a node and their channels, over interfaces for the
      service and the output task ([ServiceApi], [OutputApi], [NodeLaws]).
      [ManagerProcess], [WorkerProcess]: manager/mod.rs and worker/mod.rs, which
      instantiate them and discharge the laws.
    - [Client]: no-sql-store-client.  [ClientTheorems]: claims, with the network
      instantiated by running workers ([handle_client_request] on their stores).
      [ClientConnection]: connection.rs with the worker's end of the stream.
      [ClientStreams]: the tasks that follow the managers.  [ClientErrors]: the error
      behaviour of writes.
    - [EndToEnd]: a client, two workers and a partition that moved between them; a
      rebalance from the manager to the transfers the workers start; the release of a
      partition from the worker's report to the other workers.
    - [Cli]: cli.rs and [From<Cli> for Config].  [CliArgs]: the declared arguments.
      [Main]: main.rs.  [Server]: [start_server] of both nodes and the end of [run].
    - [ConformanceStore], [ConformanceWorker], [Conformance], [ConformanceManager]: the
      unit tests, translated, and that they hold of the model.

    ** What the theorems show

    - Store: writes refine last-write-wins; replicas that apply the same mutations
      in any order agree; reads, the expiry sweep, paging, the change journal and its
      pruning are exact; every reachable store is well formed.
    - Concurrent store: every interleaving of writes, reads and sweeps is
      linearizable; a stable revision covers every write that finished before it and
      every later one is journalled above it; some call can always go on; a call that
      runs alone does what the sequential definition does.
    - Assignment: every partition has a master and as many distinct owners as
      possible, masters are balanced, a rebalance keeps every live holder of data as
      a source and lists every new owner, and is announced once.
    - Manager: no reachable state panics, its integers keep their widths (so do the
      worker's), epochs do not go back while elections are newer than the epoch, a leader is elected exactly by the votes of all other
      managers it knows, snapshots transfer completely; election safety holds for
      every run of a cluster, and an election all voters approve in time completes.
    - Migration: a transfer reported complete has delivered every record at its
      version or a newer one, under concurrent writes, expiry, retries, stale
      acknowledgements and broken connections; transfers terminate; recipients, batch
      application, acknowledgement and pruning are exact.  For a worker's whole
      service: a partition is reported as handed over only when a recipient holds it,
      and records are dropped only when every recipient of their partition has them;
      with peers that answer in time every handover is reported after a bounded number
      of exchanges.
    - gRPC: messages arrive as sent, connections are announced and withdrawn once,
      the client API refines the abstract store; two managers that connect register
      each other.  No session is lost without a report, and while the connections of a
      node do not overlap a task finds only its own session under its node.
    - Across nodes: through a whole rebalance every record stays with some worker, and
      after the last release of its partition with an owner; a key whose partition was handed over is read from the new master
      at its version or a newer one; a rebalance reaches every worker and makes each
      holder of data transfer it to exactly the new owners; the release of a partition reaches the leader's
      bookkeeping and every other worker.
    - Processes: neither task of a manager or worker panics under any schedule,
      channels keep order and lose nothing, a running node can go on unless its two
      tasks wait for each other; every accepted command line is a
      valid command and starts a node, whose server listens on the configured port.
    - Client: read your write, deletes hide, client and worker agree on partitions,
      the topology does not go back, retries back off and end, a fallback read takes
      the newest answer; callers sharing a connection get their own answers; each
      known manager endpoint has one task; a write reports success only when every
      owner answered, and each error names its cause.

    Some theorems record behaviour that deviates from the intention of the code:
    [late_vote_lowers_epoch], [lone_manager_never_elected],
    [expiry_in_flight_loses_partition], [released_before_last_recipient],
    [lost_recipient_drops_partition],
    [worker_ignores_its_manager], [manager_process_can_deadlock],
    [accepted_interval_overflows], [overlap_loses_session],
    [stale_removal_loses_session], [stale_report_releases_source].

    ** Fuel

    Loops that are not structural take fuel, given by the definitions themselves:
    [reduce_replica] gets [S replica] turns (each subtracts the number of workers, so
    that suffices when there is a worker, [replica_index_ring_walk]); [prune_loop]
    and [change_loop] get one more turn than the journal has entries and pass one
    entry per turn ([prune_loop_total], [change_loop_spec], [change_fuel_enough]).  [snapshot_pages] is a
    specification device whose fuel is a hypothesis of its theorem.  Retries of the
    client recurse on the number of attempts.

    ** Limits, and what is not modelled

    [RuntimeStore] gives each method as one step; [StoreConcurrency] splits the
    methods that change the store or wait for writers into their accesses, taken as
    sequentially consistent, with one guard per shard held from acquisition to
    release; the shards an iteration of the DashMap visits, and their order, are an
    argument of the call; the revision counter is not exhausted.  The paging readers
    ([get_partition_mutations], [get_partition_changes]) and the migration pass use
    the sequential methods, where expiry seen half way is [ps_active_writers].

    In the process model the channel of a session (32 slots) takes every message
    unless it is broken, the ends of the two channels live as long as the process,
    and a signal or the end of a sibling task is [Cancel].  The outcome of dialling
    and of each transport operation is an input.  The requests of one [join_all]
    run one after the other.  The tonic server behind [start_server], logging, the
    parser clap derives and the generated protobuf code are not modelled.

    In the system of [Rebalance] the set of workers changes once, workers stay
    connected to each other and records do not expire; [lost_recipient_drops_partition]
    and [stale_report_releases_source] show what happens otherwise.  Acknowledgements
    are arbitrary, batches to a worker arrive in any order, and reports and snapshots
    are never taken off the network, so they may be late, repeated or lost.

    Of the unit tests, those that spawn threads, test random identifiers, hashes or the
    system clock, or rebalance twice are left out, and so are the end-to-end tests, which
    start processes.

    What is left of the sources is generated code ([no-sql-store-proto]), imports, logging
    and the end-to-end tests. *)

From stdpp Require Export base tactics numbers sorting strings gmap fin_maps fin_map_dom option list.

Declare Scope store_scope.
Delimit Scope store_scope with store.
Open Scope Z_scope.
Open Scope store_scope.

(** ** Machine integers

    Rust integers are [Z]; the width appears where the code computes.  The
    server is built with wrapping arithmetic (release profile); in a debug
    build the same expressions panic on overflow, so the two agree whenever a
    theorem carries a no-overflow bound. *)

Definition u16_modulus : Z := 2 ^ 16.
Definition u32_modulus : Z := 2 ^ 32.
Definition u64_modulus : Z := 2 ^ 64.

(** [x as u16], [x as u32] and [x as u64]. *)
Definition as_u16 (x : Z) : Z := x `mod` u16_modulus.
Definition as_u32 (x : Z) : Z := x `mod` u32_modulus.
Definition as_u64 (x : Z) : Z := x `mod` u64_modulus.

Definition u64_add (a b : Z) : Z := (a + b) `mod` u64_modulus.
Definition u64_sub (a b : Z) : Z := (a - b) `mod` u64_modulus.
Definition u64_saturating_add (a b : Z) : Z := Z.min (a + b) (u64_modulus - 1).

Definition is_u16 (x : Z) : Prop := 0 <= x < u16_modulus.
Definition is_u32 (x : Z) : Prop := 0 <= x < u32_modulus.
Definition is_u64 (x : Z) : Prop := 0 <= x < u64_modulus.

Notation "a +64 b" := (u64_add a b) (at level 50, left associativity) : store_scope.
Notation "a -64 b" := (u64_sub a b) (at level 50, left associativity) : store_scope.

(** ** Iterator adaptors of the Rust standard library *)

(** [Iterator::skip_while]. *)
Fixpoint skip_while {A} (f : A → bool) (l : list A) : list A :=
  match l with
  | [] => []
  | x :: l' => if f x then skip_while f l' else x :: l'
  end.

(** [collect::<HashMap<_, _>>()]: a later pair replaces an earlier one. *)
Definition collect_map {K V} `{Countable K} (l : list (K * V)) : gmap K V :=
  foldl (λ m kv, <[kv.1 := kv.2]> m) ∅ l.

(** [Iterator::max] on [u64]-like keys. *)
Fixpoint max_key (l : list Z) : option Z :=
  match l with
  | [] => None
  | x :: l' => Some (from_option (Z.max x) x (max_key l'))
  end.

(** [Iterator::min]. *)
Fixpoint min_key (l : list Z) : option Z :=
  match l with
  | [] => None
  | x :: l' => Some (from_option (Z.min x) x (min_key l'))
  end.

(** [HashMap::retain] and [HashSet::retain] with a boolean predicate. *)
Definition map_retain {K V} `{Countable K} (f : K → V → bool) (m : gmap K V) : gmap K V :=
  filter (λ kv, f kv.1 kv.2 = true) m.
Definition set_retain {A} `{Countable A} (f : A → bool) (X : gset A) : gset A :=
  filter (λ x, f x = true) X.

(** ** Automation *)

Create HintDb store.

(** Case analysis on every match of the goal and hypotheses. *)
Ltac break := repeat (case_match; simplify_eq/=).

(** Unfold the fixed-width operations and close the arithmetic. *)
Ltac solve_width :=
  unfold u64_add, u64_sub, u64_saturating_add, as_u16, as_u32, as_u64,
    is_u16, is_u32, is_u64, u16_modulus, u32_modulus, u64_modulus in *;
  rewrite ?Z.mod_small; lia.

(** ** Lemmas on integers *)

Lemma as_u16_small x : is_u16 x → as_u16 x = x.
Proof. intros; unfold as_u16; by apply Z.mod_small. Qed.

Lemma as_u32_small x : is_u32 x → as_u32 x = x.
Proof. intros; unfold as_u32; by apply Z.mod_small. Qed.

Lemma as_u16_range x : is_u16 (as_u16 x).
Proof. apply Z.mod_pos_bound. done. Qed.

Lemma u64_add_small a b : 0 <= a + b < u64_modulus → u64_add a b = a + b.
Proof. apply Z.mod_small. Qed.

Lemma u64_sub_small a b : 0 <= a - b < u64_modulus → u64_sub a b = a - b.
Proof. apply Z.mod_small. Qed.

#[export] Hint Resolve as_u16_range : store.

(** ** Lemmas on lists *)

Lemma skip_while_suffix {A} (f : A → bool) l : ∃ k, l = k ++ skip_while f l.
Proof.
  induction l as [|x l [k Hk]]; simpl; [by exists []|].
  destruct (f x); [|by exists []]. exists (x :: k). simpl. by rewrite <-Hk.
Qed.

Lemma elem_of_skip_while {A} (f : A → bool) l x : x ∈ skip_while f l → x ∈ l.
Proof. destruct (skip_while_suffix f l) as [k Hk]. rewrite Hk at 2. set_solver. Qed.

(** An invariant of a fold. *)
Lemma foldl_invariant {A B} (P : A → Prop) (f : A → B → A) l a :
  P a → (∀ a b, b ∈ l → P a → P (f a b)) → P (foldl f a l).
Proof.
  revert a. induction l as [|b l IH]; intros a Ha Hf; simpl; [done|].
  apply IH; [|intros a' b' Hb; apply Hf; by right]. apply Hf; [by left|done].
Qed.

Lemma filter_all {A} (P : A → Prop) `{!∀ x, Decision (P x)} l : Forall P l → filter P l = l.
Proof. induction 1; [done|]. rewrite filter_cons_True by done. by f_equal. Qed.

Lemma filter_none {A} (P : A → Prop) `{!∀ x, Decision (P x)} l :
  Forall (λ x, ¬ P x) l → filter P l = [].
Proof. induction 1; [done|]. by rewrite filter_cons_False. Qed.

Lemma filter_ext_in {A} (P Q : A → Prop) `{!∀ x, Decision (P x), !∀ x, Decision (Q x)}
    (l : list A) :
  (∀ x, x ∈ l → P x ↔ Q x) → filter P l = filter Q l.
Proof.
  induction l as [|x l IH]; intros E; [done|]. rewrite !filter_cons, IH.
  - assert (P x ↔ Q x) by (apply E; by left). by repeat case_decide; try tauto.
  - intros y Hy. apply E. by right.
Qed.

Lemma filter_fmap {A B} (f : A → B) (P : B → Prop) `{!∀ x, Decision (P x)} (l : list A) :
  filter P (f <$> l) = f <$> filter (λ x, P (f x)) l.
Proof.
  induction l as [|x l IH]; [done|]. rewrite fmap_cons, !filter_cons, IH. by case_decide.
Qed.

(** When [f] is downward closed along a sorted list, [skip_while] is [filter]. *)
Lemma skip_while_filter {A} (R : relation A) (f : A → bool) l :
  StronglySorted R l →
  (∀ x y, R x y → f y = true → f x = true) →
  skip_while f l = filter (λ x, f x = false) l.
Proof.
  intros Hs Hf. induction Hs as [|x l Hs IH Hx]; [done|]. simpl.
  rewrite filter_cons. destruct (f x) eqn:E; simpl; [done|].
  f_equal. symmetry. apply filter_all.
  rewrite Forall_forall in *. intros y Hy. destruct (f y) eqn:Ey; [|done].
  rewrite (Hf x y (Hx _ Hy) Ey) in E. done.
Qed.

Lemma max_key_None l : max_key l = None ↔ l = [].
Proof. destruct l; simpl; naive_solver. Qed.

Lemma max_key_Some l m : max_key l = Some m → m ∈ l ∧ ∀ x, x ∈ l → x <= m.
Proof.
  revert m. induction l as [|x l IH]; simpl; intros m; [done|].
  destruct (max_key l) as [n|] eqn:E; simpl; intros [= <-].
  - destruct (IH n eq_refl) as [Hin Hle]. split.
    + destruct (Z.max_spec x n) as [[_ ->]|[_ ->]]; rewrite elem_of_cons; auto.
    + intros y [->|Hy]%elem_of_cons; [lia|]. specialize (Hle y Hy). lia.
  - apply max_key_None in E as ->. split; [by left|]. intros y ->%list_elem_of_singleton. lia.
Qed.

Lemma min_key_None l : min_key l = None ↔ l = [].
Proof. destruct l; simpl; naive_solver. Qed.

Lemma min_key_Some l m : min_key l = Some m → m ∈ l ∧ ∀ x, x ∈ l → m <= x.
Proof.
  revert m. induction l as [|x l IH]; simpl; intros m; [done|].
  destruct (min_key l) as [n|] eqn:E; simpl; intros [= <-].
  - destruct (IH n eq_refl) as [Hin Hle]. split.
    + destruct (Z.min_spec x n) as [[_ ->]|[_ ->]]; rewrite elem_of_cons; auto.
    + intros y [->|Hy]%elem_of_cons; [lia|]. specialize (Hle y Hy). lia.
  - apply min_key_None in E as ->. split; [by left|]. intros y ->%list_elem_of_singleton. lia.
Qed.

Lemma omap_length_le {A B} (f : A → option B) l : (length (omap f l) <= length l)%nat.
Proof. induction l as [|x l IH]; csimpl; [done|]. destruct (f x); csimpl; lia. Qed.

Lemma Forall_fmap_all {A B} (P : B → Prop) (f : A → B) l : (∀ x, P (f x)) → Forall P (f <$> l).
Proof. intros Hf. apply Forall_fmap, Forall_true. done. Qed.

Lemma elem_of_take_weak {A} (n : nat) (l : list A) x : x ∈ take n l → x ∈ l.
Proof. intros Hx. rewrite <-(take_drop n l). apply elem_of_app. by left. Qed.

Lemma StronglySorted_filter {A} (R : relation A) (P : A → Prop) `{!∀ x, Decision (P x)} l :
  StronglySorted R l → StronglySorted R (filter P l).
Proof.
  induction 1 as [|x l Hs IH Hx]; [constructor|]. rewrite filter_cons. case_decide; [|done].
  constructor; [done|]. rewrite Forall_forall in *. intros y [_ Hy]%list_elem_of_filter. by apply Hx.
Qed.

Lemma StronglySorted_take {A} (R : relation A) n l : StronglySorted R l → StronglySorted R (take n l).
Proof. intros Hs. apply (StronglySorted_app_1_l R _ (drop n l)). by rewrite take_drop. Qed.

Lemma StronglySorted_last_max {A} (R : relation A) l x y :
  StronglySorted R l → last l = Some y → x ∈ l → R x y ∨ x = y.
Proof.
  intros Hs Hl Hx. apply last_Some in Hl as [k ->].
  apply elem_of_app in Hx as [Hx|Hx%list_elem_of_singleton]; [left|by right].
  eapply StronglySorted_app_1_elem_of; [done..|]. set_solver.
Qed.

(** ** Lemmas on finite maps and sets *)

Lemma lookup_collect_map_snoc {K V} `{Countable K} (l : list (K * V)) k v :
  collect_map (l ++ [(k, v)]) = <[k := v]> (collect_map l).
Proof. unfold collect_map. by rewrite foldl_app. Qed.

Lemma collect_map_NoDup {K V} `{Countable K} (l : list (K * V)) :
  NoDup l.*1 → collect_map l = list_to_map l.
Proof.
  induction l as [|[k v] l IH] using rev_ind; [done|].
  rewrite fmap_app, NoDup_app. intros (Hl & Hk & _).
  rewrite lookup_collect_map_snoc, IH by done.
  rewrite list_to_map_snoc; [done|]. intros Hin. apply (Hk _ Hin). simpl. by apply list_elem_of_singleton.
Qed.

Lemma collect_map_to_list {K V} `{Countable K} (m : gmap K V) :
  collect_map (map_to_list m) = m.
Proof.
  rewrite collect_map_NoDup by apply NoDup_fst_map_to_list.
  apply list_to_map_to_list.
Qed.

Lemma lookup_map_retain {K V} `{Countable K} (f : K → V → bool) (m : gmap K V) k :
  map_retain f m !! k = (m !! k) ≫= λ v, if f k v then Some v else None.
Proof.
  unfold map_retain. rewrite map_lookup_filter. destruct (m !! k) as [v|]; simpl; [|done].
  destruct (f k v) eqn:E; by simplify_option_eq.
Qed.

Lemma elem_of_set_retain {A} `{Countable A} (f : A → bool) (X : gset A) x :
  x ∈ set_retain f X ↔ x ∈ X ∧ f x = true.
Proof. unfold set_retain. rewrite elem_of_filter. tauto. Qed.

(** Folding a per-key update over the entries of a map. *)
Lemma lookup_foldl_alter_list {K V A} `{Countable K} (f : K → V → option A → option A)
    (l : list (K * V)) (init : gmap K A) k :
  NoDup l.*1 →
  foldl (λ acc e, partial_alter (f e.1 e.2) e.1 acc) init l !! k =
    match (list_to_map l : gmap K V) !! k with
    | Some v => f k v (init !! k)
    | None => init !! k
    end.
Proof.
  revert init. induction l as [|[i v] l IH]; intros init; simpl; [done|].
  rewrite NoDup_cons. intros [Hni Hnd]. rewrite IH by done.
  destruct (decide (i = k)) as [->|Hne].
  - rewrite lookup_insert_eq, lookup_partial_alter_eq, (not_elem_of_list_to_map_1 l k); done.
  - rewrite lookup_insert_ne, lookup_partial_alter_ne by done. done.
Qed.

Lemma lookup_foldl_alter {K V A} `{Countable K} (f : K → V → option A → option A)
    (m : gmap K V) (init : gmap K A) k :
  foldl (λ acc e, partial_alter (f e.1 e.2) e.1 acc) init (map_to_list m) !! k =
    match m !! k with
    | Some v => f k v (init !! k)
    | None => init !! k
    end.
Proof.
  rewrite lookup_foldl_alter_list by apply NoDup_fst_map_to_list.
  by rewrite list_to_map_to_list.
Qed.

Lemma foldl_ext_eq {A B} (f g : A → B → A) l a : (∀ a b, f a b = g a b) → foldl f a l = foldl g a l.
Proof. intros E. revert a. induction l as [|b l IH]; intros a; simpl; [done|]. by rewrite E. Qed.
