(* ===== verification/Containers.v ===== *)
(** * Interfaces of the third-party containers

    The worker keeps its records in [dashmap::DashMap] and
    [crossbeam_skiplist::SkipMap].  Their code is not part of the repository,
    so they are type classes: one class of operations and one of laws (the
    documented behaviour the worker relies on).  Every theorem on the store is
    proved against the laws.  [GSkipMap] and [GDashMap] are reference instances
    on stdpp's finite maps; they show the laws can hold and let closed
    statements be evaluated. *)

From S2P Require Import Prelude.

(** ** [SkipMap<u64, V>] (and [SkipMap<Key, V>], whose key is a [u64]) *)

Class SkipMap (M : Type → Type) := {
  sm_new : ∀ {V}, M V;
  sm_get : ∀ {V}, Z → M V → option V;
  (* [insert] replaces an existing entry *)
  sm_insert : ∀ {V}, Z → V → M V → M V;
  (* [compare_insert] replaces an existing entry only when [f] accepts it *)
  sm_compare_insert : ∀ {V}, Z → V → (V → bool) → M V → M V;
  (* [Entry::remove] of the entry at that key *)
  sm_remove : ∀ {V}, Z → M V → M V;
  sm_front : ∀ {V}, M V → option (Z * V);
  sm_iter : ∀ {V}, M V → list (Z * V);
  sm_is_empty : ∀ {V}, M V → bool;
}.

Definition key_lt {V} : relation (Z * V) := λ a b, a.1 < b.1.

Class SkipMapLaws (M : Type → Type) `{SkipMap M} : Prop := {
  sm_get_new V k : sm_get k (sm_new (V := V)) = None;
  sm_get_insert V (m : M V) i j v :
    sm_get j (sm_insert i v m) = if decide (i = j) then Some v else sm_get j m;
  sm_get_compare_insert V (m : M V) i j v f :
    sm_get j (sm_compare_insert i v f m) =
      if decide (i = j) then
        match sm_get i m with
        | Some old => if f old then Some v else Some old
        | None => Some v
        end
      else sm_get j m;
  sm_get_remove V (m : M V) i j :
    sm_get j (sm_remove i m) = if decide (i = j) then None else sm_get j m;
  sm_iter_get V (m : M V) k v : (k, v) ∈ sm_iter m ↔ sm_get k m = Some v;
  sm_iter_sorted V (m : M V) : StronglySorted key_lt (sm_iter m);
  sm_front_iter V (m : M V) : sm_front m = head (sm_iter m);
  sm_is_empty_iter V (m : M V) : sm_is_empty m = bool_decide (sm_iter m = []);
}.

(** ** [DashMap<K, V>]

    A value is mutated in place through the guard [get] or [entry] returns;
    writing the mutated value back under its key is [dm_insert]. *)

Class DashMap (K : Type) (D : Type → Type) := {
  dm_new : ∀ {V}, D V;
  dm_get : ∀ {V}, K → D V → option V;
  dm_insert : ∀ {V}, K → V → D V → D V;
  dm_remove : ∀ {V}, K → D V → D V;
  dm_keys : ∀ {V}, D V → list K;
}.

Class DashMapLaws (K : Type) `{EqDecision K} (D : Type → Type) `{DashMap K D} : Prop := {
  dm_get_new V k : dm_get k (dm_new (V := V)) = None;
  dm_get_insert V (m : D V) i j v :
    dm_get j (dm_insert i v m) = if decide (i = j) then Some v else dm_get j m;
  dm_get_remove V (m : D V) i j :
    dm_get j (dm_remove i m) = if decide (i = j) then None else dm_get j m;
  dm_keys_get V (m : D V) k : k ∈ dm_keys m ↔ is_Some (dm_get k m);
  dm_keys_NoDup V (m : D V) : NoDup (dm_keys m);
}.

(** ** Reference instances *)

Definition key_le {V} : relation (Z * V) := λ a b, a.1 <= b.1.

#[export] Instance key_le_dec {V} : RelDecision (@key_le V).
Proof. intros a b. unfold key_le. apply _. Defined.

#[export] Instance key_le_total {V} : Total (@key_le V).
Proof. intros a b. unfold key_le. lia. Qed.

#[export] Instance key_le_trans {V} : Transitive (@key_le V).
Proof. intros a b c. unfold key_le. lia. Qed.

#[export] Instance key_lt_trans {V} : Transitive (@key_lt V).
Proof. intros a b c. unfold key_lt. lia. Qed.

#[export] Instance GSkipMap : SkipMap (gmap Z) := {|
  sm_new _ := ∅;
  sm_get _ k m := m !! k;
  sm_insert _ k v m := <[k := v]> m;
  sm_compare_insert _ k v f m :=
    match m !! k with
    | Some old => if f old then <[k := v]> m else m
    | None => <[k := v]> m
    end;
  sm_remove _ k m := delete k m;
  sm_front _ m := head (merge_sort key_le (map_to_list m));
  sm_iter _ m := merge_sort key_le (map_to_list m);
  sm_is_empty _ m := bool_decide (merge_sort key_le (map_to_list m) = []);
|}.

#[export] Instance GDashMap {K} `{Countable K} : DashMap K (gmap K) := {|
  dm_new _ := ∅;
  dm_get _ k m := m !! k;
  dm_insert _ k v m := <[k := v]> m;
  dm_remove _ k m := delete k m;
  dm_keys _ m := (map_to_list m).*1;
|}.

Lemma sorted_keys_strict {V} (l : list (Z * V)) :
  NoDup l.*1 → StronglySorted key_le l → StronglySorted key_lt l.
Proof.
  intros Hnd Hs. induction Hs as [|[k v] l Hs IH Hk]; [constructor|].
  apply NoDup_cons in Hnd as [Hni Hnd]. constructor; [by apply IH|].
  rewrite Forall_forall in *. intros [k' v'] Hin. specialize (Hk _ Hin).
  unfold key_le, key_lt in *. simpl in *.
  assert (k ≠ k'); [|lia]. intros ->. apply Hni, list_elem_of_fmap. by exists (k', v').
Qed.

#[export] Instance GSkipMap_laws : SkipMapLaws (gmap Z).
Proof.
  split; simpl.
  - intros. apply lookup_empty.
  - intros. apply lookup_insert.
  - intros V m i j v f. case_decide as E; [subst|].
    + destruct (m !! j) as [old|] eqn:E; [destruct (f old)|]; by simplify_map_eq.
    + destruct (m !! i) as [old|]; [destruct (f old)|]; by simplify_map_eq.
  - intros. apply lookup_delete.
  - intros. by rewrite merge_sort_Permutation, elem_of_map_to_list.
  - intros V m. apply sorted_keys_strict.
    + rewrite merge_sort_Permutation. apply NoDup_fst_map_to_list.
    + apply StronglySorted_merge_sort; apply _.
  - done.
  - done.
Qed.

#[export] Instance GDashMap_laws {K} `{Countable K} : DashMapLaws K (gmap K).
Proof.
  split; simpl.
  - intros. apply lookup_empty.
  - intros. apply lookup_insert.
  - intros. apply lookup_delete.
  - intros V m k. rewrite list_elem_of_fmap. split.
    + intros ([k' v] & -> & Hin%elem_of_map_to_list). eauto.
    + intros [v Hv]. exists (k, v). by rewrite elem_of_map_to_list.
  - intros. apply NoDup_fst_map_to_list.
Qed.

(** ** Consequences of the laws *)

Section skip_map.
Context {M : Type → Type} `{SkipMapLaws M}.

Lemma sorted_key_unique {V} (l : list (Z * V)) k v v' :
  StronglySorted key_lt l → (k, v) ∈ l → (k, v') ∈ l → v = v'.
Proof.
  intros Hs. induction Hs as [|[k0 v0] l Hs IH Hk]; [set_solver|].
  rewrite Forall_forall in Hk. unfold key_lt in Hk. simpl in Hk.
  rewrite !elem_of_cons. intros [?|H1] [?|H2]; simplify_eq; [done| | |by apply IH].
  - specialize (Hk _ H2). simpl in Hk. lia.
  - specialize (Hk _ H1). simpl in Hk. lia.
Qed.

Lemma sm_iter_NoDup {V} (m : M V) : NoDup (sm_iter m).*1.
Proof.
  pose proof (sm_iter_sorted V m) as Hs. induction Hs as [|[k v] l Hs IH Hk]; simpl.
  - constructor.
  - constructor; [|done]. rewrite list_elem_of_fmap. intros ([k' v'] & ? & Hin).
    rewrite Forall_forall in Hk. specialize (Hk _ Hin). unfold key_lt in Hk. simpl in *. lia.
Qed.

Lemma sorted_ext {V} (l1 l2 : list (Z * V)) :
  StronglySorted key_lt l1 → StronglySorted key_lt l2 →
  (∀ x, x ∈ l1 ↔ x ∈ l2) → l1 = l2.
Proof.
  intros Hs1. revert l2. induction Hs1 as [|a l1 Hs1 IH Ha]; intros l2 Hs2 Heq.
  - destruct l2 as [|b l2]; [done|].
    assert (b ∈ @nil (Z * V)) as Hb by (apply Heq; by left). by apply not_elem_of_nil in Hb.
  - destruct Hs2 as [|b l2 Hs2 Hb].
    { assert (a ∈ @nil (Z * V)) as Hn by (apply Heq; by left). by apply not_elem_of_nil in Hn. }
    rewrite Forall_forall in Ha, Hb. assert (a = b) as ->.
    { assert (a ∈ b :: l2) as [|H1]%elem_of_cons by (apply Heq; by left); [done|].
      assert (b ∈ a :: l1) as [|H2]%elem_of_cons by (apply Heq; by left); [done|].
      specialize (Ha _ H2). specialize (Hb _ H1). unfold key_lt in *. lia. }
    f_equal. apply IH; [done|]. intros x. specialize (Heq x).
    rewrite !elem_of_cons in Heq. split; intros Hx.
    + destruct (proj1 Heq (or_intror Hx)) as [->|]; [|done].
      specialize (Ha _ Hx). unfold key_lt in *. lia.
    + destruct (proj2 Heq (or_intror Hx)) as [->|]; [|done].
      specialize (Hb _ Hx). unfold key_lt in *. lia.
Qed.

Lemma sm_iter_filter {V} (m1 m2 : M V) (P : Z * V → Prop) `{!∀ x, Decision (P x)} :
  (∀ k v, sm_get k m2 = Some v ↔ P (k, v) ∧ sm_get k m1 = Some v) →
  sm_iter m2 = filter P (sm_iter m1).
Proof.
  intros Heq. apply sorted_ext.
  - apply sm_iter_sorted.
  - apply StronglySorted_filter, sm_iter_sorted.
  - intros [k v]. rewrite list_elem_of_filter, !sm_iter_get. apply Heq.
Qed.

Lemma sm_is_empty_true {V} (m : M V) : sm_is_empty m = true ↔ ∀ k, sm_get k m = None.
Proof.
  rewrite sm_is_empty_iter, bool_decide_eq_true. split.
  - intros E k. destruct (sm_get k m) as [v|] eqn:Hv; [|done].
    apply sm_iter_get in Hv. rewrite E in Hv. by apply not_elem_of_nil in Hv.
  - intros E. destruct (sm_iter m) as [|[k v] l] eqn:Hi; [done|].
    assert ((k, v) ∈ sm_iter m) as Hin by (rewrite Hi; by left).
    apply sm_iter_get in Hin. by rewrite E in Hin.
Qed.

Lemma sm_is_empty_get {V} (m : M V) k v : sm_get k m = Some v → sm_is_empty m = false.
Proof.
  intros Hv. destruct (sm_is_empty m) eqn:E; [|done].
  rewrite sm_is_empty_true in E. by rewrite E in Hv.
Qed.

End skip_map.
