(* ===== verification/Common.v ===== *)
(** * Shared domain types (common.rs, manager/domain.rs, worker/domain.rs)

    Node identities, partitions, cluster snapshots, the node configuration and
    the two protocol message types that travel between a node's service loop
    and its gRPC tasks. *)

From S2P Require Import Prelude.

(** ** Identities *)

(** [uuid::Uuid::parse_str] followed by conversion to a string is third-party
    code.  [parse_str] returns the canonical text of the parsed UUID. *)
Class UuidApi := { parse_str : string → option string }.

(** Documented: parsing the canonical text gives the same UUID back. *)
Class UuidLaws `{UuidApi} : Prop := {
  parse_str_canonical s t : parse_str s = Some t → parse_str t = Some t;
}.

Record NodeId := mkNodeId { node_id_string : string }.

(** [NodeId::from_string] (and [From<String>]); [None] is the panic of [expect]. *)
Definition NodeId_from_string `{UuidApi} (id : string) : option NodeId :=
  mkNodeId <$> parse_str id.

(** [NodeId::to_string]. *)
Definition NodeId_to_string (id : NodeId) : string := node_id_string id.

Inductive NodeType := Manager | Worker.

Record Node := mkNode {
  host : string;
  port : Z;
  last_heartbeat : Z;
  node_type : NodeType;
}.

Record PartitionId := mkPartitionId { partition_id_u16 : Z }.

#[export] Instance NodeId_eq_dec : EqDecision NodeId.
Proof. solve_decision. Defined.
#[export] Instance NodeId_countable : Countable NodeId :=
  inj_countable' node_id_string mkNodeId (λ x, match x with mkNodeId _ => eq_refl end).
#[export] Instance NodeType_eq_dec : EqDecision NodeType.
Proof. solve_decision. Defined.
#[export] Instance Node_eq_dec : EqDecision Node.
Proof. solve_decision. Defined.
#[export] Instance PartitionId_eq_dec : EqDecision PartitionId.
Proof. solve_decision. Defined.
#[export] Instance PartitionId_countable : Countable PartitionId :=
  inj_countable' partition_id_u16 mkPartitionId (λ x, match x with mkPartitionId _ => eq_refl end).

Definition PARTITIONS_AMOUNT : Z := 4096.

(** [(0..PARTITIONS_AMOUNT).map(|p| PartitionId(p as u16))]. *)
Definition partition_range (n : Z) : list PartitionId :=
  (λ p, mkPartitionId (as_u16 p)) <$> seqZ 0 n.

Definition is_manager (n : Node) : bool :=
  match node_type n with Manager => true | Worker => false end.

Definition is_worker (n : Node) : bool :=
  match node_type n with Worker => true | Manager => false end.

(** [node.last_heartbeat = ts]. *)
Definition set_last_heartbeat (ts : Z) (n : Node) : Node :=
  mkNode (host n) (port n) ts (node_type n).

(** ** Partitions and snapshots *)

Record Partition := mkPartition { master : NodeId; replicas : gset NodeId }.

Record Partitions := mkPartitions {
  mapping : gmap PartitionId Partition;
  old_replicas : gmap PartitionId (gset NodeId);
  new_replicas : gmap PartitionId (gset NodeId);
}.

#[export] Instance Partition_eq_dec : EqDecision Partition.
Proof. solve_decision. Defined.
#[export] Instance Partitions_eq_dec : EqDecision Partitions.
Proof. solve_decision. Defined.

(** [Partitions::default()]. *)
Definition Partitions_default : Partitions := mkPartitions ∅ ∅ ∅.

(** Master and replicas of a partition. *)
Definition owners (p : Partition) : gset NodeId := {[ master p ]} ∪ replicas p.

Record Heartbeat := mkHeartbeat { hb_id : NodeId; hb_ts : Z }.

Record ClusterNode := mkClusterNode {
  cn_id : NodeId;
  cn_host : string;
  cn_port : Z;
  cn_last_heartbeat : Z;
  cn_node_type : NodeType;
}.

Record ClusterState := mkClusterState {
  cs_epoch : Z;
  cs_leader_id : NodeId;
  cs_nodes : list ClusterNode;
  cs_partitions : Partitions;
}.

Record Me := mkMe { me_id : NodeId; me_host : string; me_port : Z }.

(** ** Configuration *)

Inductive Config :=
  | ManagerConfig (grpc_port : Z) (self_host_port : string * Z)
      (manager_host_port : option (string * Z)) (replication_factor : Z)
  | WorkerConfig (grpc_port : Z) (self_host_port : string * Z)
      (manager_host_port : string * Z) (expired_cleanup_interval_secs : Z).

Definition Config_grpc_port (c : Config) : Z :=
  match c with
  | ManagerConfig grpc_port _ _ _ => grpc_port
  | WorkerConfig grpc_port _ _ _ => grpc_port
  end.

Definition Config_manager_host_port (c : Config) : option (string * Z) :=
  match c with
  | ManagerConfig _ _ manager_host_port _ => manager_host_port
  | WorkerConfig _ _ manager_host_port _ => Some manager_host_port
  end.

Definition Config_self_host_port (c : Config) : string * Z :=
  match c with
  | ManagerConfig _ self_host_port _ _ => self_host_port
  | WorkerConfig _ self_host_port _ _ => self_host_port
  end.

(** [*config.replication_factor_mut() = rf]; [None] is [unreachable!]. *)
Definition Config_replication_factor_mut (rf : Z) (c : Config) : option Config :=
  match c with
  | ManagerConfig grpc_port self_hp manager_hp _ =>
      Some (ManagerConfig grpc_port self_hp manager_hp rf)
  | WorkerConfig _ _ _ _ => None
  end.

Definition Config_replication_factor (c : Config) : option Z :=
  match c with
  | ManagerConfig _ _ _ replication_factor => Some replication_factor
  | WorkerConfig _ _ _ _ => None
  end.

Definition Config_expired_cleanup_interval_secs (c : Config) : option Z :=
  match c with
  | WorkerConfig _ _ _ expired_cleanup_interval_secs => Some expired_cleanup_interval_secs
  | ManagerConfig _ _ _ _ => None
  end.

(** ** Manager protocol (manager/domain.rs) *)

Module ManagerProtocol.
Inductive t :=
  | NewConnection (id : option NodeId) (host : string) (port : Z) (manager : bool)
  | Heartbeat (id : NodeId) (heartbeat : Heartbeat)
  | GetClusterState (id : NodeId)
  | ClusterState (recipient_id : NodeId) (state : ClusterState)
  | VoteRequest (id : NodeId) (epoch ts : Z)
  | VoteResponse (id leader_id : NodeId) (ts : Z)
  | Leader (id : NodeId) (epoch ts : Z)
  | NodeDisconnected (id : NodeId)
  | RemovePartitionFromReplica (id replica_id : NodeId) (partition_id : PartitionId).
End ManagerProtocol.

(** ** Worker protocol (worker/domain.rs) *)

(** [Key] is a [u64] newtype. *)
Abbreviation Key := Z (only parsing).

Record Record_ := mkRecord_ {
  rec_key : Key;
  rec_value : list Z;
  rec_ttl : Z;
  rec_creation_time_ms : Z;
  rec_deleted : bool;
}.

Record SyncBatchRequest := mkSyncBatchRequest {
  req_sender_id : NodeId;
  req_records : list Record_;
}.

Module WorkerProtocol.
Inductive t :=
  | NewConnection (id : option NodeId) (host : string) (port : Z) (manager : bool)
  | Heartbeat (id : NodeId) (heartbeat : Heartbeat)
  | GetClusterState (id : NodeId)
  | ClusterState (state : ClusterState)
  | NodeDisconnected (id : NodeId)
  | Leader (id : NodeId) (epoch ts : Z)
  | RemovePartitionFromReplica (id replica_id : NodeId) (partition_id : PartitionId)
  | SyncBatch (recipient_id : NodeId) (request : SyncBatchRequest)
  | SyncBatchResponse (recipient_id : NodeId) (partition_id_to_max_applied_key : gmap PartitionId Key).
End WorkerProtocol.

(** ** Lemmas *)

Section uuid.
Context `{UuidLaws}.

(** A [NodeId] the program holds was produced by [from_string] (or by
    [NodeId::new], whose text is canonical). *)
Definition canonical (id : NodeId) : Prop := parse_str (node_id_string id) = Some (node_id_string id).

Lemma from_string_canonical s id : NodeId_from_string s = Some id → canonical id.
Proof.
  unfold NodeId_from_string, canonical. rewrite fmap_Some.
  intros (t & Ht & ->). simpl. by apply parse_str_canonical in Ht.
Qed.

Lemma from_to_string id : canonical id → NodeId_from_string (NodeId_to_string id) = Some id.
Proof. unfold NodeId_from_string, NodeId_to_string, canonical. intros ->. by destruct id. Qed.

End uuid.

Lemma length_partition_range n : length (partition_range n) = Z.to_nat n.
Proof. unfold partition_range. by rewrite length_fmap, length_seqZ. Qed.

Lemma elem_of_partition_range n p :
  n <= u16_modulus →
  p ∈ partition_range n ↔ 0 <= partition_id_u16 p < n.
Proof.
  intros Hn. unfold partition_range. rewrite list_elem_of_fmap. split.
  - intros (x & -> & Hx%elem_of_seqZ). simpl. rewrite as_u16_small; unfold is_u16; lia.
  - intros Hp. exists (partition_id_u16 p). rewrite as_u16_small by (unfold is_u16; lia).
    rewrite elem_of_seqZ. destruct p; simpl in *. split; [done|lia].
Qed.

Lemma NoDup_partition_range n : n <= u16_modulus → NoDup (partition_range n).
Proof.
  intros Hn. unfold partition_range. apply NoDup_fmap_2_strong; [|apply NoDup_seqZ].
  intros x y Hx%elem_of_seqZ Hy%elem_of_seqZ [= Heq].
  rewrite !as_u16_small in Heq; unfold is_u16; lia.
Qed.

Lemma is_manager_set_last_heartbeat ts n : is_manager (set_last_heartbeat ts n) = is_manager n.
Proof. done. Qed.

Lemma is_worker_manager n : is_worker n = negb (is_manager n).
Proof. unfold is_worker, is_manager. by destruct (node_type n). Qed.
