(* ===== verification/RuntimeStore.v ===== *)
(** * The worker's in-memory store (worker/runtime_store.rs)

    Definitions of the store and its operations, written against the container
    interfaces of [Containers].  Each operation is the sequential reading of the
    method: what it does when no other task runs between its first and its last
    access.  [put] and [delete_at] hold the exclusive guard of the partition's
    [DashMap] entry throughout, so for other accesses to the partition they are
    atomic; only the removal of expired records ([get_versioned],
    [remove_expired]) runs under a shared guard, and another task can see it in
    progress as [ps_active_writers > 0]. *)

From S2P Require Import Prelude Containers Common.

Record Record := mkRecord {
  expiration_time_ms : Z;
  creation_time_ms : Z;
  value : list Z;
}.

Inductive Mutation :=
  | Put (record : Record)
  | Delete (deletion_time_ms : Z).

#[export] Instance Record_eq_dec : EqDecision Record.
Proof. solve_decision. Defined.
#[export] Instance Mutation_eq_dec : EqDecision Mutation.
Proof. solve_decision. Defined.

Definition version (m : Mutation) : Z :=
  match m with
  | Put record => creation_time_ms record
  | Delete deletion_time_ms => deletion_time_ms
  end.

Record PartitionStore (M : Type → Type) := mkPartitionStore {
  ps_records : M Mutation;
  ps_changes : M Key;
  ps_active_writers : Z;
  ps_revision : Z;
}.
Arguments mkPartitionStore {_} _ _ _ _.
Arguments ps_records {_} _.
Arguments ps_changes {_} _.
Arguments ps_active_writers {_} _.
Arguments ps_revision {_} _.

Record RuntimeStore (M D : Type → Type) := mkRuntimeStore {
  cache : D (PartitionStore M);
  next_revision : Z;
}.
Arguments mkRuntimeStore {_ _} _ _.
Arguments cache {_ _} _.
Arguments next_revision {_ _} _.

(** [Key::partition]: [(self.0 as usize % PARTITIONS_AMOUNT) as u16]. *)
Definition Key_partition (key : Key) : PartitionId :=
  mkPartitionId (as_u16 (key `mod` PARTITIONS_AMOUNT)).

Section operations.
Context {M : Type → Type} `{SkipMap M} {D : Type → Type} `{DashMap PartitionId D}.
Implicit Types (p : PartitionStore M) (st : RuntimeStore M D).

Definition PartitionStore_default : PartitionStore M :=
  mkPartitionStore sm_new sm_new 0 0.

(** [RuntimeStore::new]. *)
Definition RuntimeStore_new : RuntimeStore M D := mkRuntimeStore dm_new 0.

Definition set_records (r : M Mutation) p : PartitionStore M :=
  mkPartitionStore r (ps_changes p) (ps_active_writers p) (ps_revision p).

Definition set_changes (c : M Key) p : PartitionStore M :=
  mkPartitionStore (ps_records p) c (ps_active_writers p) (ps_revision p).

(** [PartitionStore::writer]: the guard is created with one more active writer. *)
Definition writer p : PartitionStore M :=
  mkPartitionStore (ps_records p) (ps_changes p) (ps_active_writers p +64 1) (ps_revision p).

(** [Drop for WriterGuard]: take the next revision, journal the changed key if
    there is one, publish the revision, leave.  Returns the new value of the
    shared [next_revision] counter too. *)
Definition drop_writer (next : Z) (changed_key : option Key) p : Z * PartitionStore M :=
  let revision := next +64 1 in
  let changes :=
    match changed_key with
    | Some key => sm_insert revision key (ps_changes p)
    | None => ps_changes p
    end in
  (revision,
   mkPartitionStore (ps_records p) changes (ps_active_writers p -64 1) revision).

(** A whole writer scope around an update of the records. *)
Definition with_writer (next : Z) (changed_key : option Key)
    (body : M Mutation → M Mutation) p : Z * PartitionStore M :=
  let p1 := writer p in
  drop_writer next changed_key (set_records (body (ps_records p1)) p1).

(** [PartitionStore::stable_revision]; the four loads see one state here. *)
Definition stable_revision p : option Z :=
  let revision_before := ps_revision p in
  if negb (ps_active_writers p =? 0) then None
  else
    let revision_after := ps_revision p in
    let writers_after := ps_active_writers p in
    if (revision_before =? revision_after) && (writers_after =? 0)
    then Some revision_after else None.

Definition get_partition_mutations (partition : PartitionId) (amount : nat)
    (after_key : option Key) st : list (Key * Mutation) :=
  match dm_get partition (cache st) with
  | None => []
  | Some p =>
      take amount
        (skip_while (λ entry, match after_key with
                              | Some key => entry.1 <=? key
                              | None => false
                              end)
           (sm_iter (ps_records p)))
  end.

Definition stable_partition_revision (partition : PartitionId) st : option Z :=
  match dm_get partition (cache st) with
  | Some entry => stable_revision entry
  | None => Some 0
  end.

Definition get_partition_changes (partition : PartitionId) (after_revision : Z)
    (amount : nat) st : option (Z * list (Key * Mutation)) :=
  p ← dm_get partition (cache st);
  let changes :=
    take amount (skip_while (λ entry, entry.1 <=? after_revision) (sm_iter (ps_changes p))) in
  last_change ← last changes;
  Some (last_change.1,
        omap (λ change, (λ m, (change.2, m)) <$> sm_get change.2 (ps_records p)) changes).

(** The [while let Some(entry) = partition.changes.front()] loop. *)
Fixpoint prune_loop (fuel : nat) (through_revision : Z) (changes : M Key) : option (M Key) :=
  match fuel with
  | O => None
  | S fuel =>
      match sm_front changes with
      | Some entry =>
          if through_revision <? entry.1 then Some changes
          else prune_loop fuel through_revision (sm_remove entry.1 changes)
      | None => Some changes
      end
  end.

(** The loop removes one entry per turn, so [S] of their number is enough fuel
    ([prune_loop_total]); the [None] branch is not reachable. *)
Definition prune_partition_changes (partition : PartitionId) (through_revision : Z) st
    : RuntimeStore M D :=
  match dm_get partition (cache st) with
  | Some p =>
      match prune_loop (S (length (sm_iter (ps_changes p)))) through_revision (ps_changes p) with
      | Some changes =>
          mkRuntimeStore (dm_insert partition (set_changes changes p) (cache st)) (next_revision st)
      | None => st
      end
  | None => st
  end.

Definition remove_partition_if_empty (partition : PartitionId) st : RuntimeStore M D :=
  match dm_get partition (cache st) with
  | Some occupied =>
      if sm_is_empty (ps_records occupied)
      then mkRuntimeStore (dm_remove partition (cache st)) (next_revision st)
      else st
  | None => st
  end.

Definition remove_partition (partition : PartitionId) st : RuntimeStore M D :=
  mkRuntimeStore (dm_remove partition (cache st)) (next_revision st).

Definition delete_at (key : Key) (deletion_time_ms : Z) st : RuntimeStore M D :=
  let partition := Key_partition key in
  let map := default PartitionStore_default (dm_get partition (cache st)) in
  let mutation := Delete deletion_time_ms in
  let '(next, map') :=
    with_writer (next_revision st) (Some key)
      (sm_compare_insert key mutation (λ old, version old <=? version mutation)) map in
  mkRuntimeStore (dm_insert partition map' (cache st)) next.

Definition put (key : Key) (record : Record) st : RuntimeStore M D :=
  let partition := Key_partition key in
  let sorted_map := default PartitionStore_default (dm_get partition (cache st)) in
  let mutation := Put record in
  let '(next, sorted_map') :=
    with_writer (next_revision st) (Some key)
      (sm_compare_insert key mutation (λ old, version old <=? version mutation)) sorted_map in
  mkRuntimeStore (dm_insert partition sorted_map' (cache st)) next.

(** [get_versioned]; [now] is what [now_millis()] returns. *)
Definition get_versioned (now : Z) (key : Key) st : option Mutation * RuntimeStore M D :=
  let partition := Key_partition key in
  match dm_get partition (cache st) with
  | Some sorted_map =>
      match sm_get key (ps_records sorted_map) with
      | Some (Put record) =>
          let exp_time := expiration_time_ms record in
          if (exp_time =? 0) || (now <? exp_time) then (Some (Put record), st)
          else
            let '(next, sorted_map') :=
              with_writer (next_revision st) None (sm_remove key) sorted_map in
            (None, remove_partition_if_empty partition
                     (mkRuntimeStore (dm_insert partition sorted_map' (cache st)) next))
      | Some entry => (Some entry, st)
      | None => (None, st)
      end
  | None => (None, st)
  end.

(** Whether the scan of [remove_expired] removes an entry. *)
Definition expired (now_ms : Z) (m : Mutation) : bool :=
  match m with
  | Put record =>
      negb (expiration_time_ms record =? 0) && (expiration_time_ms record <=? now_ms)
  | Delete _ => false
  end.

(** One turn of the inner loop: state is (next revision, partition, removed). *)
Definition remove_expired_entry (now_ms : Z) (s : Z * PartitionStore M * Z) (entry : Key * Mutation)
    : Z * PartitionStore M * Z :=
  let '(next, p, removed) := s in
  if expired now_ms entry.2 then
    let '(next', p') := with_writer next None (sm_remove entry.1) p in
    (next', p', removed +64 1)
  else s.

(** One turn of the outer loop. *)
Definition remove_expired_partition (now_ms : Z) (s : RuntimeStore M D * Z) (partition_id : PartitionId)
    : RuntimeStore M D * Z :=
  let '(st, removed) := s in
  let '(st', removed') :=
    match dm_get partition_id (cache st) with
    | Some partition =>
        let '(next, p', removed') :=
          foldl (remove_expired_entry now_ms) (next_revision st, partition, removed)
            (sm_iter (ps_records partition)) in
        (mkRuntimeStore (dm_insert partition_id p' (cache st)) next, removed')
    | None => (st, removed)
    end in
  (remove_partition_if_empty partition_id st', removed').

Definition remove_expired (now_ms : Z) st : RuntimeStore M D * Z :=
  foldl (remove_expired_partition now_ms) (st, 0) (dm_keys (cache st)).

End operations.
