(* ===== verification/StoreSpec.v ===== *)
(** * Specification of the runtime store

    The abstract view of a store is the function from keys to the mutation held
    for them ([lookup_store]).  Writes refine last-write-wins on that view,
    replicas that applied the same set of mutations agree, reads and the
    background sweep remove exactly the expired records, snapshots page through
    every record, and the change journal is complete and pruned exactly. *)

From S2P Require Import Prelude Containers Common RuntimeStore.

Section definitions.
Context {M : Type → Type} `{SkipMap M} {D : Type → Type} `{DashMap PartitionId D}.
Implicit Types (p : PartitionStore M) (st : RuntimeStore M D).

(** The abstract view. *)
Definition lookup_store (k : Key) st : option Mutation :=
  p ← dm_get (Key_partition k) (cache st); sm_get k (ps_records p).

(** Last write wins; a tie goes to the mutation applied later. *)
Definition lww (old : option Mutation) (new : Mutation) : Mutation :=
  match old with
  | Some o => if version o <=? version new then new else o
  | None => new
  end.

(** Both kinds of write. *)
Definition apply_mutation (k : Key) (m : Mutation) st : RuntimeStore M D :=
  match m with
  | Put record => put k record st
  | Delete deletion_time_ms => delete_at k deletion_time_ms st
  end.

Definition apply_all (l : list (Key * Mutation)) st : RuntimeStore M D :=
  foldl (λ st km, apply_mutation km.1 km.2 st) st l.

(** Every entry of every partition. *)
Definition all_entries st : list (Key * Mutation) :=
  pid ← dm_keys (cache st);
  match dm_get pid (cache st) with
  | Some p => sm_iter (ps_records p)
  | None => []
  end.

(** Well-formed stores. *)
Record partition_wf (next : Z) (pid : PartitionId) p : Prop := {
  wf_keys k m : sm_get k (ps_records p) = Some m → Key_partition k = pid;
  wf_journal r k : sm_get r (ps_changes p) = Some k → 0 < r <= next ∧ Key_partition k = pid;
  wf_revision : 0 <= ps_revision p <= next;
  wf_writers : 0 <= ps_active_writers p < u64_modulus;
}.

Record store_wf st : Prop := {
  wf_next : 0 <= next_revision st;
  wf_partition pid p :
    dm_get pid (cache st) = Some p → partition_wf (next_revision st) pid p;
  (* no partition is kept for nothing *)
  wf_nonempty pid p : dm_get pid (cache st) = Some p → sm_is_empty (ps_records p) = false;
}.

(** The store's public operations, as labels. *)
Inductive store_op :=
  | OpPut (key : Key) (record : Record)
  | OpDeleteAt (key : Key) (deletion_time_ms : Z)
  | OpGetVersioned (now : Z) (key : Key)
  | OpRemoveExpired (now_ms : Z)
  | OpPrune (partition : PartitionId) (through_revision : Z)
  | OpRemovePartitionIfEmpty (partition : PartitionId)
  | OpRemovePartition (partition : PartitionId).

Definition run_op (op : store_op) st : RuntimeStore M D :=
  match op with
  | OpPut key record => put key record st
  | OpDeleteAt key t => delete_at key t st
  | OpGetVersioned now key => (get_versioned now key st).2
  | OpRemoveExpired now_ms => (remove_expired now_ms st).1
  | OpPrune partition r => prune_partition_changes partition r st
  | OpRemovePartitionIfEmpty partition => remove_partition_if_empty partition st
  | OpRemovePartition partition => remove_partition partition st
  end.

(** How many revisions an operation may take. *)
Definition op_cost (op : store_op) st : Z :=
  match op with
  | OpRemoveExpired _ => Z.of_nat (length (all_entries st))
  | _ => 1
  end.

(** Runs of the store that do not exhaust the 64-bit revision counter. *)
Inductive store_reachable : RuntimeStore M D → Prop :=
  | reach_new : store_reachable RuntimeStore_new
  | reach_op op st :
      store_reachable st →
      next_revision st + op_cost op st < u64_modulus →
      store_reachable (run_op op st).

(** The entries of a partition that the sweep at [now_ms] removes. *)
Definition expired_count (now_ms : Z) (pid : PartitionId) st : nat :=
  match dm_get pid (cache st) with
  | Some p => length (filter (λ e, expired now_ms e.2 = true) (sm_iter (ps_records p)))
  | None => 0
  end.

(** What a reader at time [now] may see of a mutation. *)
Definition visible (now : Z) (m : option Mutation) : option Mutation :=
  m ← m; if expired now m then None else Some m.

(** The entries a page may start with. *)
Definition after_ok (after_key : option Key) (e : Key * Mutation) : Prop :=
  match after_key with Some key => key < e.1 | None => True end.

#[export] Instance after_ok_dec a e : Decision (after_ok a e).
Proof. unfold after_ok. destruct a; apply _. Defined.

(** The entries of a partition, in key order. *)
Definition partition_entries (pid : PartitionId) st : list (Key * Mutation) :=
  match dm_get pid (cache st) with Some p => sm_iter (ps_records p) | None => [] end.

(** Reading a partition page by page, each page after the last key of the
    previous one, as the migration of a partition does. *)
Fixpoint snapshot_pages (fuel : nat) (pid : PartitionId) (amount : nat)
    (after_key : option Key) st : list (list (Key * Mutation)) :=
  match fuel with
  | O => []
  | S fuel =>
      let page := get_partition_mutations pid amount after_key st in
      match last page with
      | None => []
      | Some entry => page :: snapshot_pages fuel pid amount (Some entry.1) st
      end
  end.

End definitions.

(** ** Writes *)

Section proofs.
Context {M : Type → Type} `{!SkipMap M, !SkipMapLaws M}.
Context {D : Type → Type} `{!DashMap PartitionId D, !DashMapLaws PartitionId D}.
Implicit Types (p : PartitionStore M) (st : RuntimeStore M D).

Lemma apply_mutation_unfold k m st :
  apply_mutation k m st =
    let pid := Key_partition k in
    let p := default PartitionStore_default (dm_get pid (cache st)) in
    let '(next, p') :=
      with_writer (next_revision st) (Some k)
        (sm_compare_insert k m (λ old, version old <=? version m)) p in
    mkRuntimeStore (dm_insert pid p' (cache st)) next.
Proof. by destruct m. Qed.

Lemma sm_get_default_partition k pid st :
  sm_get k (ps_records (default PartitionStore_default (dm_get pid (cache st)))) =
    (p ← dm_get pid (cache st); sm_get k (ps_records p)).
Proof. destruct (dm_get pid (cache st)); simpl; [done|]. apply sm_get_new. Qed.

Lemma lookup_store_insert k pid p st next :
  lookup_store k (mkRuntimeStore (dm_insert pid p (cache st)) next) =
    if decide (pid = Key_partition k) then sm_get k (ps_records p) else lookup_store k st.
Proof. unfold lookup_store. simpl. rewrite dm_get_insert. by case_decide. Qed.

Lemma lookup_store_remove k pid st next :
  lookup_store k (mkRuntimeStore (dm_remove pid (cache st)) next) =
    if decide (pid = Key_partition k) then None else lookup_store k st.
Proof. unfold lookup_store. simpl. rewrite dm_get_remove. by case_decide. Qed.

Lemma lookup_apply_mutation j k m st :
  lookup_store j (apply_mutation k m st) =
    if decide (k = j) then Some (lww (lookup_store k st) m) else lookup_store j st.
Proof.
  rewrite apply_mutation_unfold. simpl. rewrite lookup_store_insert. simpl.
  rewrite sm_get_compare_insert, !sm_get_default_partition. unfold lookup_store, lww.
  case_decide as E1; case_decide as E2; subst; try done.
  - destruct (_ ≫= _) as [o|]; [by destruct (version o <=? version m)|done].
  - by rewrite E1.
Qed.

Lemma lookup_remove_partition_if_empty pid k st :
  lookup_store k (remove_partition_if_empty pid st) = lookup_store k st.
Proof.
  unfold remove_partition_if_empty. destruct (dm_get pid (cache st)) as [p|] eqn:Hp; [|done].
  destruct (sm_is_empty (ps_records p)) eqn:E; [|done].
  rewrite lookup_store_remove. case_decide as Hk; [|done]. subst.
  unfold lookup_store. rewrite Hp. simpl. symmetry. by apply sm_is_empty_true.
Qed.

(** What a sequence of writes leaves at a key: the newest of the writes to it,
    unless the mutation that was there is strictly newer than all of them. *)
Lemma lookup_apply_all j l st :
  (∃ m, (j, m) ∈ l ∧ (∀ m', (j, m') ∈ l → version m' <= version m) ∧
        (∀ o, lookup_store j st = Some o → version o <= version m) ∧
        lookup_store j (apply_all l st) = Some m) ∨
  (lookup_store j (apply_all l st) = lookup_store j st ∧
   ∀ m, (j, m) ∈ l → ∃ o, lookup_store j st = Some o ∧ version m < version o).
Proof.
  induction l as [|[k a] l IH] using rev_ind.
  - right. split; [done|]. by intros m Hm%not_elem_of_nil.
  - unfold apply_all in *. rewrite foldl_app. simpl. rewrite lookup_apply_mutation.
    setoid_rewrite elem_of_app. setoid_rewrite list_elem_of_singleton.
    case_decide as Hk; [subst k|].
    + destruct IH as [(m & Hin & Hmax & Ho & ->)|[-> Hlt]].
      * left. unfold lww. destruct (Z.leb_spec (version m) (version a)) as [Hle|Hgt].
        -- exists a. split; [by right|]. split; [|split; [|done]].
           ++ intros m' [Hm'|[= ->]]; [|done]. specialize (Hmax _ Hm'). lia.
           ++ intros o Hlo. specialize (Ho _ Hlo). lia.
        -- exists m. split; [by left|]. split; [|split; [|done]].
           ++ intros m' [Hm'|[= ->]]; [by apply Hmax|lia].
           ++ done.
      * destruct (lookup_store j st) as [o|] eqn:Hlo; simpl.
        -- destruct (Z.leb_spec (version o) (version a)) as [Hle|Hgt].
           ++ left. exists a. split; [by right|]. split; [|split; [|done]].
              ** intros m' [Hm'|[= ->]]; [|done].
                 destruct (Hlt _ Hm') as (o' & [= <-] & ?). lia.
              ** by intros o' [= <-].
           ++ right. split; [done|]. intros m [Hm|[= ->]]; [by apply Hlt|]. eauto.
        -- left. exists a. split; [by right|]. split; [|split; [|done]].
           ++ intros m' [Hm'|[= ->]]; [|done]. by destruct (Hlt _ Hm') as (? & ? & ?).
           ++ done.
    + destruct IH as [(m & Hin & Hmax & Ho & ->)|[-> Hlt]]; [left|right].
      * exists m. split; [by left|]. split; [|done]. intros m' [Hm'|[= ? ?]]; [by apply Hmax|done].
      * split; [done|]. intros m [Hm|[= ? ?]]; [by apply Hlt|done].
Qed.

(** ** Reads and expiration *)

Lemma lookup_get_versioned now k st :
  (get_versioned now k st).1 = visible now (lookup_store k st) ∧
  ∀ j, lookup_store j (get_versioned now k st).2 =
    if decide (k = j) then visible now (lookup_store k st) else lookup_store j st.
Proof.
  unfold get_versioned. destruct (dm_get _ _) as [p|] eqn:Hp; last first.
  { assert (lookup_store k st = None) as -> by (unfold lookup_store; by rewrite Hp).
    split; [done|]. intros j. case_decide; [subst|done]. simpl. unfold lookup_store. by rewrite Hp. }
  assert (lookup_store k st = sm_get k (ps_records p)) as Hl
    by (unfold lookup_store; by rewrite Hp).
  rewrite Hl. destruct (sm_get k (ps_records p)) as [[r|t]|] eqn:Hk; simpl.
  - destruct ((expiration_time_ms r =? 0) || (now <? expiration_time_ms r)) eqn:Hexp.
    + assert (negb (expiration_time_ms r =? 0) && (expiration_time_ms r <=? now) = false) as -> by lia.
      split; [done|]. intros j. by case_decide; subst.
    + assert (negb (expiration_time_ms r =? 0) && (expiration_time_ms r <=? now) = true) as -> by lia.
      split; [done|]. intros j.
      simpl. rewrite lookup_remove_partition_if_empty, lookup_store_insert. simpl.
      rewrite sm_get_remove. case_decide as E1; case_decide as E2; subst; try done.
      rewrite E1 in Hp. unfold lookup_store. by rewrite Hp.
  - split; [done|]. intros j. by case_decide; subst.
  - split; [done|]. intros j. by case_decide; subst.
Qed.

(** The inner loop of the sweep over a list of entries. *)
Lemma remove_expired_entries now l next p removed :
  let n := Z.of_nat (length (filter (λ e : Key * Mutation, expired now e.2 = true) l)) in
  0 <= next → next + n < u64_modulus → 0 <= removed → removed + n < u64_modulus →
  0 <= ps_active_writers p < u64_modulus →
  ∃ p', foldl (remove_expired_entry now) (next, p, removed) l = (next + n, p', removed + n) ∧
    (∀ k, sm_get k (ps_records p') =
       if existsb (λ e, (e.1 =? k) && expired now e.2) l then None
       else sm_get k (ps_records p)) ∧
    ps_changes p' = ps_changes p ∧ ps_active_writers p' = ps_active_writers p ∧
    (ps_revision p' = ps_revision p ∨ next < ps_revision p' <= next + n).
Proof.
  revert next p removed. induction l as [|[i m] l IH]; intros next p removed n Hn1 Hn2 Hr1 Hr2 Ha.
  - exists p. unfold n. simpl. rewrite !Z.add_0_r. split_and!; auto.
  - unfold n in *. clear n. rewrite filter_cons in *. simpl in *. destruct (expired now m) eqn:E.
    + simpl in *. rewrite Nat2Z.inj_succ in *. unfold with_writer, drop_writer. simpl.
      rewrite !(u64_add_small next), !(u64_add_small removed) by lia.
      match goal with |- context [foldl _ (_, ?q, _) l] => set (p1 := q) end.
      destruct (IH (next + 1) p1 (removed + 1)) as (p' & Heq & Hg & Hc & Hw & Hrev);
        [lia..|by apply Z.mod_pos_bound|].
      rewrite Heq. exists p'. split_and!; [f_equal; [f_equal|]; lia| |done| |].
      * intros k. rewrite Hg. simpl. rewrite sm_get_remove. rewrite andb_true_r.
        destruct (existsb _ l); [by rewrite orb_true_r|]. rewrite orb_false_r.
        case_decide; case_match; try done; lia.
      * rewrite Hw. simpl. unfold u64_sub, u64_add. rewrite Zminus_mod_idemp_l.
        rewrite Z.mod_small; lia.
      * simpl in Hrev. right. lia.
    + setoid_rewrite andb_false_r. simpl.
      destruct (IH next p removed) as (p' & Heq & Hg & Hc & Hw & Hrev); try done.
      exists p'. split_and!; done.
Qed.

Lemma existsb_expired_iter now k p :
  existsb (λ e, (e.1 =? k) && expired now e.2) (sm_iter (ps_records p)) =
    match sm_get k (ps_records p) with Some m => expired now m | None => false end.
Proof.
  apply eq_iff_eq_true. rewrite existsb_exists. split.
  - intros ([i m] & Hin%list_elem_of_In & [Hk Hm]%andb_true_iff). simpl in *.
    apply Z.eqb_eq in Hk as ->. apply sm_iter_get in Hin. by rewrite Hin.
  - destruct (sm_get k (ps_records p)) as [m|] eqn:E; [|done]. intros Hm.
    exists (k, m). simpl. rewrite Z.eqb_refl, Hm. split; [|done].
    apply list_elem_of_In. by apply sm_iter_get.
Qed.

(** ** Well-formedness *)

Lemma partition_wf_mono next next' pid p :
  next <= next' → partition_wf next pid p → partition_wf next' pid p.
Proof. intros ? [Hk Hj Hr Hw]. split; [done| |lia|done]. intros r k ?%Hj. split; [lia|tauto]. Qed.

Lemma wf_insert pid p st next :
  store_wf st → next_revision st <= next → partition_wf next pid p →
  sm_is_empty (ps_records p) = false →
  store_wf (mkRuntimeStore (dm_insert pid p (cache st)) next).
Proof.
  intros [Hn Hp He] Hle Hwf Hne. split; simpl; [lia| |]; intros pid' p'; rewrite dm_get_insert;
    case_decide; intros Hl; simplify_eq; eauto using partition_wf_mono.
Qed.

Lemma wf_remove pid st : store_wf st → store_wf (mkRuntimeStore (dm_remove pid (cache st)) (next_revision st)).
Proof.
  intros [Hn Hp He]. split; simpl; [lia| |]; intros pid' p'; rewrite dm_get_remove;
    case_decide; intros Hl; simplify_eq; eauto.
Qed.

Lemma wf_insert_cleanup pid p st next :
  store_wf st → next_revision st <= next → partition_wf next pid p →
  store_wf (remove_partition_if_empty pid (mkRuntimeStore (dm_insert pid p (cache st)) next)).
Proof.
  intros Hst Hle Hwf. unfold remove_partition_if_empty. simpl.
  rewrite dm_get_insert, decide_True by done.
  destruct (sm_is_empty (ps_records p)) eqn:E; [|by apply wf_insert].
  destruct Hst as [Hn Hp He].
  split; simpl; [lia| |]; intros pid' p'; rewrite dm_get_remove, dm_get_insert;
    case_decide; intros Hl; simplify_eq; eauto using partition_wf_mono.
Qed.

Lemma dm_get_cleanup_ne pid pid' p st next :
  pid' ≠ pid →
  dm_get pid' (cache (remove_partition_if_empty pid (mkRuntimeStore (dm_insert pid p (cache st)) next))) =
    dm_get pid' (cache st).
Proof.
  intros Hne. unfold remove_partition_if_empty. simpl. rewrite dm_get_insert, decide_True by done.
  destruct (sm_is_empty _); simpl; rewrite ?dm_get_remove, dm_get_insert, ?decide_False; done.
Qed.

Lemma next_revision_cleanup pid st :
  next_revision (remove_partition_if_empty pid st) = next_revision st.
Proof. unfold remove_partition_if_empty. by repeat case_match. Qed.

Lemma partition_wf_default next pid : 0 <= next → partition_wf next pid PartitionStore_default.
Proof.
  intros. split; simpl; intros *; rewrite ?sm_get_new; try done; unfold u64_modulus; lia.
Qed.

Lemma new_wf : store_wf (RuntimeStore_new (M := M) (D := D)).
Proof. split; simpl; [done|..]; intros pid p; by rewrite dm_get_new. Qed.

#[local] Hint Resolve partition_wf_mono wf_insert wf_insert_cleanup wf_remove partition_wf_default new_wf : store.

(** One whole writer scope keeps a partition well formed. *)
Lemma with_writer_wf next pid p changed body :
  0 <= next → next + 1 < u64_modulus → partition_wf next pid p →
  (∀ k, changed = Some k → Key_partition k = pid) →
  (∀ k m, sm_get k (body (ps_records p)) = Some m → Key_partition k = pid) →
  (with_writer next changed body p).1 = next + 1 ∧
  partition_wf (next + 1) pid (with_writer next changed body p).2.
Proof.
  intros Hn Hlt [Hk Hj Hr Hw] Hc Hb. unfold with_writer, drop_writer, writer. simpl.
  rewrite !(u64_add_small next) by lia. split; [done|]. split; simpl; [done| |lia|].
  - intros r k. destruct changed as [c|]; [rewrite sm_get_insert; case_decide|];
      intros Hg; simplify_eq; [split; [lia|by apply Hc]|..]; apply Hj in Hg; split; lia || tauto.
  - unfold u64_sub, u64_add. rewrite Zminus_mod_idemp_l, Z.mod_small; lia.
Qed.

Lemma apply_mutation_wf k m st :
  store_wf st → next_revision st + 1 < u64_modulus →
  store_wf (apply_mutation k m st) ∧ next_revision (apply_mutation k m st) = next_revision st + 1.
Proof.
  intros Hwf Hlt. pose proof (wf_next _ Hwf) as Hn. rewrite apply_mutation_unfold.
  cbv zeta.
  set (p := default PartitionStore_default (dm_get (Key_partition k) (cache st))).
  assert (partition_wf (next_revision st) (Key_partition k) p) as Hp.
  { unfold p. destruct (dm_get _ _) eqn:E; simpl; [by apply Hwf|auto with store]. }
  edestruct (with_writer_wf (next_revision st) (Key_partition k) p (Some k)
    (sm_compare_insert k m (λ old, version old <=? version m))) as [Hnext Hp']; [done..| | |].
  { by intros ? [= <-]. }
  { intros j m'. rewrite sm_get_compare_insert. case_decide; [by subst|]. apply Hp. }
  destruct (with_writer _ _ _ _) as [next p'] eqn:E. simpl in *. subst next.
  split; [|done]. apply wf_insert; [done|lia|done|].
  injection E as _ <-. simpl.
  destruct (sm_get k (sm_compare_insert k m (λ old, version old <=? version m) (ps_records p))) eqn:G.
  - by eapply sm_is_empty_get.
  - rewrite sm_get_compare_insert, decide_True in G by done. by repeat case_match.
Qed.

(** One turn of the outer loop. *)
Lemma remove_expired_step now pid st removed :
  let n := Z.of_nat (expired_count now pid st) in
  store_wf st →
  next_revision st + n < u64_modulus → 0 <= removed → removed + n < u64_modulus →
  ∃ st', remove_expired_partition now (st, removed) pid = (st', removed + n) ∧
    next_revision st' = next_revision st + n ∧ store_wf st' ∧
    (∀ pid', pid' ≠ pid → dm_get pid' (cache st') = dm_get pid' (cache st)) ∧
    (∀ j, lookup_store j st' =
       if decide (Key_partition j = pid) then visible now (lookup_store j st) else lookup_store j st).
Proof.
  intros n Hwf Hlt Hr1 Hr2. pose proof (wf_next _ Hwf) as Hn0. unfold n, expired_count in *. clear n.
  unfold remove_expired_partition. destruct (dm_get pid (cache st)) as [p|] eqn:Hp; last first.
  { eexists. unfold remove_partition_if_empty. rewrite Hp. rewrite !Z.add_0_r. split_and!; try done.
    intros j. case_decide; [subst|done]. unfold lookup_store. by rewrite Hp. }
  destruct (wf_partition _ Hwf _ _ Hp) as [Hk Hj Hrev Hw].
  destruct (remove_expired_entries now (sm_iter (ps_records p)) (next_revision st) p removed)
    as (p' & -> & Hg & Hc & Ha & Hrev'); [done..|].
  assert (∀ k, sm_get k (ps_records p') = visible now (sm_get k (ps_records p))) as Hg'.
  { intros k. rewrite Hg, existsb_expired_iter. unfold visible.
    destruct (sm_get k (ps_records p)) as [m|]; simpl; [|done]. by destruct (expired now m). }
  eexists. split_and!; [done|by rewrite next_revision_cleanup| | |].
  - apply wf_insert_cleanup; [done|lia|]. split.
    + intros k m. rewrite Hg'. unfold visible. intros (m' & Hm' & _)%bind_Some. eauto.
    + rewrite Hc. intros r k ?%Hj. split; [lia|tauto].
    + lia.
    + by rewrite Ha.
  - intros pid' Hne. by apply dm_get_cleanup_ne.
  - intros j. rewrite lookup_remove_partition_if_empty, lookup_store_insert.
    case_decide as E1; case_decide as E2; subst; try done.
    unfold lookup_store. by rewrite Hp, Hg'.
Qed.

(** The outer loop over a list of distinct partitions. *)
Lemma remove_expired_fold now ks st removed :
  let n := Z.of_nat (sum_list_with (λ pid, expired_count now pid st) ks) in
  NoDup ks → store_wf st →
  next_revision st + n < u64_modulus → 0 <= removed → removed + n < u64_modulus →
  ∃ st', foldl (remove_expired_partition now) (st, removed) ks = (st', removed + n) ∧
    next_revision st' = next_revision st + n ∧ store_wf st' ∧
    (∀ j, lookup_store j st' =
       if decide (Key_partition j ∈ ks) then visible now (lookup_store j st) else lookup_store j st).
Proof.
  revert st removed. induction ks as [|pid ks IH]; intros st removed n Hnd Hwf Hlt Hr1 Hr2.
  - exists st. unfold n. simpl. rewrite !Z.add_0_r. by split_and!.
  - apply NoDup_cons in Hnd as [Hni Hnd]. unfold n in *. clear n. simpl in *.
    rewrite Nat2Z.inj_add in *.
    destruct (remove_expired_step now pid st removed) as (st1 & Heq1 & Hn1 & Hwf1 & Hd1 & Hl1);
      [done|lia|done|lia|].
    assert (sum_list_with (λ pid0, expired_count now pid0 st1) ks =
            sum_list_with (λ pid0, expired_count now pid0 st) ks) as Hsum.
    { clear -Hni Hd1. induction ks as [|a ks IH]; simpl; [done|].
      apply not_elem_of_cons in Hni as [Hne Hni]. rewrite IH by done. f_equal.
      unfold expired_count. by rewrite Hd1. }
    destruct (IH st1 (removed + Z.of_nat (expired_count now pid st)))
      as (st2 & Heq2 & Hn2 & Hwf2 & Hl2); [done|done|rewrite Hsum; lia|lia|rewrite Hsum; lia|].
    exists st2. rewrite Hsum in *. split_and!; [|lia|done|].
    + etrans; [|etrans; [exact Heq2|f_equal; lia]]. simpl. by f_equal.
    + intros j. rewrite Hl2, Hl1. destruct (decide (Key_partition j ∈ pid :: ks)) as [Hin|Hin].
      * apply elem_of_cons in Hin as [Hj|Hj]; repeat case_decide; naive_solver.
      * apply not_elem_of_cons in Hin as [Hj ?]. repeat case_decide; naive_solver.
Qed.

Lemma sum_expired_count now st ks :
  sum_list_with (λ pid, expired_count now pid st) ks =
    length (filter (λ e : Key * Mutation, expired now e.2 = true)
      (pid ← ks; match dm_get pid (cache st) with
                 | Some p => sm_iter (ps_records p) | None => [] end)).
Proof.
  induction ks as [|pid ks IH]; [done|]. simpl. rewrite filter_app, length_app.
  f_equal; [|exact IH]. unfold expired_count. by destruct (dm_get pid (cache st)).
Qed.

Lemma remove_expired_spec now st :
  let n := Z.of_nat (length (filter (λ e : Key * Mutation, expired now e.2 = true) (all_entries st))) in
  store_wf st → next_revision st + n < u64_modulus →
  ∃ st', remove_expired now st = (st', n) ∧ next_revision st' = next_revision st + n ∧
    store_wf st' ∧ ∀ j, lookup_store j st' = visible now (lookup_store j st).
Proof.
  intros n Hwf Hlt. pose proof (wf_next _ Hwf).
  assert (Z.of_nat (sum_list_with (λ pid, expired_count now pid st) (dm_keys (cache st))) = n) as Hs
    by (unfold n; by rewrite sum_expired_count).
  destruct (remove_expired_fold now (dm_keys (cache st)) st 0) as (st' & Heq & Hn & Hwf' & Hl);
    rewrite ?Hs in *; [apply dm_keys_NoDup|done|lia|done|lia|].
  exists st'. split_and!; [done..|].
  intros j. rewrite Hl. case_decide as Hj; [done|].
  unfold lookup_store. destruct (dm_get (Key_partition j) (cache st)) eqn:E; [|done].
  destruct Hj. apply dm_keys_get. by rewrite E.
Qed.

Lemma expired_entries_bound now st :
  Z.of_nat (length (filter (λ e : Key * Mutation, expired now e.2 = true) (all_entries st))) <=
    Z.of_nat (length (all_entries st)).
Proof. apply inj_le, length_filter. Qed.

(** ** The change journal *)

Lemma sorted_head_min {V} (l : list (Z * V)) a e :
  StronglySorted key_lt (a :: l) → e ∈ a :: l → a.1 <= e.1.
Proof.
  intros Hs [->|He]%elem_of_cons; [lia|]. apply StronglySorted_cons in Hs as [Hs _].
  rewrite Forall_forall in Hs. specialize (Hs _ He). unfold key_lt in Hs. lia.
Qed.

Lemma sm_iter_remove {V} k (m : M V) : sm_iter (sm_remove k m) = filter (λ e, e.1 ≠ k) (sm_iter m).
Proof.
  apply sm_iter_filter. intros k' v. simpl. rewrite sm_get_remove. case_decide; naive_solver.
Qed.

(** The pruning loop returns whenever it has more fuel than entries, and removes
    exactly the entries at or below the bound. *)
Lemma prune_loop_total fuel r (c : M Key) :
  (length (sm_iter c) < fuel)%nat →
  ∃ c', prune_loop fuel r c = Some c' ∧
    ∀ i, sm_get i c' = if r <? i then sm_get i c else None.
Proof.
  revert c. induction fuel as [|fuel IH]; intros c Hf; [lia|]. simpl. rewrite sm_front_iter.
  destruct (sm_iter c) as [|[i k] l] eqn:Hi; simpl in *.
  - exists c. split; [done|]. intros i. destruct (sm_get i c) as [k|] eqn:E; [|by case_match].
    apply sm_iter_get in E. rewrite Hi in E. by apply not_elem_of_nil in E.
  - assert (∀ j k', sm_get j c = Some k' → i <= j) as Hmin.
    { intros j k' Hj%sm_iter_get. pose proof (sm_iter_sorted _ c) as Hs. rewrite Hi in *.
      by apply (sorted_head_min _ _ _ Hs) in Hj. }
    destruct (Z.ltb_spec r i) as [Hlt|Hle].
    + exists c. split; [done|]. intros j. destruct (sm_get j c) as [k'|] eqn:E; [|by case_match].
      apply Hmin in E. case_match; [done|lia].
    + destruct (IH (sm_remove i c)) as (c' & -> & Hc').
      { rewrite sm_iter_remove, Hi, filter_cons_False by (simpl; tauto).
        pose proof (length_filter (λ e : Z * Z, e.1 ≠ i) l). lia. }
      exists c'. split; [done|]. intros j. rewrite Hc', sm_get_remove.
      case_match; [|done]. by rewrite decide_False by lia.
Qed.

Lemma dm_get_prune pid r st pid' :
  dm_get pid' (cache (prune_partition_changes pid r st)) = dm_get pid' (cache st) ∨
  (pid' = pid ∧ ∃ p c, dm_get pid (cache st) = Some p ∧
     dm_get pid' (cache (prune_partition_changes pid r st)) = Some (set_changes c p) ∧
     ∀ i, sm_get i c = if r <? i then sm_get i (ps_changes p) else None).
Proof.
  unfold prune_partition_changes. destruct (dm_get pid (cache st)) as [p|] eqn:Hp; [|by left].
  destruct (prune_loop_total (S (length (sm_iter (ps_changes p)))) r (ps_changes p))
    as (c & -> & Hc); [lia|]. simpl. rewrite dm_get_insert. case_decide; [subst|by left].
  right. eauto 10.
Qed.

Lemma next_revision_prune pid r st :
  next_revision (prune_partition_changes pid r st) = next_revision st.
Proof. unfold prune_partition_changes. by repeat case_match. Qed.

Lemma lookup_prune pid r st k :
  lookup_store k (prune_partition_changes pid r st) = lookup_store k st.
Proof.
  unfold lookup_store. destruct (dm_get_prune pid r st (Key_partition k)) as [->|(Hk & p & c & Hp & -> & _)].
  - done.
  - by rewrite Hk, Hp.
Qed.

Lemma prune_wf pid r st : store_wf st → store_wf (prune_partition_changes pid r st).
Proof.
  intros [Hn Hp He]. split; [by rewrite next_revision_prune| |]; intros pid' p';
    rewrite ?next_revision_prune;
    destruct (dm_get_prune pid r st pid') as [->|(-> & p & c & Hg & -> & Hc)]; eauto.
  - intros [= <-]. destruct (Hp _ _ Hg) as [Hk Hj Hr Hw]. split; simpl; try done.
    intros i k. rewrite Hc. case_match; [apply Hj|done].
  - intros [= <-]. simpl. eauto.
Qed.

Lemma get_partition_changes_spec pid after amount st p :
  (0 < amount)%nat → dm_get pid (cache st) = Some p →
  match get_partition_changes pid after amount st with
  | None => ∀ r k, sm_get r (ps_changes p) = Some k → r <= after
  | Some (last_revision, recs) =>
      after < last_revision ∧ is_Some (sm_get last_revision (ps_changes p)) ∧
      (length recs <= amount)%nat ∧
      ∀ k m, (k, m) ∈ recs ↔
        sm_get k (ps_records p) = Some m ∧
        ∃ r, after < r <= last_revision ∧ sm_get r (ps_changes p) = Some k
  end.
Proof.
  intros Ha Hp. unfold get_partition_changes. rewrite Hp. simpl.
  rewrite (skip_while_filter key_lt) by (apply sm_iter_sorted || (intros x y; unfold key_lt; lia)).
  set (l := filter _ _). assert (StronglySorted key_lt l) as Hs
    by apply StronglySorted_filter, sm_iter_sorted.
  assert (∀ r k, (r, k) ∈ l ↔ after < r ∧ sm_get r (ps_changes p) = Some k) as Hl.
  { intros r k. unfold l. rewrite list_elem_of_filter, sm_iter_get. simpl. by rewrite Z.leb_gt. }
  clearbody l. destruct (last (take amount l)) as [[r0 k0]|] eqn:Hlast; simpl.
  - pose proof Hlast as [l0 Hl0]%last_Some.
    assert ((r0, k0) ∈ take amount l) as Hin0 by (rewrite Hl0; apply elem_of_app; right; by left).
    pose proof Hin0 as [Hr0 Hk0]%elem_of_take_weak%Hl.
    rewrite <-(take_drop amount l) in Hs.
    split_and!; [done|by eexists|etrans; [apply omap_length_le|]; rewrite length_take; lia|].
    intros k m. rewrite list_elem_of_omap. split.
    + intros ([r k1] & Hin & (m1 & Hm1 & [= -> ->])%fmap_Some). simpl in *. split; [done|].
      exists r. pose proof Hin as [Hr Hk]%elem_of_take_weak%Hl. split; [|done]. split; [done|].
      apply StronglySorted_app_1_l in Hs.
      destruct (StronglySorted_last_max _ _ _ _ Hs Hlast Hin) as [Hlt|[= -> ->]];
        [unfold key_lt in Hlt; simpl in Hlt|]; lia.
    + intros (Hm & r & [Hr Hr'] & Hk). exists (r, k). simpl. rewrite Hm. split; [|done].
      assert ((r, k) ∈ take amount l ++ drop amount l) as [?|Hd]%elem_of_app
        by (rewrite take_drop; by apply Hl); [done|].
      pose proof (StronglySorted_app_1_elem_of _ _ _ _ _ Hs Hin0 Hd) as Hlt.
      unfold key_lt in Hlt. simpl in Hlt. lia.
  - intros r k Hr. apply last_None in Hlast. destruct l as [|x l]; [|by destruct amount; [lia|]].
    destruct (decide (r <= after)) as [|Hn]; [done|].
    assert ((r, k) ∈ @nil (Key * Key)) as []%not_elem_of_nil. apply Hl. split; [lia|done].
Qed.

(** A sequence of writes leaves one journal entry per write, all above the
    revision the sequence started from, and keeps the older entries. *)
Lemma apply_all_journal l st :
  store_wf st → next_revision st + Z.of_nat (length l) < u64_modulus →
  store_wf (apply_all l st) ∧
  next_revision (apply_all l st) = next_revision st + Z.of_nat (length l) ∧
  (∀ k m, (k, m) ∈ l → ∃ p r, dm_get (Key_partition k) (cache (apply_all l st)) = Some p ∧
     next_revision st < r <= next_revision (apply_all l st) ∧ sm_get r (ps_changes p) = Some k).
Proof.
  induction l as [|[k m] l IH] using rev_ind; intros Hwf Hlt.
  - simpl in *. split_and!; [done|lia|]. by intros k m Hin%not_elem_of_nil.
  - rewrite length_app in Hlt. simpl in Hlt. pose proof (wf_next _ Hwf). destruct IH as (Hwf' & Hn & Hj); [done|lia|].
    unfold apply_all in *. rewrite foldl_app. simpl.
    destruct (apply_mutation_wf k m (foldl (λ st km, apply_mutation km.1 km.2 st) st l))
      as [Hwf'' Hn'']; [done|lia|].
    split_and!; [done|rewrite Hn'', length_app; simpl; lia|].
    intros k' m' [Hin|[= -> ->]%list_elem_of_singleton]%elem_of_app.
    + destruct (Hj _ _ Hin) as (p & r & Hp & Hr & Hg). rewrite Hn''.
      set (st0 := foldl _ st l) in *. rewrite apply_mutation_unfold. simpl.
      rewrite dm_get_insert. case_decide as E; [|exists p, r; split_and!; [done|lia..|done]].
      rewrite E, Hp. simpl. eexists _, r. split_and!; [done|lia..|]. simpl.
      rewrite sm_get_insert, u64_add_small by lia. rewrite decide_False by lia. done.
    + rewrite Hn''. set (st0 := foldl _ st l) in *. rewrite apply_mutation_unfold. simpl.
      rewrite dm_get_insert, decide_True by done.
      eexists _, (next_revision st0 + 1). split_and!; [done|lia..|]. simpl.
      rewrite sm_get_insert, u64_add_small, decide_True by lia. done.
Qed.

#[local] Hint Resolve prune_wf : store.

(** ** One operation *)

Lemma get_versioned_wf now k st :
  store_wf st → next_revision st + 1 < u64_modulus →
  store_wf (get_versioned now k st).2 ∧
  next_revision st <= next_revision (get_versioned now k st).2 <= next_revision st + 1.
Proof.
  intros Hwf Hlt. unfold get_versioned. destruct (dm_get _ _) as [p|] eqn:Hp; [|split; [done|simpl; lia]].
  destruct (sm_get k (ps_records p)) as [[r|t]|]; [|split; [done|simpl; lia]..].
  destruct (_ || _); [split; [done|simpl; lia]|].
  pose proof (wf_partition _ Hwf _ _ Hp) as Hpw.
  edestruct (with_writer_wf (next_revision st) (Key_partition k) p None (sm_remove k))
    as [Hn Hp']; [apply Hwf|done..| |].
  { intros j m. rewrite sm_get_remove. case_decide; [done|]. apply Hpw. }
  destruct (with_writer _ _ _ _) as [next p']. cbn [fst snd] in *. subst.
  split; [apply wf_insert_cleanup; [done|lia|done]|]. rewrite next_revision_cleanup. simpl. lia.
Qed.

(** Every operation keeps the store well formed and advances the revision
    counter by at most its cost. *)
Lemma run_op_wf op st :
  store_wf st → next_revision st + op_cost op st < u64_modulus →
  store_wf (run_op op st) ∧ next_revision st <= next_revision (run_op op st) <= next_revision st + op_cost op st.
Proof.
  intros Hwf Hlt. destruct op as [k r|k t|now k|now|pid r|pid|pid]; simpl in *.
  - destruct (apply_mutation_wf k (Put r) st) as [? E]; [done..|]. simpl in E. split; [done|]. rewrite E. lia.
  - destruct (apply_mutation_wf k (Delete t) st) as [? E]; [done..|]. simpl in E. split; [done|]. rewrite E. lia.
  - by apply get_versioned_wf.
  - pose proof (expired_entries_bound now st).
    destruct (remove_expired_spec now st) as (st' & -> & Hn & ? & _); [done|lia|]. split; [done|simpl; lia].
  - rewrite next_revision_prune. split; [auto with store|lia].
  - rewrite next_revision_cleanup. split; [|lia].
    unfold remove_partition_if_empty. repeat case_match; auto with store.
  - split; [by apply wf_remove|simpl; lia].
Qed.

(** ** Snapshot pages *)

Lemma partition_entries_sorted pid st : StronglySorted key_lt (partition_entries pid st).
Proof. unfold partition_entries. case_match; [apply sm_iter_sorted|constructor]. Qed.

Lemma get_partition_mutations_filter pid amount a st :
  get_partition_mutations pid amount a st = take amount (filter (after_ok a) (partition_entries pid st)).
Proof.
  unfold get_partition_mutations, partition_entries.
  destruct (dm_get pid (cache st)) as [p|]; [|by destruct amount]. f_equal.
  rewrite (skip_while_filter key_lt).
  - apply list_filter_iff. intros x. unfold after_ok. destruct a; [|done]. lia.
  - apply sm_iter_sorted.
  - intros x y. unfold key_lt. destruct a; [|done]. lia.
Qed.

(** The entries after the last key of a page are the ones the page left out. *)
Lemma filter_after_page (l : list (Key * Mutation)) a page rest e :
  StronglySorted key_lt l → filter (after_ok a) l = page ++ rest → last page = Some e →
  filter (after_ok (Some e.1)) l = rest.
Proof.
  intros Hs Hl He.
  assert (StronglySorted key_lt (page ++ rest)) as Hsp
    by (rewrite <-Hl; by apply StronglySorted_filter).
  assert (e ∈ page) as Hin by (apply last_Some in He as [l' ->]; set_solver).
  assert (after_ok a e) as Hae.
  { assert (e ∈ filter (after_ok a) l) as [? _]%list_elem_of_filter by (rewrite Hl; set_solver). done. }
  trans (filter (after_ok (Some e.1)) (filter (after_ok a) l)).
  { rewrite list_filter_filter. apply list_filter_iff. intros x. unfold after_ok in *.
    destruct a; [lia|naive_solver]. }
  rewrite Hl, filter_app, filter_none, filter_all; [done| |].
  - apply Forall_forall. intros x Hx. by apply (StronglySorted_app_1_elem_of _ _ _ _ _ Hsp Hin).
  - apply Forall_forall. intros x Hx. simpl.
    destruct (StronglySorted_last_max _ _ x e (StronglySorted_app_1_l _ _ _ Hsp) He Hx) as [Hlt|Hlt];
      [unfold key_lt in Hlt|subst]; lia.
Qed.

Lemma snapshot_pages_concat fuel pid amount a st :
  (0 < amount)%nat →
  (length (filter (after_ok a) (partition_entries pid st)) < fuel)%nat →
  concat (snapshot_pages fuel pid amount a st) = filter (after_ok a) (partition_entries pid st).
Proof.
  intros Ha. revert a. induction fuel as [|fuel IH]; intros a Hf; [lia|]. simpl.
  rewrite get_partition_mutations_filter. set (l := filter (after_ok a) _) in *.
  destruct (last (take amount l)) as [e|] eqn:He.
  - assert (l = take amount l ++ drop amount l) as Hl by (by rewrite take_drop).
    pose proof (filter_after_page _ a _ _ _ (partition_entries_sorted pid st) Hl He) as Hn.
    simpl. rewrite IH; rewrite Hn; [by rewrite take_drop|]. rewrite length_drop.
    destruct l; [by rewrite take_nil in He|]. simpl in *. lia.
  - apply last_None in He. destruct l; [done|]. by destruct amount; [lia|].
Qed.

End proofs.

(** The automation of later files: well-formedness of the store is kept. *)
#[export] Hint Resolve partition_wf_mono wf_insert wf_insert_cleanup wf_remove partition_wf_default new_wf prune_wf : store.
