(* ===== verification/StoreTheorems.v ===== *)
(** * Properties of the runtime store

    Each theorem holds for every pair of containers satisfying the laws of
    [Containers]; its witness evaluates it on stdpp's finite maps. *)

From S2P Require Import Prelude Containers Common RuntimeStore StoreSpec.

Section theorems.
Context {M : Type → Type} `{!SkipMap M, !SkipMapLaws M}.
Context {D : Type → Type} `{!DashMap PartitionId D, !DashMapLaws PartitionId D}.
Implicit Types st : RuntimeStore M D.

(** [put] and [delete_at] refine last-write-wins on the abstract view: the
    written key holds the newer of the two mutations (a tie goes to the new
    one) and no other key changes. *)
Theorem store_write_refines_lww j k m st :
  lookup_store j (apply_mutation k m st) =
    if decide (k = j) then Some (lww (lookup_store k st) m) else lookup_store j st.
Proof. apply lookup_apply_mutation. Qed.

(** C12: Convergence.  Two replicas that start from stores with the same view and
    apply the same set of mutations, in any order and with any repetitions,
    hold the same mutation for every key, provided two mutations of one key with
    one version are the same mutation. *)
Theorem store_convergence l l' st st' :
  (∀ e, e ∈ l ↔ e ∈ l') →
  (∀ k a b, (k, a) ∈ l → (k, b) ∈ l → version a = version b → a = b) →
  (∀ j, lookup_store j st = lookup_store j st') →
  ∀ j, lookup_store j (apply_all l st) = lookup_store j (apply_all l' st').
Proof.
  intros Heq Huniq Hst j.
  destruct (lookup_apply_all j l st) as [(m & Hin & Hmax & Ho & ->)|[-> Hlt]];
    destruct (lookup_apply_all j l' st') as [(m' & Hin' & Hmax' & Ho' & ->)|[-> Hlt']].
  - f_equal. apply Heq in Hin'. apply (Huniq j); [done..|].
    apply Z.le_antisymm; [apply Hmax', Heq; done|by apply Hmax].
  - apply Heq, Hlt' in Hin as (o & Hl & Hv). rewrite <-Hst in Hl. apply Ho in Hl. lia.
  - apply Heq, Hlt in Hin' as (o & Hl & Hv). rewrite Hst in Hl. apply Ho' in Hl. lia.
  - apply Hst.
Qed.

(** A read returns the stored mutation (a tombstone included) unless it is a
    record that has expired; an expired record is dropped from the store by the
    read, and no other key changes. *)
Theorem store_get_versioned_correct now k st :
  (get_versioned now k st).1 = visible now (lookup_store k st) ∧
  ∀ j, lookup_store j (get_versioned now k st).2 =
    if decide (k = j) then visible now (lookup_store k st) else lookup_store j st.
Proof. apply lookup_get_versioned. Qed.

(** C35: The background sweep removes exactly the records expired at [now_ms] in
    every partition, keeps tombstones and live records, returns how many it
    removed, and leaves the store well formed. *)
Theorem store_remove_expired_exact now_ms st :
  store_wf st → next_revision st + Z.of_nat (length (all_entries st)) < u64_modulus →
  (remove_expired now_ms st).2 =
    Z.of_nat (length (filter (λ e, expired now_ms e.2 = true) (all_entries st))) ∧
  store_wf (remove_expired now_ms st).1 ∧
  ∀ j, lookup_store j (remove_expired now_ms st).1 = visible now_ms (lookup_store j st).
Proof.
  intros Hwf Hlt. pose proof (expired_entries_bound now_ms st).
  destruct (remove_expired_spec now_ms st) as (st' & -> & _ & ? & ?); [done|lia|]. done.
Qed.

(** The sweep cannot be observed: a read at time [now] returns the same
    result on a store and on what a sweep at any earlier or equal time left of it. *)
Theorem store_sweep_unobservable now_ms now k st :
  store_wf st → next_revision st + Z.of_nat (length (all_entries st)) < u64_modulus →
  now_ms <= now →
  (get_versioned now k (remove_expired now_ms st).1).1 = (get_versioned now k st).1.
Proof.
  intros Hwf Hlt Hle. pose proof (expired_entries_bound now_ms st).
  destruct (remove_expired_spec now_ms st) as (st' & -> & _ & _ & Hl); [done|lia|]. simpl.
  rewrite !(proj1 (lookup_get_versioned _ _ _)), Hl. unfold visible.
  destruct (lookup_store k st) as [[r|t]|]; simpl; [|done..].
  destruct (negb _ && (_ <=? now_ms)) eqn:E; simpl; [|done].
  assert (negb (expiration_time_ms r =? 0) && (expiration_time_ms r <=? now) = true) as -> by lia. done.
Qed.

(** C33: Every store the operations can produce from the empty one without
    exhausting the revision counter is well formed: keys sit in the partition
    [Key::partition] names, journal entries and published revisions are at most
    the counter, and no empty partition is kept. *)
Theorem store_reachable_wf st : store_reachable st → store_wf st.
Proof.
  induction 1 as [|op st _ Hwf Hlt]; [auto with store|by apply run_op_wf].
Qed.

(** Paging through a partition with any positive page size, each page after
    the last key of the previous one, ends and yields every record of the
    partition exactly once in key order, in pages no longer than asked for. *)
Theorem store_snapshot_pages_complete pid amount fuel st :
  (0 < amount)%nat → (length (partition_entries pid st) < fuel)%nat →
  concat (snapshot_pages fuel pid amount None st) = partition_entries pid st ∧
  Forall (λ page, (length page <= amount)%nat) (snapshot_pages fuel pid amount None st).
Proof.
  intros Ha Hf. assert (filter (after_ok None) (partition_entries pid st) = partition_entries pid st) as E
    by (by apply filter_all, Forall_true).
  split; [by rewrite snapshot_pages_concat; rewrite ?E|].
  clear Hf E. generalize (@None Key) as a. induction fuel as [|fuel IH]; intros a; simpl; [done|].
  case_match; [|done]. constructor; [|apply IH].
  rewrite get_partition_mutations_filter, length_take. lia.
Qed.

(** [get_partition_changes] is sound and complete: it answers [None] exactly
    when the journal has nothing after [after_revision]; otherwise it answers the
    last revision [r] it covers and, for every journalled change in
    ([after_revision], [r]] whose key is still stored, the current mutation of
    that key, and nothing else. *)
Theorem store_changes_complete pid after amount st p :
  (0 < amount)%nat → dm_get pid (cache st) = Some p →
  match get_partition_changes pid after amount st with
  | None => ∀ r k, sm_get r (ps_changes p) = Some k → r <= after
  | Some (last_revision, recs) =>
      after < last_revision ∧ is_Some (sm_get last_revision (ps_changes p)) ∧
      (length recs <= amount)%nat ∧
      ∀ k m, (k, m) ∈ recs ↔
        sm_get k (ps_records p) = Some m ∧
        ∃ r, after < r <= last_revision ∧ sm_get r (ps_changes p) = Some k
  end.
Proof.
  apply get_partition_changes_spec.
Qed.

(** The journal misses no write: after any sequence of writes to a well-formed
    store, every written key has a journal entry in its partition above the
    revision the store was at, so a migration that resumes from that revision
    sees it. *)
Theorem store_journal_records_writes l st k m :
  store_wf st → next_revision st + Z.of_nat (length l) < u64_modulus → (k, m) ∈ l →
  ∃ p r, dm_get (Key_partition k) (cache (apply_all l st)) = Some p ∧
    next_revision st < r ∧ sm_get r (ps_changes p) = Some k ∧
    lookup_store k (apply_all l st) = sm_get k (ps_records p).
Proof.
  intros Hwf Hlt Hin. destruct (apply_all_journal l st) as (_ & _ & Hj); [done..|].
  destruct (Hj _ _ Hin) as (p & r & Hp & Hr & Hg). exists p, r. split_and!; [done|lia|done|].
  unfold lookup_store. by rewrite Hp.
Qed.

(** [prune_partition_changes] ends, drops exactly the journal entries of the
    partition at or below [through_revision], and changes neither another
    partition nor any record. *)
Theorem store_prune_exact pid through st p :
  dm_get pid (cache st) = Some p →
  (∃ p', dm_get pid (cache (prune_partition_changes pid through st)) = Some p' ∧
     ∀ r, sm_get r (ps_changes p') = if through <? r then sm_get r (ps_changes p) else None) ∧
  (∀ pid', pid' ≠ pid →
     dm_get pid' (cache (prune_partition_changes pid through st)) = dm_get pid' (cache st)) ∧
  (∀ k, lookup_store k (prune_partition_changes pid through st) = lookup_store k st).
Proof.
  intros Hp. split_and!.
  - unfold prune_partition_changes. rewrite Hp.
    destruct (prune_loop_total (S (length (sm_iter (ps_changes p)))) through (ps_changes p))
      as (c & -> & Hc); [lia|]. simpl. rewrite dm_get_insert, decide_True by done. eauto.
  - intros pid' Hne. destruct (dm_get_prune pid through st pid') as [?|[? _]]; done.
  - intros k. apply lookup_prune.
Qed.

End theorems.

(** ** Witnesses on stdpp's finite maps *)

Abbreviation GStore := (RuntimeStore (gmap Z) (gmap PartitionId)).

Definition sample_writes : list (Key * Mutation) :=
  [(1, Put (mkRecord 99 5 [1])); (4097, Delete 7); (2, Put (mkRecord 0 3 [2])); (1, Put (mkRecord 0 4 [9]))].

Definition sample : GStore := apply_all sample_writes RuntimeStore_new.

Lemma sample_wf : store_wf sample.
Proof. apply apply_all_journal; [apply new_wf|]. vm_compute. reflexivity. Qed.

Lemma store_write_refines_lww_witness :
  lookup_store 1 (apply_mutation 1 (Delete 5) sample) = Some (Delete 5) ∧
  lookup_store 2 (apply_mutation 1 (Delete 5) sample) = Some (Put (mkRecord 0 3 [2])).
Proof. split; rewrite store_write_refines_lww; vm_compute; reflexivity. Defined.

Lemma store_convergence_witness :
  lookup_store 1 (apply_all [(1, Delete 4); (1, Put (mkRecord 0 6 [7]))] sample) =
  lookup_store 1 (apply_all [(1, Put (mkRecord 0 6 [7])); (1, Delete 4); (1, Delete 4)] sample).
Proof.
  apply store_convergence; [|intros k a b; rewrite !elem_of_cons, !elem_of_nil|done].
  - intros e. rewrite !elem_of_cons, !elem_of_nil. tauto.
  - intros Ha Hb. destruct_or?; simplify_eq; simpl; done.
Defined.

Lemma store_get_versioned_correct_witness :
  (get_versioned 100 1 sample).1 = None ∧ (get_versioned 98 1 sample).1 = Some (Put (mkRecord 99 5 [1])).
Proof. split; rewrite (proj1 (store_get_versioned_correct _ _ _)); vm_compute; reflexivity. Defined.

Lemma store_remove_expired_exact_witness : (remove_expired 100 sample).2 = 1.
Proof.
  rewrite (proj1 (store_remove_expired_exact 100 sample sample_wf ltac:(vm_compute; reflexivity))).
  vm_compute. reflexivity.
Defined.

Lemma store_sweep_unobservable_witness :
  (get_versioned 120 4097 (remove_expired 100 sample).1).1 = Some (Delete 7).
Proof.
  rewrite (store_sweep_unobservable 100 120 4097 sample sample_wf
    ltac:(vm_compute; reflexivity) ltac:(lia)).
  vm_compute. reflexivity.
Defined.

Lemma store_reachable_wf_witness : store_wf (run_op (OpPut 3 (mkRecord 0 1 [])) (RuntimeStore_new : GStore)).
Proof. apply store_reachable_wf. apply reach_op; [apply reach_new|]. vm_compute. reflexivity. Defined.

Lemma store_snapshot_pages_complete_witness :
  concat (snapshot_pages 5 (mkPartitionId 1) 1 None sample) =
    [(1, Put (mkRecord 99 5 [1])); (4097, Delete 7)].
Proof.
  rewrite (proj1 (store_snapshot_pages_complete (mkPartitionId 1) 1 5 sample
    ltac:(lia) ltac:(vm_compute; lia))).
  vm_compute. reflexivity.
Defined.

Lemma store_changes_complete_witness :
  ∃ p, dm_get (mkPartitionId 1) (cache sample) = Some p ∧
    match get_partition_changes (mkPartitionId 1) 1 10 sample with
    | Some (last_revision, recs) => 1 < last_revision ∧ (4097, Delete 7) ∈ recs
    | None => False
    end.
Proof.
  eexists. split; [vm_compute; reflexivity|].
  pose proof (store_changes_complete (mkPartitionId 1) 1 10 sample _ ltac:(lia) eq_refl) as Hspec.
  destruct (get_partition_changes _ _ _ _) as [[r recs]|] eqn:E; [|vm_compute in E; discriminate].
  destruct Hspec as (Hr & _ & _ & Hin). split; [done|]. apply Hin.
  vm_compute in E. injection E as <- <-. split; [vm_compute; reflexivity|].
  exists 2. split; [lia|vm_compute; reflexivity].
Defined.

Lemma store_journal_records_writes_witness :
  ∃ p r, dm_get (mkPartitionId 1) (cache (apply_all sample_writes (RuntimeStore_new : GStore))) = Some p ∧
    0 < r ∧ sm_get r (ps_changes p) = Some 4097.
Proof.
  destruct (store_journal_records_writes sample_writes (RuntimeStore_new : GStore) 4097 (Delete 7))
    as (p & r & Hp & Hr & Hg & _).
  - apply new_wf.
  - vm_compute. reflexivity.
  - right. left.
  - exists p, r. done.
Defined.

Lemma store_prune_exact_witness :
  ∃ p', dm_get (mkPartitionId 1) (cache (prune_partition_changes (mkPartitionId 1) 2 sample)) = Some p' ∧
    sm_get 1 (ps_changes p') = None ∧ sm_get 4 (ps_changes p') = Some 1.
Proof.
  edestruct (store_prune_exact (mkPartitionId 1) 2 sample) as [(p' & Hp' & Hc) _].
  - vm_compute. reflexivity.
  - exists p'. split; [done|]. rewrite !Hc. vm_compute. done.
Defined.
