(* ===== verification/StoreConcurrency.v ===== *)
(** * The store under concurrency (worker/runtime_store.rs)

    The methods of [RuntimeStore] again, this time as sequences of atomic
    accesses: taking a [DashMap] guard, one operation of a [SkipMap], one
    operation of an atomic.  A call is a thread with a program counter; a
    configuration is the shared store, the calls made so far and a ghost trace.

    [DashMap] spreads its keys over shards, each behind a reader-writer lock:
    [entry] and [remove] take the lock of the key's shard exclusively, [get]
    shares it.  The assignment of partitions to shards is a parameter.  Dropping
    a guard is a step of its own ([Unlock]).

    The list of partitions [remove_expired] goes through is an argument of the
    call: [iter] over a [DashMap] is not a snapshot, so any list is allowed. *)

From S2P Require Import Prelude Containers Common RuntimeStore StoreSpec.

Inductive Mode := Shared | Exclusive.

#[export] Instance Mode_eq_dec : EqDecision Mode.
Proof. solve_decision. Defined.

(** One call of a method. *)
Inductive Call :=
  | CWrite (key : Key) (mutation : Mutation)  (* [put], [delete_at] *)
  | CGetVersioned (key : Key)
  | CRemoveExpired (now_ms : Z) (partition_ids : list PartitionId)
  | CStableRevision (partition : PartitionId)
  | CPruneChanges (partition : PartitionId) (through_revision : Z)
  | CRemovePartition (partition : PartitionId).

Inductive Ret :=
  | RetUnit
  | RetMutation (m : option Mutation)
  | RetRevision (r : option Z)
  | RetRemoved (n : Z).

(** A record found expired, and what follows its removal: [get_versioned] goes on
    to the clean-up of the partition, [remove_expired] to the next entry. *)
Record Victim := mkVictim { v_partition : PartitionId; v_key : Key; v_mutation : Mutation; v_now : Z }.

Inductive Next :=
  | NextReturn
  | NextScan (rest : list PartitionId) (removed : Z).

(** Program counters.  The writer scope of a write is [WriterEnter] to
    [WriterLeave], that of an expiry [ExpireEnter] to [ExpireLeave]. *)
Inductive Pc :=
  | Start
  | WriterEnter | Insert | FetchRevision | Journal (revision : Z) | Publish (revision : Z) | WriterLeave
  | GetRecord
  | ExpireEnter (v : Victim) (n : Next) | ExpireRemove (v : Victim) (n : Next) | ExpireFetch (v : Victim) (n : Next)
  | ExpirePublish (v : Victim) (n : Next) (revision : Z) | ExpireLeave (v : Victim) (n : Next)
  | SweepPartition (rest : list PartitionId) (removed : Z)
  | SweepScan (pid : PartitionId) (cursor : option Key) (rest : list PartitionId) (removed : Z)
  | LoadRevision | LoadWriters (before : Z) | LoadRevisionAgain (before : Z) | LoadWritersAgain (before after : Z)
  | PruneFront | PruneRemove (revision : Z)
  | Unlock (pid : PartitionId) (mode : Mode) (pc : Pc)
  | CleanUp (pid : PartitionId) (pc : Pc)
  | Done (ret : Ret).

(** What one access does to the shared store. *)
Inductive Effect (M : Type → Type) :=
  | Keep
  | SetPartition (pid : PartitionId) (p : PartitionStore M)
  | RemovePartition (pid : PartitionId)
  | NextRevision.
Arguments Keep {_}.
Arguments SetPartition {_} _ _.
Arguments RemovePartition {_} _.
Arguments NextRevision {_}.

(** Ghost events: a call, its linearization point with the clock value it used
    and its result, the removal of an expired record, a return. *)
Inductive Event :=
  | ECall (tid : nat) (call : Call)
  | ELin (tid : nat) (call : Call) (now : Z) (ret : Ret)
  | EExpire (key : Key) (now : Z)
  | ERet (tid : nat) (ret : Ret).

Section model.
Context {M : Type → Type} `{SkipMap M} {D : Type → Type} `{DashMap PartitionId D}.
Context (shard : PartitionId → nat).
Implicit Types (p : PartitionStore M) (st : RuntimeStore M D).

Definition apply_effect (e : Effect M) st : RuntimeStore M D :=
  match e with
  | Keep => st
  | SetPartition pid p => mkRuntimeStore (dm_insert pid p (cache st)) (next_revision st)
  | RemovePartition pid => mkRuntimeStore (dm_remove pid (cache st)) (next_revision st)
  | NextRevision => mkRuntimeStore (cache st) (next_revision st +64 1)
  end.

Definition set_revision (r : Z) p : PartitionStore M :=
  mkPartitionStore (ps_records p) (ps_changes p) (ps_active_writers p) r.

Definition leave_writer p : PartitionStore M :=
  mkPartitionStore (ps_records p) (ps_changes p) (ps_active_writers p -64 1) (ps_revision p).

(** A step on the partition whose guard the thread holds. *)
Definition on_partition (pid : PartitionId) st (f : PartitionStore M → PartitionStore M) (pc : Pc)
    : option (Effect M * Pc) :=
  p ← dm_get pid (cache st); Some (SetPartition pid (f p), pc).

(** The writer scope of [put] and [delete_at]. *)
Definition write_step (key : Key) (mutation : Mutation) (pc : Pc) st : option (Effect M * Pc) :=
  let pid := Key_partition key in
  match pc with
  | Start =>
      Some (match dm_get pid (cache st) with
            | Some _ => Keep
            | None => SetPartition pid PartitionStore_default
            end, WriterEnter)
  | WriterEnter => on_partition pid st writer Insert
  | Insert =>
      on_partition pid st
        (λ p, set_records (sm_compare_insert key mutation (λ old, version old <=? version mutation)
                             (ps_records p)) p) FetchRevision
  | FetchRevision => Some (NextRevision, Journal (next_revision st +64 1))
  | Journal r => on_partition pid st (λ p, set_changes (sm_insert r key (ps_changes p)) p) (Publish r)
  | Publish r => on_partition pid st (set_revision r) WriterLeave
  | WriterLeave => on_partition pid st leave_writer (Unlock pid Exclusive (Done RetUnit))
  | _ => None
  end.

(** Removing a record found expired: the same scope, without a journal entry. *)
Definition expire_step (pc : Pc) st : option (Effect M * Pc) :=
  match pc with
  | ExpireEnter v n => on_partition (v_partition v) st writer (ExpireRemove v n)
  | ExpireRemove v n =>
      on_partition (v_partition v) st (λ p, set_records (sm_remove (v_key v) (ps_records p)) p) (ExpireFetch v n)
  | ExpireFetch v n => Some (NextRevision, ExpirePublish v n (next_revision st +64 1))
  | ExpirePublish v n r => on_partition (v_partition v) st (set_revision r) (ExpireLeave v n)
  | ExpireLeave v n =>
      on_partition (v_partition v) st leave_writer
        (match n with
         | NextReturn => Unlock (v_partition v) Shared (CleanUp (v_partition v) (Done (RetMutation None)))
         | NextScan rest removed => SweepScan (v_partition v) (Some (v_key v)) rest (removed +64 1)
         end)
  | _ => None
  end.

(** [get_versioned] up to a live answer or to an expired record; [now] is the
    clock it reads. *)
Definition get_step (now : Z) (key : Key) (pc : Pc) st : option (Effect M * Pc) :=
  let pid := Key_partition key in
  match pc with
  | Start =>
      Some (Keep, match dm_get pid (cache st) with
                  | Some _ => GetRecord
                  | None => Done (RetMutation None)
                  end)
  | GetRecord =>
      p ← dm_get pid (cache st);
      Some (Keep,
            match sm_get key (ps_records p) with
            | Some (Put record) =>
                let exp_time := expiration_time_ms record in
                if (exp_time =? 0) || (now <? exp_time)
                then Unlock pid Shared (Done (RetMutation (Some (Put record))))
                else ExpireEnter (mkVictim pid key (Put record) now) NextReturn
            | m => Unlock pid Shared (Done (RetMutation m))
            end)
  | _ => None
  end.

(** The scan of [remove_expired]; the iterator goes to the least key after the
    last one it visited. *)
Definition sweep_step (now_ms : Z) (pids : list PartitionId) (pc : Pc) st : option (Effect M * Pc) :=
  match pc with
  | Start => Some (Keep, SweepPartition pids 0)
  | SweepPartition [] removed => Some (Keep, Done (RetRemoved removed))
  | SweepPartition (pid :: rest) removed =>
      Some (Keep, match dm_get pid (cache st) with
                  | Some _ => SweepScan pid None rest removed
                  | None => CleanUp pid (SweepPartition rest removed)
                  end)
  | SweepScan pid cursor rest removed =>
      p ← dm_get pid (cache st);
      Some (Keep,
            match head (skip_while (λ e, match cursor with Some k => e.1 <=? k | None => false end)
                          (sm_iter (ps_records p))) with
            | Some (k, m) =>
                if expired now_ms m then ExpireEnter (mkVictim pid k m now_ms) (NextScan rest removed)
                else SweepScan pid (Some k) rest removed
            | None => Unlock pid Shared (CleanUp pid (SweepPartition rest removed))
            end)
  | _ => None
  end.

(** [stable_revision] with its four loads. *)
Definition stable_step (pid : PartitionId) (pc : Pc) st : option (Effect M * Pc) :=
  match pc with
  | Start =>
      Some (Keep, match dm_get pid (cache st) with
                  | Some _ => LoadRevision
                  | None => Done (RetRevision (Some 0))
                  end)
  | LoadRevision => p ← dm_get pid (cache st); Some (Keep, LoadWriters (ps_revision p))
  | LoadWriters r =>
      p ← dm_get pid (cache st);
      Some (Keep, if negb (ps_active_writers p =? 0) then Unlock pid Shared (Done (RetRevision None))
                  else LoadRevisionAgain r)
  | LoadRevisionAgain r => p ← dm_get pid (cache st); Some (Keep, LoadWritersAgain r (ps_revision p))
  | LoadWritersAgain r r' =>
      p ← dm_get pid (cache st);
      Some (Keep, Unlock pid Shared (Done (RetRevision
        (if (r =? r') && (ps_active_writers p =? 0) then Some r' else None))))
  | _ => None
  end.

Definition prune_step (pid : PartitionId) (through_revision : Z) (pc : Pc) st : option (Effect M * Pc) :=
  match pc with
  | Start =>
      Some (Keep, match dm_get pid (cache st) with
                  | Some _ => PruneFront
                  | None => Done RetUnit
                  end)
  | PruneFront =>
      p ← dm_get pid (cache st);
      Some (Keep, match sm_front (ps_changes p) with
                  | Some e => if through_revision <? e.1 then Unlock pid Shared (Done RetUnit) else PruneRemove e.1
                  | None => Unlock pid Shared (Done RetUnit)
                  end)
  | PruneRemove r => on_partition pid st (λ p, set_changes (sm_remove r (ps_changes p)) p) PruneFront
  | _ => None
  end.

(** The next access of a call. *)
Definition step (now : Z) (call : Call) (pc : Pc) st : option (Effect M * Pc) :=
  match pc with
  | Done _ => None
  | Unlock _ _ pc => Some (Keep, pc)
  | CleanUp pid pc =>
      Some (match dm_get pid (cache st) with
            | Some p => if sm_is_empty (ps_records p) then RemovePartition pid else Keep
            | None => Keep
            end, pc)
  | ExpireEnter _ _ | ExpireRemove _ _ | ExpireFetch _ _ | ExpirePublish _ _ _ | ExpireLeave _ _ =>
      expire_step pc st
  | _ =>
      match call with
      | CWrite key mutation => write_step key mutation pc st
      | CGetVersioned key => get_step now key pc st
      | CRemoveExpired now_ms pids => sweep_step now_ms pids pc st
      | CStableRevision pid => stable_step pid pc st
      | CPruneChanges pid through => prune_step pid through pc st
      | CRemovePartition pid =>
          match pc with
          | Start => Some (RemovePartition pid, Done RetUnit)
          | _ => None
          end
      end
  end.

(** ** Guards *)

(** The guard a thread holds. *)
Definition guard_of (call : Call) (pc : Pc) : option (PartitionId * Mode) :=
  match pc with
  | Unlock pid mode _ => Some (pid, mode)
  | ExpireEnter v _ | ExpireRemove v _ | ExpireFetch v _ | ExpirePublish v _ _ | ExpireLeave v _ =>
      Some (v_partition v, Shared)
  | SweepScan pid _ _ _ => Some (pid, Shared)
  | WriterEnter | Insert | FetchRevision | Journal _ | Publish _ | WriterLeave =>
      match call with CWrite key _ => Some (Key_partition key, Exclusive) | _ => None end
  | GetRecord => match call with CGetVersioned key => Some (Key_partition key, Shared) | _ => None end
  | LoadRevision | LoadWriters _ | LoadRevisionAgain _ | LoadWritersAgain _ _ =>
      match call with CStableRevision pid => Some (pid, Shared) | _ => None end
  | PruneFront | PruneRemove _ => match call with CPruneChanges pid _ => Some (pid, Shared) | _ => None end
  | _ => None
  end.

(** The guard the next step takes. *)
Definition needs (call : Call) (pc : Pc) : option (PartitionId * Mode) :=
  match pc with
  | Start =>
      match call with
      | CWrite key _ => Some (Key_partition key, Exclusive)
      | CGetVersioned key => Some (Key_partition key, Shared)
      | CRemoveExpired _ _ => None
      | CStableRevision pid | CPruneChanges pid _ => Some (pid, Shared)
      | CRemovePartition pid => Some (pid, Exclusive)
      end
  | SweepPartition (pid :: _) _ => Some (pid, Shared)
  | CleanUp pid _ => Some (pid, Exclusive)
  | _ => None
  end.

(** Guards that two threads may hold at once. *)
Definition compatible (a b : PartitionId * Mode) : Prop :=
  shard a.1 = shard b.1 → a.2 = Shared ∧ b.2 = Shared.

#[local] Instance compatible_dec a b : Decision (compatible a b).
Proof. unfold compatible. apply _. Defined.

(** ** Configurations *)

Record Conf := mkConf {
  c_store : RuntimeStore M D;
  c_threads : gmap nat (Call * Pc);
  c_trace : list Event;
}.

Definition conf_new : Conf := mkConf RuntimeStore_new ∅ [].

Definition can_acquire (threads : gmap nat (Call * Pc)) (tid : nat) (g : PartitionId * Mode) : Prop :=
  ∀ t call pc g', t ≠ tid → threads !! t = Some (call, pc) → guard_of call pc = Some g' → compatible g g'.

(** What the trace records of a step: a linearization point or the removal of an
    expired record, and the return. *)
Definition lin_events (tid : nat) (now : Z) (call : Call) (pc pc' : Pc) : list Event :=
  match call, pc, pc' with
  | CWrite _ _, Insert, _ => [ELin tid call now RetUnit]
  | CGetVersioned _, Start, Done r => [ELin tid call now r]
  | CGetVersioned _, GetRecord, Unlock _ _ (Done r) => [ELin tid call now r]
  | CGetVersioned _, GetRecord, ExpireEnter _ _ => [ELin tid call now (RetMutation None)]
  | CRemovePartition _, Start, _ => [ELin tid call now RetUnit]
  | _, ExpireRemove v _, _ => [EExpire (v_key v) (v_now v)]
  | _, _, _ => []
  end.

Definition ret_events (tid : nat) (pc' : Pc) : list Event :=
  match pc' with Done r => [ERet tid r] | _ => [] end.

Definition step_events (tid : nat) (now : Z) (call : Call) (pc pc' : Pc) : list Event :=
  lin_events tid now call pc pc' ++ ret_events tid pc'.

(** A new call, or one access of an unfinished call.  The revision counter is not
    exhausted. *)
Inductive conf_step : Conf → Conf → Prop :=
  | cs_call c tid call :
      c_threads c !! tid = None →
      conf_step c (mkConf (c_store c) (<[tid := (call, Start)]> (c_threads c)) (c_trace c ++ [ECall tid call]))
  | cs_access c tid call pc now e pc' :
      c_threads c !! tid = Some (call, pc) →
      (∀ g, needs call pc = Some g → can_acquire (c_threads c) tid g) →
      next_revision (c_store c) + 1 < u64_modulus →
      step now call pc (c_store c) = Some (e, pc') →
      conf_step c (mkConf (apply_effect e (c_store c)) (<[tid := (call, pc')]> (c_threads c))
                     (c_trace c ++ step_events tid now call pc pc')).

(** The same as a function of a scheduler's choices. *)
Inductive Choice :=
  | PickCall (tid : nat) (call : Call)
  | PickAccess (tid : nat) (now : Z).

Definition acquirable (threads : gmap nat (Call * Pc)) (tid : nat) (g : PartitionId * Mode) : bool :=
  bool_decide (map_Forall (λ t tc,
    t = tid ∨ from_option (λ g', bool_decide (compatible g g')) true (guard_of tc.1 tc.2) = true) threads).

Definition choose (s : Choice) (c : Conf) : option Conf :=
  match s with
  | PickCall tid call =>
      match c_threads c !! tid with
      | Some _ => None
      | None => Some (mkConf (c_store c) (<[tid := (call, Start)]> (c_threads c)) (c_trace c ++ [ECall tid call]))
      end
  | PickAccess tid now =>
      '(call, pc) ← c_threads c !! tid;
      if from_option (acquirable (c_threads c) tid) true (needs call pc) && (next_revision (c_store c) + 1 <? u64_modulus)
      then
        '(e, pc') ← step now call pc (c_store c);
        Some (mkConf (apply_effect e (c_store c)) (<[tid := (call, pc')]> (c_threads c))
                (c_trace c ++ step_events tid now call pc pc'))
      else None
  end.

Fixpoint run_choices (l : list Choice) (c : Conf) : option Conf :=
  match l with
  | [] => Some c
  | s :: l => c' ← choose s c; run_choices l c'
  end.

Inductive conf_reachable : Conf → Prop :=
  | cr_new : conf_reachable conf_new
  | cr_step c c' : conf_reachable c → conf_step c c' → conf_reachable c'.

(** ** The sequential object *)

(** The effect of an event on the abstract view, and when the event is legal. *)
Definition event_view (e : Event) (v : Key → option Mutation) : Key → option Mutation :=
  match e with
  | ELin _ (CWrite k m) _ _ => λ j, if decide (k = j) then Some (lww (v k) m) else v j
  | ELin _ (CRemovePartition pid) _ _ => λ j, if decide (Key_partition j = pid) then None else v j
  | EExpire k _ => λ j, if decide (k = j) then None else v j
  | _ => v
  end.

Definition event_ok (e : Event) (v : Key → option Mutation) : Prop :=
  match e with
  | ELin _ (CWrite _ _) _ r | ELin _ (CRemovePartition _) _ r => r = RetUnit
  | ELin _ (CGetVersioned k) now r => r = RetMutation (visible now (v k))
  | ELin _ _ _ _ => False
  | EExpire k now => visible now (v k) = None
  | _ => True
  end.

Definition replay (l : list Event) : Key → option Mutation :=
  foldl (λ v e, event_view e v) (λ _, None) l.

Definition legal (l : list Event) : Prop :=
  ∀ l1 e l2, l = l1 ++ e :: l2 → event_ok e (replay l1).

Definition event_of (tid : nat) (e : Event) : bool :=
  match e with
  | ECall t _ | ELin t _ _ _ | ERet t _ => (t =? tid)%nat
  | EExpire _ _ => false
  end.

(** The calls with a result of the sequential object. *)
Definition foreground (call : Call) : bool :=
  match call with CWrite _ _ | CGetVersioned _ | CRemovePartition _ => true | _ => false end.

End model.

Section scheduler.
Context {M : Type → Type} `{SkipMap M} {D : Type → Type} `{DashMap PartitionId D}.
Context (shard : PartitionId → nat).
Implicit Types c : Conf (M := M) (D := D).

Lemma choose_step s c c' : choose shard s c = Some c' → conf_step shard c c'.
Proof.
  destruct s as [tid call|tid now]; simpl.
  - destruct (c_threads c !! tid) eqn:Ht; [done|]. intros [= <-]. by apply cs_call.
  - intros ([call pc] & Ht & Hs)%bind_Some. destruct (_ && _) eqn:E; [|done].
    apply andb_true_iff in E as [Ha Hlt%Z.ltb_lt]. apply bind_Some in Hs as ([e pc'] & Hs & [= <-]).
    apply cs_access; [done| |done|done]. intros g Hg. rewrite Hg in Ha. simpl in Ha. apply bool_decide_eq_true in Ha.
    intros t call' pc1 g' Hne Ht' Hg'. destruct (Ha t _ Ht') as [?|Hc]; [done|]. simpl in Hc. rewrite Hg' in Hc. by apply bool_decide_eq_true in Hc.
Qed.

Lemma run_choices_reachable l c c' :
  conf_reachable shard c → run_choices shard l c = Some c' → conf_reachable shard c'.
Proof.
  revert c. induction l as [|s l IH]; intros c Hr; simpl; [by intros [= <-]|].
  intros (c1 & Hs & Hrun)%bind_Some. eapply IH; [|done]. eapply cr_step; [done|]. by eapply choose_step.
Qed.

End scheduler.
