(* ===== verification/StoreInterleaving.v ===== *)
(** * The invariant of the concurrent store

    What the interleaved accesses of [StoreConcurrency] preserve: guards exclude
    each other, the counter of active writers counts the threads in a writer
    scope, what an expiry removes is the record it found expired, the published
    revision bounds the journal ([conf_reachable_inv]). *)

From S2P Require Import Prelude Containers Common RuntimeStore StoreSpec StoreConcurrency.

(** ** The invariant *)

Section invariant.
Context {M : Type → Type} `{SkipMap M} {D : Type → Type} `{DashMap PartitionId D}.
Context (shard : PartitionId → nat).
Implicit Types (p : PartitionStore M) (st : RuntimeStore M D).

(** The program counters a call can have. *)
Definition next_ok (call : Call) (key : Key) (n : Next) : Prop :=
  match n, call with
  | NextReturn, CGetVersioned k => k = key
  | NextScan _ _, CRemoveExpired _ _ => True
  | _, _ => False
  end.

Definition victim_ok (call : Call) (v : Victim) (n : Next) : Prop :=
  Key_partition (v_key v) = v_partition v ∧ expired (v_now v) (v_mutation v) = true ∧ next_ok call (v_key v) n.

Fixpoint pc_ok (call : Call) (pc : Pc) : Prop :=
  match pc with
  | Start | Done _ => True
  | WriterEnter | Insert | FetchRevision | Journal _ | Publish _ | WriterLeave =>
      match call with CWrite _ _ => True | _ => False end
  | GetRecord => match call with CGetVersioned _ => True | _ => False end
  | ExpireEnter v n | ExpireRemove v n | ExpireFetch v n | ExpirePublish v n _ | ExpireLeave v n =>
      victim_ok call v n
  | SweepPartition _ _ | SweepScan _ _ _ _ => match call with CRemoveExpired _ _ => True | _ => False end
  | LoadRevision | LoadWriters _ | LoadRevisionAgain _ | LoadWritersAgain _ _ =>
      match call with CStableRevision _ => True | _ => False end
  | PruneFront | PruneRemove _ => match call with CPruneChanges _ _ => True | _ => False end
  | Unlock _ _ pc | CleanUp _ pc => pc_ok call pc ∧ guard_of call pc = None
  end.

(** The record an expiry is about to remove. *)
Definition victim_of (pc : Pc) : option Victim :=
  match pc with ExpireEnter v _ | ExpireRemove v _ => Some v | _ => None end.

(** A revision a thread took or read, and the bound it is on the journal. *)
Definition bound_of (pc : Pc) : option (Z * Z) :=
  match pc with
  | Journal r => Some (r, r - 1)
  | Publish r | ExpirePublish _ _ r | LoadWriters r | LoadRevisionAgain r | LoadWritersAgain r _
  | Unlock _ _ (Done (RetRevision (Some r))) => Some (r, r)
  | _ => None
  end.

(** Threads inside a writer scope of a partition. *)
Definition in_scope (pid : PartitionId) (tc : Call * Pc) : bool :=
  match tc.2 with
  | Insert | FetchRevision | Journal _ | Publish _ | WriterLeave =>
      match tc.1 with CWrite key _ => bool_decide (Key_partition key = pid) | _ => false end
  | ExpireRemove v _ | ExpireFetch v _ | ExpirePublish v _ _ | ExpireLeave v _ => bool_decide (v_partition v = pid)
  | _ => false
  end.

Definition writers (pid : PartitionId) (threads : gmap nat (Call * Pc)) : nat :=
  size (filter (λ tc, in_scope pid tc.2 = true) threads).

(** What holds of a thread. *)
Record thread_inv st (call : Call) (pc : Pc) : Prop := {
  ti_pc : pc_ok call pc;
  ti_partition pid mode : guard_of call pc = Some (pid, mode) → is_Some (dm_get pid (cache st));
  ti_victim v p m : victim_of pc = Some v → dm_get (v_partition v) (cache st) = Some p →
    sm_get (v_key v) (ps_records p) = Some m → m = v_mutation v;
  ti_bound r b : bound_of pc = Some (r, b) → 0 <= b <= r ∧ r <= next_revision st;
  ti_journal pid mode r b p j k : guard_of call pc = Some (pid, mode) → bound_of pc = Some (r, b) →
    dm_get pid (cache st) = Some p → sm_get j (ps_changes p) = Some k → j <= b;
}.

(** What holds of a partition. *)
Record partition_inv (next : Z) (threads : gmap nat (Call * Pc)) (pid : PartitionId) p : Prop := {
  pi_keys k m : sm_get k (ps_records p) = Some m → Key_partition k = pid;
  pi_journal r k : sm_get r (ps_changes p) = Some k → 0 < r <= next ∧ Key_partition k = pid;
  pi_revision : 0 <= ps_revision p <= next;
  pi_writers : ps_active_writers p = Z.of_nat (writers pid threads) `mod` u64_modulus;
  pi_published r k : sm_get r (ps_changes p) = Some k →
    r <= ps_revision p ∨
    ∃ t key m rev, threads !! t = Some (CWrite key m, Publish rev) ∧ Key_partition key = pid ∧ r <= rev;
}.

Record conf_inv (c : Conf (M := M) (D := D)) : Prop := {
  ci_next : 0 <= next_revision (c_store c);
  ci_locks t1 t2 call1 pc1 call2 pc2 g1 g2 : t1 ≠ t2 →
    c_threads c !! t1 = Some (call1, pc1) → c_threads c !! t2 = Some (call2, pc2) →
    guard_of call1 pc1 = Some g1 → guard_of call2 pc2 = Some g2 → compatible shard g1 g2;
  ci_thread t call pc : c_threads c !! t = Some (call, pc) → thread_inv (c_store c) call pc;
  ci_partition pid p : dm_get pid (cache (c_store c)) = Some p →
    partition_inv (next_revision (c_store c)) (c_threads c) pid p;
}.

End invariant.

Section cases.
Context {M : Type → Type} `{SkipMap M} {D : Type → Type} `{DashMap PartitionId D}.
Implicit Types (p : PartitionStore M) (st : RuntimeStore M D).

Lemma on_partition_Some pid st f pc e pc' :
  on_partition pid st f pc = Some (e, pc') →
  ∃ p, dm_get pid (cache st) = Some p ∧ e = SetPartition pid (f p) ∧ pc' = pc.
Proof. unfold on_partition. intros (p & ? & [= <- <-])%bind_Some. eauto. Qed.

End cases.

(** Case analysis on a step: the program counter, the call, and the branches. *)
Ltac step_inv :=
  repeat match goal with
  | H : on_partition _ _ _ _ = Some _ |- _ =>
      apply on_partition_Some in H as (? & ? & ? & ?); simplify_eq/=
  | H : (_ ≫= _) = Some _ |- _ => apply bind_Some in H as (? & ? & ?); simplify_eq/=
  | H : Some _ = Some _ |- _ => injection H as H; simplify_eq/=
  end.

Ltac step_cases pc call :=
  unfold step, write_step, expire_step, get_step, sweep_step, stable_step, prune_step in *;
  destruct pc; try destruct call; simplify_eq/=; step_inv.

Section proofs.
Context {M : Type → Type} `{!SkipMap M, !SkipMapLaws M}.
Context {D : Type → Type} `{!DashMap PartitionId D, !DashMapLaws PartitionId D}.
Context (shard : PartitionId → nat).
Implicit Types (p : PartitionStore M) (st : RuntimeStore M D) (c : Conf (M := M) (D := D)).

(** ** Counting writers *)

Lemma writers_insert pid threads tid x :
  Z.of_nat (writers pid (<[tid := x]> threads)) =
  Z.of_nat (writers pid threads) -
    from_option (λ y, Z.b2z (in_scope pid y)) 0 (threads !! tid) + Z.b2z (in_scope pid x).
Proof.
  unfold writers. set (P := λ tc : nat * (Call * Pc), in_scope pid tc.2 = true).
  assert (∀ m : gmap nat (Call * Pc), m !! tid = None →
    Z.of_nat (size (filter P (<[tid := x]> m))) = Z.of_nat (size (filter P m)) + Z.b2z (in_scope pid x)) as Hnew.
  { intros m Hm. destruct (in_scope pid x) eqn:E.
    - rewrite map_filter_insert_True by done. rewrite map_size_insert_None; [simpl; lia|].
      apply map_lookup_filter_None. by left.
    - rewrite map_filter_insert_False by (unfold P; simpl; congruence). rewrite delete_id by done. simpl. lia. }
  destruct (threads !! tid) as [y|] eqn:Ht; simpl; [|rewrite Hnew by done; lia].
  rewrite <-insert_delete_eq. rewrite Hnew by apply lookup_delete_eq.
  assert (Z.of_nat (size (filter P threads)) =
          Z.of_nat (size (filter P (delete tid threads))) + Z.b2z (in_scope pid y)) as ->; [|lia].
  destruct (in_scope pid y) eqn:E; simpl.
  - rewrite map_filter_delete. rewrite <-(insert_id (filter P threads) tid y) at 1.
    + rewrite <-insert_delete_eq. rewrite map_size_insert_None by apply lookup_delete_eq. lia.
    + apply map_lookup_filter_Some. done.
  - rewrite map_filter_delete_not; [lia|]. unfold P. simpl. intros z Hz. congruence.
Qed.

(** ** What a step does *)

(** A partition with fewer records and journal entries. *)
Definition psub (p' p : PartitionStore M) : Prop :=
  (∀ k m, sm_get k (ps_records p') = Some m → sm_get k (ps_records p) = Some m) ∧
  (∀ r k, sm_get r (ps_changes p') = Some k → sm_get r (ps_changes p) = Some k).

Lemma psub_refl p : psub p p.
Proof. done. Qed.

Lemma psub_remove_record k p : psub (set_records (sm_remove k (ps_records p)) p) p.
Proof. split; [|done]. intros j m. simpl. rewrite sm_get_remove. by case_decide. Qed.

Lemma psub_remove_change r p : psub (set_changes (sm_remove r (ps_changes p)) p) p.
Proof. split; [done|]. intros j m. simpl. rewrite sm_get_remove. by case_decide. Qed.

Hint Resolve psub_refl psub_remove_record psub_remove_change : core.

Lemma step_set now call pc st pid p' pc' :
  step now call pc st = Some (SetPartition pid p', pc') →
  (needs call pc = Some (pid, Exclusive) ∧ dm_get pid (cache st) = None ∧ p' = PartitionStore_default) ∨
  ∃ mode p, guard_of call pc = Some (pid, mode) ∧ dm_get pid (cache st) = Some p ∧ (mode = Shared → psub p' p).
Proof.
  intros Hs. step_cases pc call; repeat case_match; simplify_eq/=; try (by left);
    right; do 2 eexists; split_and!; try done; eauto.
Qed.

Lemma step_remove now call pc st pid pc' :
  step now call pc st = Some (RemovePartition pid, pc') → needs call pc = Some (pid, Exclusive).
Proof. intros Hs. step_cases pc call; repeat case_match; by simplify_eq/=. Qed.

(** ** Other threads *)

Lemma effect_next (e : Effect M) st :
  0 <= next_revision st → next_revision st + 1 < u64_modulus →
  next_revision st <= next_revision (apply_effect e st) <= next_revision st + 1.
Proof. intros. destruct e; simpl; rewrite ?u64_add_small; lia. Qed.

(** A step leaves to a thread that holds another guard what it relies on. *)
Lemma effect_frame now call pc st e pc' pid mode :
  step now call pc st = Some (e, pc') →
  (∀ g, guard_of call pc = Some g ∨ needs call pc = Some g → compatible shard g (pid, mode)) →
  is_Some (dm_get pid (cache st)) →
  is_Some (dm_get pid (cache (apply_effect e st))) ∧
  ∀ p', dm_get pid (cache (apply_effect e st)) = Some p' → ∃ p, dm_get pid (cache st) = Some p ∧ psub p' p.
Proof.
  intros Hs Hc Hp. destruct e as [|pid' p'|pid'|]; simpl; [eauto| | |eauto].
  - rewrite dm_get_insert. destruct (decide (pid' = pid)) as [->|]; [|eauto].
    apply step_set in Hs as [(Hn & Hnone & _)|(mode' & p & Hg & Hp' & Hsub)].
    { destruct (Hc _ (or_intror Hn)) as [? _]; done. }
    destruct (Hc _ (or_introl Hg)) as [Hm _]; [done|]. simpl in Hm. split; [done|].
    intros ? [= <-]. eauto.
  - rewrite dm_get_remove. destruct (decide (pid' = pid)) as [->|]; [|eauto].
    apply step_remove in Hs. destruct (Hc _ (or_intror Hs)) as [? _]; done.
Qed.

Lemma victim_guard call pc v : victim_of pc = Some v → guard_of call pc = Some (v_partition v, Shared).
Proof. by destruct pc; intros [= ->]. Qed.

Lemma thread_inv_frame st st' call pc :
  thread_inv st call pc → next_revision st <= next_revision st' →
  (∀ pid mode, guard_of call pc = Some (pid, mode) → is_Some (dm_get pid (cache st)) →
     is_Some (dm_get pid (cache st')) ∧
     ∀ p', dm_get pid (cache st') = Some p' → ∃ p, dm_get pid (cache st) = Some p ∧ psub p' p) →
  thread_inv st' call pc.
Proof.
  intros [Hpc Hpart Hv Hb Hj] Hle Hf. split.
  - done.
  - intros pid mode Hg. by eapply Hf; eauto.
  - intros v p m Hvic Hp Hm. pose proof (victim_guard call pc v Hvic) as Hg.
    destruct (Hf _ _ Hg) as [_ Hs]; [by eapply Hpart|]. destruct (Hs _ Hp) as (p0 & Hp0 & Hsub & _).
    eapply Hv; [done..|]. by apply Hsub.
  - intros r b Hbd. specialize (Hb _ _ Hbd). lia.
  - intros pid mode r b p j k Hg Hbd Hp Hm.
    destruct (Hf _ _ Hg) as [_ Hs]; [by eapply Hpart|]. destruct (Hs _ Hp) as (p0 & Hp0 & _ & Hsub).
    eapply Hj; [done..|]. by apply Hsub.
Qed.

Lemma access_compatible c tid call pc t call' pc' g g' :
  conf_inv shard c → c_threads c !! tid = Some (call, pc) →
  (∀ g, needs call pc = Some g → can_acquire shard (c_threads c) tid g) →
  t ≠ tid → c_threads c !! t = Some (call', pc') → guard_of call' pc' = Some g' →
  guard_of call pc = Some g ∨ needs call pc = Some g → compatible shard g g'.
Proof. intros Hi Ht Hn Hne Ht' Hg' [Hg|Hg]; [by eapply (ci_locks _ _ Hi tid t)|by eapply Hn]. Qed.

(** Nobody else is about to publish in a partition whose guard a thread holds. *)
Lemma journal_published c tid call pc pid mode p j k :
  conf_inv shard c → c_threads c !! tid = Some (call, pc) → guard_of call pc = Some (pid, mode) →
  (∀ r, pc ≠ Publish r) →
  dm_get pid (cache (c_store c)) = Some p → sm_get j (ps_changes p) = Some k → j <= ps_revision p.
Proof.
  intros Hi Ht Hg Hne Hp Hj. destruct (pi_published _ _ _ _ (ci_partition _ _ Hi _ _ Hp) _ _ Hj)
    as [|(t & key & m & rev & Ht' & Hk & Hr)]; [done|].
  destruct (decide (t = tid)) as [->|Hne']; [by simplify_eq; destruct (Hne rev)|].
  destruct (ci_locks _ _ Hi t tid _ _ _ _ (pid, Exclusive) (pid, mode) Hne' Ht' Ht); [|done..].
  by rewrite <-Hk.
Qed.

(** ** The thread that makes the step *)

Lemma get_expired now m record :
  m = Put record → (expiration_time_ms record =? 0) || (now <? expiration_time_ms record) = false →
  expired now m = true.
Proof. intros -> [? ?]%orb_false_iff. simpl. apply andb_true_iff. split; [by apply negb_true_iff|lia]. Qed.

Lemma head_skip_while_elem {A} (f : A → bool) l x : head (skip_while f l) = Some x → x ∈ l.
Proof. intros Hx. apply (elem_of_skip_while f). destruct (skip_while f l); [done|]. simplify_eq/=. by left. Qed.

Lemma step_pc_ok c now call pc e pc' :
  conf_inv shard c → pc_ok call pc → step now call pc (c_store c) = Some (e, pc') → pc_ok call pc'.
Proof.
  intros Hi Hok Hs. step_cases pc call; repeat case_match; simplify_eq/=; try tauto.
  all: try (split; [done|]; split; [|done]; by eapply get_expired).
  all: try (by destruct Hok as (_ & _ & ?)).
  all: match goal with H : head _ = Some _ |- _ => apply head_skip_while_elem, sm_iter_get in H as Hin end.
  all: split; [by eapply pi_keys; [by eapply ci_partition|]|done].
Qed.

Lemma step_partition now call pc st e pc' pid mode :
  pc_ok call pc → step now call pc st = Some (e, pc') →
  (∀ pid mode, guard_of call pc = Some (pid, mode) → is_Some (dm_get pid (cache st))) →
  guard_of call pc' = Some (pid, mode) → is_Some (dm_get pid (cache (apply_effect e st))).
Proof.
  intros Hok Hs Hp Hg. step_cases pc call; repeat case_match; simplify_eq/=; try tauto; eauto;
    try (rewrite dm_get_insert; by case_decide); naive_solver.
Qed.

Lemma step_victim now call pc st e pc' v p m :
  step now call pc st = Some (e, pc') →
  (∀ v p m, victim_of pc = Some v → dm_get (v_partition v) (cache st) = Some p →
     sm_get (v_key v) (ps_records p) = Some m → m = v_mutation v) →
  pc_ok call pc →
  victim_of pc' = Some v → dm_get (v_partition v) (cache (apply_effect e st)) = Some p →
  sm_get (v_key v) (ps_records p) = Some m → m = v_mutation v.
Proof.
  intros Hs Hv Hok Hvic Hp Hm. step_cases pc call; repeat case_match; simplify_eq/=; try tauto.
  all: try (apply proj2 in Hok; by rewrite (victim_guard _ _ _ Hvic) in Hok).
  all: try (rewrite dm_get_insert, decide_True in Hp by done; simplify_eq/=; by eapply Hv).
  all: match goal with H : head _ = Some _ |- _ => apply head_skip_while_elem, sm_iter_get in H end; by simplify_eq.
Qed.

Lemma bound_guard call pc x : pc_ok call pc → bound_of pc = Some x → guard_of call pc ≠ None.
Proof. intros Hok Hb. destruct pc, call; simplify_eq/=; done. Qed.

Lemma step_bound c now call pc e pc' r b :
  conf_inv shard c → next_revision (c_store c) + 1 < u64_modulus →
  thread_inv (c_store c) call pc → step now call pc (c_store c) = Some (e, pc') →
  bound_of pc' = Some (r, b) → 0 <= b <= r ∧ r <= next_revision (apply_effect e (c_store c)).
Proof.
  intros Hi Hlt [Hok _ _ Hb _] Hs Hbd. pose proof (ci_next _ _ Hi) as Hn.
  pose proof (λ pid p Hp, pi_revision _ _ _ _ (ci_partition _ _ Hi pid p Hp)) as Hr.
  step_cases pc call; try (by destruct Hok as [Hok []%(bound_guard _ _ _ Hok Hbd)]);
    repeat case_match; simplify_eq/=; try tauto; try (by eapply Hb);
    try (rewrite u64_add_small; lia); try (by edestruct Hr; [done|split; lia]);
    try (specialize (Hb _ _ eq_refl); lia).
  all: match goal with H : (_ && _)%bool = true |- _ => apply andb_true_iff in H as [?%Z.eqb_eq _] end;
    specialize (Hb _ _ eq_refl); lia.
Qed.

Lemma step_journal c tid now call pc e pc' pid mode r b p j k :
  conf_inv shard c → next_revision (c_store c) + 1 < u64_modulus →
  c_threads c !! tid = Some (call, pc) → step now call pc (c_store c) = Some (e, pc') →
  guard_of call pc' = Some (pid, mode) → bound_of pc' = Some (r, b) →
  dm_get pid (cache (apply_effect e (c_store c))) = Some p → sm_get j (ps_changes p) = Some k → j <= b.
Proof.
  intros Hi Hlt Ht Hs Hg Hbd Hp Hj. pose proof (ci_next _ _ Hi) as Hn.
  destruct (ci_thread _ _ Hi _ _ _ Ht) as [Hok _ _ Hb Hjb].
  pose proof (λ pid mode, journal_published c tid call pc pid mode) as Hpub.
  pose proof (λ pid p Hp j k, pi_journal _ _ _ _ (ci_partition _ _ Hi pid p Hp) j k) as Hjn.
  step_cases pc call; try (by destruct Hok as [Hok []%(bound_guard _ _ _ Hok Hbd)]);
    repeat case_match; simplify_eq/=; try tauto;
    try (rewrite dm_get_insert, decide_True in Hp by done; simplify_eq/=); try (by eapply Hjb);
    try (by eapply Hpub; [done..| |done|done]);
    try (rewrite u64_add_small by lia; edestruct Hjn; [done..|lia]).
  - rewrite sm_get_insert in Hj. case_decide; [lia|]. specialize (Hjb _ _ _ _ _ _ _ eq_refl eq_refl H Hj). lia.
  - match goal with H : (_ && _)%bool = true |- _ => apply andb_true_iff in H as [->%Z.eqb_eq _] end. by eapply Hjb.
Qed.

Lemma step_thread_inv c tid now call pc e pc' :
  conf_inv shard c → next_revision (c_store c) + 1 < u64_modulus →
  c_threads c !! tid = Some (call, pc) → step now call pc (c_store c) = Some (e, pc') →
  thread_inv (apply_effect e (c_store c)) call pc'.
Proof.
  intros Hi Hlt Ht Hs. pose proof (ci_thread _ _ Hi _ _ _ Ht) as Hti. split.
  - by eapply step_pc_ok; [|apply Hti|].
  - intros pid mode. eapply step_partition; [apply Hti|done|apply Hti].
  - intros v p m. by eapply step_victim; [done|apply Hti|apply Hti].
  - intros r b. by eapply step_bound.
  - intros pid mode r b p j k. by eapply step_journal.
Qed.

(** ** Partitions *)

Lemma in_scope_guard pid call pc :
  in_scope pid (call, pc) = true → ∃ mode, guard_of call pc = Some (pid, mode).
Proof. destruct pc, call; simpl; intros Hb; try done; apply bool_decide_eq_true in Hb; subst; eauto. Qed.

(** A step that enters or leaves a writer scope, or publishes, sets the partition. *)
Lemma step_scope now call pc st e pc' pid :
  pc_ok call pc → step now call pc st = Some (e, pc') →
  (∃ p', e = SetPartition pid p') ∨
  in_scope pid (call, pc') = in_scope pid (call, pc) ∧
  ¬ ∃ key m r, call = CWrite key m ∧ pc = Publish r ∧ Key_partition key = pid.
Proof.
  intros Hok Hs.
  assert (∀ pc, pc_ok call pc ∧ guard_of call pc = None → in_scope pid (call, pc) = false) as Hin.
  { intros pc0 [_ Hg]. destruct (in_scope pid (call, pc0)) eqn:E; [|done].
    apply in_scope_guard in E as [? ?]. congruence. }
  step_cases pc call; rewrite ?(Hin _ Hok); repeat case_match; simplify_eq/=;
    try (by right; split; [|naive_solver]).
  all: match goal with |- (∃ _, SetPartition ?q _ = _) ∨ _ => destruct (decide (q = pid)) as [->|Hne]; [by left; eauto|right] end.
  all: unfold in_scope; simpl; rewrite ?bool_decide_false by done; split; [done|naive_solver].
Qed.

Lemma writers_zero c pid :
  conf_inv shard c → dm_get pid (cache (c_store c)) = None → writers pid (c_threads c) = 0%nat.
Proof.
  intros Hi Hp. unfold writers. apply map_size_empty_iff, map_empty. intros t.
  apply map_lookup_filter_None. right. intros [call pc] Ht Hs. simpl in Hs.
  apply in_scope_guard in Hs as [mode Hg].
  destruct (ti_partition _ _ _ (ci_thread _ _ Hi _ _ _ Ht) _ _ Hg) as [? ?]. congruence.
Qed.

(** A partition the step does not set. *)
Lemma partition_inv_other c tid now call pc e pc' pid p :
  conf_inv shard c → next_revision (c_store c) + 1 < u64_modulus →
  c_threads c !! tid = Some (call, pc) → step now call pc (c_store c) = Some (e, pc') →
  (¬ ∃ p', e = SetPartition pid p') → dm_get pid (cache (c_store c)) = Some p →
  partition_inv (next_revision (apply_effect e (c_store c))) (<[tid := (call, pc')]> (c_threads c)) pid p.
Proof.
  intros Hi Hlt Ht Hs Hne Hp.
  pose proof (effect_next e (c_store c) (ci_next _ _ Hi) Hlt) as Hn.
  destruct (step_scope _ _ _ _ _ _ pid (ti_pc _ _ _ (ci_thread _ _ Hi _ _ _ Ht)) Hs) as [?|[Hsc Hpub]]; [done|].
  destruct (ci_partition _ _ Hi _ _ Hp) as [Hk Hj Hr Hw Hpb]. split; [done| |lia| |].
  - intros r k Hrk. specialize (Hj _ _ Hrk). split; [lia|tauto].
  - rewrite writers_insert, Ht, Hsc. simpl. rewrite Hw. f_equal. lia.
  - intros r k Hrk. destruct (Hpb _ _ Hrk) as [?|(t & key & m & rev & Ht' & Hkp & Hle)]; [by left|]. right.
    exists t, key, m, rev. split; [|done]. rewrite lookup_insert_ne; [done|]. intros <-.
    apply Hpub. simplify_eq. eauto 10.
Qed.

(** The partition the step sets. *)
Lemma partition_inv_set c tid now call pc pc' pid p' :
  conf_inv shard c → next_revision (c_store c) + 1 < u64_modulus →
  c_threads c !! tid = Some (call, pc) → step now call pc (c_store c) = Some (SetPartition pid p', pc') →
  partition_inv (next_revision (c_store c)) (<[tid := (call, pc')]> (c_threads c)) pid p'.
Proof.
  intros Hi Hlt Ht Hs. pose proof (ci_next _ _ Hi) as Hn.
  destruct (ci_thread _ _ Hi _ _ _ Ht) as [Hok Hpart _ Hb Hjb].
  destruct (step_set _ _ _ _ _ _ _ Hs) as [(Hne & Hnone & ->)|(mode & p & Hg & Hp & _)].
  - pose proof (writers_zero _ _ Hi Hnone) as Hz.
    assert (in_scope pid (call, pc') = false ∧ in_scope pid (call, pc) = false) as [E1 E2]
      by (step_cases pc call; repeat case_match; by simplify_eq/=).
    split; simpl; intros *; rewrite ?sm_get_new; try done.
    rewrite writers_insert, Ht, Hz. simpl. by rewrite E1, E2.
  - destruct (ci_partition _ _ Hi _ _ Hp) as [Hk Hj Hr Hw Hpb].
    pose proof (λ Hnp j k, journal_published c tid call pc pid mode p j k Hi Ht Hg Hnp Hp) as Hjp. clear Hpb.
    split.
    + intros k m. step_cases pc call; repeat case_match; simplify_eq/=; eauto;
        rewrite ?sm_get_compare_insert, ?sm_get_remove; case_decide; simplify_eq/=; eauto; done.
    + intros r k. step_cases pc call; repeat case_match; simplify_eq/=; eauto;
        rewrite ?sm_get_insert, ?sm_get_remove; case_decide; intros ?; simplify_eq/=; eauto.
      specialize (Hb _ _ eq_refl). split; [lia|done].
    + step_cases pc call; repeat case_match; simplify_eq/=; try done; specialize (Hb _ _ eq_refl); lia.
    + rewrite writers_insert, Ht. simpl.
      step_cases pc call; repeat case_match; simplify_eq/=; rewrite Hw; unfold in_scope; simpl;
        rewrite ?bool_decide_true by done; simpl; unfold u64_add, u64_sub;
        rewrite ?Zplus_mod_idemp_l, ?Zminus_mod_idemp_l; f_equal; lia.
    + intros r k. step_cases pc call; repeat case_match; simplify_eq/=; intros Hrk; try (left; by eapply Hjp);
        try (left; by eapply Hjb).
      * right. exists tid, key, mutation, revision. rewrite lookup_insert_eq. split_and!; [done..|].
        rewrite sm_get_insert in Hrk. case_decide; [lia|]. specialize (Hjb _ _ _ _ _ _ _ eq_refl eq_refl H Hrk). lia.
      * left. rewrite sm_get_remove in Hrk. case_decide; [done|]. by eapply Hjp.
Qed.

Lemma step_guard now call pc st e pc' g :
  pc_ok call pc → step now call pc st = Some (e, pc') → guard_of call pc' = Some g →
  guard_of call pc = Some g ∨ needs call pc = Some g.
Proof.
  intros Hok Hs Hg. step_cases pc call; repeat case_match; simplify_eq/=; auto; by destruct Hok as [_ ?]; congruence.
Qed.

Lemma conf_inv_new : conf_inv shard conf_new.
Proof. split; simpl; intros *; by rewrite ?dm_get_new, ?lookup_empty. Qed.

Lemma conf_inv_call c tid call :
  conf_inv shard c → c_threads c !! tid = None →
  conf_inv shard (mkConf (c_store c) (<[tid := (call, Start)]> (c_threads c)) (c_trace c ++ [ECall tid call])).
Proof.
  intros Hi Hf. split; simpl.
  - apply Hi.
  - intros t1 t2 call1 pc1 call2 pc2 g1 g2 Hne [[<- [= <- <-]]|[? H1]]%lookup_insert_Some; [done|].
    intros [[<- [= <- <-]]|[? H2]]%lookup_insert_Some; [done|]. by apply (ci_locks _ _ Hi t1 t2).
  - intros t call' pc [[<- [= <- <-]]|[? Ht]]%lookup_insert_Some; [|by eapply ci_thread]. by split.
  - intros pid p Hp. destruct (ci_partition _ _ Hi _ _ Hp) as [Hk Hj Hr Hw Hpb]. split; [done..| |].
    + rewrite writers_insert, Hf. simpl. rewrite Hw. f_equal. lia.
    + intros r k Hrk. destruct (Hpb _ _ Hrk) as [?|(t & key & m & rev & Ht & ? & ?)]; [by left|right].
      exists t, key, m, rev. rewrite lookup_insert_ne by congruence. done.
Qed.

Lemma conf_inv_step c c' : conf_inv shard c → conf_step shard c c' → conf_inv shard c'.
Proof.
  intros Hi Hs. destruct Hs as [c tid call Hf|c tid call pc now e pc' Ht Hn Hlt Hs]; [by apply conf_inv_call|].
  pose proof (effect_next e (c_store c) (ci_next _ _ Hi) Hlt) as Hnx.
  pose proof (ti_pc _ _ _ (ci_thread _ _ Hi _ _ _ Ht)) as Hok.
  assert (∀ t call' pc1 g g', t ≠ tid → c_threads c !! t = Some (call', pc1) → guard_of call' pc1 = Some g' →
    guard_of call pc' = Some g → compatible shard g g') as Hnew.
  { intros t call' pc1 g g' Hne Ht' Hg' Hg. eapply access_compatible; [exact Hi|exact Ht|exact Hn|exact Hne|exact Ht'|exact Hg'|]. by eapply step_guard. }
  split; simpl.
  - pose proof (ci_next _ _ Hi). lia.
  - intros t1 t2 call1 pc1 call2 pc2 g1 g2 Hne H1 H2 Hg1 Hg2.
    apply lookup_insert_Some in H1 as [[<- [= <- <-]]|[Hn1 H1]];
      apply lookup_insert_Some in H2 as [[<- [= <- <-]]|[Hn2 H2]].
    + done.
    + by eapply (Hnew t2).
    + intros Hsh. destruct (Hnew t1 call1 pc1 g2 g1 Hne H1 Hg1 Hg2) as [? ?]; [congruence|done].
    + by apply (ci_locks _ _ Hi t1 t2 _ _ _ _ _ _ Hne H1 H2).
  - intros t call' pc1 [[<- [= <- <-]]|[Hne Ht']]%lookup_insert_Some; [by eapply step_thread_inv|].
    eapply thread_inv_frame; [by eapply ci_thread|lia|]. intros pid mode Hg.
    eapply effect_frame; [done|]. intros g Hacc. by eapply (access_compatible c tid call pc t).
  - intros pid p Hp. destruct e as [|pid' p'|pid'|]; simpl in *.
    + by eapply (partition_inv_other _ _ _ _ _ Keep); [..|intros [? ?]|].
    + rewrite dm_get_insert in Hp. case_decide; simplify_eq; [by eapply partition_inv_set|].
      eapply (partition_inv_other _ _ _ _ _ (SetPartition pid' p')); [done..| |done]. by intros [? [= ->]].
    + rewrite dm_get_remove in Hp. case_decide; [done|].
      by eapply (partition_inv_other _ _ _ _ _ (RemovePartition pid')); [..|intros [? ?]|].
    + by eapply (partition_inv_other _ _ _ _ _ NextRevision); [..|intros [? ?]|].
Qed.

Lemma conf_reachable_inv c : conf_reachable shard c → conf_inv shard c.
Proof. induction 1; [apply conf_inv_new|by eapply conf_inv_step]. Qed.

End proofs.
