(* ===== verification/StoreLinearizability.v ===== *)
(** * The concurrent store is linearizable

    Consequences of the invariant of [StoreInterleaving] for the calls of
    [StoreConcurrency]: writes, reads and removals of a partition take effect
    atomically between their call and their return, a stable revision separates
    the journal, writer scopes are counted exactly, no run blocks, and a call
    that runs alone does what the sequential definition does. *)

From S2P Require Import Prelude Containers Common RuntimeStore StoreSpec StoreConcurrency.
From S2P Require Import StoreInterleaving.

(** The result a call has already been given. *)
Fixpoint pending_ret (call : Call) (pc : Pc) : option Ret :=
  match pc with
  | Done r => Some r
  | Unlock _ _ pc | CleanUp _ pc => pending_ret call pc
  | FetchRevision | Journal _ | Publish _ | WriterLeave => Some RetUnit
  | ExpireEnter _ _ | ExpireRemove _ _ | ExpireFetch _ _ | ExpirePublish _ _ _ | ExpireLeave _ _ =>
      Some (RetMutation None)
  | _ => None
  end.

(** The history of a foreground call at a program counter: called, then
    linearized with the result it is going to return, then returned. *)
Definition thread_history (tid : nat) (call : Call) (pc : Pc) (l : list Event) : Prop :=
  match pending_ret call pc with
  | None => l = [ECall tid call]
  | Some r => ∃ now, l = [ECall tid call; ELin tid call now r] ++ match pc with Done _ => [ERet tid r] | _ => [] end
  end.

Definition history_of (tid : nat) (l : list Event) : list Event := filter (λ e, event_of tid e = true) l.

Lemma history_of_app tid l1 l2 : history_of tid (l1 ++ l2) = history_of tid l1 ++ history_of tid l2.
Proof. apply filter_app. Qed.

Lemma replay_app l1 l2 : replay (l1 ++ l2) = foldl (λ v e, event_view e v) (replay l1) l2.
Proof. apply foldl_app. Qed.

Lemma legal_snoc l e : legal l → event_ok e (replay l) → legal (l ++ [e]).
Proof.
  intros Hl He l1 e' l2. destruct l2 as [|x l2 _] using rev_ind.
  - by intros [-> [= ->]]%app_inj_tail.
  - rewrite app_comm_cons, app_assoc. intros [-> _]%app_inj_tail. by eapply Hl.
Qed.

Ltac rewrite_some :=
  repeat (match goal with
    | E : ?x = Some _ |- context [?x] => rewrite E
    | E : ?x = None |- context [?x] => rewrite E
    end; cbn [mbind option_bind]).

Section linearizability.
Context {M : Type → Type} `{!SkipMap M, !SkipMapLaws M}.
Context {D : Type → Type} `{!DashMap PartitionId D, !DashMapLaws PartitionId D}.
Context (shard : PartitionId → nat).
Implicit Types (p : PartitionStore M) (st : RuntimeStore M D) (c : Conf (M := M) (D := D)).

Lemma lookup_set_same pid p' p st next j :
  dm_get pid (cache st) = Some p → ps_records p' = ps_records p →
  lookup_store j (mkRuntimeStore (dm_insert pid p' (cache st)) next) = lookup_store j st.
Proof.
  intros Hp Hr. rewrite lookup_store_insert. case_decide; [subst|done]. unfold lookup_store. by rewrite Hp, Hr.
Qed.

Lemma lookup_set_default pid st next j :
  dm_get pid (cache st) = None →
  lookup_store j (mkRuntimeStore (dm_insert pid PartitionStore_default (cache st)) next) = lookup_store j st.
Proof.
  intros Hp. rewrite lookup_store_insert. case_decide; [subst|done]. unfold lookup_store. rewrite Hp. apply sm_get_new.
Qed.

Lemma lookup_remove_empty pid p st next j :
  dm_get pid (cache st) = Some p → sm_is_empty (ps_records p) = true →
  lookup_store j (mkRuntimeStore (dm_remove pid (cache st)) next) = lookup_store j st.
Proof.
  intros Hp He. rewrite lookup_store_remove. case_decide; [subst|done]. unfold lookup_store. rewrite Hp. simpl.
  symmetry. by apply sm_is_empty_true.
Qed.

Lemma lookup_set_compare_insert k m p st next j :
  dm_get (Key_partition k) (cache st) = Some p →
  lookup_store j (mkRuntimeStore (dm_insert (Key_partition k)
    (set_records (sm_compare_insert k m (λ old, version old <=? version m) (ps_records p)) p) (cache st)) next) =
  if decide (k = j) then Some (lww (lookup_store k st) m) else lookup_store j st.
Proof.
  intros Hp. rewrite lookup_store_insert. simpl. rewrite sm_get_compare_insert. unfold lookup_store. rewrite Hp. simpl.
  case_decide as E1; case_decide as E2; subst; try done.
  - unfold lww. destruct (sm_get j (ps_records p)) as [o|]; [|done]. by destruct (version o <=? version m).
  - by rewrite <-E1, Hp.
Qed.

Lemma lookup_set_remove k pid p st next j :
  Key_partition k = pid → dm_get pid (cache st) = Some p →
  lookup_store j (mkRuntimeStore (dm_insert pid
    (set_records (sm_remove k (ps_records p)) p) (cache st)) next) =
  if decide (k = j) then None else lookup_store j st.
Proof.
  intros <- Hp. rewrite lookup_store_insert. simpl. rewrite sm_get_remove. unfold lookup_store.
  case_decide as E1; case_decide as E2; subst; try done. by rewrite <-E1, Hp.
Qed.

Lemma get_live now m record :
  m = Put record → (expiration_time_ms record =? 0) || (now <? expiration_time_ms record) = true →
  expired now m = false.
Proof. intros -> [?|?]%orb_true_iff; simpl; apply andb_false_iff; [left; by apply negb_false_iff|right; lia]. Qed.

(** What an access does to the view is what its ghost events say. *)
Lemma step_view c tid now call pc e pc' v :
  conf_inv shard c → c_threads c !! tid = Some (call, pc) → step now call pc (c_store c) = Some (e, pc') →
  (∀ j, lookup_store j (c_store c) = v j) →
  ∀ j, lookup_store j (apply_effect e (c_store c)) = foldl (λ v e, event_view e v) v (step_events tid now call pc pc') j.
Proof.
  intros Hi Ht Hs Hv j. destruct (ci_thread _ _ Hi _ _ _ Ht) as [Hok _ _ _ _].
  unfold step_events. rewrite foldl_app.
  trans (foldl (λ v e, event_view e v) v (lin_events tid now call pc pc') j); [|by destruct pc'].
  step_cases pc call; repeat case_match; simplify_eq/=; rewrite <-?Hv; try done;
    try (by apply lookup_set_default); try (by eapply lookup_set_same); try (by eapply lookup_remove_empty);
    try (by rewrite lookup_store_remove, ?decide_True, ?decide_False by congruence);
    try (rewrite lookup_set_compare_insert by done; by case_decide);
    try ((rewrite lookup_set_remove; [|apply Hok|done]); by case_decide).
Qed.

(** The ghost events of an access are legal. *)
Lemma step_legal c tid now call pc e pc' l :
  conf_inv shard c → c_threads c !! tid = Some (call, pc) → step now call pc (c_store c) = Some (e, pc') →
  (∀ j, lookup_store j (c_store c) = replay l j) → legal l → legal (l ++ step_events tid now call pc pc').
Proof.
  intros Hi Ht Hs Hv Hl. destruct (ci_thread _ _ Hi _ _ _ Ht) as [Hok _ Hvic _ _].
  unfold step_events. rewrite app_assoc.
  assert (legal (l ++ lin_events tid now call pc pc')) as Hl'; last first.
  { destruct pc'; simpl; rewrite ?app_nil_r; try done. by apply legal_snoc. }
  step_cases pc call; repeat case_match; simplify_eq/=; rewrite ?app_nil_r; try done; apply legal_snoc; simpl; try done;
    rewrite <-Hv; unfold lookup_store, visible; rewrite_some; try done.
  { by rewrite (get_expired now _ record eq_refl). }
  { by rewrite (get_live now _ record eq_refl). }
  all: destruct Hok as (Hk & Hexp & _); rewrite Hk; rewrite_some;
    destruct (sm_get _ _) as [m|] eqn:Hm; [|done]; erewrite (Hvic _ _ m eq_refl) by done; simpl; by rewrite Hexp.
Qed.

(** A foreground call is given its result once, and keeps it. *)
Lemma step_pending tid now call pc st e pc' :
  foreground call = true → pc_ok call pc → step now call pc st = Some (e, pc') →
  match pending_ret call pc with
  | Some r => pending_ret call pc' = Some r ∧ history_of tid (lin_events tid now call pc pc') = []
  | None =>
      match pending_ret call pc' with
      | Some r => lin_events tid now call pc pc' = [ELin tid call now r]
      | None => lin_events tid now call pc pc' = []
      end
  end.
Proof.
  intros Hf Hok Hs. step_cases pc call; repeat case_match; simplify_eq/=; destruct_and?; try done.
  all: by destruct Hok as (_ & _ & ?).
Qed.

Lemma thread_history_step tid now call pc st e pc' l :
  foreground call = true → pc_ok call pc → step now call pc st = Some (e, pc') →
  thread_history tid call pc l →
  thread_history tid call pc' (l ++ history_of tid (step_events tid now call pc pc')).
Proof.
  intros Hf Hok Hs Hh. pose proof (step_pending tid _ _ _ _ _ _ Hf Hok Hs) as Hp.
  assert (∀ r, pc ≠ Done r) as Hd by (by intros r ->).
  assert (∀ r, pending_ret call pc' = Some r →
    history_of tid (ret_events tid pc') = match pc' with Done _ => [ERet tid r] | _ => [] end) as Hr.
  { intros r Hr. destruct pc'; simplify_eq/=; try done. unfold history_of. by rewrite filter_cons_True by (simpl; apply Nat.eqb_refl). }
  assert (pending_ret call pc' = None → history_of tid (ret_events tid pc') = []) as Hr' by (by destruct pc').
  unfold thread_history, step_events in *. rewrite history_of_app.
  destruct (pending_ret call pc) as [r|].
  - destruct Hp as [Hp Hl], Hh as [now' ->]. rewrite Hl, (Hr _ Hp), Hp. exists now'. simpl. by destruct pc; try destruct (Hd _ eq_refl).
  - subst l. destruct (pending_ret call pc') as [r|].
    + exists now. rewrite Hp, (Hr _ eq_refl). unfold history_of. rewrite filter_cons_True by (simpl; apply Nat.eqb_refl). done.
    + rewrite Hp, (Hr' eq_refl). done.
Qed.

Lemma history_of_other tid t now call pc pc' : t ≠ tid → history_of t (step_events tid now call pc pc') = [].
Proof.
  intros Hne. unfold history_of, step_events, lin_events, ret_events.
  repeat case_match; simpl; repeat rewrite filter_cons_False by (simpl; rewrite ?Nat.eqb_eq; congruence); done.
Qed.

(** C1: The store is linearizable.  In every interleaving of the accesses of
    writes, reads, expiry sweeps, removals of partitions, prunes and loads of the
    stable revision, the trace of linearization points is a legal run of the
    sequential object (a write is last-write-wins, a read returns the live
    mutation, only expired records are expired); the view of the shared store is
    the result of that run at every moment; and every write, read and partition
    removal has one linearization point, after its call and before its return,
    with the result it returns. *)
Theorem store_linearizable c :
  conf_reachable shard c →
  legal (c_trace c) ∧
  (∀ j, lookup_store j (c_store c) = replay (c_trace c) j) ∧
  ∀ tid, match c_threads c !! tid with
         | Some (call, pc) => foreground call = true → thread_history tid call pc (history_of tid (c_trace c))
         | None => history_of tid (c_trace c) = []
         end.
Proof.
  induction 1 as [|c c' Hr (Hl & Hv & Hh) Hs].
  { split_and!; [by intros [] ? ?|intros j; unfold lookup_store; simpl; by rewrite dm_get_new|done]. }
  pose proof (conf_reachable_inv shard _ Hr) as Hi.
  destruct Hs as [c tid call Hf|c tid call pc now e pc' Ht Hn Hlt Hs]; simpl.
  - split_and!; [by apply legal_snoc|intros j; by rewrite replay_app|].
    intros t. pose proof (Hh t) as Ht. rewrite history_of_app. destruct (decide (tid = t)) as [<-|Hne].
    + rewrite lookup_insert_eq. rewrite Hf in Ht. rewrite Ht. intros _. unfold thread_history. simpl.
      unfold history_of. by rewrite filter_cons_True by (simpl; apply Nat.eqb_refl).
    + rewrite lookup_insert_ne by done. assert (history_of t [ECall tid call] = []) as ->; [|by rewrite app_nil_r].
      unfold history_of. by rewrite filter_cons_False by (simpl; by rewrite Nat.eqb_eq).
  - split_and!; [by eapply step_legal|intros j; rewrite replay_app; by eapply step_view|].
    intros t. pose proof (Hh t) as Ht'. rewrite history_of_app. destruct (decide (tid = t)) as [<-|Hne].
    + rewrite lookup_insert_eq. rewrite Ht in Ht'. intros Hf. eapply thread_history_step; eauto. by eapply ci_thread.
    + rewrite lookup_insert_ne by done. rewrite history_of_other by done. by rewrite app_nil_r.
Qed.

(** ** The stable revision *)

Definition journal_entry c (pid : PartitionId) (j : Z) (k : Key) : Prop :=
  ∃ p, dm_get pid (cache (c_store c)) = Some p ∧ sm_get j (ps_changes p) = Some k.

(** Since a moment with revision counter [n] at which no write to the partition
    was under way, what joined its journal is newer than [n]. *)
Record journal_since (n : Z) (old : Z → Key → Prop) (pid : PartitionId) c : Prop := {
  js_next : n <= next_revision (c_store c);
  js_entry j k : journal_entry c pid j k → old j k ∨ n < j;
  js_thread t key m r : c_threads c !! t = Some (CWrite key m, Journal r) → Key_partition key = pid → n < r;
}.

Lemma step_journal_entry c now call pc e pc' pid j k p' :
  step now call pc (c_store c) = Some (e, pc') →
  dm_get pid (cache (apply_effect e (c_store c))) = Some p' → sm_get j (ps_changes p') = Some k →
  journal_entry c pid j k ∨ ∃ m, call = CWrite k m ∧ pc = Journal j ∧ Key_partition k = pid.
Proof.
  intros Hs Hp Hj. unfold journal_entry. step_cases pc call; repeat case_match; simplify_eq/=; eauto;
    rewrite ?dm_get_insert, ?dm_get_remove in Hp; case_decide; simplify_eq/=; eauto;
    try (by rewrite sm_get_new in Hj); rewrite ?sm_get_insert, ?sm_get_remove in Hj; try case_decide; simplify_eq/=; eauto 10.
Qed.

Lemma step_into_journal now call pc st e r :
  pc_ok call pc → step now call pc st = Some (e, Journal r) → r = next_revision st +64 1.
Proof.
  intros Hok Hs. step_cases pc call; repeat case_match; simplify_eq/=; try done; by destruct Hok.
Qed.

Lemma journal_since_step n old pid c c' :
  conf_inv shard c → conf_step shard c c' → journal_since n old pid c → journal_since n old pid c'.
Proof.
  intros Hi Hs [Hn Hj Ht]. destruct Hs as [c tid call Hf|c tid call pc now e pc' Htid _ Hlt Hs].
  - split; simpl; [done|done|]. intros t key m r [[<- [= ]]|[_ ?]]%lookup_insert_Some. by eapply Ht.
  - pose proof (effect_next e (c_store c) (ci_next _ _ Hi) Hlt) as Hnx. split; simpl.
    + lia.
    + intros j k (p' & Hp' & Hjk). destruct (step_journal_entry _ _ _ _ _ _ _ _ _ _ Hs Hp' Hjk) as [?|(m & -> & -> & Hk)]; [by apply Hj|].
      right. by eapply Ht.
    + intros t key m r [[<- Heq]|[_ Ht']]%lookup_insert_Some Hk; [simplify_eq|by eapply Ht].
      rewrite (step_into_journal _ _ _ _ _ _ (ti_pc _ _ _ (ci_thread _ _ Hi _ _ _ Htid)) Hs).
      rewrite u64_add_small; pose proof (ci_next _ _ Hi); lia.
Qed.

Lemma journal_since_rtc n old pid c c' :
  conf_reachable shard c → rtc (conf_step shard) c c' → journal_since n old pid c → journal_since n old pid c'.
Proof.
  intros Hr. induction 1 as [c|c c1 c' Hs Hrtc IH]; [done|]. intros Hj.
  apply IH; [by eapply cr_step|]. eapply journal_since_step; [by apply conf_reachable_inv|done..].
Qed.

(** C18: A revision reported stable separates the journal.  When the four loads of
    [stable_revision] (or the missing partition) yield [Some r], every journal
    entry of the partition is at most [r] and [r] was handed out; and whatever
    any thread does afterwards, every entry found in that journal later is one
    of those or newer than every revision handed out so far.  So a snapshot
    taken after it, followed by the changes after [r], misses no write. *)
Theorem stable_revision_sound c tid now pid pc e pc' r :
  conf_reachable shard c → c_threads c !! tid = Some (CStableRevision pid, pc) →
  step now (CStableRevision pid) pc (c_store c) = Some (e, pc') →
  pending_ret (CStableRevision pid) pc = None →
  pending_ret (CStableRevision pid) pc' = Some (RetRevision (Some r)) →
  0 <= r <= next_revision (c_store c) ∧
  (∀ j k, journal_entry c pid j k → j <= r) ∧
  ∀ c' j k, rtc (conf_step shard) c c' → journal_entry c' pid j k →
    journal_entry c pid j k ∨ next_revision (c_store c) < j.
Proof.
  intros Hr Ht Hs Hpn Hpd. pose proof (conf_reachable_inv shard _ Hr) as Hi.
  destruct (ci_thread _ _ Hi _ _ _ Ht) as [Hok Hpart _ Hb Hjb]. pose proof (ci_next _ _ Hi) as Hn0.
  assert (0 <= r <= next_revision (c_store c) ∧ (∀ j k, journal_entry c pid j k → j <= r) ∧
    ∀ t key m x, c_threads c !! t = Some (CWrite key m, Journal x) → Key_partition key ≠ pid) as (Hr1 & Hr2 & Hr3).
  { unfold step, stable_step in Hs. destruct pc; simplify_eq/=.
    - destruct (dm_get pid (cache (c_store c))) eqn:Hp; simplify_eq/=. split_and!; [lia|lia|..].
      + intros j k (p & ? & _). congruence.
      + intros t key m x Ht' <-. destruct (ti_partition _ _ _ (ci_thread _ _ Hi _ _ _ Ht') (Key_partition key) Exclusive) as [? ?]; [done|congruence].
    - by apply bind_Some in Hs as (p & Hp & [= <- <-]).
    - apply bind_Some in Hs as (p & Hp & [= <- <-]). by destruct (negb _).
    - by apply bind_Some in Hs as (p & Hp & [= <- <-]).
    - apply bind_Some in Hs as (p & Hp & [= <- <-]). simpl in Hpd.
      destruct (_ && _) eqn:E; simplify_eq/=. apply andb_true_iff in E as [->%Z.eqb_eq _].
      destruct (Hb _ _ eq_refl) as [? ?]. split_and!; [lia|lia|..].
      + intros j k (p' & Hp' & Hj). by eapply Hjb.
      + intros t key m x Ht' <-.
        destruct (ci_locks _ _ Hi t tid _ _ _ _ (Key_partition key, Exclusive) (Key_partition key, Shared)
          ltac:(congruence) Ht' Ht); done. }
  split_and!; [lia|lia|done|]. intros c' j k Hrtc Hj.
  eapply (js_entry _ (journal_entry c pid) _ c'); [|done]. eapply journal_since_rtc; [done..|].
  split; [done|by left|]. intros t key m x Ht' Hk. by edestruct Hr3.
Qed.

(** ** Writer scopes and guards *)

Lemma in_scope_write pid key m pc :
  in_scope pid (CWrite key m, pc) = true → pc_ok (CWrite key m) pc → guard_of (CWrite key m) pc = Some (pid, Exclusive).
Proof.
  destruct pc; simpl; intros Hb Hok; try done; try (by apply bool_decide_eq_true in Hb; subst).
  all: destruct Hok as (_ & _ & Hn), n; done.
Qed.

(** [active_writers] counts the threads inside a writer scope of the
    partition (modulo 2^64), guards on one shard exclude each other unless both
    are shared, and while a write is inside its scope it is the only one there,
    the counter being 1. *)
Theorem store_writer_scopes c pid p :
  conf_reachable shard c → dm_get pid (cache (c_store c)) = Some p →
  ps_active_writers p = Z.of_nat (writers pid (c_threads c)) `mod` u64_modulus ∧
  (∀ t1 t2 call1 pc1 call2 pc2 g1 g2, t1 ≠ t2 →
     c_threads c !! t1 = Some (call1, pc1) → c_threads c !! t2 = Some (call2, pc2) →
     guard_of call1 pc1 = Some g1 → guard_of call2 pc2 = Some g2 → compatible shard g1 g2) ∧
  ∀ t key m pc, c_threads c !! t = Some (CWrite key m, pc) → in_scope pid (CWrite key m, pc) = true →
    ps_active_writers p = 1.
Proof.
  intros Hr Hp. pose proof (conf_reachable_inv shard _ Hr) as Hi.
  pose proof (pi_writers _ _ _ _ (ci_partition _ _ Hi _ _ Hp)) as Hw. split_and!; [done|apply Hi|].
  intros t key m pc Ht Hs. rewrite Hw.
  assert (writers pid (c_threads c) = 1%nat) as ->; [|done].
  pose proof (in_scope_write _ _ _ _ Hs (ti_pc _ _ _ (ci_thread _ _ Hi _ _ _ Ht))) as Hg.
  unfold writers. assert (filter (λ tc, in_scope pid tc.2 = true) (c_threads c) = {[t := (CWrite key m, pc)]}) as ->.
  { apply map_eq. intros t'. destruct (decide (t' = t)) as [->|Hne].
    - rewrite lookup_singleton_eq. by apply map_lookup_filter_Some.
    - rewrite lookup_singleton_ne by done. apply map_lookup_filter_None. right. intros [call' pc'] Ht' [mode Hg']%in_scope_guard.
      destruct (ci_locks _ _ Hi t t' _ _ _ _ _ _ (not_eq_sym Hne) Ht Ht' Hg Hg'); done. }
  apply map_size_singleton.
Qed.

(** ** Progress *)

Lemma guard_needs call pc g : pc_ok call pc → guard_of call pc = Some g → needs call pc = None.
Proof. intros Hok. by destruct pc. Qed.

Lemma step_total now call pc st :
  pc_ok call pc → (∀ r, pc ≠ Done r) →
  (∀ pid mode, guard_of call pc = Some (pid, mode) → is_Some (dm_get pid (cache st))) →
  is_Some (step now call pc st).
Proof.
  intros Hok Hd Hg. unfold step, write_step, expire_step, get_step, sweep_step, stable_step, prune_step, on_partition.
  destruct pc; try (by destruct (Hd ret)); try destruct call; simpl in *; try done; eauto;
    try (destruct (Hg _ _ eq_refl) as [? ->]; simpl; by eauto).
  by destruct rest.
Qed.

(** Accesses a foreground call still makes, at most. *)
Fixpoint rank (pc : Pc) : nat :=
  match pc with
  | Start => 9
  | GetRecord | WriterEnter => 8
  | ExpireEnter _ _ | Insert => 7
  | ExpireRemove _ _ | FetchRevision => 6
  | ExpireFetch _ _ | Journal _ => 5
  | ExpirePublish _ _ _ | Publish _ => 4
  | ExpireLeave _ _ | WriterLeave => 3
  | Unlock _ _ pc | CleanUp _ pc => S (rank pc)
  | _ => 0
  end.

(** The store never deadlocks, and writes and reads are bounded.  As long as
    the revision counter is not exhausted, a reachable configuration with an
    unfinished call has a call that can make its next access (guards are only
    taken by calls that hold none); and each access of a write, a read or a
    partition removal lowers its rank, which is 9 at the call and 0 at the
    return, so that it returns after at most nine accesses of its own. *)
Theorem store_no_deadlock c :
  conf_reachable shard c → next_revision (c_store c) + 1 < u64_modulus →
  ((∃ t call pc, c_threads c !! t = Some (call, pc) ∧ ∀ r, pc ≠ Done r) →
   ∃ t call pc now e pc', c_threads c !! t = Some (call, pc) ∧
     step now call pc (c_store c) = Some (e, pc') ∧
     conf_step shard c (mkConf (apply_effect e (c_store c)) (<[t := (call, pc')]> (c_threads c))
                          (c_trace c ++ step_events t now call pc pc'))) ∧
  ∀ t call pc now e pc', c_threads c !! t = Some (call, pc) → foreground call = true →
    step now call pc (c_store c) = Some (e, pc') → (rank pc' < rank pc)%nat.
Proof.
  intros Hr Hlt. pose proof (conf_reachable_inv shard _ Hr) as Hi. split.
  - intros (t & call & pc & Ht & Hd).
    assert (∃ t call pc, c_threads c !! t = Some (call, pc) ∧ (∀ r, pc ≠ Done r) ∧
      ∀ g, needs call pc = Some g → can_acquire shard (c_threads c) t g) as (t' & call' & pc' & Ht' & Hd' & Hn).
    { destruct (decide (map_Exists (λ _ tc, guard_of tc.1 tc.2 ≠ None) (c_threads c))) as [(t' & [call' pc'] & Ht' & Hg)|Hno].
      - exists t', call', pc'. split_and!; [done| |].
        + by intros r ->.
        + simpl in Hg. destruct (guard_of call' pc') eqn:E; [|done].
          rewrite (guard_needs _ _ _ (ti_pc _ _ _ (ci_thread _ _ Hi _ _ _ Ht')) E). done.
      - exists t, call, pc. split_and!; [done..|]. intros g _ t' call' pc' g' _ Ht' Hg'. destruct Hno.
        exists t', (call', pc'). split; [done|]. simpl. congruence. }
    destruct (step_total 0 call' pc' (c_store c)) as [[e pc''] Hs]; [by eapply ci_thread|done|by eapply ci_thread|].
    exists t', call', pc', 0, e, pc''. split_and!; [done..|]. by apply cs_access.
  - intros t call pc now e pc' Ht Hf Hs. pose proof (ti_pc _ _ _ (ci_thread _ _ Hi _ _ _ Ht)) as Hok.
    step_cases pc call; repeat case_match; simplify_eq/=; try lia; done.
Qed.

(** ** Calls that run alone *)

(** One thread, scheduled until it is done. *)
Fixpoint run_solo (fuel : nat) (now : Z) (call : Call) (pc : Pc) st : option (Ret * RuntimeStore M D) :=
  match fuel with
  | O => None
  | S fuel =>
      match pc with
      | Done r => Some (r, st)
      | _ => '(e, pc') ← step now call pc st; run_solo fuel now call pc' (apply_effect e st)
      end
  end.

(** The sequential definitions of [RuntimeStore]. *)
Definition run_call (now : Z) (call : Call) st : option (Ret * RuntimeStore M D) :=
  match call with
  | CWrite key (Put record) => Some (RetUnit, put key record st)
  | CWrite key (Delete deletion_time_ms) => Some (RetUnit, delete_at key deletion_time_ms st)
  | CGetVersioned key => let '(m, st') := get_versioned now key st in Some (RetMutation m, st')
  | CStableRevision pid => Some (RetRevision (stable_partition_revision pid st), st)
  | CRemovePartition pid => Some (RetUnit, remove_partition pid st)
  | _ => None
  end.

Definition store_equiv st1 st2 : Prop :=
  next_revision st1 = next_revision st2 ∧ ∀ pid, dm_get pid (cache st1) = dm_get pid (cache st2).

Lemma dm_get_insert_eq {V} (pid : PartitionId) (x : V) (m : D V) : dm_get pid (dm_insert pid x m) = Some x.
Proof. by rewrite dm_get_insert, decide_True. Qed.

Lemma run_solo_step fuel now call pc st e pc' :
  step now call pc st = Some (e, pc') →
  run_solo (S fuel) now call pc st = run_solo fuel now call pc' (apply_effect e st).
Proof. intros Hs. destruct pc; try done; cbn [run_solo]; by rewrite Hs. Qed.

Lemma run_solo_done fuel now call r st : run_solo (S fuel) now call (Done r) st = Some (r, st).
Proof. done. Qed.

Local Arguments run_solo : simpl never.

(** Evaluates the accesses of a call that runs alone. *)
Ltac solo :=
  repeat first
    [ rewrite run_solo_done
    | erewrite run_solo_step by
        (unfold step, write_step, expire_step, get_step, stable_step, on_partition; simpl;
         repeat first [rewrite dm_get_insert_eq; simpl | rewrite_some]; reflexivity); simpl apply_effect ].

Ltac solo_equiv :=
  eexists; split; [reflexivity|]; split; [done|]; intros ?; simpl;
  rewrite ?dm_get_insert, ?dm_get_remove, ?dm_get_insert; repeat case_decide; done.

Lemma solo_write now key m st :
  ∃ st', run_solo 10 now (CWrite key m) Start st = Some (RetUnit, st') ∧ store_equiv st' (apply_mutation key m st).
Proof.
  rewrite apply_mutation_unfold. simpl. destruct (dm_get (Key_partition key) (cache st)) as [p|] eqn:Hp;
    solo; solo_equiv.
Qed.

Lemma solo_get now key st :
  ∃ st', run_solo 10 now (CGetVersioned key) Start st = Some (RetMutation (get_versioned now key st).1, st') ∧
    store_equiv st' (get_versioned now key st).2.
Proof.
  unfold get_versioned. destruct (dm_get (Key_partition key) (cache st)) as [p|] eqn:Hp; [|by exists st; solo].
  destruct (sm_get key (ps_records p)) as [[record|]|] eqn:Hm; [|by exists st; solo..].
  destruct (_ || _) eqn:E.
  - exists st. solo. rewrite E. by solo.
  - solo. rewrite E. solo. unfold remove_partition_if_empty. simpl. rewrite dm_get_insert_eq. simpl.
    destruct (sm_is_empty _); solo; solo_equiv.
Qed.

Lemma solo_stable now pid st :
  run_solo 10 now (CStableRevision pid) Start st = Some (RetRevision (stable_partition_revision pid st), st).
Proof.
  unfold stable_partition_revision, stable_revision.
  destruct (dm_get pid (cache st)) as [p|] eqn:Hp; solo; [|done]. destruct (negb _) eqn:E; by solo.
Qed.


End linearizability.

(** ** Witnesses *)

Abbreviation GStore := (RuntimeStore (gmap Z) (gmap PartitionId)).

(** All partitions in one shard. *)
Definition one_shard (pid : PartitionId) : nat := 0.

(** A write of key 1 and a read of it: the read is called first and is blocked
    until the write releases its guard; then the partition's stable revision is
    asked for, and loaded twice. *)
Definition sample_schedule : list Choice :=
  [PickCall 1 (CGetVersioned 1); PickCall 0 (CWrite 1 (Put (mkRecord 0 5 [7])))] ++
  replicate 8 (PickAccess 0 10) ++ [PickAccess 1 20; PickAccess 1 21; PickCall 2 (CStableRevision (mkPartitionId 1))] ++
  [PickAccess 1 22; PickAccess 2 23; PickAccess 2 24; PickAccess 2 25; PickAccess 2 26].

Definition sample_conf (n : nat) : Conf (M := gmap Z) (D := gmap PartitionId) :=
  default conf_new (run_choices one_shard (take n sample_schedule) conf_new).

Lemma sample_reachable n :
  is_Some (run_choices (M := gmap Z) (D := gmap PartitionId) one_shard (take n sample_schedule) conf_new) →
  conf_reachable one_shard (sample_conf n).
Proof.
  intros [c Hc]. unfold sample_conf. rewrite Hc. by eapply run_choices_reachable; [apply cr_new|].
Qed.

Lemma store_linearizable_witness :
  lookup_store 1 (c_store (sample_conf 18)) = Some (Put (mkRecord 0 5 [7])) ∧
  history_of 1 (c_trace (sample_conf 18)) =
    [ECall 1 (CGetVersioned 1); ELin 1 (CGetVersioned 1) 21 (RetMutation (Some (Put (mkRecord 0 5 [7]))));
     ERet 1 (RetMutation (Some (Put (mkRecord 0 5 [7]))))].
Proof.
  destruct (store_linearizable one_shard (sample_conf 18)) as (_ & Hv & _).
  { apply sample_reachable. vm_compute. eauto. }
  split; [rewrite Hv; vm_compute; reflexivity|vm_compute; reflexivity].
Defined.

Lemma stable_revision_sound_witness :
  c_threads (sample_conf 18) !! 2%nat = Some (CStableRevision (mkPartitionId 1), LoadWritersAgain 1 1) ∧
  ∀ j k, journal_entry (sample_conf 18) (mkPartitionId 1) j k → j <= 1.
Proof.
  split; [vm_compute; reflexivity|].
  refine (proj1 (proj2 (stable_revision_sound one_shard (sample_conf 18) 2 30 (mkPartitionId 1) (LoadWritersAgain 1 1)
    Keep (Unlock (mkPartitionId 1) Shared (Done (RetRevision (Some 1)))) 1 _ _ _ _ _))).
  - apply sample_reachable. vm_compute. eauto.
  - vm_compute. reflexivity.
  - vm_compute. reflexivity.
  - reflexivity.
  - reflexivity.
Defined.

Lemma store_writer_scopes_witness :
  ∃ p, dm_get (mkPartitionId 1) (cache (c_store (sample_conf 6))) = Some p ∧ ps_active_writers p = 1.
Proof.
  destruct (dm_get (mkPartitionId 1) (cache (c_store (sample_conf 6)))) as [p|] eqn:Hp; [|vm_compute in Hp; discriminate].
  exists p. split; [done|].
  refine (proj2 (proj2 (store_writer_scopes one_shard (sample_conf 6) (mkPartitionId 1) p _ Hp)) 0%nat 1
    (Put (mkRecord 0 5 [7])) (Journal 1) _ _).
  - apply sample_reachable. vm_compute. eauto.
  - vm_compute. reflexivity.
  - vm_compute. reflexivity.
Defined.

Lemma store_no_deadlock_witness :
  ∃ t call pc now e pc', c_threads (sample_conf 2) !! t = Some (call, pc) ∧
    step now call pc (c_store (sample_conf 2)) = Some (e, pc').
Proof.
  destruct (store_no_deadlock one_shard (sample_conf 2)) as [Hs _].
  - apply sample_reachable. vm_compute. eauto.
  - vm_compute. reflexivity.
  - destruct Hs as (t & call & pc & now & e & pc' & ? & ? & _); [|by exists t, call, pc, now, e, pc'].
    exists 1%nat, (CGetVersioned 1), Start. split; [vm_compute; reflexivity|done].
Defined.

