(* ===== verification/ManagerState.v ===== *)
(** * Manager state and its small handlers

    [State] (manager/service/state.rs) and the handlers of
    manager/service/connection.rs, heartbeat.rs and cluster_state.rs.  A handler
    takes the state (and what it reads of the clock and the random generator) and
    returns the new state with the messages it pushed on [output], in order.
    Iteration over a [HashMap] is [map_to_list]: one of the orders Rust may use. *)

From S2P Require Import Prelude Common.

Record State := mkState {
  epoch : option Z;
  elected_leader_id : option NodeId;
  nodes : gmap NodeId Node;
  partitions : Partitions;
  workers_with_calculated_partitions : gset NodeId;
}.

(** [State::new], [State::with_epoch] and [State::without_epoch]. *)
Definition State_new (nodes : gmap NodeId Node) (epoch : option Z) : State :=
  mkState epoch None nodes Partitions_default ∅.
Definition with_epoch (nodes : gmap NodeId Node) (epoch : Z) : State := State_new nodes (Some epoch).
Definition without_epoch (nodes : gmap NodeId Node) : State := State_new nodes None.

(** Field updates. *)
Definition set_epoch (e : option Z) (s : State) : State :=
  mkState e (elected_leader_id s) (nodes s) (partitions s) (workers_with_calculated_partitions s).
Definition set_leader (l : option NodeId) (s : State) : State :=
  mkState (epoch s) l (nodes s) (partitions s) (workers_with_calculated_partitions s).
Definition set_nodes (n : gmap NodeId Node) (s : State) : State :=
  mkState (epoch s) (elected_leader_id s) n (partitions s) (workers_with_calculated_partitions s).
Definition set_partitions (p : Partitions) (s : State) : State :=
  mkState (epoch s) (elected_leader_id s) (nodes s) p (workers_with_calculated_partitions s).
Definition set_workers (w : gset NodeId) (s : State) : State :=
  mkState (epoch s) (elected_leader_id s) (nodes s) (partitions s) w.

(** [state.epoch < Some(epoch)] on [Option<u64>]. *)
Definition epoch_lt (e : option Z) (epoch : Z) : bool :=
  match e with None => true | Some e => e <? epoch end.

(** [nodes.keys().filter(|key| *key != me)] *)
Definition other_nodes (me : NodeId) (nodes : gmap NodeId Node) : list NodeId :=
  filter (λ key, key ≠ me) (map_to_list nodes).*1.

(** [nodes.iter().filter(|(key, node)| *key != me && node.is_manager())], keys only. *)
Definition other_managers (me : NodeId) (nodes : gmap NodeId Node) : list NodeId :=
  (filter (λ kn : NodeId * Node, kn.1 ≠ me ∧ is_manager kn.2 = true) (map_to_list nodes)).*1.

(** ** manager/service/connection.rs *)

Definition handle_node_disconnected (s : State) (id : NodeId) : State :=
  match nodes s !! id with
  | Some _ =>
      let s := set_nodes (delete id (nodes s)) s in
      if bool_decide (Some id = elected_leader_id s) || (size (nodes s) =? 1)%nat
      then set_leader None s else s
  | None => s
  end.

Definition handle_new_connection (now : Z) (s : State) (id : option NodeId) (host : string) (port : Z)
    (me : Me) (manager : bool) : State * list ManagerProtocol.t :=
  match id with
  | Some id =>
      if manager then
        (set_nodes (<[id := mkNode host port now Manager]> (nodes s)) s,
         if bool_decide (elected_leader_id s = None) || bool_decide (elected_leader_id s ≠ Some (me_id me))
         then [ManagerProtocol.GetClusterState id] else [])
      else (set_nodes (<[id := mkNode host port now Worker]> (nodes s)) s, [])
  | None => (s, [])
  end.

(** ** manager/service/heartbeat.rs *)

Definition HEARTBEAT_INTERVAL_MS : Z := 200.

(** [heartbeats]; [now] is [now_millis()], [rnd] is [get_random_number()]. *)
Definition heartbeats (now rnd : Z) (s : State) (me : Me) : State * list ManagerProtocol.t :=
  match nodes s !! me_id me with
  | Some node =>
      if is_manager node then
        let '(s, out) :=
          if last_heartbeat node +64 HEARTBEAT_INTERVAL_MS <=? now then
            (set_nodes (<[me_id me := set_last_heartbeat now node]> (nodes s)) s,
             (λ key, ManagerProtocol.Heartbeat key (mkHeartbeat (me_id me) now)) <$>
               other_nodes (me_id me) (nodes s))
          else (s, []) in
        match elected_leader_id s with
        | Some leader =>
            if bool_decide (leader ≠ me_id me) then
              match nodes s !! leader with
              | Some leader_node =>
                  if is_manager leader_node && (last_heartbeat leader_node +64 rnd <? now)
                  then (set_leader None s, out) else (s, out)
              | None => (s, out)
              end
            else (s, out)
        | None => (s, out)
        end
      else (s, [])
  | None => (s, [])
  end.

Definition handle_heartbeat (s : State) (id : NodeId) (ts : Z) (me : Me) : State * list ManagerProtocol.t :=
  match nodes s !! id with
  | None => (s, ManagerProtocol.GetClusterState <$> other_managers (me_id me) (nodes s))
  | Some node =>
      let s := set_nodes (<[id := set_last_heartbeat (Z.max (last_heartbeat node) ts) node]> (nodes s)) s in
      (s, if bool_decide (elected_leader_id s = Some (me_id me)) then
            (λ key, ManagerProtocol.Heartbeat key (mkHeartbeat id ts)) <$>
              filter (λ key, key ≠ id ∧ key ≠ me_id me) (map_to_list (nodes s)).*1
          else [])
  end.

(** ** manager/service/cluster_state.rs *)

(** The [accept] decision, which may already change epoch and leader. *)
Definition accept_cluster_state (s : State) (epoch' : Z) (leader_id : NodeId) : option State :=
  if bool_decide (epoch s = None) || epoch_lt (epoch s) epoch'
  then Some (set_leader (Some leader_id) (set_epoch (Some epoch') s))
  else if bool_decide (epoch s = Some epoch') && bool_decide (elected_leader_id s = Some leader_id)
  then Some s
  else None.

(** One turn of [for item in items]. *)
Definition merge_cluster_node (acc : gmap NodeId Node * list ManagerProtocol.t) (item : ClusterNode)
    : gmap NodeId Node * list ManagerProtocol.t :=
  let '(ns, out) := acc in
  match ns !! cn_id item with
  | Some node =>
      (if last_heartbeat node <? cn_last_heartbeat item
       then <[cn_id item := set_last_heartbeat (cn_last_heartbeat item) node]> ns else ns, out)
  | None =>
      match cn_node_type item with
      | Manager => (ns, out ++ [ManagerProtocol.NewConnection None (cn_host item) (cn_port item) true])
      | Worker =>
          (<[cn_id item := mkNode (cn_host item) (cn_port item) (cn_last_heartbeat item) Worker]> ns, out)
      end
  end.

(** The membership a snapshot leaves before its items are merged. *)
Definition retain_snapshot_nodes (me : NodeId) (items : list ClusterNode) (ns : gmap NodeId Node)
    : gmap NodeId Node :=
  match items with
  | [] => ns
  | _ => map_retain (λ id _, bool_decide (id = me) || bool_decide (id ∈ (cn_id <$> items))) ns
  end.

Definition handle_cluster_state (s : State) (epoch' : Z) (leader_id : NodeId)
    (items : list ClusterNode) (partitions' : Partitions) (me : Me) : State * list ManagerProtocol.t :=
  match accept_cluster_state s epoch' leader_id with
  | Some s =>
      let s := set_partitions partitions' s in
      let '(ns, out) :=
        foldl merge_cluster_node (retain_snapshot_nodes (me_id me) items (nodes s), []) items in
      (set_nodes ns s, out)
  | None => (s, [])
  end.

Definition handle_get_cluster_state (s : State) (id : NodeId) : list ManagerProtocol.t :=
  match epoch s, elected_leader_id s with
  | Some epoch, Some leader_id =>
      [ManagerProtocol.ClusterState id
         (mkClusterState epoch leader_id
            ((λ kn : NodeId * Node,
                mkClusterNode kn.1 (host kn.2) (port kn.2) (last_heartbeat kn.2) (node_type kn.2)) <$>
               map_to_list (nodes s))
            (mkPartitions (mapping (partitions s)) (old_replicas (partitions s))
               (new_replicas (partitions s))))]
  | _, _ => []
  end.

Definition handle_remove_old_partition (s : State) (id replica_id : NodeId) (partition_id : PartitionId)
    (me : Me) : State * list ManagerProtocol.t :=
  let ps := partitions s in
  let s :=
    match old_replicas ps !! partition_id with
    | Some old =>
        let old' := old ∖ {[ replica_id ]} in
        set_partitions
          (mkPartitions (mapping ps)
             (if bool_decide (replica_id ∈ old) && bool_decide (old' = ∅)
              then delete partition_id (old_replicas ps)
              else <[partition_id := old']> (old_replicas ps))
             (new_replicas ps)) s
    | None => s
    end in
  (s, if bool_decide (elected_leader_id s = Some (me_id me)) then
        (λ recipient_id, ManagerProtocol.RemovePartitionFromReplica recipient_id replica_id partition_id) <$>
          filter (λ key, key ≠ replica_id ∧ key ≠ id ∧ key ≠ me_id me) (map_to_list (nodes s)).*1
      else []).

(** ** Lemmas *)

Lemma elem_of_other_nodes me ns n : n ∈ other_nodes me ns ↔ n ≠ me ∧ is_Some (ns !! n).
Proof.
  unfold other_nodes. rewrite list_elem_of_filter, list_elem_of_fmap. split.
  - intros (? & [k x] & -> & Hx%elem_of_map_to_list). eauto.
  - intros (? & x & Hx). split; [done|]. exists (n, x). by rewrite elem_of_map_to_list.
Qed.

Lemma elem_of_other_managers me ns n :
  n ∈ other_managers me ns ↔ n ≠ me ∧ ∃ node, ns !! n = Some node ∧ is_manager node = true.
Proof.
  unfold other_managers. rewrite list_elem_of_fmap. split.
  - intros ([k x] & -> & [[? ?] Hx%elem_of_map_to_list]%list_elem_of_filter). eauto.
  - intros (? & x & Hx & ?). exists (n, x). split; [done|].
    by rewrite list_elem_of_filter, elem_of_map_to_list.
Qed.

Lemma NoDup_other_managers me ns : NoDup (other_managers me ns).
Proof.
  unfold other_managers. eapply sublist_NoDup; [apply (NoDup_fst_map_to_list ns)|].
  apply fmap_sublist, sublist_filter.
Qed.
