(* ===== verification/ManagerElection.v ===== *)
(** * Leader election (manager/service/election.rs)

    The vote handlers and the election timer of one manager. *)

From S2P Require Import Prelude Common ManagerState.

Inductive Election :=
  | Mine (ts : Z) (approvers : gset NodeId)
  | Other (ts : Z) (candidate_id : NodeId).

Definition Election_ts (e : Election) : Z :=
  match e with Mine ts _ => ts | Other ts _ => ts end.

(** [BTreeMap::last_key_value]. *)
Definition last_key_value {V} (m : gmap Z V) : option (Z * V) :=
  k ← max_key (map_to_list m).*1; v ← m !! k; Some (k, v).

(** [start_election_if_needed]; [curr_ts] is [now_millis()], [rnd] is [get_random_number()]. *)
Definition start_election_if_needed (curr_ts rnd : Z) (s : State) (elections : gmap Z Election) (me : Me)
    : gmap Z Election * list ManagerProtocol.t :=
  match epoch s with
  | Some epoch =>
      if bool_decide (elected_leader_id s = None) && (1 <? size (nodes s))%nat then
        let election := last_key_value elections in
        let start_new :=
          match election with
          | Some (_, Mine ts _) => ts +64 rnd <? curr_ts
          | Some (_, Other ts _) => ts +64 rnd <? curr_ts
          | None => true
          end in
        if start_new then
          let next_epoch :=
            match election with
            | Some (last_epoch, _) => Z.max (last_epoch +64 1) (epoch +64 1)
            | None => epoch +64 1
            end in
          ({[ next_epoch := Mine curr_ts ∅ ]},
           (λ node_id, ManagerProtocol.VoteRequest node_id next_epoch curr_ts) <$>
             other_managers (me_id me) (nodes s))
        else (elections, [])
      else (elections, [])
  | None => (elections, [])
  end.

Definition handle_leader (s : State) (id : NodeId) (epoch' ts : Z) (me : Me) (elections : gmap Z Election)
    : State * gmap Z Election * list ManagerProtocol.t :=
  if epoch_lt (epoch s) epoch' then
    match nodes s !! id with
    | Some node =>
        if is_manager node then
          (set_epoch (Some epoch') (set_leader (Some id)
             (set_nodes (<[id := set_last_heartbeat ts node]> (nodes s)) s)), ∅, [])
        else (s, ∅, ManagerProtocol.GetClusterState <$> other_managers (me_id me) (nodes s))
    | None => (s, ∅, ManagerProtocol.GetClusterState <$> other_managers (me_id me) (nodes s))
    end
  else (s, elections, []).

(** The election a vote response counts for, if any. *)
Definition response_election (ts : Z) (leader_id : NodeId) (me : Me) (elections : gmap Z Election)
    : option Z :=
  match last_key_value elections with
  | Some (epoch, Mine election_ts _) =>
      if (election_ts =? ts) && bool_decide (leader_id = me_id me) then Some epoch else None
  | _ => None
  end.

Definition handle_vote_response (s : State) (id leader_id : NodeId) (ts : Z) (me : Me)
    (elections : gmap Z Election) : State * gmap Z Election * list ManagerProtocol.t :=
  match response_election ts leader_id me elections with
  | Some epoch' =>
      match elections !! epoch' with
      | Some (Mine election_ts approvers) =>
          let approvers := approvers ∪ {[ id ]} in
          let managers := other_managers (me_id me) (nodes s) in
          if (size approvers =? length managers)%nat && forallb (λ n, bool_decide (n ∈ approvers)) managers
          then
            (set_epoch (Some epoch') (set_leader (Some (me_id me)) s), ∅,
             (λ key, ManagerProtocol.Leader key epoch' ts) <$> other_nodes (me_id me) (nodes s))
          else (s, <[epoch' := Mine election_ts approvers]> elections, [])
      | _ => (s, elections, [])
      end
  | None =>
      (s, elections,
       if bool_decide (nodes s !! leader_id = None)
       then ManagerProtocol.GetClusterState <$> other_managers (me_id me) (nodes s)
       else [])
  end.

Definition handle_vote_request (s : State) (id : NodeId) (epoch' ts : Z) (elections : gmap Z Election)
    : gmap Z Election * list ManagerProtocol.t :=
  if epoch_lt (epoch s) epoch' then
    let '(add_new, elections) :=
      match last_key_value elections with
      | Some (last_epoch, last_election) =>
          let res := (last_epoch <? epoch') || (ts <? Election_ts last_election) in
          (res, if res then ∅ else elections)
      | None => (true, elections)
      end in
    if add_new then
      (<[epoch' := Other ts id]> elections, [ManagerProtocol.VoteResponse id id ts])
    else
      match elections !! epoch' with
      | Some (Other ts' candidate_id) => (elections, [ManagerProtocol.VoteResponse id candidate_id ts'])
      | _ => (elections, [])
      end
  else (elections, []).

(** ** Lemmas *)

Lemma last_key_value_Some {V} (m : gmap Z V) k v :
  last_key_value m = Some (k, v) → m !! k = Some v ∧ ∀ j, is_Some (m !! j) → j <= k.
Proof.
  unfold last_key_value. intros (k' & Hk & (v' & Hv & [= -> ->])%bind_Some)%bind_Some.
  split; [done|]. intros j [w Hw]. apply max_key_Some in Hk as [_ Hk]. apply Hk.
  apply list_elem_of_fmap. exists (j, w). by rewrite elem_of_map_to_list.
Qed.

Lemma last_key_value_None {V} (m : gmap Z V) : last_key_value m = None ↔ m = ∅.
Proof.
  unfold last_key_value. split.
  - destruct (max_key (map_to_list m).*1) as [k|] eqn:Hk; simpl.
    + apply max_key_Some in Hk as [([k' v] & -> & Hv%elem_of_map_to_list)%list_elem_of_fmap _].
      simpl. by rewrite Hv.
    + intros _. apply max_key_None, fmap_nil_inv, map_to_list_empty_iff in Hk. done.
  - intros ->. by rewrite map_to_list_empty.
Qed.

Lemma last_key_value_singleton {V} k (v : V) : last_key_value {[ k := v ]} = Some (k, v).
Proof.
  unfold last_key_value. rewrite map_to_list_singleton. simpl. by rewrite lookup_singleton_eq.
Qed.
