(* ===== verification/ManagerPartitions.v ===== *)
(** * Partition assignment (manager/service/partitions.rs)

    The leader recomputes the partition mapping when the set of workers changes.
    A panic ([expect], a remainder by zero) is [None]. *)

From S2P Require Import Prelude Common ManagerState.

(** [calc_replica_index]: the [while] loop, then the index.  The loop subtracts
    [total_amount] while it can, so [S replica] turns are enough when
    [total_amount] is positive. *)
Fixpoint reduce_replica (fuel : nat) (total_amount replica : Z) : option Z :=
  match fuel with
  | O => None
  | S fuel =>
      if total_amount <=? replica
      then reduce_replica fuel total_amount (replica - total_amount)
      else Some replica
  end.

Definition calc_replica_index (total_amount master_partition_index replica : Z) : option Z :=
  replica ← reduce_replica (S (Z.to_nat replica)) total_amount replica;
  Some (if master_partition_index <? replica
        then total_amount - (replica - master_partition_index)
        else master_partition_index - replica).

(** One turn of [for replica in 0..replication_factor]. *)
Definition place_replica (vec : list NodeId) (partition : Z)
    (new_mapping : option (gmap PartitionId Partition)) (replica : Z) : option (gmap PartitionId Partition) :=
  new_mapping ← new_mapping;
  let master_partition_index := partition `mod` Z.of_nat (length vec) in
  index ← calc_replica_index (Z.of_nat (length vec)) master_partition_index replica;
  id ← vec !! Z.to_nat index;
  let partition_id := mkPartitionId (as_u16 partition) in
  if replica =? 0 then Some (<[partition_id := mkPartition id ∅]> new_mapping)
  else
    p ← new_mapping !! partition_id;
    Some (<[partition_id := mkPartition (master p) (replicas p ∪ {[ id ]})]> new_mapping).

(** One turn of [for partition in 0..partitions_amount]; [partition % vec.len()]
    panics when [vec] is empty. *)
Definition place_partition (vec : list NodeId) (replication_factor : Z)
    (new_mapping : option (gmap PartitionId Partition)) (partition : Z) : option (gmap PartitionId Partition) :=
  if (length vec =? 0)%nat then None
  else foldl (place_replica vec partition) new_mapping (seqZ 0 replication_factor).

Definition build_mapping (partitions_amount replication_factor : Z) (vec : list NodeId)
    : option (gmap PartitionId Partition) :=
  foldl (place_partition vec replication_factor) (Some ∅) (seqZ 0 partitions_amount).

(** The owners of [new] that did not own the partition before. *)
Definition added_replicas (new old : Partition) : gset NodeId :=
  (if bool_decide (master new ≠ master old) && negb (bool_decide (master new ∈ replicas old))
   then {[ master new ]} else ∅) ∪
  set_retain (λ r, negb (bool_decide (r = master old)) && negb (bool_decide (r ∈ replicas old)))
    (replicas new).

Definition calculate_new_mapping (s : State) (partitions_amount replication_factor : Z) (vec : list NodeId)
    : option State :=
  new_mapping ← build_mapping partitions_amount replication_factor vec;
  let ps := partitions s in
  let new_replicas' :=
    foldl (λ acc (e : PartitionId * Partition),
             match new_mapping !! e.1 with
             | Some new => <[e.1 := added_replicas new e.2]> acc
             | None => acc
             end) (new_replicas ps) (map_to_list (mapping ps)) in
  Some (set_partitions (mkPartitions new_mapping (old_replicas ps) new_replicas') s).

Definition copy_current_mapping_to_old (s : State) (current_keys : list NodeId) : State :=
  let ps := partitions s in
  let old :=
    foldl (λ acc (e : PartitionId * Partition),
             match acc !! e.1 with
             | Some old => <[e.1 := old ∪ replicas e.2 ∪ {[ master e.2 ]}]> acc
             | None => <[e.1 := replicas e.2 ∪ {[ master e.2 ]}]> acc
             end) (old_replicas ps) (map_to_list (mapping ps)) in
  let old :=
    omap (λ old : gset NodeId,
            let old := set_retain (λ n, bool_decide (n ∈ current_keys)) old in
            if bool_decide (old = ∅) then None else Some old) old in
  set_partitions (mkPartitions (mapping ps) old (new_replicas ps)) s.

Definition create_new_workers_state (s : State) : option ClusterState :=
  epoch ← epoch s;
  leader_id ← elected_leader_id s;
  Some (mkClusterState epoch leader_id []
          (mkPartitions (mapping (partitions s)) (old_replicas (partitions s)) (new_replicas (partitions s)))).

(** [BTreeSet<NodeId>] iterates in the order of the identifiers. *)
Definition node_id_le : relation NodeId :=
  λ a b, String.leb (node_id_string a) (node_id_string b) = true.

#[export] Instance node_id_le_dec : RelDecision node_id_le.
Proof. intros a b. unfold node_id_le. apply _. Defined.

Definition current_workers (s : State) : gset NodeId :=
  dom (filter (λ kn : NodeId * Node, is_worker kn.2 = true) (nodes s)).

Definition worker_partitions (s : State) (me : Me) (replication_factor : Z)
    : option (State * list ManagerProtocol.t) :=
  if bool_decide (elected_leader_id s = Some (me_id me)) then
    let current_keys := current_workers s in
    if negb (size (workers_with_calculated_partitions s) =? size current_keys)%nat
       || negb (bool_decide (current_keys = workers_with_calculated_partitions s)) then
      let vec := merge_sort node_id_le (elements current_keys) in
      let s := copy_current_mapping_to_old s vec in
      if (length vec =? 0)%nat then Some (set_workers ∅ s, [])
      else
        s ← calculate_new_mapping s PARTITIONS_AMOUNT replication_factor vec;
        workers_state ← create_new_workers_state s;
        let s := set_workers (list_to_set vec) s in
        Some (s, (λ id, ManagerProtocol.ClusterState id workers_state) <$> other_nodes (me_id me) (nodes s))
    else Some (s, [])
  else Some (s, []).
