(* ===== verification/ManagerService.v ===== *)
(** * The manager's service loop (manager/service.rs)

    [ManagerService] and its three entry points: initialization, the periodic
    tick and the handling of one protocol message (followed by a tick). *)

From S2P Require Import Prelude Common ManagerState ManagerElection ManagerPartitions.

Record ManagerService := mkManagerService {
  me : Me;
  state : option State;
  elections : gmap Z Election;
  config : Config;
}.

(** [RANDOMIZED_ELECTION_TIMEOUT_INTERVAL]: what [get_random_number()] may return. *)
Definition random_ok (rnd : Z) : Prop := 500 <= rnd < 1000.

(** What one tick reads of the clock and of the random generator. *)
Record TickInput := mkTickInput { hb_now : Z; hb_rnd : Z; el_now : Z; el_rnd : Z }.

Definition ManagerService_new (me : Me) (config : Config) : ManagerService :=
  mkManagerService me None ∅ config.

Definition get_init_messages (now : Z) (svc : ManagerService) : ManagerService * list ManagerProtocol.t :=
  match state svc with
  | Some _ => (svc, [])
  | None =>
      let ns : gmap NodeId Node :=
        {[ me_id (me svc) := mkNode (me_host (me svc)) (me_port (me svc)) now Manager ]} in
      match Config_manager_host_port (config svc) with
      | Some (manager_host, manager_port) =>
          (mkManagerService (me svc) (Some (without_epoch ns)) (elections svc) (config svc),
           [ManagerProtocol.NewConnection None manager_host manager_port true])
      | None =>
          (mkManagerService (me svc) (Some (with_epoch ns 0)) (elections svc) (config svc), [])
      end
  end.

(** [tick]; [None] is a panic. *)
Definition tick (i : TickInput) (svc : ManagerService) : option (ManagerService * list ManagerProtocol.t) :=
  match state svc with
  | None => Some (svc, [])
  | Some s =>
      let '(s, out1) := heartbeats (hb_now i) (hb_rnd i) s (me svc) in
      let '(es, out2) := start_election_if_needed (el_now i) (el_rnd i) s (elections svc) (me svc) in
      replication_factor ← Config_replication_factor (config svc);
      '(s, out3) ← worker_partitions s (me svc) replication_factor;
      Some (mkManagerService (me svc) (Some s) es (config svc), out1 ++ out2 ++ out3)
  end.

(** The [match msg] of [process]; [now] is what [handle_new_connection] reads. *)
Definition dispatch (now : Z) (msg : ManagerProtocol.t) (me : Me) (s : State) (es : gmap Z Election)
    : State * gmap Z Election * list ManagerProtocol.t :=
  match msg with
  | ManagerProtocol.RemovePartitionFromReplica id replica_id partition_id =>
      let '(s, out) := handle_remove_old_partition s id replica_id partition_id me in (s, es, out)
  | ManagerProtocol.NewConnection id host port manager =>
      let '(s, out) := handle_new_connection now s id host port me manager in (s, es, out)
  | ManagerProtocol.Heartbeat _ heartbeat =>
      let '(s, out) := handle_heartbeat s (hb_id heartbeat) (hb_ts heartbeat) me in (s, es, out)
  | ManagerProtocol.GetClusterState id => (s, es, handle_get_cluster_state s id)
  | ManagerProtocol.ClusterState _ cs =>
      let '(s, out) :=
        handle_cluster_state s (cs_epoch cs) (cs_leader_id cs) (cs_nodes cs) (cs_partitions cs) me in
      (s, es, out)
  | ManagerProtocol.VoteRequest id epoch ts =>
      let '(es, out) := handle_vote_request s id epoch ts es in (s, es, out)
  | ManagerProtocol.VoteResponse id leader_id ts => handle_vote_response s id leader_id ts me es
  | ManagerProtocol.Leader id epoch ts => handle_leader s id epoch ts me es
  | ManagerProtocol.NodeDisconnected id => (handle_node_disconnected s id, es, [])
  end.

Definition process (now : Z) (i : TickInput) (msg : ManagerProtocol.t) (svc : ManagerService)
    : option (ManagerService * list ManagerProtocol.t) :=
  let '(svc, out) :=
    match state svc with
    | Some s =>
        let '(s, es, out) := dispatch now msg (me svc) s (elections svc) in
        (mkManagerService (me svc) (Some s) es (config svc), out)
    | None => (svc, [])
    end in
  '(svc, out') ← tick i svc;
  Some (svc, out ++ out').
