(* ===== verification/PartitionSpec.v ===== *)
(** * Specification of partition assignment

    Closed forms for the leader's partition mapping and for the bookkeeping of a
    rebalance, and the properties that make an assignment good: every partition
    is owned, by as many distinct workers as can be, evenly, and no worker that
    may hold data is forgotten. *)

From S2P Require Import Prelude Common ManagerState ManagerPartitions.

(** ** Reference definitions *)

(** Position of the [i]-th copy of partition [p] among [n] workers: walk
    backwards around the ring from [p mod n]. *)
Definition replica_index (n p i : Z) : nat := Z.to_nat ((p `mod` n - i) `mod` n).

Definition assigned_replicas (vec : list NodeId) (rf p : Z) : gset NodeId :=
  list_to_set (omap (vec !!.) (replica_index (Z.of_nat (length vec)) p <$> seqZ 1 (rf - 1))).

Definition assigned (vec : list NodeId) (rf p : Z) : option Partition :=
  master ← vec !! replica_index (Z.of_nat (length vec)) p 0;
  Some (mkPartition master (assigned_replicas vec rf p)).

(** Workers that may hold data of a partition before a rebalance. *)
Definition holders (ps : Partitions) (pid : PartitionId) : gset NodeId :=
  default ∅ (old_replicas ps !! pid) ∪ from_option owners ∅ (mapping ps !! pid).

(** Partitions that worker number [i] is the master of. *)
Definition mastered (n amount i : Z) : list Z := filter (λ p, p `mod` n = i) (seqZ 0 amount).

(** ** The replica index *)

Lemma reduce_replica_mod fuel n r :
  0 < n → 0 <= r → (Z.to_nat r < fuel)%nat → reduce_replica fuel n r = Some (r `mod` n).
Proof.
  intros Hn. revert r. induction fuel as [|fuel IH]; intros r Hr Hf; [lia|]. simpl.
  destruct (Z.leb_spec n r) as [Hle|Hlt].
  - rewrite IH by lia. f_equal. rewrite <-(Z_mod_plus_full (r - n) 1 n). f_equal. lia.
  - f_equal. symmetry. apply Z.mod_small. lia.
Qed.

Lemma calc_replica_index_mod n m r :
  0 <= m < n → 0 <= r → calc_replica_index n m r = Some ((m - r) `mod` n).
Proof.
  intros Hm Hr. unfold calc_replica_index. rewrite reduce_replica_mod by lia. simpl. f_equal.
  assert (0 <= r `mod` n < n) as Hb by (apply Z.mod_pos_bound; lia).
  rewrite <-(Zminus_mod_idemp_r m r n). generalize dependent (r `mod` n). intros r' Hb.
  destruct (Z.ltb_spec m r').
  - rewrite <-(Z_mod_plus_full (m - r') 1 n), Z.mod_small; lia.
  - rewrite Z.mod_small; lia.
Qed.

Lemma replica_index_lt n p i : 0 < n → (replica_index n p i < Z.to_nat n)%nat.
Proof. intros Hn. unfold replica_index. pose proof (Z.mod_pos_bound (p `mod` n - i) n Hn). lia. Qed.

(** ** The mapping *)

Section mapping.
Context (vec : list NodeId) (Hvec : (0 < length vec)%nat).
Let n : Z := Z.of_nat (length vec).

Lemma lookup_replica_index p i : is_Some (vec !! replica_index n p i).
Proof. apply lookup_lt_is_Some. pose proof (replica_index_lt n p i). unfold n in *. lia. Qed.

Lemma place_replica_eq p i acc :
  0 <= i →
  place_replica vec p (Some acc) i =
    (id ← vec !! replica_index n p i;
     if i =? 0 then Some (<[mkPartitionId (as_u16 p) := mkPartition id ∅]> acc)
     else q ← acc !! mkPartitionId (as_u16 p);
          Some (<[mkPartitionId (as_u16 p) := mkPartition (master q) (replicas q ∪ {[ id ]})]> acc)).
Proof.
  intros Hi. unfold place_replica. simpl. fold n.
  rewrite calc_replica_index_mod; [done| |done]. apply Z.mod_pos_bound. unfold n. lia.
Qed.

Lemma assigned_replicas_snoc p (k : nat) :
  assigned_replicas vec (Z.of_nat (S (S k))) p =
    assigned_replicas vec (Z.of_nat (S k)) p ∪ from_option singleton ∅ (vec !! replica_index n p (Z.of_nat (S k))).
Proof.
  unfold assigned_replicas. fold n.
  replace (Z.of_nat (S (S k)) - 1) with (Z.of_nat (S k)) by lia.
  replace (Z.of_nat (S k) - 1) with (Z.of_nat k) by lia.
  rewrite seqZ_S, fmap_app, omap_app, list_to_set_app_L. f_equal. simpl.
  replace (1 + Z.of_nat k) with (Z.of_nat (S k)) by lia.
  destruct (vec !! _); simpl; set_solver.
Qed.

Lemma place_partition_eq p (k : nat) acc :
  ∃ q, assigned vec (Z.of_nat (S k)) p = Some q ∧
    place_partition vec (Z.of_nat (S k)) (Some acc) p = Some (<[mkPartitionId (as_u16 p) := q]> acc).
Proof.
  unfold place_partition. destruct (Nat.eqb_spec (length vec) 0); [lia|].
  destruct (lookup_replica_index p 0) as [m Hm]. unfold assigned. fold n. rewrite Hm. simpl.
  eexists. split; [done|]. induction k as [|k IH].
  - change (seqZ 0 (Z.of_nat 1)) with [0]. cbn [foldl]. by rewrite place_replica_eq, Hm.
  - rewrite seqZ_S, foldl_app, IH. cbn [foldl]. rewrite Z.add_0_l, place_replica_eq by lia.
    destruct (lookup_replica_index p (Z.of_nat (S k))) as [id Hid].
    rewrite assigned_replicas_snoc, Hid. cbn [mbind option_bind].
    destruct (Z.eqb_spec (Z.of_nat (S k)) 0); [lia|]. rewrite lookup_insert_eq. simpl.
    by rewrite insert_insert_eq.
Qed.

Lemma build_mapping_eq (amount k : nat) :
  Z.of_nat amount <= u16_modulus →
  ∃ m, build_mapping (Z.of_nat amount) (Z.of_nat (S k)) vec = Some m ∧
    ∀ pid, m !! pid =
      if decide (0 <= partition_id_u16 pid < Z.of_nat amount)
      then assigned vec (Z.of_nat (S k)) (partition_id_u16 pid) else None.
Proof.
  unfold build_mapping. induction amount as [|a IH]; intros Ha.
  - exists ∅. split; [done|]. intros pid. rewrite lookup_empty, decide_False; [done|lia].
  - destruct IH as (m & Hm & Hl); [lia|]. rewrite seqZ_S, foldl_app, Hm. cbn [foldl]. rewrite Z.add_0_l.
    destruct (place_partition_eq (Z.of_nat a) k m) as (q & Hq & ->).
    eexists. split; [done|]. intros [pid]. rewrite as_u16_small by (unfold is_u16; lia).
    destruct (decide (pid = Z.of_nat a)) as [->|Hne].
    + rewrite lookup_insert_eq, decide_True; [done|]. simpl. lia.
    + rewrite lookup_insert_ne, Hl by congruence. simpl. apply decide_ext. lia.
Qed.

End mapping.

(** ** Number of owners *)

Lemma size_lookup_set (vec : list NodeId) (js : list nat) :
  NoDup vec → NoDup js → Forall (λ j, j < length vec)%nat js →
  size (list_to_set (omap (vec !!.) js) : gset NodeId) = length js.
Proof.
  intros Hv. induction js as [|j js IH]; intros Hj Hf; [done|].
  apply NoDup_cons in Hj as [Hni Hj]. inversion Hf as [|? ? Hlt Hf']; subst.
  destruct (lookup_lt_is_Some_2 vec j Hlt) as [id Hid]. csimpl. rewrite Hid. simpl.
  rewrite size_union, size_singleton, IH; [done..|].
  apply disjoint_singleton_l. rewrite elem_of_list_to_set, list_elem_of_omap.
  intros (j' & Hj' & Hid'). apply Hni. by rewrite (NoDup_lookup _ _ _ _ Hv Hid Hid').
Qed.

Lemma replica_index_inj n p i j :
  0 < n → 0 <= i < n → 0 <= j < n → replica_index n p i = replica_index n p j → i = j.
Proof.
  intros Hn Hi Hj. unfold replica_index. set (a := p `mod` n).
  pose proof (Z.mod_pos_bound (a - i) n Hn). pose proof (Z.mod_pos_bound (a - j) n Hn).
  intros E. apply Z2Nat.inj in E; [|lia..].
  pose proof (Z_div_mod_eq_full (a - i) n). pose proof (Z_div_mod_eq_full (a - j) n).
  assert ((a - i) `div` n = (a - j) `div` n) by nia. nia.
Qed.

Lemma replica_index_mod n p i : 0 < n → replica_index n p (i `mod` n) = replica_index n p i.
Proof. intros. unfold replica_index. by rewrite Zminus_mod_idemp_r. Qed.

(** Only the first [n] copies matter. *)
Lemma owner_indices n p rf j :
  0 < n → 0 <= rf →
  j ∈ (replica_index n p <$> seqZ 0 rf) ↔ j ∈ (replica_index n p <$> seqZ 0 (rf `min` n)).
Proof.
  intros Hn Hrf. rewrite !list_elem_of_fmap. setoid_rewrite elem_of_seqZ. split.
  - intros (i & -> & Hi). exists (i `mod` n). rewrite replica_index_mod by done. split; [done|].
    pose proof (Z.mod_pos_bound i n Hn). pose proof (Z.mod_le i n). lia.
  - intros (i & -> & Hi). exists i. split; [done|lia].
Qed.

Lemma assigned_owners vec rf p q :
  1 <= rf → assigned vec rf p = Some q →
  owners q = list_to_set (omap (vec !!.) (replica_index (Z.of_nat (length vec)) p <$> seqZ 0 rf)).
Proof.
  intros Hrf (m & Hm & [= <-])%bind_Some. unfold owners, assigned_replicas. simpl.
  rewrite (seqZ_cons 0 rf) by lia. csimpl. rewrite Hm. simpl. by rewrite Z.sub_1_r.
Qed.

Lemma assigned_size vec rf p q :
  NoDup vec → 1 <= rf → assigned vec rf p = Some q →
  Z.of_nat (size (owners q)) = rf `min` Z.of_nat (length vec).
Proof.
  intros Hnd Hrf Hq. pose proof Hq as (m & Hm%lookup_lt_Some & _)%bind_Some.
  rewrite (assigned_owners _ _ _ _ Hrf Hq).
  set (n := Z.of_nat (length vec)) in *. assert (0 < n) as Hn by lia.
  assert (list_to_set (omap (vec !!.) (replica_index n p <$> seqZ 0 rf)) =@{gset NodeId}
          list_to_set (omap (vec !!.) (replica_index n p <$> seqZ 0 (rf `min` n)))) as ->.
  { apply set_eq. intros id. rewrite !elem_of_list_to_set, !list_elem_of_omap.
    apply exist_proper. intros j. by rewrite (owner_indices n p rf) by lia. }
  rewrite size_lookup_set; [rewrite length_fmap, length_seqZ; lia|done| |].
  - apply NoDup_fmap_2_strong; [|apply NoDup_seqZ].
    intros i j Hi%elem_of_seqZ Hj%elem_of_seqZ. apply replica_index_inj; lia.
  - apply Forall_fmap, Forall_forall. intros i _. simpl.
    pose proof (replica_index_lt n p i). lia.
Qed.

(** ** Balance *)

Lemma length_mastered n (a : nat) i :
  0 < n → 0 <= i < n →
  Z.of_nat (length (mastered n (Z.of_nat a) i)) =
    Z.of_nat a `div` n + if i <? Z.of_nat a `mod` n then 1 else 0.
Proof.
  intros Hn Hi. induction a as [|a IH].
  - simpl. rewrite Zdiv_0_l, Zmod_0_l. by destruct (Z.ltb_spec i 0); [lia|].
  - unfold mastered in *. rewrite seqZ_S, filter_app, length_app, Nat2Z.inj_add, IH.
    rewrite Z.add_0_l, filter_cons, Nat2Z.inj_succ. clear IH.
    set (x := Z.of_nat a) in *. pose proof (Z.mod_pos_bound x n Hn) as Hr.
    pose proof (Z_div_mod_eq_full x n) as Hx.
    set (q := x `div` n) in *. set (r := x `mod` n) in *.
    destruct (decide (r + 1 = n)) as [Hlast|Hmid].
    + assert (Z.succ x `div` n = q + 1) as -> by (symmetry; apply Z.div_unique with 0; lia).
      assert (Z.succ x `mod` n = 0) as -> by (symmetry; apply Z.mod_unique with (q + 1); lia).
      case_decide; simpl; repeat case_match; lia.
    + assert (Z.succ x `div` n = q) as -> by (symmetry; apply Z.div_unique with (r + 1); lia).
      assert (Z.succ x `mod` n = r + 1) as -> by (symmetry; apply Z.mod_unique with q; lia).
      case_decide; simpl; repeat case_match; lia.
Qed.

(** ** Rebalancing *)

(** Compare the lookup at [j] of two updates at [i]. *)
Ltac alter_cases i j :=
  destruct (decide (i = j)) as [->|];
  rewrite ?lookup_insert_eq, ?lookup_insert_ne, ?lookup_partial_alter_eq, ?lookup_partial_alter_ne by done.

Lemma added_replicas_eq new old : added_replicas new old = owners new ∖ owners old.
Proof.
  unfold added_replicas, owners. apply set_eq. intros n.
  rewrite elem_of_union, elem_of_set_retain, elem_of_difference, !elem_of_union, !elem_of_singleton.
  destruct (decide (n = master new)) as [->|Hn].
  - repeat case_bool_decide; set_solver.
  - repeat case_bool_decide; set_solver.
Qed.

Lemma calculate_new_mapping_spec s (amount k : nat) vec :
  (0 < length vec)%nat → Z.of_nat amount <= u16_modulus →
  ∃ s' m, calculate_new_mapping s (Z.of_nat amount) (Z.of_nat (S k)) vec = Some s' ∧
    build_mapping (Z.of_nat amount) (Z.of_nat (S k)) vec = Some m ∧
    s' = set_partitions (partitions s') s ∧
    mapping (partitions s') = m ∧
    old_replicas (partitions s') = old_replicas (partitions s) ∧
    ∀ pid, new_replicas (partitions s') !! pid =
      match mapping (partitions s) !! pid, m !! pid with
      | Some old, Some new => Some (owners new ∖ owners old)
      | _, _ => new_replicas (partitions s) !! pid
      end.
Proof.
  intros Hv Ha. destruct (build_mapping_eq vec Hv amount k Ha) as (m & Hm & _).
  unfold calculate_new_mapping. rewrite Hm. simpl. eexists _, m. split_and!; [done..|].
  intros pid. simpl.
  rewrite (foldl_ext_eq _ (λ acc e, partial_alter
    (λ o, match m !! e.1 with Some new => Some (added_replicas new e.2) | None => o end) e.1 acc)).
  - rewrite (lookup_foldl_alter
      (λ pid e o, match m !! pid with Some new => Some (added_replicas new e) | None => o end)).
    repeat case_match; try done. by rewrite added_replicas_eq.
  - intros acc [i old]. simpl. apply map_eq. intros j. case_match.
    + by alter_cases i j.
    + by alter_cases i j.
Qed.

Lemma copy_current_mapping_spec s vec :
  let s' := copy_current_mapping_to_old s vec in
  s' = set_partitions (partitions s') s ∧
  mapping (partitions s') = mapping (partitions s) ∧
  new_replicas (partitions s') = new_replicas (partitions s) ∧
  ∀ pid, old_replicas (partitions s') !! pid =
    let X := holders (partitions s) pid ∩ list_to_set vec in
    if decide (X = ∅) then None else Some X.
Proof.
  unfold copy_current_mapping_to_old. split_and!; [done..|]. intros pid. simpl. rewrite lookup_omap.
  rewrite (foldl_ext_eq _ (λ acc e, partial_alter
    (λ o : option (gset NodeId), Some (default ∅ o ∪ owners e.2)) e.1 acc)).
  - rewrite (lookup_foldl_alter (λ _ e (o : option (gset NodeId)), Some (default ∅ o ∪ owners e))).
    assert (∀ Y Z : gset NodeId, Y = Z →
      (if bool_decide (set_retain (λ n, bool_decide (n ∈ vec)) Y = ∅) then None
       else Some (set_retain (λ n, bool_decide (n ∈ vec)) Y)) =
      if decide (Z ∩ list_to_set vec = ∅) then None else Some (Z ∩ list_to_set vec)) as Haux.
    { intros Y ? <-. replace (set_retain (λ n, bool_decide (n ∈ vec)) Y) with (Y ∩ list_to_set vec : gset NodeId).
      - case_bool_decide; by case_decide.
      - apply set_eq. intros n. rewrite elem_of_set_retain, bool_decide_eq_true, elem_of_intersection.
        by rewrite elem_of_list_to_set. }
    unfold holders. destruct (mapping (partitions s) !! pid) as [q|]; simpl.
    + apply Haux. done.
    + destruct (old_replicas (partitions s) !! pid) as [o|]; simpl; [apply Haux; set_solver|].
      rewrite decide_True by set_solver. done.
  - intros acc [i q]. simpl. apply map_eq. intros j. unfold owners. case_match eqn:E.
    + alter_cases i j;
        [rewrite E; simpl; f_equal; set_solver|done].
    + alter_cases i j;
        [rewrite E; simpl; f_equal; set_solver|done].
Qed.
