(* ===== verification/PartitionTheorems.v ===== *)
(** * Properties of partition assignment *)

From S2P Require Import Prelude Common ManagerState ManagerPartitions PartitionSpec.

(** The workers in the order the leader numbers them. *)
Definition worker_list (W : gset NodeId) : list NodeId := merge_sort node_id_le (elements W).

(** A partition's master is [w]. *)
Definition has_master (m : gmap PartitionId Partition) (w : NodeId) (pid : PartitionId) : Prop :=
  master <$> m !! pid = Some w.

#[export] Instance has_master_dec m w pid : Decision (has_master m w pid).
Proof. unfold has_master. apply _. Defined.

(** The worker set a leader has to compute a mapping for, when it has changed. *)
Definition stale_workers (s : State) : Prop := current_workers s ≠ workers_with_calculated_partitions s.

(** ** Lemmas *)

Lemma worker_list_perm W : worker_list W ≡ₚ elements W.
Proof. apply merge_sort_Permutation. Qed.

Lemma NoDup_worker_list W : NoDup (worker_list W).
Proof. rewrite worker_list_perm. apply NoDup_elements. Qed.

Lemma length_worker_list W : length (worker_list W) = size W.
Proof. by rewrite worker_list_perm. Qed.

Lemma list_to_set_worker_list W : list_to_set (worker_list W) = W.
Proof. rewrite (list_to_set_perm_L _ _ (worker_list_perm W)). apply list_to_set_elements_L. Qed.

Lemma worker_list_pos W : W ≠ ∅ → (0 < length (worker_list W))%nat.
Proof. rewrite length_worker_list. intros HW. destruct (decide (size W = 0%nat)) as [E|]; [|lia].
  by apply size_empty_inv, leibniz_equiv in E. Qed.

Lemma rf_succ rf : 1 <= rf → rf = Z.of_nat (S (Z.to_nat (rf - 1))).
Proof. lia. Qed.

Lemma build_mapping_total amount rf vec :
  (0 < length vec)%nat → 0 <= amount <= u16_modulus → is_Some (build_mapping amount rf vec).
Proof.
  intros Hv Ha. destruct (decide (1 <= rf)) as [Hrf|Hrf].
  - destruct (build_mapping_eq vec Hv (Z.to_nat amount) (Z.to_nat (rf - 1))) as (m & Hm & _); [lia|].
    rewrite <-rf_succ, Z2Nat.id in Hm by lia. by eexists.
  - exists ∅. unfold build_mapping. generalize (seqZ 0 amount) as l. induction l as [|p l IH]; [done|].
    simpl. unfold place_partition at 2. destruct (Nat.eqb_spec (length vec) 0); [lia|].
    rewrite seqZ_nil by lia. done.
Qed.

Lemma build_mapping_lookup rf vec m :
  (0 < length vec)%nat → 1 <= rf → build_mapping PARTITIONS_AMOUNT rf vec = Some m →
  ∀ pid, m !! pid =
    if decide (0 <= partition_id_u16 pid < PARTITIONS_AMOUNT)
    then assigned vec rf (partition_id_u16 pid) else None.
Proof.
  intros Hv Hrf Hm. destruct (build_mapping_eq vec Hv 4096 (Z.to_nat (rf - 1))) as (m' & Hm' & Hl); [done|].
  rewrite <-rf_succ in Hm', Hl by done. change (Z.of_nat 4096) with PARTITIONS_AMOUNT in *.
  rewrite Hm in Hm'. injection Hm' as <-. exact Hl.
Qed.

Lemma build_mapping_dom rf vec m pid :
  (0 < length vec)%nat → 1 <= rf → build_mapping PARTITIONS_AMOUNT rf vec = Some m →
  is_Some (m !! pid) ↔ 0 <= partition_id_u16 pid < PARTITIONS_AMOUNT.
Proof.
  intros Hv Hrf Hm. rewrite (build_mapping_lookup rf vec m Hv Hrf Hm). clear Hm.
  case_decide as Hr; [|split; [by intros []|done]]. split; [done|]. intros _. unfold assigned.
  destruct (lookup_replica_index vec Hv (partition_id_u16 pid) 0) as [w Hw]. rewrite Hw. by eexists.
Qed.

Lemma build_mapping_owners rf vec m pid q :
  (0 < length vec)%nat → 1 <= rf → build_mapping PARTITIONS_AMOUNT rf vec = Some m → m !! pid = Some q →
  0 <= partition_id_u16 pid < PARTITIONS_AMOUNT ∧ ∀ w, w ∈ owners q → w ∈ vec.
Proof.
  intros Hv Hrf Hm. rewrite (build_mapping_lookup rf vec m Hv Hrf Hm). case_decide; [|done]. intros Hq.
  split; [done|]. intros w. rewrite (assigned_owners _ _ _ _ Hrf Hq), elem_of_list_to_set, list_elem_of_omap.
  intros (j & _ & Hj). by apply list_elem_of_lookup_2 in Hj.
Qed.

(** What the leader does when the workers changed and there is at least one. *)
Lemma worker_partitions_rebalance s me rf e :
  elected_leader_id s = Some (me_id me) → epoch s = Some e → stale_workers s →
  current_workers s ≠ ∅ → 1 <= rf →
  ∃ s' m, let ps := partitions s' in
    worker_partitions s me rf =
      Some (s', (λ id, ManagerProtocol.ClusterState id (mkClusterState e (me_id me) [] ps)) <$>
                  other_nodes (me_id me) (nodes s)) ∧
    s' = set_workers (current_workers s) (set_partitions ps s) ∧
    build_mapping PARTITIONS_AMOUNT rf (worker_list (current_workers s)) = Some m ∧
    mapping ps = m ∧
    (∀ pid, old_replicas ps !! pid =
       let X := holders (partitions s) pid ∩ current_workers s in
       if decide (X = ∅) then None else Some X) ∧
    (∀ pid, new_replicas ps !! pid =
       match mapping (partitions s) !! pid, m !! pid with
       | Some old, Some new => Some (owners new ∖ owners old)
       | _, _ => new_replicas (partitions s) !! pid
       end).
Proof.
  intros Hl He Hst Hne Hrf. unfold worker_partitions, stale_workers in *. rewrite bool_decide_eq_true_2 by done.
  rewrite (bool_decide_eq_false_2 (_ = _)), orb_true_r by done.
  fold (worker_list (current_workers s)). set (W := current_workers s) in *.
  pose proof (worker_list_pos W Hne) as Hpos. destruct (Nat.eqb_spec (length (worker_list W)) 0); [lia|].
  destruct (copy_current_mapping_spec s (worker_list W)) as (Hs1 & Hm1 & Hn1 & Ho1).
  set (s1 := copy_current_mapping_to_old s (worker_list W)) in *. clearbody s1.
  destruct (calculate_new_mapping_spec s1 4096 (Z.to_nat (rf - 1)) (worker_list W))
    as (s2 & m & Hc & Hb & Hs2 & Hm2 & Ho2 & Hn2); [done..|].
  rewrite <-rf_succ in Hc, Hb by done. change (Z.of_nat 4096) with PARTITIONS_AMOUNT in *.
  rewrite Hc. cbn [mbind option_bind].
  assert (epoch s2 = Some e ∧ elected_leader_id s2 = Some (me_id me) ∧ nodes s2 = nodes s) as (He2 & Hl2 & Hnd2).
  { rewrite Hs2, Hs1. simpl. auto. }
  unfold create_new_workers_state. rewrite He2, Hl2. cbn [mbind option_bind].
  exists (set_workers W s2), m. split_and!; simpl.
  - rewrite Hnd2, list_to_set_worker_list. by destruct (partitions s2).
  - rewrite Hs2 at 1. rewrite Hs1 at 1. reflexivity.
  - exact Hb.
  - exact Hm2.
  - intros pid. rewrite Ho2, Ho1, list_to_set_worker_list. done.
  - intros pid. rewrite Hn2, Hm1, Hn1. done.
Qed.

Lemma length_has_master vec rf m i w :
  NoDup vec → 1 <= rf → build_mapping PARTITIONS_AMOUNT rf vec = Some m → vec !! i = Some w →
  length (filter (has_master m w) (partition_range PARTITIONS_AMOUNT)) =
    length (mastered (Z.of_nat (length vec)) PARTITIONS_AMOUNT (Z.of_nat i)).
Proof.
  intros Hnd Hrf Hm Hw. pose proof (lookup_lt_Some _ _ _ Hw) as Hi.
  assert (0 < length vec)%nat as Hpos by lia. pose proof (build_mapping_lookup rf vec m Hpos Hrf Hm) as Hl.
  unfold partition_range. rewrite filter_fmap, length_fmap. unfold mastered. f_equal.
  apply filter_ext_in. intros p Hp%elem_of_seqZ. unfold has_master. simpl. rewrite Hl. simpl.
  rewrite as_u16_small by (unfold is_u16, u16_modulus, PARTITIONS_AMOUNT in *; lia).
  rewrite decide_True by lia. unfold assigned.
  set (n := Z.of_nat (length vec)) in *.
  assert (replica_index n p 0 = Z.to_nat (p `mod` n)) as ->.
  { unfold replica_index. by rewrite Z.sub_0_r, Zmod_mod. }
  clear Hm Hl. pose proof (Z.mod_pos_bound p n ltac:(lia)) as Hb. split.
  - intros Hq. destruct (vec !! Z.to_nat (p `mod` n)) as [w'|] eqn:E; [|done]. simpl in Hq. simplify_eq.
    pose proof (NoDup_lookup _ _ _ _ Hnd E Hw). lia.
  - intros Hq. rewrite Hq, Nat2Z.id, Hw. done.
Qed.

(** ** Properties *)

(** [calc_replica_index] ends for every positive number of workers and is the
    backward walk around the ring of workers: copy [replica] of a partition whose
    master has index [m] goes to [(m - replica) mod total]. *)
Theorem replica_index_ring_walk total m replica :
  0 <= m < total → 0 <= replica →
  calc_replica_index total m replica = Some ((m - replica) `mod` total).
Proof. apply calc_replica_index_mod. Qed.

(** C14: The mapping of distinct workers covers exactly the 4096 partitions without
    a panic; partition [p] has master [p mod n]; all its owners are workers, and
    it has as many distinct owners as possible, [min replication_factor n]. *)
Theorem assignment_correct vec rf :
  NoDup vec → (0 < length vec)%nat → 1 <= rf →
  ∃ m, build_mapping PARTITIONS_AMOUNT rf vec = Some m ∧
    (∀ pid, is_Some (m !! pid) ↔ 0 <= partition_id_u16 pid < PARTITIONS_AMOUNT) ∧
    ∀ pid q, m !! pid = Some q →
      vec !! Z.to_nat (partition_id_u16 pid `mod` Z.of_nat (length vec)) = Some (master q) ∧
      (∀ w, w ∈ owners q → w ∈ vec) ∧
      Z.of_nat (size (owners q)) = rf `min` Z.of_nat (length vec).
Proof.
  intros Hnd Hv Hrf. destruct (build_mapping_total PARTITIONS_AMOUNT rf vec) as [m Hm]; [done..|].
  pose proof (build_mapping_lookup rf vec m Hv Hrf Hm) as Hl.
  pose proof (λ pid, build_mapping_dom rf vec m pid Hv Hrf Hm) as Hdom. exists m. split; [exact Hm|]. clear Hm. split.
  - exact Hdom.
  - intros pid q. rewrite Hl. case_decide; [|done]. intros Hq. split_and!.
    + pose proof Hq as (w & Hw & [= <-])%bind_Some. simpl. unfold replica_index in Hw.
      by rewrite Z.sub_0_r, Zmod_mod in Hw.
    + intros w. rewrite (assigned_owners _ _ _ _ Hrf Hq), elem_of_list_to_set, list_elem_of_omap.
      intros (j & _ & Hj). by apply list_elem_of_lookup_2 in Hj.
    + by eapply assigned_size.
Qed.

(** C36: Masters are balanced: every worker is the master of [4096 / n] partitions or
    of one more. *)
Theorem assignment_balanced vec rf m w :
  NoDup vec → 1 <= rf → build_mapping PARTITIONS_AMOUNT rf vec = Some m → w ∈ vec →
  let count := Z.of_nat (length (filter (has_master m w) (partition_range PARTITIONS_AMOUNT))) in
  PARTITIONS_AMOUNT `div` Z.of_nat (length vec) <= count <=
    PARTITIONS_AMOUNT `div` Z.of_nat (length vec) + 1.
Proof.
  intros Hnd Hrf Hm [i Hi]%list_elem_of_lookup. pose proof (lookup_lt_Some _ _ _ Hi) as Hlt.
  rewrite (length_has_master vec rf m i w Hnd Hrf Hm Hi). clear Hm.
  pose proof (length_mastered (Z.of_nat (length vec)) 4096 (Z.of_nat i)) as Hlen.
  change (Z.of_nat 4096) with PARTITIONS_AMOUNT in Hlen. cbv zeta. rewrite Hlen by lia.
  case_match; lia.
Qed.


(** A rebalance is announced once: it sends the new partitions to every other
    node it knows, and a second run with the same workers changes nothing and
    sends nothing. *)
Theorem rebalance_announced_once s me rf e :
  elected_leader_id s = Some (me_id me) → epoch s = Some e → stale_workers s →
  current_workers s ≠ ∅ → 1 <= rf →
  ∃ s' out, worker_partitions s me rf = Some (s', out) ∧
    (∀ id, id ≠ me_id me → is_Some (nodes s !! id) →
       ManagerProtocol.ClusterState id (mkClusterState e (me_id me) [] (partitions s')) ∈ out) ∧
    worker_partitions s' me rf = Some (s', []).
Proof.
  intros Hl He Hst Hne Hrf.
  destruct (worker_partitions_rebalance s me rf e) as (s' & m & Hwp & Hs' & _); [done..|].
  eexists _, _. split; [exact Hwp|]. clear Hwp. split.
  - intros id Hid Hn. apply list_elem_of_fmap. exists id. split; [done|]. by apply elem_of_other_nodes.
  - rewrite Hs'. unfold worker_partitions.
    cbn [elected_leader_id workers_with_calculated_partitions set_workers set_partitions].
    rewrite Hl, bool_decide_eq_true_2 by done.
    change (current_workers (set_workers (current_workers s) (set_partitions (partitions s') s)))
      with (current_workers s).
    rewrite Nat.eqb_refl, bool_decide_eq_true_2 by done. done.
Qed.

(** ** Witnesses *)

Definition sample_workers : list NodeId := [mkNodeId "w1"; mkNodeId "w2"; mkNodeId "w3"].

Definition sample_me : Me := mkMe (mkNodeId "m1") "localhost" 7001.

(** A leader that has just seen its second worker. *)
Definition sample_state : State :=
  mkState (Some 4) (Some (mkNodeId "m1"))
    {[ mkNodeId "m1" := mkNode "localhost" 7001 0 Manager;
       mkNodeId "w1" := mkNode "localhost" 7101 0 Worker;
       mkNodeId "w2" := mkNode "localhost" 7102 0 Worker ]}
    (mkPartitions {[ mkPartitionId 0 := mkPartition (mkNodeId "w1") ∅ ]} ∅ ∅)
    {[ mkNodeId "w1" ]}.

Lemma sample_state_stale : stale_workers sample_state ∧ current_workers sample_state ≠ ∅.
Proof. unfold stale_workers. split; apply (bool_decide_unpack _); vm_compute; exact I. Qed.

Lemma replica_index_ring_walk_witness : calc_replica_index 3 1 5 = Some 2.
Proof. rewrite replica_index_ring_walk by lia. vm_compute. reflexivity. Defined.

Lemma assignment_correct_witness :
  ∃ m, build_mapping PARTITIONS_AMOUNT 2 sample_workers = Some m ∧ is_Some (m !! mkPartitionId 4095).
Proof.
  destruct (assignment_correct sample_workers 2) as (m & Hm & Hd & _).
  - apply (bool_decide_unpack _). vm_compute. exact I.
  - vm_compute. lia.
  - lia.
  - exists m. split; [exact Hm|]. clear Hm. apply Hd. vm_compute. split; [discriminate|reflexivity].
Defined.

Lemma assignment_balanced_witness :
  ∃ m, build_mapping PARTITIONS_AMOUNT 2 sample_workers = Some m ∧
    1365 <= Z.of_nat (length (filter (has_master m (mkNodeId "w2")) (partition_range PARTITIONS_AMOUNT))).
Proof.
  destruct (build_mapping_total PARTITIONS_AMOUNT 2 sample_workers) as [m Hm].
  { vm_compute. lia. }
  { vm_compute. split; discriminate. }
  exists m. split; [exact Hm|].
  refine (proj1 (assignment_balanced sample_workers 2 m (mkNodeId "w2") _ ltac:(lia) Hm _)).
  - apply (bool_decide_unpack _). vm_compute. exact I.
  - apply (bool_decide_unpack _). vm_compute. exact I.
Defined.


Lemma rebalance_announced_once_witness :
  ∃ s' out, worker_partitions sample_state sample_me 2 = Some (s', out) ∧
    worker_partitions s' sample_me 2 = Some (s', []).
Proof.
  destruct (rebalance_announced_once sample_state sample_me 2 4) as (s' & out & Hwp & _ & Hagain);
    [reflexivity|reflexivity|apply sample_state_stale|apply sample_state_stale|lia|].
  exists s', out. split; [exact Hwp|exact Hagain].
Defined.
