(* ===== verification/ManagerTheorems.v ===== *)
(** * Properties of the manager service

    Invariants of the service loop over every message and every tick, and the
    local guarantees of the handlers. *)

From S2P Require Import Prelude Common ManagerState ManagerElection ManagerPartitions ManagerService.
From S2P Require Import PartitionSpec PartitionTheorems.

(** ** Definitions *)

(** A leader is known only together with its epoch. *)
Definition leader_has_epoch (s : State) : Prop := is_Some (elected_leader_id s) → is_Some (epoch s).

Definition is_manager_config (c : Config) : Prop :=
  match c with ManagerConfig _ _ _ _ => True | WorkerConfig _ _ _ _ => False end.

Record service_ok (svc : ManagerService) : Prop := {
  ok_leader s : state svc = Some s → leader_has_epoch s;
  ok_config : is_manager_config (config svc);
  ok_elections : (size (elections svc) <= 1)%nat;
}.

(** The service's life: initialization, ticks, messages, and a peer's connection
    request overwriting the shared replication factor. *)
Inductive service_reachable (me : Me) (config : Config) : ManagerService → Prop :=
  | sr_init now : service_reachable me config (get_init_messages now (ManagerService_new me config)).1
  | sr_tick i svc svc' out :
      service_reachable me config svc → tick i svc = Some (svc', out) →
      service_reachable me config svc'
  | sr_process now i msg svc svc' out :
      service_reachable me config svc → process now i msg svc = Some (svc', out) →
      service_reachable me config svc'
  | sr_config rf svc c :
      service_reachable me config svc →
      Config_replication_factor_mut rf (ManagerService.config svc) = Some c →
      service_reachable me config
        (mkManagerService (ManagerService.me svc) (state svc) (elections svc) c).

(** The order of [Option<u64>]. *)
Definition epoch_le (a b : option Z) : Prop :=
  match a, b with None, _ => True | Some x, Some y => x <= y | Some _, None => False end.

(** Every election in progress is for an epoch newer than the current one. *)
Definition elections_newer (s : State) (es : gmap Z Election) : Prop :=
  ∀ e, is_Some (es !! e) → epoch_lt (epoch s) e = true.

(** What a snapshot item does to the membership entry of its node. *)
Definition merged_entry (item : ClusterNode) (old : option Node) : option Node :=
  match old with
  | Some node => Some (set_last_heartbeat (Z.max (last_heartbeat node) (cn_last_heartbeat item)) node)
  | None =>
      match cn_node_type item with
      | Manager => None
      | Worker => Some (mkNode (cn_host item) (cn_port item) (cn_last_heartbeat item) Worker)
      end
  end.

(** The items by node id. *)
Definition items_map (items : list ClusterNode) : gmap NodeId ClusterNode :=
  list_to_map ((λ i, (cn_id i, i)) <$> items).

(** ** Lemmas on the parts of a tick *)

Lemma worker_partitions_total s me rf :
  leader_has_epoch s → is_Some (worker_partitions s me rf).
Proof.
  intros Hle. unfold worker_partitions. case_bool_decide as Hl; [|by eexists].
  destruct (_ || _); [|by eexists]. fold (worker_list (current_workers s)).
  set (vec := worker_list (current_workers s)).
  destruct (Nat.eqb_spec (length vec) 0) as [|Hne]; [by eexists|].
  unfold calculate_new_mapping.
  destruct (build_mapping_total PARTITIONS_AMOUNT rf vec) as [m Hm]; [lia|done|].
  rewrite Hm. cbn [mbind option_bind]. unfold create_new_workers_state.
  cbn [epoch elected_leader_id set_partitions copy_current_mapping_to_old].
  destruct Hle as [e He]; [by rewrite Hl|]. rewrite He, Hl. cbn [mbind option_bind]. by eexists.
Qed.

(** A rebalance touches neither the membership nor the leadership. *)
Lemma worker_partitions_frame s me rf s' out :
  worker_partitions s me rf = Some (s', out) →
  epoch s' = epoch s ∧ elected_leader_id s' = elected_leader_id s ∧ nodes s' = nodes s.
Proof.
  unfold worker_partitions. case_bool_decide as Hl; [|by intros [= <- _]].
  destruct (_ || _); [|by intros [= <- _]]. fold (worker_list (current_workers s)).
  set (vec := worker_list (current_workers s)). destruct (length vec =? 0)%nat; [by intros [= <- _]|].
  unfold calculate_new_mapping. destruct (build_mapping PARTITIONS_AMOUNT rf vec) as [m|]; [|done].
  cbn [mbind option_bind]. destruct (create_new_workers_state _) as [ws|]; [|done].
  cbn [mbind option_bind]. by intros [= <- _].
Qed.

Lemma heartbeats_frame now rnd s me :
  epoch (heartbeats now rnd s me).1 = epoch s ∧
  (elected_leader_id (heartbeats now rnd s me).1 = elected_leader_id s ∨
   elected_leader_id (heartbeats now rnd s me).1 = None).
Proof. unfold heartbeats. repeat case_match; simplify_eq/=; auto. Qed.

Lemma start_election_size now rnd s es me :
  (size es <= 1)%nat → (size (start_election_if_needed now rnd s es me).1 <= 1)%nat.
Proof.
  unfold start_election_if_needed. intros Hsz.
  destruct (epoch s) as [e|]; [|done]. destruct (bool_decide _ && _); [|done].
  destruct (match last_key_value es with Some _ => _ | None => _ end); [|done].
  cbn [fst]. by rewrite map_size_singleton.
Qed.

Lemma tick_ok i svc svc' out : service_ok svc → tick i svc = Some (svc', out) → service_ok svc'.
Proof.
  intros [Hl Hc He]. unfold tick. destruct (state svc) as [s|] eqn:Hs; [|intros [= <- _]; split; [congruence|done..]].
  pose proof (heartbeats_frame (hb_now i) (hb_rnd i) s (me svc)) as [Hep Hel].
  destruct (heartbeats _ _ _ _) as [s1 out1]. simpl in *.
  pose proof (start_election_size (el_now i) (el_rnd i) s1 (elections svc) (me svc) He) as Hsz.
  destruct (start_election_if_needed _ _ _ _ _) as [es out2]. simpl in *.
  destruct (Config_replication_factor (config svc)) as [rf|]; [|done]. simpl.
  destruct (worker_partitions s1 (me svc) rf) as [[s2 out3]|] eqn:Hw; [|done]. simpl.
  intros [= <- _]. apply worker_partitions_frame in Hw as (He2 & Hl2 & _).
  split; simpl; [|done..]. intros s' [= <-]. unfold leader_has_epoch.
  rewrite He2, Hl2, Hep. intros Hsome. apply (Hl s eq_refl).
  destruct Hel as [<-|E]; [done|]. rewrite E in Hsome. by destruct Hsome.
Qed.

Lemma tick_total i svc : service_ok svc → is_Some (tick i svc).
Proof.
  intros [Hl Hc He]. unfold tick. destruct (state svc) as [s|] eqn:Hs; [|by eexists].
  pose proof (heartbeats_frame (hb_now i) (hb_rnd i) s (me svc)) as [Hep Hel].
  destruct (heartbeats _ _ _ _) as [s1 out1]. simpl in *.
  destruct (start_election_if_needed _ _ _ _ _) as [es out2].
  destruct (config svc) as [? ? ? rf|]; [|done]. simpl.
  destruct (worker_partitions_total s1 (me svc) rf) as [[s2 out3] ->]; [|by eexists].
  intros Hsome. rewrite Hep. apply (Hl s eq_refl). destruct Hel as [<-|E]; [done|].
  rewrite E in Hsome. by destruct Hsome.
Qed.

(** ** Lemmas on the dispatch of a message *)

Lemma merge_cluster_nodes_frame items ns out :
  foldl merge_cluster_node (ns, out) items =
    ((foldl merge_cluster_node (ns, []) items).1, out ++ (foldl merge_cluster_node (ns, []) items).2).
Proof.
  revert ns out. induction items as [|item items IH]; intros ns out; simpl; [by rewrite app_nil_r|].
  destruct (ns !! cn_id item) as [n|]; [apply IH|].
  destruct (cn_node_type item); [|apply IH]. rewrite IH. rewrite (IH ns [_]). simpl. by rewrite <-app_assoc.
Qed.

Lemma dispatch_leader_has_epoch now msg me s es :
  leader_has_epoch s → leader_has_epoch (dispatch now msg me s es).1.1.
Proof.
  unfold leader_has_epoch. intros Hle. destruct msg; simpl.
  - unfold handle_new_connection. repeat case_match; simplify_eq/=; done.
  - unfold handle_heartbeat. repeat case_match; simplify_eq/=; done.
  - done.
  - unfold handle_cluster_state, accept_cluster_state.
    destruct (bool_decide _ || _); [|destruct (_ && _)]; [..|done]; simpl;
      destruct (foldl _ _ _); simpl; done || eauto.
  - destruct (handle_vote_request _ _ _ _ _). done.
  - unfold handle_vote_response. repeat case_match; simplify_eq/=; done || eauto.
  - unfold handle_leader. repeat case_match; simplify_eq/=; done || eauto.
  - unfold handle_node_disconnected. repeat case_match; simplify_eq/=; done || by intros [].
  - unfold handle_remove_old_partition. simpl. repeat case_match; simplify_eq/=; done.
Qed.

Lemma handle_vote_request_size s id e ts es :
  (size es <= 1)%nat → (size (handle_vote_request s id e ts es).1 <= 1)%nat.
Proof.
  intros Hsz. unfold handle_vote_request. destruct (epoch_lt _ _); [|done].
  destruct (last_key_value es) as [[le el]|] eqn:Hlast.
  - destruct ((le <? e) || (ts <? Election_ts el)); simpl.
    + by rewrite insert_empty, map_size_singleton.
    + by repeat case_match.
  - apply last_key_value_None in Hlast as ->. simpl. by rewrite insert_empty, map_size_singleton.
Qed.

Lemma dispatch_elections_size now msg me s es :
  (size es <= 1)%nat → (size (dispatch now msg me s es).1.2 <= 1)%nat.
Proof.
  intros Hsz. destruct msg as [| | | |id e ts| | | |]; simpl.
  - by destruct (handle_new_connection _ _ _ _ _ _ _).
  - by destruct (handle_heartbeat _ _ _ _).
  - done.
  - by destruct (handle_cluster_state _ _ _ _ _ _).
  - pose proof (handle_vote_request_size s id e ts es Hsz). by destruct (handle_vote_request _ _ _ _ _).
  - unfold handle_vote_response. destruct (response_election _ _ _ _) as [e|]; [|done].
    destruct (es !! e) as [[ts' A|]|] eqn:He; [|done..]. destruct (_ && _); simpl.
    + rewrite map_size_empty. lia.
    + by rewrite map_size_insert_Some by (by rewrite He).
  - unfold handle_leader. repeat case_match; simplify_eq/=; done || (rewrite map_size_empty; lia).
  - done.
  - done.
Qed.

Lemma process_ok now i msg svc svc' out :
  service_ok svc → process now i msg svc = Some (svc', out) → service_ok svc'.
Proof.
  intros Hok. unfold process. destruct (state svc) as [s|] eqn:Hs.
  - pose proof (dispatch_leader_has_epoch now msg (me svc) s (elections svc)) as Hl.
    pose proof (dispatch_elections_size now msg (me svc) s (elections svc)) as He.
    destruct (dispatch _ _ _ _ _) as [[s' es'] out1]. simpl in *.
    destruct (tick i _) as [[svc1 out2]|] eqn:Ht; [|done]. simpl. intros [= <- _].
    eapply tick_ok; [|exact Ht]. destruct Hok. split; simpl; [|done|auto].
    intros ? [= <-]. eauto.
  - destruct (tick i svc) as [[svc1 out2]|] eqn:Ht; [|done]. simpl. intros [= <- _].
    by eapply tick_ok.
Qed.

Lemma process_total now i msg svc : service_ok svc → is_Some (process now i msg svc).
Proof.
  intros Hok. unfold process. destruct (state svc) as [s|] eqn:Hs.
  - pose proof (dispatch_leader_has_epoch now msg (me svc) s (elections svc)) as Hl.
    pose proof (dispatch_elections_size now msg (me svc) s (elections svc)) as He.
    destruct (dispatch _ _ _ _ _) as [[s' es'] out1]. simpl in *.
    destruct (tick_total i (mkManagerService (me svc) (Some s') es' (config svc))) as [[svc1 out2] ->];
      [|by eexists].
    destruct Hok. split; simpl; [|done|auto]. intros ? [= <-]. eauto.
  - destruct (tick_total i svc Hok) as [[svc1 out2] ->]. by eexists.
Qed.

Lemma service_reachable_ok me config svc :
  is_manager_config config → service_reachable me config svc → service_ok svc.
Proof.
  intros Hc. induction 1 as [now|i svc svc' out _ IH Ht|now i msg svc svc' out _ IH Hp|rf svc c _ IH Hrf].
  - unfold get_init_messages. simpl. destruct (Config_manager_host_port config) as [[]|];
      (split; simpl; [|done|rewrite map_size_empty; lia]); intros ? [= <-]; by intros [].
  - by eapply tick_ok.
  - by eapply process_ok.
  - destruct IH as [Hl _ He]. split; simpl; [done| |done].
    by destruct (ManagerService.config svc); simplify_eq/=.
Qed.

(** Unanimity: the size test and the containment test of the vote count make
    the approvers exactly the other known managers. *)
Lemma approvers_exact (A : gset NodeId) managers :
  NoDup managers →
  (size A =? length managers)%nat && forallb (λ n, bool_decide (n ∈ A)) managers = true ↔
  A = list_to_set managers.
Proof.
  intros Hnd. rewrite andb_true_iff, Nat.eqb_eq, forallb_forall.
  setoid_rewrite bool_decide_eq_true. split.
  - intros [Hsz Hin]. symmetry. apply set_subseteq_size_eq.
    + intros n Hn%elem_of_list_to_set. apply Hin. by apply list_elem_of_In.
    + rewrite size_list_to_set by done. lia.
  - intros ->. rewrite size_list_to_set by done. split; [done|].
    intros n Hn. apply elem_of_list_to_set. by apply list_elem_of_In.
Qed.

Lemma epoch_lt_spec e x : epoch_lt e x = true ↔ match e with None => True | Some y => y < x end.
Proof. destruct e; simpl; [apply Z.ltb_lt|done]. Qed.

Lemma epoch_le_refl e : epoch_le e e.
Proof. destruct e; simpl; lia || done. Qed.

Lemma epoch_lt_le e x : epoch_lt e x = true → epoch_le e (Some x) ∧ e ≠ Some x.
Proof. rewrite epoch_lt_spec. destruct e; simpl; [|done]. intros. split; [lia|]. intros [= ->]. lia. Qed.

Lemma merge_cluster_nodes_lookup items ns out n :
  NoDup (cn_id <$> items) →
  (foldl merge_cluster_node (ns, out) items).1 !! n =
    match items_map items !! n with
    | Some item => merged_entry item (ns !! n)
    | None => ns !! n
    end.
Proof.
  unfold items_map. revert ns out. induction items as [|item items IH]; intros ns out; [done|].
  rewrite fmap_cons, NoDup_cons. intros [Hni Hnd].
  cbn.
  assert ((list_to_map ((λ i, (cn_id i, i)) <$> items) : gmap NodeId ClusterNode) !! cn_id item = None) as Hno.
  { apply not_elem_of_list_to_map_1. by rewrite <-list_fmap_compose. }
  destruct (ns !! cn_id item) as [node|] eqn:Hns; [|destruct (cn_node_type item) eqn:Hty];
    rewrite IH by done; destruct (decide (n = cn_id item)) as [->|Hne];
    rewrite ?lookup_insert_eq, ?lookup_insert_ne by done; unfold merged_entry; rewrite ?Hno, ?Hns, ?Hty; try done.
  - destruct (Z.ltb_spec (last_heartbeat node) (cn_last_heartbeat item)).
    + rewrite lookup_insert_eq. do 2 f_equal. lia.
    + rewrite Hns. f_equal. destruct node; unfold set_last_heartbeat; simpl in *. f_equal. lia.
  - destruct (_ <? _); [by rewrite lookup_insert_ne|done].
Qed.

(** Every listed manager that is not known yet is dialled. *)
Lemma merge_cluster_nodes_dials items ns out item :
  NoDup (cn_id <$> items) → item ∈ items → cn_node_type item = Manager → ns !! cn_id item = None →
  ManagerProtocol.NewConnection None (cn_host item) (cn_port item) true
    ∈ (foldl merge_cluster_node (ns, out) items).2.
Proof.
  revert ns out. induction items as [|i items IH]; intros ns out; [by intros ? ?%elem_of_nil|].
  rewrite fmap_cons, NoDup_cons. intros [Hni Hnd] Hin Hty Hns. cbn [foldl].
  apply elem_of_cons in Hin as [->|Hin].
  - unfold merge_cluster_node at 2. rewrite Hns, Hty. rewrite merge_cluster_nodes_frame. simpl. set_solver.
  - assert (cn_id item ≠ cn_id i) by (intros E; apply Hni; rewrite <-E; by apply list_elem_of_fmap_2).
    destruct (merge_cluster_node (ns, out) i) as [ns' out'] eqn:E. apply IH; [done..|].
    unfold merge_cluster_node in E. repeat case_match; simplify_eq/=; by rewrite ?lookup_insert_ne.
Qed.

(** The items [handle_get_cluster_state] puts in a snapshot. *)
Definition snapshot_item (kn : NodeId * Node) : ClusterNode :=
  mkClusterNode kn.1 (host kn.2) (port kn.2) (last_heartbeat kn.2) (node_type kn.2).
Definition snapshot_items (ns : gmap NodeId Node) : list ClusterNode := snapshot_item <$> map_to_list ns.

Lemma snapshot_items_ids ns : cn_id <$> snapshot_items ns = (map_to_list ns).*1.
Proof. unfold snapshot_items. by rewrite <-list_fmap_compose. Qed.

Lemma snapshot_items_NoDup ns : NoDup (cn_id <$> snapshot_items ns).
Proof. rewrite snapshot_items_ids. apply NoDup_fst_map_to_list. Qed.

Lemma elem_of_snapshot_ids ns n : n ∈ cn_id <$> snapshot_items ns ↔ is_Some (ns !! n).
Proof.
  rewrite snapshot_items_ids, list_elem_of_fmap. split.
  - intros ([k x] & -> & Hx%elem_of_map_to_list). by eexists.
  - intros [x Hx%elem_of_map_to_list]. by exists (n, x).
Qed.

Lemma snapshot_items_nil ns : ns ≠ ∅ → snapshot_items ns ≠ [].
Proof. intros Hne Hit%fmap_nil_inv%map_to_list_empty_iff. done. Qed.

Lemma snapshot_items_map ns :
  items_map (snapshot_items ns) = map_imap (λ n node, Some (snapshot_item (n, node))) ns.
Proof.
  apply map_eq. intros n. rewrite map_lookup_imap. destruct (ns !! n) as [node|] eqn:Hn; simpl.
  - apply elem_of_list_to_map_1; [rewrite <-list_fmap_compose; apply (snapshot_items_NoDup ns)|].
    apply list_elem_of_fmap. exists (snapshot_item (n, node)). split; [done|].
    apply list_elem_of_fmap_2. by apply elem_of_map_to_list.
  - apply not_elem_of_list_to_map_1. rewrite <-list_fmap_compose.
    change (n ∉ cn_id <$> snapshot_items ns). rewrite elem_of_snapshot_ids, Hn. by intros [].
Qed.

(** Only this manager and listed nodes survive a non-empty snapshot. *)
Lemma retain_snapshot_nodes_sub me items ns n x :
  items ≠ [] → retain_snapshot_nodes me items ns !! n = Some x → n = me ∨ n ∈ cn_id <$> items.
Proof.
  intros Hne. unfold retain_snapshot_nodes. destruct items as [|i items]; [done|].
  rewrite lookup_map_retain. destruct (ns !! n); [|done]. cbn [mbind option_bind].
  case_bool_decide; [by left|]. simpl. case_bool_decide; [by right|done].
Qed.

Lemma remove_old_partition_relay leader (ns : gmap NodeId Node) id r p (me : Me) m :
  m ∈ (if bool_decide (leader = Some (me_id me)) then
        (λ n, ManagerProtocol.RemovePartitionFromReplica n r p) <$>
          filter (λ key, key ≠ r ∧ key ≠ id ∧ key ≠ me_id me) (map_to_list ns).*1
      else []) ↔
  leader = Some (me_id me) ∧
  ∃ n, is_Some (ns !! n) ∧ n ≠ r ∧ n ≠ id ∧ n ≠ me_id me ∧
       m = ManagerProtocol.RemovePartitionFromReplica n r p.
Proof.
  case_bool_decide as Hl; [|set_solver]. rewrite list_elem_of_fmap.
  setoid_rewrite list_elem_of_filter. setoid_rewrite list_elem_of_fmap. split.
  - intros (n & -> & (? & ? & ?) & [k x] & -> & Hx%elem_of_map_to_list). naive_solver.
  - intros (_ & n & [x Hx] & ? & ? & ? & ->). exists n. split; [done|]. split; [done|].
    exists (n, x). by rewrite elem_of_map_to_list.
Qed.

(** ** Claims *)

(** The manager never panics: in every state its service can reach with a
    manager configuration (whatever messages it got, in whatever order, and
    whatever clock and random values it read) the next tick and the next message
    are handled: the [expect]s of the rebalancing code (epoch and leader present,
    a non-empty worker ring, a replica index in range) and the [unreachable!] of
    the configuration are never reached. *)
Theorem manager_never_panics me config svc :
  is_manager_config config → service_reachable me config svc →
  (∀ i, is_Some (tick i svc)) ∧ (∀ now i msg, is_Some (process now i msg svc)).
Proof.
  intros Hc Hr. pose proof (service_reachable_ok me config svc Hc Hr) as Hok.
  split; intros; [by apply tick_total|by apply process_total].
Qed.

(** C21: election is by unanimity.  Counting a vote makes this manager the leader
    exactly when the vote is for its own latest election (same timestamp, itself
    as candidate) and the approvers, this voter included, are precisely the other
    managers it knows; it then takes the election's epoch, forgets its elections
    and announces itself to every other node.  Otherwise epoch and leader stay. *)
Theorem leader_elected_by_unanimity s id leader_id ts me es e ts' A :
  last_key_value es = Some (e, Mine ts' A) →
  let '(s', es', out) := handle_vote_response s id leader_id ts me es in
  if bool_decide (ts' = ts ∧ leader_id = me_id me ∧
                  A ∪ {[ id ]} = list_to_set (other_managers (me_id me) (nodes s)))
  then epoch s' = Some e ∧ elected_leader_id s' = Some (me_id me) ∧ es' = ∅ ∧
       out = (λ key, ManagerProtocol.Leader key e ts) <$> other_nodes (me_id me) (nodes s)
  else s' = s ∧ (∀ k, is_Some (es' !! k) ↔ is_Some (es !! k)).
Proof.
  intros Hlast. destruct (last_key_value_Some _ _ _ Hlast) as [He _].
  unfold handle_vote_response, response_election. rewrite Hlast.
  pose proof (approvers_exact (A ∪ {[ id ]}) _ (NoDup_other_managers (me_id me) (nodes s))) as Hex.
  destruct (Z.eqb_spec ts' ts) as [->|Hts]; simpl.
  - case_bool_decide as Hl; simpl.
    + rewrite He. destruct (_ && _).
      * rewrite bool_decide_true by (split_and!; [done..|by apply Hex]). done.
      * rewrite bool_decide_false by (intros (_ & _ & E); by apply Hex in E).
        split; [done|]. intros k. destruct (decide (k = e)) as [->|];
          [rewrite lookup_insert_eq, He; by split; eauto|by rewrite lookup_insert_ne].
    + rewrite bool_decide_false by tauto. done.
  - rewrite bool_decide_false by tauto. done.
Qed.

(** A manager that knows no other manager is never elected: a vote response
    leaves leader and epoch alone whatever it contains, because the approver set
    is then never the (empty) set of other managers. *)
Theorem lone_manager_never_elected s id leader_id ts me es :
  other_managers (me_id me) (nodes s) = [] →
  (handle_vote_response s id leader_id ts me es).1.1 = s.
Proof.
  intros Hno. unfold handle_vote_response. destruct (response_election _ _ _ _) as [e|]; [|done].
  destruct (es !! e) as [[ts' A|]|]; [|done..]. rewrite Hno. simpl. rewrite andb_true_r.
  destruct (Nat.eqb_spec (size (A ∪ {[ id ]})) 0) as [Hz|]; [|done].
  apply size_empty_inv in Hz. set_solver.
Qed.

(** C22: the epoch is the manager's logical clock.  As long as the elections in
    progress are for newer epochs, handling any message never lowers the epoch,
    and while the epoch stays the same the leader stays the same or becomes
    unknown: a manager never names two leaders for one epoch.  Every message but
    a cluster snapshot also keeps the elections newer than the epoch. *)
Theorem manager_epoch_monotone now msg me s es :
  elections_newer s es →
  let '(s', es', _) := dispatch now msg me s es in
  epoch_le (epoch s) (epoch s') ∧
  (epoch s' = epoch s → elected_leader_id s' = elected_leader_id s ∨ elected_leader_id s' = None) ∧
  ((∀ r cs, msg ≠ ManagerProtocol.ClusterState r cs) → elections_newer s' es').
Proof.
  intros Hnew. pose proof (epoch_le_refl (epoch s)) as Hrefl. destruct msg; simpl.
  - unfold handle_new_connection. break; auto.
  - unfold handle_heartbeat. break; auto.
  - auto.
  - unfold handle_cluster_state, accept_cluster_state. case_bool_decide as Hno; simpl.
    + destruct (foldl _ _ _). simpl. rewrite Hno. split_and!; [done|done|naive_solver].
    + destruct (epoch_lt (epoch s) (cs_epoch state)) eqn:Hlt.
      * destruct (foldl _ _ _). simpl. apply epoch_lt_le in Hlt as []. split_and!; [done|naive_solver..].
      * destruct (_ && _); [|split_and!; naive_solver].
        destruct (foldl _ _ _). simpl. split_and!; naive_solver.
  - rename epoch into e. unfold handle_vote_request. destruct (epoch_lt (ManagerState.epoch s) e) eqn:Hlt; [|auto].
    assert (∀ es', (∀ k, is_Some (es' !! k) → k = e ∨ is_Some (es !! k)) → elections_newer s es') as Hsub.
    { intros es' Hes' k [->|Hk]%Hes'; [done|by apply Hnew]. }
    destruct (last_key_value es) as [[le el]|] eqn:Hlast; [destruct (_ || _)|]; simpl.
    + split_and!; [done|by left|]. intros _. apply Hsub. intros k.
      rewrite insert_empty, lookup_singleton_is_Some. naive_solver.
    + break; auto.
    + split_and!; [done|by left|]. intros _. apply Hsub. intros k.
      destruct (decide (k = e)) as [->|]; [by left|]. rewrite lookup_insert_ne by done. by right.
  - unfold handle_vote_response, response_election.
    destruct (last_key_value es) as [[e [ts' A|]]|] eqn:Hlast; [|auto..].
    destruct (last_key_value_Some _ _ _ Hlast) as [He _]. destruct (_ && _); [|auto].
    rewrite He. assert (epoch_lt (epoch s) e = true) as Hlt by (apply Hnew; by rewrite He).
    destruct (_ && _); simpl.
    + apply epoch_lt_le in Hlt as []. split_and!; [done|naive_solver|].
      intros _ k. rewrite lookup_empty. by intros [].
    + split_and!; [done|by left|]. intros _ k Hk. apply Hnew.
      destruct (decide (k = e)) as [->|]; [by rewrite He|by rewrite lookup_insert_ne in Hk].
  - rename epoch into e. unfold handle_leader. destruct (epoch_lt (ManagerState.epoch s) e) eqn:Hlt; [|auto].
    assert (elections_newer s ∅) as Hem by (intros k; rewrite lookup_empty; by intros []).
    destruct (nodes s !! id) as [node|]; [|auto]. destruct (is_manager node); [|auto]. simpl.
    apply epoch_lt_le in Hlt as []. split_and!; [done|naive_solver|]. intros _ k. rewrite lookup_empty. by intros [].
  - unfold handle_node_disconnected. break; auto.
  - unfold handle_remove_old_partition. break; auto.
Qed.

(** C30: a manager whose epoch is behind takes over a snapshot produced by another
    manager completely: epoch, leader and partition table are those of the
    sender; it knows every worker the sender knew; every node it keeps, itself
    apart, is one the sender knew; and every manager the sender knew is known or
    is being dialled. *)
Theorem cluster_snapshot_transfer s0 s me id e l :
  epoch s0 = Some e → elected_leader_id s0 = Some l → epoch_lt (epoch s) e = true → nodes s0 ≠ ∅ →
  ∃ cs, handle_get_cluster_state s0 id = [ManagerProtocol.ClusterState id cs] ∧
  let '(s', out) := handle_cluster_state s (cs_epoch cs) (cs_leader_id cs) (cs_nodes cs) (cs_partitions cs) me in
  epoch s' = Some e ∧ elected_leader_id s' = Some l ∧ partitions s' = partitions s0 ∧
  (∀ n, is_Some (nodes s' !! n) → n = me_id me ∨ is_Some (nodes s0 !! n)) ∧
  (∀ n node, nodes s0 !! n = Some node →
     is_Some (nodes s' !! n) ∨
     (is_manager node = true ∧ ManagerProtocol.NewConnection None (host node) (port node) true ∈ out)).
Proof.
  intros He Hl Hlt Hne. unfold handle_get_cluster_state. rewrite He, Hl. eexists. split; [done|].
  cbn [cs_epoch cs_leader_id cs_nodes cs_partitions]. unfold handle_cluster_state, accept_cluster_state.
  rewrite Hlt, orb_true_r. fold snapshot_item. fold (snapshot_items (nodes s0)).
  cbn [nodes set_partitions set_leader set_epoch].
  set (items := snapshot_items (nodes s0)). set (ns := retain_snapshot_nodes (me_id me) items (nodes s)).
  pose proof (λ n, merge_cluster_nodes_lookup items ns [] n (snapshot_items_NoDup _)) as Hlook.
  pose proof (λ item, merge_cluster_nodes_dials items ns [] item (snapshot_items_NoDup _)) as Hdial.
  destruct (foldl merge_cluster_node (ns, []) items) as [ns' out]. cbn in Hlook, Hdial |- *.
  split_and!; [done|done|by destruct (partitions s0)| |].
  - intros n. rewrite Hlook. unfold items. rewrite snapshot_items_map, map_lookup_imap.
    destruct (nodes s0 !! n) as [node|] eqn:Hn; simpl; [right; by eexists|].
    intros [x Hx]. apply retain_snapshot_nodes_sub in Hx as [->|Hin]; [by left| |by apply snapshot_items_nil].
    apply elem_of_snapshot_ids in Hin as [? Hin]. by rewrite Hn in Hin.
  - intros n node Hn. rewrite Hlook. unfold items. rewrite snapshot_items_map, map_lookup_imap, Hn. simpl.
    destruct (ns !! n) as [x|] eqn:Hx; [left; by eexists|]. simpl. unfold is_manager.
    destruct (node_type node) eqn:Hty; [right|left; by eexists]. split; [done|].
    apply (Hdial (snapshot_item (n, node))); [|done..].
    apply list_elem_of_fmap_2. by apply elem_of_map_to_list.
Qed.

(** The failure detector of a follower.  With a clock that does not overflow,
    a heartbeat tick forgets the leader exactly when the leader's last heartbeat
    is older than the random timeout; since that timeout is drawn from 500 to 999
    milliseconds, a leader heard from within half a second is kept and a leader
    silent for a second is given up. *)
Theorem leader_timeout_exact now rnd s me self l leader_node :
  nodes s !! me_id me = Some self → is_manager self = true →
  elected_leader_id s = Some l → l ≠ me_id me →
  nodes s !! l = Some leader_node → is_manager leader_node = true →
  random_ok rnd → 0 <= last_heartbeat leader_node < u64_modulus - 1000 →
  let leader' := elected_leader_id (heartbeats now rnd s me).1 in
  leader' = (if last_heartbeat leader_node + rnd <? now then None else Some l) ∧
  (now <= last_heartbeat leader_node + 500 → leader' = Some l) ∧
  (last_heartbeat leader_node + 1000 <= now → leader' = None).
Proof.
  intros Hself Hm Hl Hne Hln Hlm Hrnd Hlh. unfold random_ok in Hrnd.
  assert (elected_leader_id (heartbeats now rnd s me).1 =
          if last_heartbeat leader_node + rnd <? now then None else Some l) as ->.
  { unfold heartbeats. rewrite Hself, Hm.
    destruct (u64_add (last_heartbeat self) HEARTBEAT_INTERVAL_MS <=? now); cbn [elected_leader_id set_nodes nodes];
      rewrite Hl, bool_decide_true, ?lookup_insert_ne, Hln, Hlm, u64_add_small by (done || lia);
      cbn [andb]; by destruct (_ <? now). }
  cbn zeta. split_and!; [done|..]; intros; destruct (Z.ltb_spec (last_heartbeat leader_node + rnd) now); done || lia.
Qed.

(** An acknowledged removal.  When no old-replica entry is empty, handling
    [RemovePartitionFromReplica] removes exactly this replica from the partition's
    old replicas, drops the entry when it was the last one (so the next rebalance
    starts from the current owners again), leaves assignment, new replicas and
    every other partition alone, keeps entries non-empty, and is relayed only by
    the leader, to everybody but the sender, the replica and itself. *)
Theorem remove_old_partition_exact s id r p me :
  (∀ q old, old_replicas (partitions s) !! q = Some old → old ≠ ∅) →
  let '(s', out) := handle_remove_old_partition s id r p me in
  (∀ q n, n ∈ default ∅ (old_replicas (partitions s') !! q) ↔
          n ∈ default ∅ (old_replicas (partitions s) !! q) ∧ ¬ (q = p ∧ n = r)) ∧
  (∀ q old, old_replicas (partitions s') !! q = Some old → old ≠ ∅) ∧
  mapping (partitions s') = mapping (partitions s) ∧
  new_replicas (partitions s') = new_replicas (partitions s) ∧
  (∀ m, m ∈ out ↔ elected_leader_id s = Some (me_id me) ∧
        ∃ n, is_Some (nodes s !! n) ∧ n ≠ r ∧ n ≠ id ∧ n ≠ me_id me ∧
             m = ManagerProtocol.RemovePartitionFromReplica n r p).
Proof.
  intros Hwf. unfold handle_remove_old_partition. set (ps := partitions s).
  set (s' := match old_replicas ps !! p with Some _ => _ | None => s end).
  assert (nodes s' = nodes s ∧ elected_leader_id s' = elected_leader_id s) as [Hn Hl]
    by (unfold s'; by destruct (old_replicas ps !! p)).
  rewrite Hn, Hl. split_and!; [..|apply remove_old_partition_relay].
  - intros q n. unfold s'. destruct (old_replicas ps !! p) as [old|] eqn:Hp; cbn.
    + destruct (decide (q = p)) as [->|Hq].
      * destruct (bool_decide _ && bool_decide _) eqn:E.
        -- rewrite lookup_delete_eq. apply andb_true_iff in E as [_ E%bool_decide_eq_true].
           fold ps. rewrite Hp. simpl. set_solver.
        -- rewrite lookup_insert_eq. fold ps. rewrite Hp. simpl. set_solver.
      * destruct (bool_decide _ && bool_decide _); rewrite ?lookup_delete_ne, ?lookup_insert_ne by done; tauto.
    + fold ps. destruct (decide (q = p)) as [->|]; [rewrite Hp; set_solver|tauto].
  - unfold s'. destruct (old_replicas ps !! p) as [old|] eqn:Hp; [|exact Hwf]. cbn. intros q old'.
    destruct (decide (q = p)) as [->|Hq]; [|destruct (_ && _);
      rewrite ?lookup_delete_ne, ?lookup_insert_ne by done; apply Hwf].
    case_bool_decide as Hr; simpl; [case_bool_decide as Hem|].
    + by rewrite lookup_delete_eq.
    + rewrite lookup_insert_eq. by intros [= <-].
    + rewrite lookup_insert_eq. intros [= <-]. specialize (Hwf _ _ Hp). set_solver.
  - unfold s'. by destruct (old_replicas ps !! p).
  - unfold s'. by destruct (old_replicas ps !! p).
Qed.

(** ** A concrete manager *)

Definition node_a : NodeId := mkNodeId "a".
Definition node_b : NodeId := mkNodeId "b".
Definition node_c : NodeId := mkNodeId "c".
Definition me_a : Me := mkMe node_a "host-a" 9000.
Definition config_a : Config := ManagerConfig 9000 ("host-a", 9000) None 1.
Definition svc_start : ManagerService := (get_init_messages 1000 (ManagerService_new me_a config_a)).1.

(** A second manager connects, and the following tick opens an election. *)
Definition connect_b : ManagerProtocol.t := ManagerProtocol.NewConnection (Some node_b) "host-b" 9001 true.
Definition tick_2000 : TickInput := mkTickInput 1000 500 2000 500.
Definition svc_candidate : ManagerService :=
  from_option fst svc_start (process 1000 tick_2000 connect_b svc_start).

(** A snapshot of a leader elected elsewhere for epoch 5 arrives before the vote. *)
Definition snapshot_c : ManagerProtocol.t :=
  ManagerProtocol.ClusterState node_a
    (mkClusterState 5 node_c [mkClusterNode node_b "host-b" 9001 1900 Manager] Partitions_default).
Definition svc_follower : ManagerService :=
  from_option fst svc_start (process 2001 (mkTickInput 2001 500 2001 500) snapshot_c svc_candidate).

Lemma svc_candidate_reachable : service_reachable me_a config_a svc_candidate.
Proof.
  eapply (sr_process _ _ 1000 tick_2000 connect_b svc_start); [apply sr_init|]. vm_compute. reflexivity.
Qed.

Lemma svc_follower_reachable : service_reachable me_a config_a svc_follower.
Proof.
  eapply (sr_process _ _ 2001 (mkTickInput 2001 500 2001 500) snapshot_c svc_candidate);
    [apply svc_candidate_reachable|]. vm_compute. reflexivity.
Qed.

(** A manager's epoch can go back.  A candidate for epoch 1 accepts
    the snapshot of a leader of epoch 5 without giving up its own election; the
    last vote for epoch 1, arriving late, then makes it leader of epoch 1. *)
Theorem late_vote_lowers_epoch :
  ∃ svc svc' now i msg out,
    service_reachable me_a config_a svc ∧ process now i msg svc = Some (svc', out) ∧
    (state svc ≫= epoch) = Some 5 ∧ (state svc ≫= elected_leader_id) = Some node_c ∧
    (state svc' ≫= epoch) = Some 1 ∧ (state svc' ≫= elected_leader_id) = Some node_a.
Proof.
  exists svc_follower. eexists. exists 2002, (mkTickInput 2002 500 2002 500),
    (ManagerProtocol.VoteResponse node_b node_a 2000). eexists.
  split; [apply svc_follower_reachable|]. split; [vm_compute; reflexivity|]. vm_compute. done.
Qed.

(** ** Witnesses *)

Lemma manager_never_panics_witness :
  service_reachable me_a config_a svc_candidate ∧ is_Some (tick tick_2000 svc_candidate).
Proof.
  split; [apply svc_candidate_reachable|].
  apply (manager_never_panics me_a config_a svc_candidate); [exact I|apply svc_candidate_reachable].
Defined.

Definition state_ab : State :=
  with_epoch (<[node_a := mkNode "host-a" 9000 1000 Manager]>
              {[ node_b := mkNode "host-b" 9001 1000 Manager ]}) 0.

Lemma leader_elected_by_unanimity_witness :
  epoch (handle_vote_response state_ab node_b node_a 2000 me_a {[ 1 := Mine 2000 ∅ ]}).1.1 = Some 1.
Proof.
  pose proof (leader_elected_by_unanimity state_ab node_b node_a 2000 me_a {[ 1 := Mine 2000 ∅ ]} 1 2000 ∅
    (last_key_value_singleton _ _)) as H.
  destruct (handle_vote_response state_ab node_b node_a 2000 me_a {[ 1 := Mine 2000 ∅ ]}) as [[s' es'] out].
  rewrite bool_decide_true in H by (apply (bool_decide_unpack _); vm_compute; exact I).
  apply H.
Defined.

Lemma lone_manager_never_elected_witness :
  (handle_vote_response (with_epoch {[ node_a := mkNode "host-a" 9000 1000 Manager ]} 0)
     node_a node_a 2000 me_a {[ 1 := Mine 2000 ∅ ]}).1.1 =
  with_epoch {[ node_a := mkNode "host-a" 9000 1000 Manager ]} 0.
Proof. apply lone_manager_never_elected. vm_compute. reflexivity. Defined.

Lemma elections_newer_witness : elections_newer state_ab {[ 1 := Mine 2000 ∅ ]}.
Proof. intros e [? ?]. assert (e = 1) as -> by (by apply lookup_singleton_Some in H as [<- _]). done. Qed.

Lemma manager_epoch_monotone_witness :
  epoch_le (Some 0) (epoch (dispatch 2001 (ManagerProtocol.VoteResponse node_b node_a 2000) me_a state_ab
                              {[ 1 := Mine 2000 ∅ ]}).1.1).
Proof.
  pose proof (manager_epoch_monotone 2001 (ManagerProtocol.VoteResponse node_b node_a 2000) me_a state_ab
    {[ 1 := Mine 2000 ∅ ]} elections_newer_witness) as H.
  destruct (dispatch _ _ _ _ _) as [[s' es'] out]. apply H.
Defined.

Lemma cluster_snapshot_transfer_witness :
  ∃ cs, handle_get_cluster_state (set_leader (Some node_a) state_ab) node_c =
    [ManagerProtocol.ClusterState node_c cs].
Proof.
  destruct (cluster_snapshot_transfer (set_leader (Some node_a) state_ab) (without_epoch ∅)
    (mkMe node_c "host-c" 9002) node_c 0 node_a) as (cs & Hcs & _).
  - reflexivity.
  - reflexivity.
  - reflexivity.
  - apply (bool_decide_unpack _). vm_compute. exact I.
  - exists cs. exact Hcs.
Defined.

Lemma leader_timeout_exact_witness :
  elected_leader_id (heartbeats 2500 500 (set_leader (Some node_b) state_ab) me_a).1 = None.
Proof.
  eapply (leader_timeout_exact 2500 500 (set_leader (Some node_b) state_ab) me_a
    (mkNode "host-a" 9000 1000 Manager) node_b (mkNode "host-b" 9001 1000 Manager)).
  1-6: try reflexivity. 1: discriminate. 1: unfold random_ok; lia.
  - unfold u64_modulus. simpl. lia.
  - simpl. lia.
Defined.

Lemma remove_old_partition_exact_witness :
  old_replicas (partitions (handle_remove_old_partition
    (set_partitions (mkPartitions ∅ {[ mkPartitionId 7 := {[ node_b; node_c ]} ]} ∅) state_ab)
    node_b node_b (mkPartitionId 7) me_a).1) !! mkPartitionId 7 ≠ Some ∅.
Proof.
  pose proof (remove_old_partition_exact
    (set_partitions (mkPartitions ∅ {[ mkPartitionId 7 := {[ node_b; node_c ]} ]} ∅) state_ab)
    node_b node_b (mkPartitionId 7) me_a) as H.
  destruct (handle_remove_old_partition _ _ _ _ _) as [s' out]. intros Hem.
  destruct H as (_ & Hne & _).
  - simpl. intros q old [<- <-]%lookup_singleton_Some. set_solver.
  - by apply (Hne _ _ Hem).
Defined.
