(* ===== verification/ManagerTyping.v ===== *)
(** * The manager's data stays within its types

    The model's integers are unbounded; the code's are [u16], [u32] and [u64].
    Every integer of the manager's state and of the messages it emits lies in the
    range of its Rust type, whatever well-typed messages it receives: the
    wrap-around of the model is where the code has it, and nowhere else does a
    value leave its type. *)

From S2P Require Import Prelude Common ManagerState ManagerElection ManagerPartitions ManagerService.
From S2P Require Import ManagerTheorems.

(** ** Types *)

Definition node_typed (n : Node) : Prop := is_u32 (port n) ∧ is_u64 (last_heartbeat n).

Definition keys_typed {V} (m : gmap PartitionId V) : Prop := map_Forall (λ pid _, is_u16 (partition_id_u16 pid)) m.

Definition nodes_typed (ns : gmap NodeId Node) : Prop := map_Forall (λ _ n, node_typed n) ns.

Record partitions_typed (ps : Partitions) : Prop := {
  pt_mapping : keys_typed (mapping ps);
  pt_old : keys_typed (old_replicas ps);
  pt_new : keys_typed (new_replicas ps);
}.

Definition item_typed (item : ClusterNode) : Prop := is_u32 (cn_port item) ∧ is_u64 (cn_last_heartbeat item).

Record snapshot_typed (cs : ClusterState) : Prop := {
  ct_epoch : is_u64 (cs_epoch cs);
  ct_nodes : Forall item_typed (cs_nodes cs);
  ct_partitions : partitions_typed (cs_partitions cs);
}.

Definition message_typed (msg : ManagerProtocol.t) : Prop :=
  match msg with
  | ManagerProtocol.NewConnection _ _ port _ => is_u32 port
  | ManagerProtocol.Heartbeat _ hb => is_u64 (hb_ts hb)
  | ManagerProtocol.ClusterState _ cs => snapshot_typed cs
  | ManagerProtocol.VoteRequest _ epoch ts | ManagerProtocol.Leader _ epoch ts => is_u64 epoch ∧ is_u64 ts
  | ManagerProtocol.VoteResponse _ _ ts => is_u64 ts
  | ManagerProtocol.RemovePartitionFromReplica _ _ pid => is_u16 (partition_id_u16 pid)
  | ManagerProtocol.GetClusterState _ | ManagerProtocol.NodeDisconnected _ => True
  end.

Record state_typed (s : State) : Prop := {
  st_epoch e : epoch s = Some e → is_u64 e;
  st_nodes : nodes_typed (nodes s);
  st_partitions : partitions_typed (partitions s);
}.

Definition elections_typed (es : gmap Z Election) : Prop :=
  map_Forall (λ e election, is_u64 e ∧ is_u64 (Election_ts election)) es.

Record service_typed (svc : ManagerService) : Prop := {
  sv_state s : state svc = Some s → state_typed s;
  sv_elections : elections_typed (elections svc);
}.

Record tick_typed (i : TickInput) : Prop := {
  tt_hb : is_u64 (hb_now i);
  tt_el : is_u64 (el_now i);
}.

(** ** Lemmas *)

Create HintDb typing.

Lemma is_u64_add a b : is_u64 (a +64 b).
Proof. unfold is_u64, u64_add, u64_modulus. apply Z.mod_pos_bound. lia. Qed.

Lemma is_u64_max a b : is_u64 a → is_u64 b → is_u64 (a `max` b).
Proof. unfold is_u64. lia. Qed.

Lemma Forall_fmap_typed {A} (f : A → ManagerProtocol.t) l :
  (∀ x, x ∈ l → message_typed (f x)) → Forall message_typed (f <$> l).
Proof. intros Hf. apply Forall_fmap, Forall_forall. intros x Hx. by apply Hf. Qed.

Lemma nodes_typed_insert ns id n : nodes_typed ns → node_typed n → nodes_typed (<[id := n]> ns).
Proof. intros. by apply map_Forall_insert_2. Qed.

Lemma node_typed_heartbeat n ts : node_typed n → is_u64 ts → node_typed (set_last_heartbeat ts n).
Proof. intros [? ?] ?. by split. Qed.

Lemma keys_typed_insert {V} (m : gmap PartitionId V) pid v :
  keys_typed m → is_u16 (partition_id_u16 pid) → keys_typed (<[pid := v]> m).
Proof. intros. by apply map_Forall_insert_2. Qed.

#[local] Hint Resolve is_u64_add is_u64_max nodes_typed_insert node_typed_heartbeat keys_typed_insert : typing.
#[local] Hint Resolve Forall_nil_2 Forall_app_2 : typing.
#[local] Hint Extern 1 (Forall message_typed [_]) => (by apply Forall_singleton) : typing.
#[local] Hint Extern 1 (Forall message_typed (_ <$> _)) => (apply Forall_fmap_typed; simpl; auto with typing; done) : typing.

(** ** Handlers *)

Lemma merge_typed items ns out :
  Forall item_typed items → nodes_typed ns → Forall message_typed out →
  nodes_typed (foldl merge_cluster_node (ns, out) items).1 ∧
  Forall message_typed (foldl merge_cluster_node (ns, out) items).2.
Proof.
  intros Hi Hn Ho.
  apply (foldl_invariant (λ acc, nodes_typed acc.1 ∧ Forall message_typed acc.2) merge_cluster_node items (ns, out)); [done|].
  intros [ns' out'] item Hin [Hn' Ho']. rewrite Forall_forall in Hi. destruct (Hi _ Hin) as [? ?]. simpl in *.
  destruct (ns' !! cn_id item) as [n|] eqn:Hl.
  - specialize (map_Forall_lookup_1 _ _ _ _ Hn' Hl) as ?. destruct (_ <? _); simpl; auto with typing.
  - destruct (cn_node_type item); simpl; split; auto with typing. by apply nodes_typed_insert.
Qed.

Lemma handle_cluster_state_typed s cs me :
  state_typed s → snapshot_typed cs →
  let '(s', out) := handle_cluster_state s (cs_epoch cs) (cs_leader_id cs) (cs_nodes cs) (cs_partitions cs) me in
  state_typed s' ∧ Forall message_typed out.
Proof.
  intros Hs [He Hn Hp]. unfold handle_cluster_state.
  destruct (accept_cluster_state s (cs_epoch cs) (cs_leader_id cs)) as [s1|] eqn:Ha; [|auto with typing].
  assert (state_typed s1) as Hs1.
  { unfold accept_cluster_state in Ha. destruct (_ || _); [|destruct (_ && _)]; simplify_eq; [|done].
    destruct Hs. split; simpl; [by intros ? [= <-]|done..]. }
  pose proof (merge_typed (cs_nodes cs) (retain_snapshot_nodes (me_id me) (cs_nodes cs) (nodes s1)) [] Hn) as Hm.
  simpl. destruct (foldl _ _ _) as [ns out]. destruct Hm as [? ?]; [|done|].
  - destruct Hs1 as [_ Hns _]. unfold retain_snapshot_nodes. destruct (cs_nodes cs); [done|].
    intros id n Hl. rewrite lookup_map_retain in Hl. destruct (nodes s1 !! id) eqn:E; simplify_eq/=.
    destruct (_ || _); simplify_eq. by apply (Hns id).
  - destruct Hs1. by split.
Qed.

Lemma vote_request_typed s id e ts es :
  is_u64 e ∧ is_u64 ts → elections_typed es →
  let '(es', out) := handle_vote_request s id e ts es in elections_typed es' ∧ Forall message_typed out.
Proof.
  intros [He Ht] Hes. unfold handle_vote_request. destruct (epoch_lt _ _); [|auto with typing].
  assert (elections_typed ∅) by apply map_Forall_empty.
  assert (∀ es', elections_typed es' → elections_typed (<[e := Other ts id]> es')) as Hins
    by (intros; by apply map_Forall_insert_2).
  destruct (last_key_value es) as [[le el]|]; [|auto with typing].
  destruct (_ || _); [auto with typing|].
  destruct (es !! e) as [[|ts' c]|] eqn:Hl; [auto with typing| |auto with typing].
  specialize (map_Forall_lookup_1 _ _ _ _ Hes Hl) as [_ ?]. auto with typing.
Qed.

Lemma vote_response_typed s id lid ts me es :
  is_u64 ts → state_typed s → elections_typed es →
  let '(s', es', out) := handle_vote_response s id lid ts me es in
  state_typed s' ∧ elections_typed es' ∧ Forall message_typed out.
Proof.
  intros Ht Hs Hes. pose proof Hs as [He Hn Hp]. unfold handle_vote_response.
  destruct (response_election _ _ _ _) as [e|]; [|split_and!; [done..|case_match; auto with typing]].
  destruct (es !! e) as [[ts' A|]|] eqn:Hl; [|split_and!; auto with typing..].
  specialize (map_Forall_lookup_1 _ _ _ _ Hes Hl) as [? ?]. destruct (_ && _); split_and!; auto with typing.
  - split; simpl; [by intros ? [= <-]|done..].
  - apply map_Forall_empty.
  - by apply map_Forall_insert_2.
Qed.

Lemma dispatch_typed now msg me s es :
  is_u64 now → message_typed msg → state_typed s → elections_typed es →
  let '(s', es', out) := dispatch now msg me s es in
  state_typed s' ∧ elections_typed es' ∧ Forall message_typed out.
Proof.
  intros Hnow Hmsg Hs Hes. pose proof Hs as [He Hn Hp].
  assert (∀ ns, nodes_typed ns → state_typed (set_nodes ns s)) as Hset by by split.
  destruct msg as [id h pt mg|id hb|id|id cs|id e ts|id lid ts|id e ts|id|id rid pid]; simpl in *.
  - unfold handle_new_connection. repeat case_match; simplify_eq/=; split_and!; auto with typing;
      apply Hset, nodes_typed_insert; done.
  - unfold handle_heartbeat. destruct (nodes s !! hb_id hb) as [n|] eqn:Hl.
    + specialize (map_Forall_lookup_1 _ _ _ _ Hn Hl) as [? ?].
      split_and!; [apply Hset; apply nodes_typed_insert; [done|]; split; [done|by apply is_u64_max]|done|].
      case_bool_decide; auto with typing.
    + split_and!; auto with typing.
  - split_and!; [done..|]. unfold handle_get_cluster_state.
    destruct (epoch s) as [e|] eqn:Ee; [|auto with typing]. destruct (elected_leader_id s); [|auto with typing].
    apply Forall_singleton. split; simpl; [by apply He| |by destruct Hp].
    apply Forall_fmap, Forall_forall. intros [k x] Hin%elem_of_map_to_list. by apply (Hn k).
  - pose proof (handle_cluster_state_typed s cs me Hs Hmsg) as Hc. destruct (handle_cluster_state _ _ _ _ _ _). tauto.
  - pose proof (vote_request_typed s id e ts es Hmsg Hes) as Hv. destruct (handle_vote_request _ _ _ _ _). tauto.
  - by apply vote_response_typed.
  - unfold handle_leader. destruct Hmsg. destruct (epoch_lt _ _); [|auto with typing].
    assert (elections_typed ∅) by apply map_Forall_empty.
    destruct (nodes s !! id) as [n|] eqn:Hl; [|split_and!; auto with typing].
    specialize (map_Forall_lookup_1 _ _ _ _ Hn Hl) as ?.
    destruct (is_manager n); [|split_and!; auto with typing]. split_and!; auto with typing.
    split; simpl; [by intros ? [= <-]|auto with typing|done].
  - split_and!; [|done|auto with typing]. unfold handle_node_disconnected.
    assert (nodes_typed (delete id (nodes s))) by (by apply map_Forall_delete). repeat case_match; [..|done]; by split.
  - split_and!; [|done|case_match; auto with typing]. unfold handle_remove_old_partition. simpl.
    destruct (old_replicas (partitions s) !! pid) as [old|] eqn:Ho; [|done]. destruct Hp as [? Hold ?].
    split; simpl; [done..|]. split; simpl; [done| |done].
    destruct (_ && _); [by apply map_Forall_delete|by apply keys_typed_insert].
Qed.

(** ** Ticks *)

Lemma heartbeats_typed now rnd s me :
  is_u64 now → state_typed s →
  state_typed (heartbeats now rnd s me).1 ∧ Forall message_typed (heartbeats now rnd s me).2.
Proof.
  intros Hnow Hs. pose proof Hs as [He Hn Hp]. unfold heartbeats.
  destruct (nodes s !! me_id me) as [n|] eqn:Hl; [|auto with typing].
  specialize (map_Forall_lookup_1 _ _ _ _ Hn Hl) as ?. destruct (is_manager n); [|auto with typing].
  assert (state_typed (set_nodes (<[me_id me := set_last_heartbeat now n]> (nodes s)) s)).
  { split; simpl; auto with typing. }
  assert (∀ s, state_typed s → state_typed (set_leader None s)) as Hsl by (intros ? []; by split).
  repeat case_match; simplify_eq/=; split; auto with typing.
Qed.

Lemma start_election_typed now rnd s es me :
  is_u64 now → elections_typed es →
  elections_typed (start_election_if_needed now rnd s es me).1 ∧
  Forall message_typed (start_election_if_needed now rnd s es me).2.
Proof.
  intros Hnow Hes. unfold start_election_if_needed.
  destruct (epoch s) as [e|]; [|auto with typing]. destruct (_ && _); [|auto with typing].
  match goal with |- context [if ?b then _ else _] => destruct b end; [|auto with typing].
  match goal with |- context [{[ ?n := _ ]}] => assert (is_u64 n) by (case_match; [case_match|]; auto with typing) end.
  split; [by apply map_Forall_singleton|]. cbn [snd]. apply Forall_fmap_typed. intros x _. by split.
Qed.

Lemma build_mapping_typed amount rf vec m : build_mapping amount rf vec = Some m → keys_typed m.
Proof.
  intros Hm. unfold build_mapping in Hm.
  assert (∀ acc, foldl (place_partition vec rf) (Some ∅) (seqZ 0 amount) = Some acc → keys_typed acc) as H; [|by apply H].
  apply (foldl_invariant (λ o, ∀ acc, o = Some acc → keys_typed acc)).
  { intros acc [= <-]. apply map_Forall_empty. }
  intros o p _ Ho. unfold place_partition. destruct (length vec =? 0)%nat; [done|].
  apply (foldl_invariant (λ o, ∀ acc, o = Some acc → keys_typed acc)); [done|].
  intros o' r _ Ho' acc. unfold place_replica. intros (acc' & -> & (i & _ & (id & _ & Hr)%bind_Some)%bind_Some)%bind_Some.
  assert (is_u16 (as_u16 p)) by (unfold is_u16, as_u16, u16_modulus; apply Z.mod_pos_bound; lia).
  destruct (r =? 0); [injection Hr as <-|apply bind_Some in Hr as (q & _ & [= <-])];
    (apply keys_typed_insert; [by apply Ho'|done]).
Qed.

Lemma worker_partitions_typed s me rf s' out :
  state_typed s → worker_partitions s me rf = Some (s', out) → state_typed s' ∧ Forall message_typed out.
Proof.
  intros Hs. pose proof Hs as [He Hn [Hm Ho Hw]]. unfold worker_partitions.
  destruct (bool_decide (elected_leader_id s = Some (me_id me))); [|intros [= <- <-]; auto with typing].
  destruct (_ || _); [|intros [= <- <-]; auto with typing].
  set (vec := merge_sort _ _).
  assert (partitions_typed (partitions (copy_current_mapping_to_old s vec))) as Hc.
  { split; simpl; [done| |done]. intros pid old Hold. apply lookup_omap_Some in Hold as (old' & _ & Hold').
    revert pid old' Hold'. apply (foldl_invariant keys_typed); [done|].
    intros acc [pid p] Hin%elem_of_map_to_list Hacc. specialize (map_Forall_lookup_1 _ _ _ _ Hm Hin) as ?.
    simpl. case_match; by apply keys_typed_insert. }
  destruct (length vec =? 0)%nat; [intros [= <- <-]; split; [by split|auto with typing]|].
  unfold calculate_new_mapping. destruct (build_mapping PARTITIONS_AMOUNT rf vec) as [m|] eqn:Hb; [|done].
  apply build_mapping_typed in Hb. cbn [mbind option_bind].
  match goal with |- context [create_new_workers_state ?s1] => assert (state_typed s1) as Hs1 end.
  { destruct Hc as [Hc1 Hc2 Hc3]. split; [done..|]. split; [done..|].
    apply (foldl_invariant keys_typed); [done|].
    intros acc [pid p] Hin%elem_of_map_to_list Hacc. specialize (map_Forall_lookup_1 _ _ _ _ Hc1 Hin) as ?.
    cbn [fst snd]. case_match; [by apply keys_typed_insert|done]. }
  destruct (create_new_workers_state _) as [ws|] eqn:Hcs; [|done]. cbn [mbind option_bind]. intros [= <- <-].
  destruct Hs1 as [He1 Hn1 Hp1]. split; [by split|]. apply Forall_fmap_typed. intros x _.
  unfold create_new_workers_state in Hcs. apply bind_Some in Hcs as (e & Hee & (l & _ & [= <-])%bind_Some).
  split; cbn [cs_epoch cs_nodes cs_partitions]; [by apply He1|apply Forall_nil_2|by destruct Hp1].
Qed.

Lemma tick_step_typed i svc svc' out :
  tick_typed i → service_typed svc → tick i svc = Some (svc', out) → service_typed svc' ∧ Forall message_typed out.
Proof.
  intros [Hhb Hel] [Hs Hes]. unfold tick. destruct (state svc) as [s|] eqn:Hst; [|intros [= <- <-]; split; [split; [congruence|done]|auto with typing]].
  destruct (heartbeats_typed (hb_now i) (hb_rnd i) s (me svc) Hhb (Hs _ eq_refl)) as [H1 H1'].
  destruct (heartbeats _ _ _ _) as [s1 out1].
  destruct (start_election_typed (el_now i) (el_rnd i) s1 (elections svc) (me svc) Hel Hes) as [H2 H2'].
  destruct (start_election_if_needed _ _ _ _ _) as [es out2].
  destruct (Config_replication_factor (config svc)) as [rf|]; [|done]. cbn [mbind option_bind].
  destruct (worker_partitions s1 (me svc) rf) as [[s2 out3]|] eqn:Hw; [|done]. cbn [mbind option_bind].
  intros [= <- <-]. apply worker_partitions_typed in Hw as [? ?]; [|done].
  split; [split; [by intros ? [= <-]|done]|by repeat apply Forall_app_2].
Qed.


Lemma svc_start_typed : service_typed svc_start.
Proof.
  split; [|apply map_Forall_empty]. intros s [= <-]. split; simpl; [by intros ? [= <-]| |split; apply map_Forall_empty].
  by apply map_Forall_singleton.
Qed.

