(* ===== verification/ElectionSafety.v ===== *)
(** * Leader election across managers

    A cluster of managers running the handlers of ManagerService over a network
    that may lose, duplicate, delay and reorder votes.  The two vote messages are
    authentic: the receiving side of a connection replaces the recipient id of
    [VoteRequest] and [VoteResponse] by the id of the sender (manager/grpc/output.rs
    and input.rs).  Every other message may arrive at any manager at any time with
    any content.  A ghost log records when an election was started, a vote granted
    and an election won; it is not read by any step. *)

From S2P Require Import Prelude Common ManagerState ManagerElection ManagerPartitions ManagerService.
From S2P Require Import PartitionSpec PartitionTheorems ManagerTheorems.

(** ** The world *)

Inductive packet :=
  | VReq (src dst : NodeId) (epoch ts : Z)
  | VResp (src dst leader_id : NodeId) (ts : Z).

Inductive event :=
  | Started (x : NodeId) (epoch ts : Z)
  | Granted (voter x : NodeId) (epoch ts : Z)
  | Won (x : NodeId) (epoch ts : Z) (approvers : gset NodeId).

Record World := mkWorld {
  managers : gmap NodeId ManagerService;
  net : list packet;
  log : list event;
}.

#[export] Instance Election_eq_dec : EqDecision Election.
Proof. solve_decision. Defined.

(** [process] without its final tick. *)
Definition handle (now : Z) (msg : ManagerProtocol.t) (svc : ManagerService)
    : ManagerService * list ManagerProtocol.t :=
  match state svc with
  | Some s =>
      let '(s, es, out) := dispatch now msg (me svc) s (elections svc) in
      (mkManagerService (me svc) (Some s) es (config svc), out)
  | None => (svc, [])
  end.

(** The vote messages a manager put on its connections. *)
Definition packet_of (x : NodeId) (m : ManagerProtocol.t) : option packet :=
  match m with
  | ManagerProtocol.VoteRequest id e ts => Some (VReq x id e ts)
  | ManagerProtocol.VoteResponse id l ts => Some (VResp x id l ts)
  | _ => None
  end.
Definition packets (x : NodeId) (out : list ManagerProtocol.t) : list packet := omap (packet_of x) out.

Definition is_vote (m : ManagerProtocol.t) : bool :=
  match m with
  | ManagerProtocol.VoteRequest _ _ _ | ManagerProtocol.VoteResponse _ _ _ => true
  | _ => false
  end.

(** What the ghost log records: a tick that replaced the elections by one of its
    own started it; answering a request grants a vote; a vote response that
    empties the elections wins. *)
Definition tick_events (x : NodeId) (es es' : gmap Z Election) : list event :=
  if bool_decide (es' = es) then []
  else match last_key_value es' with Some (e, Mine ts _) => [Started x e ts] | _ => [] end.
Definition request_events (x : NodeId) (e : Z) (out : list ManagerProtocol.t) : list event :=
  omap (λ m, match m with ManagerProtocol.VoteResponse _ l ts => Some (Granted x l e ts) | _ => None end) out.
Definition response_events (x y : NodeId) (es es' : gmap Z Election) : list event :=
  match last_key_value es with
  | Some (e, Mine ts A) => if bool_decide (es' = ∅) then [Won x e ts (A ∪ {[ y ]})] else []
  | _ => []
  end.

(** No epoch counter is about to wrap around. *)
Definition epochs_bounded (svc : ManagerService) : Prop :=
  (∀ s e, state svc = Some s → epoch s = Some e → 0 <= e < u64_modulus - 1) ∧
  (∀ e, is_Some (elections svc !! e) → 0 <= e < u64_modulus - 1).

(** A manager's clock has advanced since each of its earlier elections. *)
Definition clock_fresh (x : NodeId) (now : Z) (l : list event) : Prop :=
  ∀ e ts, Started x e ts ∈ l → ts < now.

Definition update (w : World) (x : NodeId) (svc : ManagerService) (out : list ManagerProtocol.t)
    (evs : list event) : World :=
  mkWorld (<[x := svc]> (managers w)) (packets x out ++ net w) (log w ++ evs).

Inductive world_step : World → World → Prop :=
  | ws_tick w x svc svc' i out :
      managers w !! x = Some svc → tick i svc = Some (svc', out) →
      clock_fresh x (el_now i) (log w) → epochs_bounded svc →
      world_step w (update w x svc' out (tick_events x (elections svc) (elections svc')))
  | ws_message w x svc svc' now msg out :
      managers w !! x = Some svc → is_vote msg = false → handle now msg svc = (svc', out) →
      world_step w (update w x svc' out [])
  | ws_request w x svc svc' now y e ts out :
      managers w !! x = Some svc → VReq y x e ts ∈ net w →
      handle now (ManagerProtocol.VoteRequest y e ts) svc = (svc', out) →
      world_step w (update w x svc' out (request_events x e out))
  | ws_response w x svc svc' now y l ts out :
      managers w !! x = Some svc → VResp y x l ts ∈ net w →
      handle now (ManagerProtocol.VoteResponse y l ts) svc = (svc', out) →
      world_step w (update w x svc' out (response_events x y (elections svc) (elections svc'))).

(** Managers start with a state, without elections, each under its own id. *)
Definition world_init (w : World) : Prop :=
  net w = [] ∧ log w = [] ∧
  ∀ x svc, managers w !! x = Some svc →
    me_id (me svc) = x ∧ is_Some (state svc) ∧ elections svc = ∅.

Inductive world_reachable : World → Prop :=
  | wr_init w : world_init w → world_reachable w
  | wr_step w w' : world_reachable w → world_step w w' → world_reachable w'.

(** ** What one step does to one manager *)

(** The shapes of a local transition: [s], [es] before, [s'], [es'] after, with
    the packets and events it adds. *)
Inductive local (x : NodeId) (N : list packet) (L : list event) (s : State) (es : gmap Z Election) :
    State → gmap Z Election → list packet → list event → Prop :=
  | l_quiet s' es' :
      es' = es ∨ es' = ∅ → epoch_le (epoch s) (epoch s') → local x N L s es s' es' [] []
  | l_start s' e ts ps :
      epoch s' = epoch s → epoch_lt (epoch s) e = true → clock_fresh x ts L →
      (∀ p, p ∈ ps → ∃ dst, p = VReq x dst e ts) →
      local x N L s es s' {[ e := Mine ts ∅ ]} ps [Started x e ts]
  | l_grant es' c e ts ps :
      epoch_lt (epoch s) e = true →
      (es' = es ∧ es !! e = Some (Other ts c)) ∨ (es' = {[ e := Other ts c ]} ∧ VReq c x e ts ∈ N) →
      (∀ p, p ∈ ps → ∃ dst, p = VResp x dst c ts) →
      local x N L s es s es' ps [Granted x c e ts]
  | l_vote y e ts A :
      es = {[ e := Mine ts A ]} → VResp y x x ts ∈ N →
      local x N L s es s {[ e := Mine ts (A ∪ {[ y ]}) ]} [] []
  | l_win s' y e ts A :
      es = {[ e := Mine ts A ]} → VResp y x x ts ∈ N → epoch s' = Some e →
      local x N L s es s' ∅ [] [Won x e ts (A ∪ {[ y ]})].

Lemma packets_none x out :
  (∀ m, m ∈ out → is_vote m = false) → packets x out = [].
Proof.
  unfold packets. induction out as [|m out IH]; intros H; [done|].
  csimpl. assert (is_vote m = false) as Hm by (apply H; by left).
  destruct m; simpl in *; try done; apply IH; intros; apply H; by right.
Qed.

Lemma packets_app x o1 o2 : packets x (o1 ++ o2) = packets x o1 ++ packets x o2.
Proof. apply omap_app. Qed.

Lemma last_key_value_empty {V} : last_key_value (∅ : gmap Z V) = None.
Proof. by apply last_key_value_None. Qed.

(** Elections hold at most one entry. *)
Lemma small_elections (es : gmap Z Election) :
  (size es <= 1)%nat → es = ∅ ∨ ∃ e el, es = {[ e := el ]}.
Proof.
  intros Hsz. destruct (decide (size es = 0%nat)) as [H0|H1].
  - left. by apply map_size_empty_inv.
  - right. destruct (map_choose es) as (e & el & He); [by intros ->; rewrite map_size_empty in H1|].
    exists e, el. rewrite <-(insert_delete_id es e el He).
    assert (size (delete e es) = 0%nat) as Hd%map_size_empty_inv.
    { rewrite map_size_delete_Some by (by rewrite He). lia. }
    by rewrite Hd, insert_empty.
Qed.

Lemma worker_partitions_no_votes s m rf s' out :
  worker_partitions s m rf = Some (s', out) → ∀ m, m ∈ out → is_vote m = false.
Proof.
  unfold worker_partitions. case_bool_decide; [|intros [= _ <-]; set_solver].
  destruct (_ || _); [|intros [= _ <-]; set_solver].
  destruct (_ =? 0)%nat; [intros [= _ <-]; set_solver|].
  destruct (calculate_new_mapping _ _ _ ) as [s1|]; [|done]. cbn [mbind option_bind].
  destruct (create_new_workers_state _) as [ws|] eqn:Hws; [|done].
  cbn [mbind option_bind]. intros [= _ <-] msg. rewrite list_elem_of_fmap. by intros (? & -> & _).
Qed.

Lemma heartbeats_no_votes now rnd s m msg : msg ∈ (heartbeats now rnd s m).2 → is_vote msg = false.
Proof.
  unfold heartbeats. repeat case_match; simplify_eq/=; rewrite ?list_elem_of_fmap; set_solver.
Qed.

Lemma start_election_cases now rnd s es m :
  (∀ e, epoch s = Some e → 0 <= e < u64_modulus - 1) →
  (∀ e, is_Some (es !! e) → 0 <= e < u64_modulus - 1) →
  start_election_if_needed now rnd s es m = (es, []) ∨
  ∃ e, epoch_lt (epoch s) e = true ∧
    start_election_if_needed now rnd s es m =
      ({[ e := Mine now ∅ ]},
       (λ n, ManagerProtocol.VoteRequest n e now) <$> other_managers (me_id m) (nodes s)).
Proof.
  intros Hs Hes. unfold start_election_if_needed. destruct (epoch s) as [c|] eqn:Hc; [|by left].
  destruct (_ && _); [|by left]. specialize (Hs c eq_refl).
  destruct (last_key_value es) as [[k el]|] eqn:Hlast.
  - apply last_key_value_Some in Hlast as [Hk _]. pose proof (Hes k (mk_is_Some _ _ Hk)).
    destruct el; (destruct (_ <? now); [right|by left]); eexists; (split; [|done]); simpl; apply Z.ltb_lt;
      rewrite !u64_add_small by lia; lia.
  - right. eexists. split; [|done]. simpl. apply Z.ltb_lt. rewrite u64_add_small by lia. lia.
Qed.

Lemma tick_local x N L svc svc' i out s :
  state svc = Some s → me_id (me svc) = x →
  (∀ e ts A, elections svc !! e = Some (Mine ts A) → Started x e ts ∈ L) →
  tick i svc = Some (svc', out) → clock_fresh x (el_now i) L → epochs_bounded svc →
  ∃ s', state svc' = Some s' ∧ me svc' = me svc ∧
    local x N L s (elections svc) s' (elections svc') (packets x out)
      (tick_events x (elections svc) (elections svc')).
Proof.
  intros Hs Hx Hmine Ht Hfr [Hb1 Hb2]. unfold tick in Ht. rewrite Hs in Ht.
  pose proof (heartbeats_frame (hb_now i) (hb_rnd i) s (me svc)) as [Hep _].
  pose proof (heartbeats_no_votes (hb_now i) (hb_rnd i) s (me svc)) as Hhb.
  destruct (heartbeats _ _ _ _) as [s1 out1]. simpl in Hep, Hhb.
  assert (start_election_if_needed (el_now i) (el_rnd i) s1 (elections svc) (me svc) = (elections svc, []) ∨ _)
    as Hst by (apply (start_election_cases (el_now i) (el_rnd i) s1 (elections svc) (me svc)); rewrite ?Hep; eauto).
  destruct (start_election_if_needed _ _ _ _ _) as [es out2].
  destruct (Config_replication_factor (config svc)) as [rf|]; [|done]. cbn [mbind option_bind] in Ht.
  destruct (worker_partitions s1 (me svc) rf) as [[s2 out3]|] eqn:Hw; [|done]. cbn [mbind option_bind] in Ht.
  pose proof (worker_partitions_no_votes _ _ _ _ _ Hw) as Hwv.
  apply worker_partitions_frame in Hw as (He2 & _ & _). injection Ht as <- <-. simpl.
  exists s2. split; [done|]. split; [done|].
  rewrite !packets_app, (packets_none x out1), (packets_none x out3), app_nil_r by done. simpl.
  destruct Hst as [[= -> ->]|(e & Hlt & [= -> ->])].
  - unfold tick_events. rewrite bool_decide_true by done. apply l_quiet; [by left|].
    rewrite He2, Hep. apply epoch_le_refl.
  - unfold tick_events. rewrite bool_decide_false.
    + rewrite last_key_value_singleton. apply l_start; [congruence|congruence|done|].
      intros p (m & Hm & Hp)%list_elem_of_omap. apply list_elem_of_fmap in Hm as (n & -> & _).
      injection Hp as <-. eauto.
    + intros Heq. specialize (Hmine e (el_now i) ∅). rewrite <-Heq, lookup_singleton_eq in Hmine.
      specialize (Hfr _ _ (Hmine eq_refl)). lia.
Qed.

Lemma accept_cluster_state_epoch s e l s' :
  accept_cluster_state s e l = Some s' → epoch_le (epoch s) (epoch s').
Proof.
  unfold accept_cluster_state. case_bool_decide as Hno; simpl.
  - intros [= <-]. by rewrite Hno.
  - destruct (epoch_lt _ _) eqn:Hlt; [intros [= <-]; by apply epoch_lt_le in Hlt as []|].
    destruct (_ && _); [|done]. intros [= <-]. apply epoch_le_refl.
Qed.

Lemma merge_cluster_nodes_no_votes items ns out :
  (∀ m, m ∈ out → is_vote m = false) →
  ∀ m, m ∈ (foldl merge_cluster_node (ns, out) items).2 → is_vote m = false.
Proof.
  revert ns out. induction items as [|item items IH]; intros ns out Hout; [done|]. cbn [foldl].
  unfold merge_cluster_node at 2. destruct (ns !! cn_id item); [by apply IH|].
  destruct (cn_node_type item); [|by apply IH]. apply IH. set_solver.
Qed.

Lemma handle_quiet x N L svc svc' now msg out s :
  state svc = Some s → is_vote msg = false → handle now msg svc = (svc', out) →
  ∃ s', state svc' = Some s' ∧ me svc' = me svc ∧
    local x N L s (elections svc) s' (elections svc') (packets x out) [].
Proof.
  intros Hs Hv. unfold handle. rewrite Hs.
  assert (∀ s' es' out', dispatch now msg (me svc) s (elections svc) = (s', es', out') →
    (es' = elections svc ∨ es' = ∅) ∧ epoch_le (epoch s) (epoch s') ∧ ∀ m, m ∈ out' → is_vote m = false) as Hd.
  2: { destruct (dispatch _ _ _ _ _) as [[s' es'] out'] eqn:E. intros [= <- <-].
       destruct (Hd _ _ _ eq_refl) as (? & ? & ?). exists s'. split; [done|]. split; [done|].
       rewrite packets_none by done. by apply l_quiet. }
  pose proof (epoch_le_refl (epoch s)) as Hrefl. intros s' es' out'. destruct msg; try done; simpl.
  - unfold handle_new_connection. break; intros; simplify_eq/=; split_and!; set_solver.
  - unfold handle_heartbeat. break; intros; simplify_eq/=; split_and!; set_solver.
  - unfold handle_get_cluster_state. break; intros; simplify_eq/=; split_and!; set_solver.
  - unfold handle_cluster_state. destruct (accept_cluster_state _ _ _) as [s1|] eqn:Ha.
    + apply accept_cluster_state_epoch in Ha.
      pose proof (merge_cluster_nodes_no_votes (cs_nodes state)
        (retain_snapshot_nodes (me_id (me svc)) (cs_nodes state) (nodes s1)) []) as Hm.
      cbn [nodes set_partitions]. destruct (foldl _ _ _) as [ns o]. intros [= <- <- <-]. split_and!; [by left|done|].
      apply Hm. set_solver.
    + intros [= <- <- <-]. split_and!; [by left|done|set_solver].
  - unfold handle_leader. destruct (epoch_lt _ _) eqn:Hlt; [|intros [= <- <- <-]; split_and!; set_solver].
    apply epoch_lt_le in Hlt as [? _].
    destruct (nodes s !! id) as [node|]; [destruct (is_manager node)|];
      intros [= <- <- <-]; (split_and!; [by right|done|set_solver]).
  - unfold handle_node_disconnected. break; intros; simplify_eq/=; split_and!; set_solver.
  - unfold handle_remove_old_partition. break; intros; simplify_eq/=; split_and!; set_solver.
Qed.

Lemma request_local x N L svc svc' now y e ts out s :
  state svc = Some s → (size (elections svc) <= 1)%nat → VReq y x e ts ∈ N →
  handle now (ManagerProtocol.VoteRequest y e ts) svc = (svc', out) →
  ∃ s', state svc' = Some s' ∧ me svc' = me svc ∧
    local x N L s (elections svc) s' (elections svc') (packets x out) (request_events x e out).
Proof.
  intros Hs Hsz HN. unfold handle. rewrite Hs. simpl. unfold handle_vote_request.
  assert (local x N L s (elections svc) s (elections svc) [] []) as Hq
    by (apply l_quiet; [by left|apply epoch_le_refl]).
  assert (epoch_lt (epoch s) e = true → local x N L s (elections svc) s {[ e := Other ts y ]}
    [VResp x y y ts] [Granted x y e ts]) as Hg.
  { intros Hlt. apply (l_grant _ _ _ _ _ _ y); [done|by right|]. intros p ->%list_elem_of_singleton. eauto. }
  destruct (epoch_lt (epoch s) e) eqn:Hlt; [|intros [= <- <-]; exists s; done].
  apply small_elections in Hsz as [Hes|(k & el & Hes)]; rewrite Hes in *.
  - rewrite last_key_value_empty. intros [= <- <-]. exists s. simpl. rewrite insert_empty. auto.
  - rewrite last_key_value_singleton. destruct (_ || _); simpl.
    + intros [= <- <-]. exists s. simpl. rewrite insert_empty. auto.
    + destruct ({[ k := el ]} !! e) as [[|ts' c]|] eqn:He; intros [= <- <-]; exists s; simpl; try done.
      split; [done|]. split; [done|].
      apply (l_grant _ _ _ _ _ _ c); [done|by left|]. intros p ->%list_elem_of_singleton. eauto.
Qed.

Lemma response_local x N L svc svc' now y l ts out s :
  state svc = Some s → me_id (me svc) = x → (size (elections svc) <= 1)%nat → VResp y x l ts ∈ N →
  handle now (ManagerProtocol.VoteResponse y l ts) svc = (svc', out) →
  ∃ s', state svc' = Some s' ∧ me svc' = me svc ∧
    local x N L s (elections svc) s' (elections svc') (packets x out)
      (response_events x y (elections svc) (elections svc')).
Proof.
  intros Hs Hx Hsz HN. unfold handle. rewrite Hs. simpl. unfold handle_vote_response, response_election, response_events.
  assert (∀ o, (∀ m, m ∈ o → is_vote m = false) →
    local x N L s (elections svc) s (elections svc) (packets x o) []) as Hq.
  { intros o Ho. rewrite packets_none by done. apply l_quiet; [by left|apply epoch_le_refl]. }
  apply small_elections in Hsz as [Hes|(k & el & Hes)]; rewrite Hes in *.
  - rewrite last_key_value_empty. intros [= <- <-]. exists s. split; [done|]. split; [done|].
    simpl. rewrite ?last_key_value_empty. apply Hq.
    case_bool_decide; set_solver.
  - rewrite last_key_value_singleton. destruct el as [ts' A|ts' c].
    + assert (bool_decide ({[ k := Mine ts' A ]} = (∅ : gmap Z Election)) = false) as Hnz
        by (apply bool_decide_eq_false, map_non_empty_singleton).
      destruct (Z.eqb_spec ts' ts) as [->|]; simpl;
        [destruct (bool_decide_reflect (l = me_id (me svc))) as [Hl|Hl]; simpl|].
      * rewrite lookup_singleton_eq. rewrite Hl, Hx in HN. destruct (_ && _); intros [= <- <-]; eexists;
          (split; [done|]); (split; [done|]); simpl.
        -- rewrite packets_none, ?last_key_value_singleton, bool_decide_true by (done || set_solver).
           by apply (l_win _ _ _ _ _ _ y).
        -- rewrite insert_singleton_eq, ?last_key_value_singleton.
           rewrite bool_decide_false by apply map_non_empty_singleton. by apply (l_vote _ _ _ _ _ y).
      * intros [= <- <-]. exists s. simpl. rewrite Hnz.
        split; [done|]. split; [done|]. apply Hq. clear Hnz. case_bool_decide; set_solver.
      * intros [= <- <-]. exists s. simpl. rewrite Hnz.
        split; [done|]. split; [done|]. apply Hq. clear Hnz. case_bool_decide; set_solver.
    + intros [= <- <-]. exists s. simpl. rewrite ?last_key_value_singleton.
      split; [done|]. split; [done|]. apply Hq. case_bool_decide; set_solver.
Qed.

(** ** The invariant *)

(** The log alone: an election has its own timestamp; votes follow the election
    they are for; a winner was backed by all its approvers and cast no vote
    between opening the election and winning it; after winning it votes only
    for newer epochs. *)
Record log_ok (L : list event) : Prop := {
  lk_fresh i j x e e' ts :
    L !! i = Some (Started x e ts) → L !! j = Some (Started x e' ts) → i = j ∧ e = e';
  lk_granted i y x e ts :
    L !! i = Some (Granted y x e ts) → ∃ j, (j < i)%nat ∧ L !! j = Some (Started x e ts);
  lk_won i x e ts K :
    L !! i = Some (Won x e ts K) →
    ∃ j, (j < i)%nat ∧ L !! j = Some (Started x e ts) ∧
      (∀ k z e' ts', (j < k < i)%nat → L !! k ≠ Some (Granted x z e' ts')) ∧
      (∀ y, y ∈ K → ∃ k, (k < i)%nat ∧ L !! k = Some (Granted y x e ts));
  lk_after i k x e ts K z e' ts' :
    L !! i = Some (Won x e ts K) → (i < k)%nat → L !! k = Some (Granted x z e' ts') → e < e';
}.

(** What a manager's own election promises, relative to the log. *)
Definition mine_ok (L : list event) (x : NodeId) (e ts : Z) (A : gset NodeId) : Prop :=
  ∃ i, L !! i = Some (Started x e ts) ∧
    (∀ k z e' ts', (i < k)%nat → L !! k ≠ Some (Granted x z e' ts')) ∧
    (∀ y, y ∈ A → ∃ k, L !! k = Some (Granted y x e ts)) ∧
    (∀ k e' ts' K, L !! k = Some (Won x e' ts' K) → e' < e).

Record manager_ok (L : list event) (x : NodeId) (s : State) (es : gmap Z Election) : Prop := {
  mo_size : (size es <= 1)%nat;
  mo_other e ts c : es !! e = Some (Other ts c) → Granted x c e ts ∈ L;
  mo_mine e ts A : es !! e = Some (Mine ts A) → mine_ok L x e ts A;
  mo_epoch i e ts K : L !! i = Some (Won x e ts K) → epoch_le (Some e) (epoch s);
}.

Definition packet_ok (L : list event) (p : packet) : Prop :=
  match p with
  | VReq x _ e ts => Started x e ts ∈ L
  | VResp y _ c ts => ∃ e, Granted y c e ts ∈ L
  end.

Record world_ok (w : World) : Prop := {
  wo_log : log_ok (log w);
  wo_net p : p ∈ net w → packet_ok (log w) p;
  wo_managers x svc : managers w !! x = Some svc →
    me_id (me svc) = x ∧ ∃ s, state svc = Some s ∧ manager_ok (log w) x s (elections svc);
}.

(** Who an event is about. *)
Definition actor (ev : event) : NodeId :=
  match ev with Started x _ _ => x | Granted y _ _ _ => y | Won x _ _ _ => x end.

Lemma lookup_snoc_split {A} (l : list A) x i y :
  (l ++ [x]) !! i = Some y → l !! i = Some y ∨ (i = length l ∧ x = y).
Proof. intros [[_ ?]|[? ?]]%lookup_snoc_Some; auto. Qed.

Lemma lookup_bound {A} (l : list A) i y : l !! i = Some y → (i < length l)%nat.
Proof. apply lookup_lt_Some. Qed.

Ltac snoc :=
  repeat match goal with
  | H : (_ ++ [_]) !! _ = Some _ |- _ => apply lookup_snoc_split in H as [H|[-> ?]]
  end; simplify_eq/=.
Ltac old := apply lookup_app_l_Some.
Ltac bounds :=
  repeat match goal with
  | H : ?l !! ?i = Some _ |- _ =>
      lazymatch goal with
      | _ : (i < length l)%nat |- _ => fail
      | _ => pose proof (lookup_bound l i _ H)
      end
  end.

Lemma packet_ok_snoc L evs p : packet_ok L p → packet_ok (L ++ evs) p.
Proof.
  destruct p; simpl; [set_solver|]. intros (e & ?). exists e. set_solver.
Qed.

Lemma log_ok_started L x e ts : log_ok L → clock_fresh x ts L → log_ok (L ++ [Started x e ts]).
Proof.
  intros [Hf Hg Hw Ha] Hc. split.
  - intros i j y e1 e2 t H1 H2. snoc; [by eapply Hf| | |done];
      (apply list_elem_of_lookup_2 in H1 || apply list_elem_of_lookup_2 in H2);
      (specialize (Hc _ _ H1) || specialize (Hc _ _ H2)); lia.
  - intros i y z e1 t H1. snoc. destruct (Hg _ _ _ _ _ H1) as (j & ? & ?). exists j. split; [done|by old].
  - intros i y e1 t K H1. snoc. destruct (Hw _ _ _ _ _ H1) as (j & ? & ? & Hno & Hk). bounds.
    exists j. split; [done|]. split; [by old|]. split.
    + intros k z e' ts' Hki Hl. snoc. by eapply Hno.
    + intros z Hz. destruct (Hk z Hz) as (k & ? & ?). exists k. split; [done|by old].
  - intros i k y e1 t K z e' ts' H1 Hik H2. snoc. by eapply Ha.
Qed.

Lemma log_ok_granted L x s es c e ts :
  log_ok L → manager_ok L x s es → epoch_lt (epoch s) e = true → Started c e ts ∈ L →
  log_ok (L ++ [Granted x c e ts]).
Proof.
  intros [Hf Hg Hw Ha] Hm Hlt [j0 Hst]%list_elem_of_lookup_1. split.
  - intros i j y e1 e2 t H1 H2. snoc. by eapply Hf.
  - intros i y z e1 t H1. snoc.
    + destruct (Hg _ _ _ _ _ H1) as (j & ? & ?). exists j. split; [done|by old].
    + bounds. exists j0. split; [done|by old].
  - intros i y e1 t K H1. snoc. destruct (Hw _ _ _ _ _ H1) as (j & ? & ? & Hno & Hk). bounds.
    exists j. split; [done|]. split; [by old|]. split.
    + intros k z e' ts' Hki Hl. snoc; [by eapply Hno|lia].
    + intros z Hz. destruct (Hk z Hz) as (k & ? & ?). exists k. split; [done|by old].
  - intros i k y e1 t K z e' ts' H1 Hik H2. snoc; [by eapply Ha|].
    pose proof (mo_epoch _ _ _ _ Hm _ _ _ _ H1) as Hep. apply epoch_lt_spec in Hlt.
    destruct (epoch s); simpl in *; [lia|done].
Qed.

Lemma log_ok_won L x e ts K :
  log_ok L → mine_ok L x e ts K → log_ok (L ++ [Won x e ts K]).
Proof.
  intros [Hf Hg Hw Ha] (i0 & Hst & Hno0 & Hk0 & _). split.
  - intros i j y e1 e2 t H1 H2. snoc. by eapply Hf.
  - intros i y z e1 t H1. snoc. destruct (Hg _ _ _ _ _ H1) as (j & ? & ?). exists j. split; [done|by old].
  - intros i y e1 t K1 H1. snoc.
    + destruct (Hw _ _ _ _ _ H1) as (j & ? & ? & Hno & Hk). bounds.
      exists j. split; [done|]. split; [by old|]. split.
      * intros k z e' ts' Hki Hl. snoc. by eapply Hno.
      * intros z Hz. destruct (Hk z Hz) as (k & ? & ?). exists k. split; [done|by old].
    + bounds. exists i0. split; [done|]. split; [by old|]. split.
      * intros k z e' ts' Hki Hl. snoc. eapply Hno0; [|done]. lia.
      * intros z Hz. destruct (Hk0 z Hz) as (k & ?). bounds. exists k. split; [done|by old].
  - intros i k y e1 t K1 z e' ts' H1 Hik H2. snoc; [by eapply Ha|]. bounds. lia.
Qed.

Lemma lookup_app_split {A} (l k : list A) i y : (l ++ k) !! i = Some y → l !! i = Some y ∨ y ∈ k.
Proof.
  rewrite lookup_app_Some. intros [?|[_ ?%list_elem_of_lookup_2]]; auto.
Qed.

(** A manager is unaffected by the events of others. *)
Lemma manager_ok_frame L evs x s es :
  (∀ ev, ev ∈ evs → actor ev ≠ x) → manager_ok L x s es → manager_ok (L ++ evs) x s es.
Proof.
  intros Hev [Hsz Ho Hm He]. split; [done|set_solver| |].
  - intros e ts A Hes. destruct (Hm e ts A Hes) as (i & ? & Hno & Hk & Hw). exists i.
    split; [by old|]. split_and!.
    + intros k z e' ts' Hik [Hl|Hl]%lookup_app_split; [by eapply Hno|]. by apply (Hev _ Hl).
    + intros y Hy. destruct (Hk y Hy) as [k ?]. exists k. by old.
    + intros k e' ts' K [Hl|Hl]%lookup_app_split; [by eapply Hw|]. by destruct (Hev _ Hl).
  - intros i e ts K [Hl|Hl]%lookup_app_split; [by eapply He|]. by destruct (Hev _ Hl).
Qed.

(** Dropping the elections or raising the epoch is harmless. *)
Lemma manager_ok_quiet L x s s' es es' :
  es' = es ∨ es' = ∅ → epoch_le (epoch s) (epoch s') → manager_ok L x s es → manager_ok L x s' es'.
Proof.
  intros Hes' Hep [Hsz Ho Hm He].
  assert (∀ i e ts K, L !! i = Some (Won x e ts K) → epoch_le (Some e) (epoch s')) as He'.
  { intros i e ts K Hl%He. destruct (epoch s), (epoch s'); simpl in *; lia || done. }
  destruct Hes' as [->| ->]; split; try done.
  - rewrite map_size_empty. lia.
Qed.

Lemma manager_ok_start L x s s' es e ts :
  manager_ok L x s es → epoch s' = epoch s → epoch_lt (epoch s) e = true →
  manager_ok (L ++ [Started x e ts]) x s' {[ e := Mine ts ∅ ]}.
Proof.
  intros [Hsz Ho Hm He] Hep Hlt. apply epoch_lt_spec in Hlt. split.
  - by rewrite map_size_singleton.
  - intros e1 ts1 c Hl. apply lookup_singleton_Some in Hl as [_ Hl]. done.
  - intros e1 ts1 A [<- [= <- <-]]%lookup_singleton_Some. exists (length L).
    split; [by apply list_lookup_middle|]. split_and!.
    + intros k z e' ts' Hk Hl. snoc. bounds. lia.
    + set_solver.
    + intros k e' ts' K Hl. snoc. apply He in Hl. destruct (epoch s); simpl in *; [lia|done].
  - intros i e1 ts1 K Hl. snoc. rewrite Hep. by eapply He.
Qed.

Lemma manager_ok_grant L x s es es' c e ts :
  manager_ok L x s es →
  (es' = es ∧ es !! e = Some (Other ts c)) ∨ es' = {[ e := Other ts c ]} →
  manager_ok (L ++ [Granted x c e ts]) x s es'.
Proof.
  intros [Hsz Ho Hm He] Hes.
  assert ((size es' <= 1)%nat ∧ ∀ e1 el, es' !! e1 = Some el → ∃ c', el = Other (Election_ts el) c' ∧
    Granted x c' e1 (Election_ts el) ∈ L ++ [Granted x c e ts]) as [Hsz' Hall].
  { destruct Hes as [[-> Hes]| ->].
    - apply small_elections in Hsz as [->|(k & el0 & ->)]; [by rewrite lookup_empty in Hes|].
      apply lookup_singleton_Some in Hes as [-> ->]. split; [by rewrite map_size_singleton|].
      intros e1 el [<- <-]%lookup_singleton_Some. exists c. set_solver.
    - split; [by rewrite map_size_singleton|]. intros e1 el [<- <-]%lookup_singleton_Some. exists c. set_solver. }
  split; [done|..].
  - intros e1 ts1 c1 Hl. destruct (Hall _ _ Hl) as (c' & [= <-] & ?). done.
  - intros e1 ts1 A Hl. destruct (Hall _ _ Hl) as (c' & Hc & _). done.
  - intros i e1 ts1 K Hl. snoc. by eapply He.
Qed.

(** A vote response is for the candidate's current election. *)
Lemma vote_backs L (N : list packet) x y e ts A :
  log_ok L → (∀ p, p ∈ N → packet_ok L p) → VResp y x x ts ∈ N → mine_ok L x e ts A →
  mine_ok L x e ts (A ∪ {[ y ]}).
Proof.
  intros Hlog Hnet Hp (i & Hi & Hno & Hk & Hw). exists i. split_and!; [done..| |done].
  intros z [Hz|Hz]%elem_of_union; [by apply Hk|]. apply elem_of_singleton in Hz as ->.
  destruct (Hnet _ Hp) as (e' & [k Hg]%list_elem_of_lookup_1).
  destruct (lk_granted _ Hlog _ _ _ _ _ Hg) as (j & _ & Hj).
  destruct (lk_fresh _ Hlog _ _ _ _ _ _ Hi Hj) as [_ ->]. eauto.
Qed.

Lemma local_ok x N L s es s' es' ps evs :
  log_ok L → (∀ p, p ∈ N → packet_ok L p) → manager_ok L x s es → local x N L s es s' es' ps evs →
  log_ok (L ++ evs) ∧ (∀ p, p ∈ ps → packet_ok (L ++ evs) p) ∧
  manager_ok (L ++ evs) x s' es' ∧ (∀ ev, ev ∈ evs → actor ev = x).
Proof.
  intros Hlog Hnet Hm. destruct 1 as [s' es' Hes Hep|s' e ts ps Hep Hlt Hfr Hps|es' c e ts ps Hlt Hes Hps
    |y e ts A -> Hp|s' y e ts A -> Hp Hep]; rewrite ?app_nil_r.
  - split_and!; [done|set_solver| |set_solver]. by eapply manager_ok_quiet.
  - split_and!; [by apply log_ok_started| | |by intros ev ->%list_elem_of_singleton].
    + intros p (dst & ->)%Hps. simpl. set_solver.
    + by eapply manager_ok_start.
  - split_and!; [| | |by intros ev ->%list_elem_of_singleton].
    + eapply log_ok_granted; [done..|]. destruct Hes as [[-> Hes]|[-> Hp]]; [|by apply (Hnet _ Hp)].
      apply (mo_other _ _ _ _ Hm), list_elem_of_lookup_1 in Hes as [k Hg].
      destruct (lk_granted _ Hlog _ _ _ _ _ Hg) as (j & _ & Hj). by eapply list_elem_of_lookup_2.
    + intros p (dst & ->)%Hps. exists e. set_solver.
    + eapply manager_ok_grant; [done|]. destruct Hes as [?|[-> _]]; auto.
  - pose proof (mo_mine _ _ _ _ Hm _ _ _ (lookup_singleton_eq e _)) as Hmine.
    split_and!; [done|set_solver| |set_solver]. destruct Hm as [Hsz Ho Hmi He]. split; [by rewrite map_size_singleton|..].
    + intros e1 ts1 c Hl. apply lookup_singleton_Some in Hl as [_ Hl]. done.
    + intros e1 ts1 A1 [<- [= <- <-]]%lookup_singleton_Some. by eapply vote_backs.
    + done.
  - pose proof (mo_mine _ _ _ _ Hm _ _ _ (lookup_singleton_eq e _)) as Hmine.
    pose proof (vote_backs _ _ _ _ _ _ _ Hlog Hnet Hp Hmine) as Hmine'.
    split_and!; [by apply log_ok_won|set_solver| |by intros ev ->%list_elem_of_singleton].
    split; [rewrite map_size_empty; lia|intros *; by rewrite lookup_empty..|].
    intros i e1 ts1 K Hl. rewrite Hep. snoc; simpl; [|lia].
    destruct Hmine as (_ & _ & _ & _ & Hw). apply Hw in Hl. lia.
Qed.

(** A local transition of manager [x] preserves the invariant of the world. *)
Lemma world_ok_update w x svc svc' s out evs :
  world_ok w → managers w !! x = Some svc → state svc = Some s →
  (∃ s', state svc' = Some s' ∧ me svc' = me svc ∧
    local x (net w) (log w) s (elections svc) s' (elections svc') (packets x out) evs) →
  world_ok (update w x svc' out evs).
Proof.
  intros [Hlog Hnet Hman] Hx Hs (s' & Hs' & Hme & Hloc).
  destruct (Hman _ _ Hx) as (Hid & s0 & Hs0 & Hok). rewrite Hs in Hs0. injection Hs0 as <-.
  destruct (local_ok _ _ _ _ _ _ _ _ _ Hlog Hnet Hok Hloc) as (Hlog' & Hps & Hok' & Hact).
  split; simpl.
  - done.
  - intros p [Hp|Hp]%elem_of_app; [by apply Hps|]. apply packet_ok_snoc. by apply Hnet.
  - intros y svc1. destruct (decide (y = x)) as [->|Hne].
    + rewrite lookup_insert_eq. intros [= <-]. rewrite Hme. eauto.
    + rewrite lookup_insert_ne by done. intros Hy. destruct (Hman _ _ Hy) as (? & s1 & ? & ?).
      split; [done|]. exists s1. split; [done|]. apply manager_ok_frame; [|done].
      intros ev Hev%Hact. congruence.
Qed.

Lemma world_step_ok w w' : world_ok w → world_step w w' → world_ok w'.
Proof.
  intros Hok Hstep.
  destruct Hstep as [w x svc svc' i out Hx Ht Hfr Hb|w x svc svc' now msg out Hx Hv Hh
    |w x svc svc' now y e ts out Hx Hp Hh|w x svc svc' now y l ts out Hx Hp Hh];
    destruct (wo_managers _ Hok _ _ Hx) as (Hid & s & Hs & Hm); eapply world_ok_update; try done.
  - eapply tick_local; try done. intros e ts A Hes.
    destruct (mo_mine _ _ _ _ Hm _ _ _ Hes) as (k & Hk & _). by eapply list_elem_of_lookup_2.
  - by eapply handle_quiet.
  - eapply request_local; try done. apply Hm.
  - eapply response_local; try done. apply Hm.
Qed.

Lemma world_reachable_ok w : world_reachable w → world_ok w.
Proof.
  induction 1 as [w (Hn & Hl & Hi)|w w' _ IH Hstep]; [|by eapply world_step_ok].
  split; rewrite ?Hn, ?Hl.
  - split; intros *; by rewrite lookup_nil.
  - set_solver.
  - intros x svc (Hid & [s Hs] & Hes)%Hi. split; [done|]. exists s. split; [done|]. rewrite Hes.
    split; intros *; rewrite ?map_size_empty, ?lookup_empty, ?lookup_nil; done || lia.
Qed.

(** [process] is [handle] followed by a tick, so every run of the service loop is
    a run of these steps. *)
Lemma process_handle_tick now i msg svc :
  process now i msg svc =
    ('(svc', out') ← tick i (handle now msg svc).1; Some (svc', (handle now msg svc).2 ++ out')).
Proof.
  unfold process, handle. destruct (state svc) as [s|]; [|done].
  by destruct (dispatch now msg (me svc) s (elections svc)) as [[s' es'] out].
Qed.

(** Two winners of an epoch who voted for each other contradict the order of
    their elections: each vote precedes the voter's own election. *)
Lemma mutual_winners_ordered L a b e ts1 ts2 K1 K2 i1 i2 :
  log_ok L → (i1 < i2)%nat →
  L !! i1 = Some (Won a e ts1 K1) → L !! i2 = Some (Won b e ts2 K2) → b ∈ K1 → a ∈ K2 → False.
Proof.
  intros Hlog Hlt H1 H2 Hb Ha.
  destruct (lk_won _ Hlog _ _ _ _ _ H1) as (s1 & _ & Hs1 & Hno1 & Hk1).
  destruct (lk_won _ Hlog _ _ _ _ _ H2) as (s2 & _ & Hs2 & Hno2 & Hk2).
  destruct (Hk1 b Hb) as (g1 & Hg1i & Hg1), (Hk2 a Ha) as (g2 & Hg2i & Hg2).
  destruct (lk_granted _ Hlog _ _ _ _ _ Hg1) as (j1 & Hj1 & Hst1).
  destruct (lk_granted _ Hlog _ _ _ _ _ Hg2) as (j2 & Hj2 & Hst2).
  destruct (lk_fresh _ Hlog _ _ _ _ _ _ Hs1 Hst1) as [-> _].
  destruct (lk_fresh _ Hlog _ _ _ _ _ _ Hs2 Hst2) as [-> _].
  assert (g2 < i1)%nat.
  { destruct (Nat.lt_trichotomy g2 i1) as [?|[->|Hgt]]; [done|congruence|].
    pose proof (lk_after _ Hlog _ _ _ _ _ _ _ _ _ H1 Hgt Hg2). lia. }
  assert (g2 ≠ j1) by congruence. assert (g1 ≠ j2) by congruence.
  assert (¬ (j1 < g2 < i1)%nat) by (intros ?; by eapply Hno1).
  assert (¬ (j2 < g1 < i2)%nat) by (intros ?; by eapply Hno2). lia.
Qed.

(** ** Claim *)

(** C6: election safety.  In every run of a cluster of managers, under message
    loss, duplication and reordering and arbitrary traffic besides authentic
    votes, two managers that win the same epoch, each counting the other among
    its approvers (it counts every other manager it knows), are the same manager,
    provided each manager's clock advances between its own elections and the
    epoch counter has not wrapped around. *)
Theorem election_safety w a b e ts1 ts2 K1 K2 :
  world_reachable w →
  Won a e ts1 K1 ∈ log w → Won b e ts2 K2 ∈ log w →
  b ∈ K1 ∪ {[ a ]} → a ∈ K2 ∪ {[ b ]} → a = b.
Proof.
  intros Hr%world_reachable_ok [i1 H1]%list_elem_of_lookup_1 [i2 H2]%list_elem_of_lookup_1 Hb Ha.
  destruct (decide (a = b)) as [|Hne]; [done|exfalso].
  destruct (Nat.lt_trichotomy i1 i2) as [?|[->|?]]; [| |].
  - eapply (mutual_winners_ordered (log w) a b e ts1 ts2 K1 K2 i1 i2); [apply Hr|done..|set_solver|set_solver].
  - congruence.
  - eapply (mutual_winners_ordered (log w) b a e ts2 ts1 K2 K1 i2 i1); [apply Hr|done..|set_solver|set_solver].
Qed.

(** ** Witness: two managers, one elected *)

Definition members_ab : gmap NodeId Node :=
  <[node_a := mkNode "host-a" 9000 1000 Manager]> {[ node_b := mkNode "host-b" 9001 1000 Manager ]}.
Definition me_b : Me := mkMe node_b "host-b" 9001.
Definition svc_a0 : ManagerService := mkManagerService me_a (Some (with_epoch members_ab 0)) ∅ config_a.
Definition svc_b0 : ManagerService := mkManagerService me_b (Some (with_epoch members_ab 0)) ∅ config_a.
Definition world0 : World := mkWorld (<[node_a := svc_a0]> {[ node_b := svc_b0 ]}) [] [].

Definition tick_a : TickInput := mkTickInput 2000 500 2000 500.
Definition out_of (r : option (ManagerService * list ManagerProtocol.t)) : ManagerService * list ManagerProtocol.t :=
  default (svc_a0, []) r.
Definition step_a : ManagerService * list ManagerProtocol.t := out_of (tick tick_a svc_a0).
Definition world1 : World :=
  update world0 node_a step_a.1 step_a.2 (tick_events node_a ∅ (elections step_a.1)).
Definition step_b : ManagerService * list ManagerProtocol.t :=
  handle 2001 (ManagerProtocol.VoteRequest node_a 1 2000) svc_b0.
Definition world2 : World := update world1 node_b step_b.1 step_b.2 (request_events node_b 1 step_b.2).
Definition step_a2 : ManagerService * list ManagerProtocol.t :=
  handle 2002 (ManagerProtocol.VoteResponse node_b node_a 2000) step_a.1.
Definition world3 : World :=
  update world2 node_a step_a2.1 step_a2.2
    (response_events node_a node_b (elections step_a.1) (elections step_a2.1)).

Lemma world0_init : world_init world0.
Proof.
  split_and!; [done..|]. intros x svc. unfold world0. cbn [managers].
  intros [[<- <-]|[_ [<- <-]%lookup_singleton_Some]]%lookup_insert_Some; split_and!; done || by eexists.
Qed.

Lemma world1_reachable : world_reachable world1.
Proof.
  refine (wr_step world0 _ (wr_init _ world0_init) _).
  refine (ws_tick world0 node_a svc_a0 step_a.1 tick_a step_a.2 _ _ _ _); [vm_compute; reflexivity..| |].
  - intros e ts []%not_elem_of_nil.
  - split; [intros s e [= <-] [= <-]; unfold u64_modulus; lia|]. intros e. simpl.
    rewrite lookup_empty. by intros [].
Qed.

Lemma world2_reachable : world_reachable world2.
Proof.
  refine (wr_step world1 _ world1_reachable _). unfold world2.
  refine (ws_request world1 node_b svc_b0 step_b.1 2001 node_a 1 2000 step_b.2 _ _ _).
  - vm_compute. reflexivity.
  - apply list_elem_of_lookup_2 with 0%nat. vm_compute. reflexivity.
  - vm_compute. reflexivity.
Qed.

Lemma world3_reachable : world_reachable world3.
Proof.
  refine (wr_step world2 _ world2_reachable _). unfold world3.
  refine (ws_response world2 node_a step_a.1 step_a2.1 2002 node_b node_a 2000 step_a2.2 _ _ _).
  - vm_compute. reflexivity.
  - apply list_elem_of_lookup_2 with 0%nat. vm_compute. reflexivity.
  - vm_compute. reflexivity.
Qed.

Lemma election_safety_witness : Won node_a 1 2000 {[ node_b ]} ∈ log world3 ∧ node_a = node_a.
Proof.
  assert (Won node_a 1 2000 (∅ ∪ {[ node_b ]}) ∈ log world3) as Hwon.
  { apply list_elem_of_lookup_2 with 2%nat. vm_compute. reflexivity. }
  split; [by rewrite union_empty_l_L in Hwon|].
  apply (election_safety world3 node_a node_a 1 2000 2000 (∅ ∪ {[ node_b ]}) (∅ ∪ {[ node_b ]}));
    [apply world3_reachable|exact Hwon|exact Hwon|set_solver|set_solver].
Defined.
