(* ===== verification/ElectionLiveness.v ===== *)
(** * Elections complete

    Election safety says that no two managers lead one epoch; here the protocol
    run that elects a leader is followed through the service loops: a manager
    without a leader starts an election, the others grant their votes, the
    votes arrive in any order between the candidate's ticks, and the
    announcement is accepted.  What is assumed is that the messages arrive before
    the election times out. *)

From S2P Require Import Prelude Common ManagerState ManagerElection ManagerPartitions ManagerService.
From S2P Require Import ManagerTheorems.

(** A manager waiting for votes: [voters] are the other managers it knows,
    [approvers] those that voted for it. *)
Record candidate (self : Me) (e ts : Z) (voters approvers : gset NodeId) (svc : ManagerService) : Prop := {
  cd_me : me svc = self;
  cd_config : is_manager_config (config svc);
  cd_state : ∃ s, state svc = Some s ∧ is_Some (epoch s) ∧ elected_leader_id s = None ∧
    list_to_set (other_managers (me_id self) (nodes s)) = voters;
  cd_elections : elections svc = {[ e := Mine ts approvers ]};
}.

(** The election has not timed out at a tick. *)
Definition in_time (ts : Z) (i : TickInput) : Prop := el_now i <= ts +64 el_rnd i.

(** A manager that leads an epoch. *)
Definition leads (self : Me) (e : Z) (svc : ManagerService) : Prop :=
  ∃ s, state svc = Some s ∧ epoch s = Some e ∧ elected_leader_id s = Some (me_id self).

(** The service handling messages one after the other, with the outputs. *)
Fixpoint feed (l : list (Z * TickInput * ManagerProtocol.t)) (svc : ManagerService)
    : option (ManagerService * list ManagerProtocol.t) :=
  match l with
  | [] => Some (svc, [])
  | (now, i, msg) :: l =>
      '(svc, out) ← process now i msg svc;
      '(svc, out') ← feed l svc;
      Some (svc, out ++ out')
  end.

(** ** Lemmas *)

Lemma heartbeats_without_leader now rnd s me :
  elected_leader_id s = None →
  let s' := (heartbeats now rnd s me).1 in
  epoch s' = epoch s ∧ elected_leader_id s' = None ∧ size (nodes s') = size (nodes s) ∧
  (list_to_set (other_managers (me_id me) (nodes s')) : gset NodeId) = list_to_set (other_managers (me_id me) (nodes s)).
Proof.
  intros Hl. unfold heartbeats. destruct (nodes s !! me_id me) as [n|] eqn:Hn; [|done].
  destruct (is_manager n); [|done]. destruct (_ <=? _); simpl; rewrite Hl; [|done].
  split_and!; [done..|cbn; by rewrite map_size_insert_Some by (by rewrite Hn)|].
  apply set_eq. intros x. rewrite !elem_of_list_to_set, !elem_of_other_managers.
  destruct (decide (x = me_id me)) as [->|Hne]; [tauto|].
  setoid_rewrite lookup_insert_ne; [done|congruence].
Qed.

Lemma candidate_tick self e ts voters A i svc :
  candidate self e ts voters A svc → in_time ts i →
  ∃ svc' out, tick i svc = Some (svc', out) ∧ candidate self e ts voters A svc'.
Proof.
  intros [<- Hc (s & Hs & [e0 He] & Hl & Hv) Hes] Ht. unfold tick. rewrite Hs.
  destruct (heartbeats_without_leader (hb_now i) (hb_rnd i) s (me svc) Hl) as (He1 & Hl1 & _ & Hv1).
  destruct (heartbeats _ _ _ _) as [s1 out1]. simpl in He1, Hl1, Hv1.
  assert (start_election_if_needed (el_now i) (el_rnd i) s1 (elections svc) (me svc) = (elections svc, [])) as ->.
  { unfold start_election_if_needed. rewrite He1, He, Hes, last_key_value_singleton.
    assert ((ts +64 el_rnd i <? el_now i) = false) as -> by (unfold in_time in Ht; lia). by destruct (_ && _). }
  destruct (config svc) as [? ? ? rf|] eqn:Ec; [|done]. cbn [Config_replication_factor mbind option_bind].
  assert (worker_partitions s1 (me svc) rf = Some (s1, [])) as ->.
  { unfold worker_partitions. rewrite Hl1. by rewrite bool_decide_false by done. }
  cbn [mbind option_bind]. do 2 eexists. split; [done|]. split; simpl; [done|done| |done].
  exists s1. split_and!; [done|by rewrite He1, He|done|by rewrite Hv1].
Qed.

Lemma leader_tick self e i svc :
  me svc = self → is_manager_config (config svc) → (size (elections svc) <= 1)%nat → leads self e svc →
  ∃ svc' out, tick i svc = Some (svc', out) ∧ leads self e svc'.
Proof.
  intros <- Hc Hes (s & Hs & He & Hl). unfold tick. rewrite Hs.
  assert (epoch (heartbeats (hb_now i) (hb_rnd i) s (me svc)).1 = Some e ∧
    elected_leader_id (heartbeats (hb_now i) (hb_rnd i) s (me svc)).1 = Some (me_id (me svc))) as [He1 Hl1].
  { unfold heartbeats. destruct (nodes s !! me_id (me svc)) as [n|]; [|done]. destruct (is_manager n); [|done].
    destruct (_ <=? _); simpl; rewrite Hl; by rewrite bool_decide_false by (by intros []). }
  destruct (heartbeats _ _ _ _) as [s1 out1]. simpl in He1, Hl1.
  destruct (start_election_if_needed _ _ _ _ _) as [es out2].
  destruct (config svc) as [? ? ? rf|] eqn:Ec; [|done]. cbn [Config_replication_factor mbind option_bind].
  destruct (worker_partitions_total s1 (me svc) rf) as [[s2 out3] Hw]; [intros _; by rewrite He1|].
  rewrite Hw. cbn [mbind option_bind]. do 2 eexists. split; [done|]. apply worker_partitions_frame in Hw as (He2 & Hl2 & _).
  exists s2. simpl. by rewrite He2, Hl2.
Qed.

(** One vote: the election goes on, or it is complete and announced. *)
Lemma candidate_vote self e ts voters A now i id svc :
  candidate self e ts voters A svc → in_time ts i →
  ∃ svc' out, process now i (ManagerProtocol.VoteResponse id (me_id self) ts) svc = Some (svc', out) ∧
    if decide (A ∪ {[ id ]} = voters) then
      leads self e svc' ∧ ∀ v, v ∈ voters → ManagerProtocol.Leader v e ts ∈ out
    else candidate self e ts voters (A ∪ {[ id ]}) svc'.
Proof.
  intros [<- Hc (s & Hs & He & Hl & Hv) Hes] Ht. unfold process. rewrite Hs. simpl.
  unfold handle_vote_response, response_election. rewrite Hes, last_key_value_singleton, Z.eqb_refl.
  rewrite bool_decide_true by done. simpl. rewrite lookup_singleton_eq.
  pose proof (approvers_exact (A ∪ {[ id ]}) _ (NoDup_other_managers (me_id (me svc)) (nodes s))) as Hex.
  rewrite Hv in Hex.
  destruct (_ && _), (decide (A ∪ {[ id ]} = voters)) as [Heq|Hneq]; simpl; [|by destruct Hneq; apply Hex|by apply Hex in Heq|].
  - destruct (leader_tick (me svc) e i (mkManagerService (me svc)
      (Some (set_epoch (Some e) (set_leader (Some (me_id (me svc))) s))) ∅ (config svc))) as (svc' & out' & -> & Hlead);
      [done|done|simpl; rewrite map_size_empty; lia|by eexists|].
    simpl. do 2 eexists. split; [done|]. split; [done|]. intros v Hin. apply elem_of_app. left.
    apply list_elem_of_fmap. exists v. split; [done|]. apply elem_of_other_nodes.
    rewrite <-Hv, elem_of_list_to_set, elem_of_other_managers in Hin. destruct Hin as (? & n & ? & _). eauto.
  - rewrite insert_singleton_eq.
    destruct (candidate_tick (me svc) e ts voters (A ∪ {[ id ]}) i
      (mkManagerService (me svc) (Some s) {[ e := Mine ts (A ∪ {[ id ]}) ]} (config svc))) as (svc' & out' & -> & Hcand);
      [|done|simpl; by do 2 eexists].
    split; simpl; try done. by exists s.
Qed.

(** All votes, in any order. *)
Lemma candidate_votes self e ts voters l A svc :
  candidate self e ts voters A svc → Forall (λ v : Z * TickInput * NodeId, in_time ts v.1.2) l →
  l ≠ [] → NoDup (l.*2) → A ## list_to_set (l.*2) → A ∪ list_to_set (l.*2) = voters →
  ∃ svc' out, feed ((λ v : Z * TickInput * NodeId, (v.1.1, v.1.2, ManagerProtocol.VoteResponse v.2 (me_id self) ts)) <$> l) svc
      = Some (svc', out) ∧
    leads self e svc' ∧ ∀ v, v ∈ voters → ManagerProtocol.Leader v e ts ∈ out.
Proof.
  revert A svc. induction l as [|[[now i] id] l IH]; intros A svc Hc Hf Hne Hnd Hdj Hu; [done|].
  apply Forall_cons in Hf as [Hi Hf]. simpl in Hi. apply NoDup_cons in Hnd as [Hid Hnd].
  destruct (candidate_vote self e ts voters A now i id svc Hc Hi) as (svc1 & out1 & Hp & Hr).
  cbn [fmap list_fmap feed]. cbn [fst snd]. rewrite Hp. cbn [mbind option_bind].
  destruct (decide (A ∪ {[ id ]} = voters)) as [Heq|Hneq].
  - assert (l = []) as ->.
    { destruct l as [|x l]; [done|]. exfalso. assert (x.2 ∈ voters) as Hx by (rewrite <-Hu; simpl; set_solver).
      rewrite <-Heq in Hx. set_solver. }
    simpl. destruct Hr as [? Hout]. do 2 eexists. split; [done|]. rewrite app_nil_r. done.
  - destruct (IH (A ∪ {[ id ]}) svc1 Hr Hf) as (svc2 & out2 & Hfeed & Hlead & Hout); [|done| | |].
    + intros ->. simpl in Hu. set_solver.
    + simpl in Hdj. rewrite disjoint_union_l. split; [set_solver|]. rewrite disjoint_singleton_l.
      by rewrite elem_of_list_to_set.
    + rewrite <-Hu. simpl. set_solver.
    + rewrite Hfeed. simpl. do 2 eexists. split; [done|]. split; [done|]. intros v Hv. apply elem_of_app. right. by apply Hout.
Qed.

(** A manager without a leader and without an election starts one at its next tick. *)
Lemma election_starts self i svc s e0 :
  me svc = self → is_manager_config (config svc) → state svc = Some s →
  epoch s = Some e0 → elected_leader_id s = None → (1 < size (nodes s))%nat → elections svc = ∅ →
  ∃ svc' out, tick i svc = Some (svc', out) ∧
    candidate self (e0 +64 1) (el_now i) (list_to_set (other_managers (me_id self) (nodes s))) ∅ svc' ∧
    ∀ v, v ∈ other_managers (me_id self) (nodes s) → ManagerProtocol.VoteRequest v (e0 +64 1) (el_now i) ∈ out.
Proof.
  intros <- Hc Hs He Hl Hsz Hes. unfold tick. rewrite Hs.
  destruct (heartbeats_without_leader (hb_now i) (hb_rnd i) s (me svc) Hl) as (He1 & Hl1 & Hsz1 & Hv1).
  destruct (heartbeats _ _ _ _) as [s1 out1]. simpl in He1, Hl1, Hsz1, Hv1.
  unfold start_election_if_needed. rewrite He1, He, Hl1, Hsz1, Hes.
  assert ((1 <? size (nodes s))%nat = true) as -> by (by apply Nat.ltb_lt).
  rewrite bool_decide_true by done. cbn [andb]. change (last_key_value (∅ : gmap Z Election)) with (@None (Z * Election)).
  cbv beta iota zeta.
  destruct (config svc) as [? ? ? rf|] eqn:Ec; [|done]. cbn [Config_replication_factor mbind option_bind].
  assert (worker_partitions s1 (me svc) rf = Some (s1, [])) as ->.
  { unfold worker_partitions. rewrite Hl1. by rewrite bool_decide_false by done. }
  cbn [mbind option_bind]. do 2 eexists. split; [done|]. split.
  - split; simpl; [done|done| |done]. exists s1. split_and!; [done|by rewrite He1, He|done..].
  - intros v Hin. rewrite !elem_of_app. right. left. apply list_elem_of_fmap. exists v. split; [done|].
    rewrite <-(elem_of_list_to_set (C := gset NodeId)), Hv1. by apply elem_of_list_to_set.
Qed.

(** A manager that is not in a newer or an earlier election grants the vote. *)
Lemma voter_grants now i svc s a e ts :
  service_ok svc → state svc = Some s → epoch_lt (epoch s) e = true →
  (∀ le el, last_key_value (elections svc) = Some (le, el) → le < e ∨ ts < Election_ts el) →
  ∃ svc' out, process now i (ManagerProtocol.VoteRequest a e ts) svc = Some (svc', out) ∧
    ManagerProtocol.VoteResponse a a ts ∈ out.
Proof.
  intros Hok Hs He Hel. pose proof (process_total now i (ManagerProtocol.VoteRequest a e ts) svc Hok) as [[svc' out] Hp].
  exists svc', out. split; [done|]. unfold process in Hp. rewrite Hs in Hp. simpl in Hp.
  assert (ManagerProtocol.VoteResponse a a ts ∈ (handle_vote_request s a e ts (elections svc)).2) as Hin.
  { unfold handle_vote_request. rewrite He. destruct (last_key_value (elections svc)) as [[le el]|]; [|by left].
    assert ((le <? e) || (ts <? Election_ts el) = true) as -> by (destruct (Hel _ _ eq_refl); lia). by left. }
  destruct (handle_vote_request _ _ _ _ _) as [es out1]. destruct (tick i _) as [[svc1 out2]|]; [|done]. simpl in Hp.
  injection Hp as <- <-. apply elem_of_app. by left.
Qed.

(** A manager that knows the new leader follows it. *)
Lemma follower_accepts now i svc s a n e ts :
  service_ok svc → state svc = Some s → epoch_lt (epoch s) e = true →
  nodes s !! a = Some n → is_manager n = true → a ≠ me_id (me svc) → hb_now i <= ts +64 hb_rnd i →
  ∃ svc' out s', process now i (ManagerProtocol.Leader a e ts) svc = Some (svc', out) ∧
    state svc' = Some s' ∧ epoch s' = Some e ∧ elected_leader_id s' = Some a.
Proof.
  intros Hok Hs He Hn Hm Hne Ht.
  pose proof (process_total now i (ManagerProtocol.Leader a e ts) svc Hok) as [[svc' out] Hp].
  rewrite Hp. exists svc', out. unfold process in Hp. rewrite Hs in Hp. simpl in Hp.
  unfold handle_leader in Hp. rewrite He, Hn, Hm in Hp.
  set (s1 := set_epoch _ _) in Hp.
  assert (epoch (heartbeats (hb_now i) (hb_rnd i) s1 (me svc)).1 = Some e ∧
    elected_leader_id (heartbeats (hb_now i) (hb_rnd i) s1 (me svc)).1 = Some a) as [He1 Hl1].
  { unfold heartbeats. cbn [nodes set_epoch set_leader set_nodes s1].
    destruct (_ !! me_id (me svc)) as [n'|] eqn:Hme; [|done]. destruct (is_manager n'); [|done].
    destruct (_ <=? _); simpl; rewrite bool_decide_true by done;
      rewrite ?lookup_insert_ne by done; rewrite lookup_insert_eq; simpl;
      by assert ((ts +64 hb_rnd i <? hb_now i) = false) as -> by lia; rewrite andb_false_r. }
  unfold tick in Hp. simpl in Hp. fold s1 in Hp.
  destruct (heartbeats _ _ s1 _) as [s2 out1]. simpl in He1, Hl1.
  destruct (start_election_if_needed _ _ _ _ _) as [es out2].
  destruct (Config_replication_factor (config svc)) as [rf|]; [|done]. cbn [mbind option_bind] in Hp.
  destruct (worker_partitions s2 (me svc) rf) as [[s3 out3]|] eqn:Hw; [|done]. cbn [mbind option_bind] in Hp.
  injection Hp as <- <-. apply worker_partitions_frame in Hw as (He2 & Hl2 & _).
  exists s3. simpl. by rewrite He2, Hl2.
Qed.


