(* ===== verification/WorkerState.v ===== *)
(** * Worker state and its small handlers

    [State], [SyncState] and [SyncPhase] (worker/service/state.rs) and the
    handlers of worker/service/cluster_state.rs, election.rs, heartbeat.rs and
    connection.rs.  Conventions are those of ManagerState: a handler returns the
    new state and the messages it pushed, clock reads are arguments. *)

From S2P Require Import Prelude Common.

Inductive SyncPhase :=
  | Snapshot (revision : Z)
  | Changes (confirmed_revision pending_revision : Z).

Record SyncState := mkSyncState {
  prev_max_key : option Key;
  curr_max_key : Key;
  phase : SyncPhase;
  confirmed : bool;
  last_start_time : Z;
}.

#[export] Instance SyncPhase_eq_dec : EqDecision SyncPhase.
Proof. solve_decision. Defined.
#[export] Instance SyncState_eq_dec : EqDecision SyncState.
Proof. solve_decision. Defined.

Record State := mkState {
  epoch : option Z;
  elected_leader_id : option NodeId;
  nodes : gmap NodeId Node;
  partitions : Partitions;
  partitions_last_update_time : Z;
  sync : gmap PartitionId (gmap NodeId SyncState);
  actual_nodes_sync_completion : gmap PartitionId (gmap NodeId Z);
}.

Definition State_new (nodes : gmap NodeId Node) : State :=
  mkState None None nodes Partitions_default 0 ∅ ∅.

(** Field updates. *)
Definition set_epoch (e : option Z) (s : State) : State :=
  mkState e (elected_leader_id s) (nodes s) (partitions s) (partitions_last_update_time s) (sync s)
    (actual_nodes_sync_completion s).
Definition set_leader (l : option NodeId) (s : State) : State :=
  mkState (epoch s) l (nodes s) (partitions s) (partitions_last_update_time s) (sync s)
    (actual_nodes_sync_completion s).
Definition set_nodes (n : gmap NodeId Node) (s : State) : State :=
  mkState (epoch s) (elected_leader_id s) n (partitions s) (partitions_last_update_time s) (sync s)
    (actual_nodes_sync_completion s).
Definition set_partitions (p : Partitions) (s : State) : State :=
  mkState (epoch s) (elected_leader_id s) (nodes s) p (partitions_last_update_time s) (sync s)
    (actual_nodes_sync_completion s).
Definition set_update_time (t : Z) (s : State) : State :=
  mkState (epoch s) (elected_leader_id s) (nodes s) (partitions s) t (sync s)
    (actual_nodes_sync_completion s).
Definition set_sync (y : gmap PartitionId (gmap NodeId SyncState)) (s : State) : State :=
  mkState (epoch s) (elected_leader_id s) (nodes s) (partitions s) (partitions_last_update_time s) y
    (actual_nodes_sync_completion s).
Definition set_completion (c : gmap PartitionId (gmap NodeId Z)) (s : State) : State :=
  mkState (epoch s) (elected_leader_id s) (nodes s) (partitions s) (partitions_last_update_time s) (sync s) c.

(** [State::get_currently_synced_actual_nodes]: per partition the nodes whose
    sync completed since the last change of the partition table. *)
Definition get_currently_synced_actual_nodes (s : State) : gmap PartitionId (gset NodeId) :=
  omap (λ node_id_to_time : gmap NodeId Z,
          let currently_synced_nodes :=
            dom (filter (λ nt : NodeId * Z, nt.2 = partitions_last_update_time s) node_id_to_time) in
          if bool_decide (currently_synced_nodes = ∅) then None else Some currently_synced_nodes)
    (actual_nodes_sync_completion s).

(** [state.epoch < Some(epoch)] on [Option<u64>]. *)
Definition epoch_lt (e : option Z) (epoch : Z) : bool :=
  match e with None => true | Some e => e <? epoch end.

(** [nodes.iter().filter(|(key, node)| *key != &me.id && node.is_manager())], keys only. *)
Definition other_managers (me : NodeId) (nodes : gmap NodeId Node) : list NodeId :=
  (filter (λ kn : NodeId * Node, kn.1 ≠ me ∧ is_manager kn.2 = true) (map_to_list nodes)).*1.

(** The [GetClusterState] requests of several handlers. *)
Definition ask_managers (me : Me) (s : State) : list WorkerProtocol.t :=
  WorkerProtocol.GetClusterState <$> other_managers (me_id me) (nodes s).

(** ** worker/service/cluster_state.rs *)

Definition accept_cluster_state (s : State) (epoch' : Z) (leader_id : NodeId) : option State :=
  if bool_decide (epoch s = None) || epoch_lt (epoch s) epoch'
  then Some (set_leader (Some leader_id) (set_epoch (Some epoch') s))
  else if bool_decide (epoch s = Some epoch') && bool_decide (elected_leader_id s = Some leader_id)
  then Some s
  else None.

(** One turn of [for item in items]. *)
Definition merge_cluster_node (acc : gmap NodeId Node * list WorkerProtocol.t) (item : ClusterNode)
    : gmap NodeId Node * list WorkerProtocol.t :=
  let '(ns, out) := acc in
  match ns !! cn_id item with
  | Some node =>
      (if last_heartbeat node <? cn_last_heartbeat item
       then <[cn_id item := set_last_heartbeat (cn_last_heartbeat item) node]> ns else ns, out)
  | None =>
      (ns, out ++ [WorkerProtocol.NewConnection None (cn_host item) (cn_port item)
                     match cn_node_type item with Manager => true | Worker => false end])
  end.

(** [now] is [now_millis()], read only when the partition table changed. *)
Definition handle_cluster_state (now : Z) (s : State) (epoch' : Z) (leader_id : NodeId)
    (items : list ClusterNode) (partitions' : Partitions) (me : Me) : State * list WorkerProtocol.t :=
  match accept_cluster_state s epoch' leader_id with
  | Some s =>
      let s :=
        if bool_decide (partitions s ≠ partitions')
        then set_update_time (Z.max now (u64_saturating_add (partitions_last_update_time s) 1)) s
        else s in
      let s := set_partitions partitions' s in
      let retained :=
        match items with
        | [] => nodes s
        | _ => map_retain (λ id _, bool_decide (id = me_id me) || bool_decide (id ∈ (cn_id <$> items))) (nodes s)
        end in
      let '(ns, out) := foldl merge_cluster_node (retained, []) items in
      (set_nodes ns s, out)
  | None => (s, [])
  end.

Definition handle_remove_old_partition (s : State) (replica_id : NodeId) (me : Me) : list WorkerProtocol.t :=
  if negb (bool_decide (nodes s !! replica_id = None)) then ask_managers me s else [].

(** ** worker/service/election.rs *)

Definition handle_leader (s : State) (id : NodeId) (epoch' ts : Z) (me : Me) : State * list WorkerProtocol.t :=
  if epoch_lt (epoch s) epoch' then
    match nodes s !! id with
    | Some node =>
        if is_manager node then
          (set_epoch (Some epoch') (set_leader (Some id)
             (set_nodes (<[id := set_last_heartbeat ts node]> (nodes s)) s)), [])
        else (s, ask_managers me s)
    | None => (s, ask_managers me s)
    end
  else (s, []).

(** ** worker/service/heartbeat.rs *)

Definition HEARTBEAT_INTERVAL_MS : Z := 200.

Definition heartbeats (now : Z) (s : State) (me : Me) : State * list WorkerProtocol.t :=
  match nodes s !! me_id me with
  | Some node =>
      if is_worker node && (last_heartbeat node +64 HEARTBEAT_INTERVAL_MS <=? now) then
        let s := set_nodes (<[me_id me := set_last_heartbeat now node]> (nodes s)) s in
        (s, (λ key, WorkerProtocol.Heartbeat key (mkHeartbeat (me_id me) now)) <$>
              filter (λ key, key ≠ me_id me) (map_to_list (nodes s)).*1)
      else (s, [])
  | None => (s, [])
  end.

Definition handle_heartbeat (s : State) (id : NodeId) (ts : Z) (me : Me) : State * list WorkerProtocol.t :=
  match nodes s !! id with
  | None => (s, ask_managers me s)
  | Some node =>
      (set_nodes (<[id := set_last_heartbeat (Z.max (last_heartbeat node) ts) node]> (nodes s)) s, [])
  end.

(** ** worker/service/connection.rs *)

Definition handle_node_disconnected (s : State) (id : NodeId) : State :=
  set_nodes (delete id (nodes s)) s.

Definition handle_new_connection (now : Z) (s : State) (id : option NodeId) (host : string) (port : Z)
    (manager : bool) : State * list WorkerProtocol.t :=
  match id with
  | Some id =>
      if manager
      then (set_nodes (<[id := mkNode host port now Manager]> (nodes s)) s, [WorkerProtocol.GetClusterState id])
      else (set_nodes (<[id := mkNode host port now Worker]> (nodes s)) s, [])
  | None => (s, [])
  end.
