(* ===== verification/WorkerSync.v ===== *)
(** * Migration of partitions between workers (worker/service/partitions.rs)

    The sending side (a pass over all partitions at every tick), the receiving
    side (applying a batch) and the acknowledgement.  The store is shared with
    the gRPC tasks; here it is passed in and out.  The clock is read at most
    twice per partition and recipient in one pass: [Clock] gives each read. *)

From S2P Require Import Prelude Containers Common RuntimeStore WorkerState.

Definition SYNC_TIMEOUT_MS : Z := 60000.
Definition SYNC_BATCH_SIZE : nat := 1000.

(** The value of the [n]-th [now_millis()] made for a partition and a recipient. *)
Definition Clock := PartitionId → NodeId → nat → Z.

Definition set_confirmed (b : bool) (y : SyncState) : SyncState :=
  mkSyncState (prev_max_key y) (curr_max_key y) (phase y) b (last_start_time y).

(** One turn of the loop of [handle_sync_batch_response]. *)
Definition confirm_partition (sender_id : NodeId) (y : gmap PartitionId (gmap NodeId SyncState))
    (pk : PartitionId * Key) : gmap PartitionId (gmap NodeId SyncState) :=
  match y !! pk.1 with
  | Some node_id_to_state =>
      match node_id_to_state !! sender_id with
      | Some st =>
          if curr_max_key st =? pk.2
          then <[pk.1 := <[sender_id := set_confirmed true st]> node_id_to_state]> y
          else y
      | None => y
      end
  | None => y
  end.

Definition handle_sync_batch_response (s : State) (partition_id_to_max_applied_key : gmap PartitionId Key)
    (sender_id : NodeId) : State :=
  set_sync (foldl (confirm_partition sender_id) (sync s) (map_to_list partition_id_to_max_applied_key)) s.

Definition mutation_to_domain (key : Key) (mutation : Mutation) : Record_ :=
  match mutation with
  | Put record => mkRecord_ key (value record) (expiration_time_ms record) (creation_time_ms record) false
  | Delete deletion_time_ms => mkRecord_ key [] 0 deletion_time_ms true
  end.

Definition node_owns_partition (ps : Partitions) (partition_id : PartitionId) (node_id : NodeId) : bool :=
  match mapping ps !! partition_id with
  | Some m => bool_decide (master m = node_id) || bool_decide (node_id ∈ replicas m)
  | None => false
  end.

Definition get_node_ids_curr_node_has_to_sync_the_partition_to (partition : PartitionId) (me : NodeId)
    (ps : Partitions) (cluster_nodes : gmap NodeId Node) (currently_synced : option (gset NodeId))
    : gset NodeId :=
  let node_ids : gset NodeId :=
    if from_option (λ old : gset NodeId, bool_decide (me ∈ old)) false (old_replicas ps !! partition) then
      match mapping ps !! partition with
      | Some m =>
          (if bool_decide (master m ≠ me) then {[ master m ]} else ∅) ∪
          filter (λ node_id, node_id ≠ me) (replicas m)
      | None => ∅
      end
    else if from_option (λ old : gset NodeId, bool_decide (old = ∅)) true (old_replicas ps !! partition) then
      match mapping ps !! partition with
      | Some m =>
          if bool_decide (master m = me) || bool_decide (me ∈ replicas m) then
            match new_replicas ps !! partition with
            | Some new =>
                if bool_decide (me ∉ new) then
                  match currently_synced with
                  | Some synced => filter (λ node_id, node_id ∉ synced) new
                  | None => new
                  end
                else ∅
            | None => ∅
            end
          else ∅
      | None => ∅
      end
    else ∅ in
  filter (λ node_id, is_Some (cluster_nodes !! node_id)) node_ids.

Section sync.
Context {M : Type → Type} `{SkipMap M} {D : Type → Type} `{DashMap PartitionId D}.
Implicit Types (st : RuntimeStore M D).

Definition sync_batch (st : RuntimeStore M D) (recipient : NodeId) (partition : PartitionId)
    (after_key : option Key) (me : Me) : option Key * list WorkerProtocol.t :=
  let vec := get_partition_mutations partition SYNC_BATCH_SIZE after_key st in
  match vec with
  | [] => (None, [])
  | _ =>
      (fst <$> last vec,
       [WorkerProtocol.SyncBatch recipient
          (mkSyncBatchRequest (me_id me) ((λ km, mutation_to_domain km.1 km.2) <$> vec))])
  end.

(** The [loop] of [sync_change_batch]: the outer [None] is missing fuel, the inner
    one the [?] of the function. *)
Fixpoint change_loop (fuel : nat) (st : RuntimeStore M D) (partition : PartitionId) (cursor : Z)
    : option (option (Z * list (Key * Mutation))) :=
  match fuel with
  | O => None
  | S fuel =>
      match get_partition_changes partition cursor SYNC_BATCH_SIZE st with
      | None => Some None
      | Some (last_revision, []) => change_loop fuel st partition last_revision
      | Some (last_revision, records) => Some (Some (last_revision, records))
      end
  end.

(** Every turn passes at least one journal entry ([change_loop_spec], [change_fuel_enough]). *)
Definition change_fuel (st : RuntimeStore M D) (partition : PartitionId) : nat :=
  match dm_get partition (cache st) with
  | Some p => S (length (sm_iter (ps_changes p)))
  | None => 1
  end.

Definition sync_change_batch (st : RuntimeStore M D) (recipient : NodeId) (partition : PartitionId)
    (after_revision : Z) (me : Me) : option (Z * Key) * list WorkerProtocol.t :=
  match change_loop (change_fuel st partition) st partition after_revision with
  | Some (Some (last_revision, records)) =>
      match max_key records.*1 with
      | Some max_key =>
          (Some (last_revision, max_key),
           [WorkerProtocol.SyncBatch recipient
              (mkSyncBatchRequest (me_id me) ((λ km, mutation_to_domain km.1 km.2) <$> records))])
      | None => (None, [])
      end
  | _ => (None, [])
  end.

Definition start_sync (now : Z) (recipient_states : gmap NodeId SyncState) (st : RuntimeStore M D) (me : Me)
    (partition_id : PartitionId) (recipient_id : NodeId)
    : gmap NodeId SyncState * list WorkerProtocol.t * bool :=
  match stable_partition_revision partition_id st with
  | None => (recipient_states, [], false)
  | Some start_revision =>
      match sync_batch st recipient_id partition_id None me with
      | (Some curr_max_key, out) =>
          (<[recipient_id := mkSyncState None curr_max_key (Snapshot start_revision) false now]> recipient_states,
           out, false)
      | (None, out) =>
          (recipient_states, out,
           bool_decide (stable_partition_revision partition_id st = Some start_revision))
      end
  end.

Definition continue_changes (now : Z) (y : SyncState) (st : RuntimeStore M D) (me : Me)
    (partition_id : PartitionId) (recipient_id : NodeId) (confirmed_revision : Z)
    : SyncState * list WorkerProtocol.t * bool :=
  match sync_change_batch st recipient_id partition_id confirmed_revision me with
  | (Some (pending_revision, curr_max_key), out) =>
      (mkSyncState None curr_max_key (Changes confirmed_revision pending_revision) false now, out, false)
  | (None, out) =>
      if bool_decide (stable_partition_revision partition_id st ≠ None)
      then (set_confirmed true y, out, true)
      else (y, out, false)
  end.

Definition continue_confirmed_sync (now : Z) (y : SyncState) (st : RuntimeStore M D) (me : Me)
    (partition_id : PartitionId) (recipient_id : NodeId) : SyncState * list WorkerProtocol.t * bool :=
  match phase y with
  | Snapshot revision =>
      match sync_batch st recipient_id partition_id (Some (curr_max_key y)) me with
      | (Some new_max_key, out) =>
          (mkSyncState (Some (curr_max_key y)) new_max_key (phase y) false now, out, false)
      | (None, out) =>
          let '(y, out', completed) :=
            continue_changes now y st me partition_id recipient_id revision in
          (y, out ++ out', completed)
      end
  | Changes _ pending_revision =>
      continue_changes now y st me partition_id recipient_id pending_revision
  end.

(** [now1] is read by the timeout test, [now2] when a batch was sent again. *)
Definition retry_timed_out_sync (now1 now2 : Z) (y : SyncState) (st : RuntimeStore M D) (me : Me)
    (partition_id : PartitionId) (recipient_id : NodeId) : SyncState * list WorkerProtocol.t :=
  if now1 -64 last_start_time y <? SYNC_TIMEOUT_MS then (y, [])
  else
    let '(retried, out) :=
      match phase y with
      | Snapshot _ => sync_batch st recipient_id partition_id (prev_max_key y) me
      | Changes confirmed_revision _ =>
          let '(r, out) := sync_change_batch st recipient_id partition_id confirmed_revision me in
          (snd <$> r, out)
      end in
    match retried with
    | Some new_max_key => (mkSyncState (prev_max_key y) new_max_key (phase y) false now2, out)
    | None => (y, out)
    end.

Definition sync_partition_to_recipient (clk : Clock) (recipient_states : gmap NodeId SyncState)
    (st : RuntimeStore M D) (me : Me) (partition_id : PartitionId) (recipient_id : NodeId)
    : gmap NodeId SyncState * list WorkerProtocol.t * bool :=
  match recipient_states !! recipient_id with
  | None => start_sync (clk partition_id recipient_id 0%nat) recipient_states st me partition_id recipient_id
  | Some y =>
      if confirmed y then
        let '(y, out, completed) :=
          continue_confirmed_sync (clk partition_id recipient_id 0%nat) y st me partition_id recipient_id in
        (<[recipient_id := y]> recipient_states, out, completed)
      else
        let '(y, out) :=
          retry_timed_out_sync (clk partition_id recipient_id 0%nat) (clk partition_id recipient_id 1%nat)
            y st me partition_id recipient_id in
        (<[recipient_id := y]> recipient_states, out, false)
  end.

Definition record_completed_sync (s : State) (me : Me) (partition_id : PartitionId) (recipient_id : NodeId)
    : State * list WorkerProtocol.t :=
  (if node_owns_partition (partitions s) partition_id (me_id me) then
     let times := default ∅ (actual_nodes_sync_completion s !! partition_id) in
     set_completion (<[partition_id := <[recipient_id := partitions_last_update_time s]> times]>
                       (actual_nodes_sync_completion s)) s
   else s,
   match elected_leader_id s with
   | Some leader_id => [WorkerProtocol.RemovePartitionFromReplica leader_id (me_id me) partition_id]
   | None => []
   end).

(** One turn of [for recipient_id in recipient_ids]. *)
Definition sync_recipient (clk : Clock) (st : RuntimeStore M D) (me : Me) (partition_id : PartitionId)
    (acc : State * list WorkerProtocol.t) (recipient_id : NodeId) : State * list WorkerProtocol.t :=
  let '(s, out) := acc in
  let recipient_states := default ∅ (sync s !! partition_id) in
  let '(recipient_states, out', completed) :=
    sync_partition_to_recipient clk recipient_states st me partition_id recipient_id in
  let s := set_sync (<[partition_id := recipient_states]> (sync s)) s in
  if completed then
    let '(s, out'') := record_completed_sync s me partition_id recipient_id in
    (s, out ++ out' ++ out'')
  else (s, out ++ out').

(** The revision below which a recipient no longer needs the journal. *)
Definition phase_floor (p : SyncPhase) : Z :=
  match p with
  | Snapshot revision => revision
  | Changes confirmed_revision _ => confirmed_revision
  end.

Definition sync_partition (clk : Clock) (s : State) (st : RuntimeStore M D) (me : Me)
    (partition_id : PartitionId) (recipient_ids : gset NodeId)
    : State * RuntimeStore M D * list WorkerProtocol.t :=
  let s :=
    match sync s !! partition_id with
    | Some recipient_states =>
        set_sync (<[partition_id :=
          map_retain (λ recipient_id _, negb (bool_decide (nodes s !! recipient_id = None))) recipient_states]>
          (sync s)) s
    | None => s
    end in
  let '(s, out) := foldl (sync_recipient clk st me partition_id) (s, []) (elements recipient_ids) in
  match sync s !! partition_id with
  | Some recipient_states =>
      let recipient_states := map_retain (λ _ y, negb (confirmed y)) recipient_states in
      let s := set_sync (<[partition_id := recipient_states]> (sync s)) s in
      let prune_through :=
        match min_key ((λ ry : NodeId * SyncState, phase_floor (phase ry.2)) <$> map_to_list recipient_states) with
        | Some r => Some r
        | None => stable_partition_revision partition_id st
        end in
      match prune_through with
      | Some r => (s, prune_partition_changes partition_id r st, out)
      | None => (s, st, out)
      end
  | None =>
      match stable_partition_revision partition_id st with
      | Some revision => (s, prune_partition_changes partition_id revision st, out)
      | None => (s, st, out)
      end
  end.

(** [state.sync.retain(..)] with its effect on the store. *)
Definition remove_completed_syncs_and_obsolete_partitions (s : State) (st : RuntimeStore M D) (me : Me)
    : State * RuntimeStore M D :=
  (set_sync (map_retain (λ _ sync_state, negb (bool_decide (sync_state = ∅))) (sync s)) s,
   foldl (λ st (py : PartitionId * gmap NodeId SyncState),
            if bool_decide (py.2 = ∅) && negb (node_owns_partition (partitions s) py.1 (me_id me))
            then remove_partition py.1 st else st)
     st (map_to_list (sync s))).

(** One turn of [for partition_id in 0..PARTITIONS_AMOUNT]. *)
Definition sync_one_partition (clk : Clock) (currently_synced_nodes : gmap PartitionId (gset NodeId)) (me : Me)
    (acc : State * RuntimeStore M D * list WorkerProtocol.t) (partition_id : PartitionId)
    : State * RuntimeStore M D * list WorkerProtocol.t :=
  let '(s, st, out) := acc in
  let recipient_ids :=
    get_node_ids_curr_node_has_to_sync_the_partition_to partition_id (me_id me) (partitions s) (nodes s)
      (currently_synced_nodes !! partition_id) in
  let '(s, st, out') := sync_partition clk s st me partition_id recipient_ids in
  (s, st, out ++ out').

Definition sync_partitions (clk : Clock) (s : State) (st : RuntimeStore M D) (me : Me)
    : State * RuntimeStore M D * list WorkerProtocol.t :=
  let currently_synced_nodes := get_currently_synced_actual_nodes s in
  let '(s, st, out) :=
    foldl (sync_one_partition clk currently_synced_nodes me) (s, st, []) (partition_range PARTITIONS_AMOUNT) in
  let '(s, st) := remove_completed_syncs_and_obsolete_partitions s st me in
  (s, st, out).

(** One turn of the loop of [handle_sync_batch]. *)
Definition apply_record (acc : RuntimeStore M D * gmap PartitionId Key) (record : Record_)
    : RuntimeStore M D * gmap PartitionId Key :=
  let '(st, acks) := acc in
  let st :=
    if rec_deleted record then delete_at (rec_key record) (rec_creation_time_ms record) st
    else put (rec_key record) (mkRecord (rec_ttl record) (rec_creation_time_ms record) (rec_value record)) st in
  let partition := Key_partition (rec_key record) in
  (st,
   match acks !! partition with
   | Some k => if k <? rec_key record then <[partition := rec_key record]> acks else acks
   | None => <[partition := rec_key record]> acks
   end).

Definition handle_sync_batch (request : SyncBatchRequest) (st : RuntimeStore M D)
    : RuntimeStore M D * list WorkerProtocol.t :=
  let '(st, acks) := foldl apply_record (st, ∅) (req_records request) in
  (st, [WorkerProtocol.SyncBatchResponse (req_sender_id request) acks]).

End sync.
