(* ===== verification/WorkerService.v ===== *)
(** * The worker's service loop (worker/service.rs)

    [WorkerService] and its entry points: initialization, the periodic tick and
    the handling of one protocol message (followed by a tick).  The store is the
    [RuntimeStore] the service shares with the gRPC tasks. *)

From S2P Require Import Prelude Containers Common RuntimeStore WorkerState WorkerSync.

Section service.
Context {M : Type → Type} `{SkipMap M} {D : Type → Type} `{DashMap PartitionId D}.

Record WorkerService := mkWorkerService {
  me : Me;
  state : option State;
  config : Config;
  runtime_store : RuntimeStore M D;
}.

Definition set_store (st : RuntimeStore M D) (svc : WorkerService) : WorkerService :=
  mkWorkerService (me svc) (state svc) (config svc) st.

Definition WorkerService_new (me : Me) (config : Config) (runtime_store : RuntimeStore M D) : WorkerService :=
  mkWorkerService me None config runtime_store.

(** [None] is the panic of [expect]. *)
Definition get_init_messages (now : Z) (svc : WorkerService) : option (WorkerService * list WorkerProtocol.t) :=
  match state svc with
  | Some _ => Some (svc, [])
  | None =>
      let ns : gmap NodeId Node :=
        {[ me_id (me svc) := mkNode (me_host (me svc)) (me_port (me svc)) now Worker ]} in
      '(host, port) ← Config_manager_host_port (config svc);
      Some (mkWorkerService (me svc) (Some (State_new ns)) (config svc) (runtime_store svc),
            [WorkerProtocol.NewConnection None host (as_u32 port) true])
  end.

(** [now] is read by [heartbeats], [clk] by [sync_partitions]. *)
Definition tick (now : Z) (clk : Clock) (svc : WorkerService) : WorkerService * list WorkerProtocol.t :=
  match state svc with
  | Some s =>
      let '(s, out1) := heartbeats now s (me svc) in
      let '(s, st, out2) := sync_partitions clk s (runtime_store svc) (me svc) in
      (mkWorkerService (me svc) (Some s) (config svc) st, out1 ++ out2)
  | None => (svc, [])
  end.

(** The [match msg] of [process]; [now] is the clock read of the handlers that need it. *)
Definition dispatch (now : Z) (msg : WorkerProtocol.t) (me : Me) (s : State) (st : RuntimeStore M D)
    : State * RuntimeStore M D * list WorkerProtocol.t :=
  match msg with
  | WorkerProtocol.NewConnection id host port manager =>
      let '(s, out) := handle_new_connection now s id host port manager in (s, st, out)
  | WorkerProtocol.Heartbeat _ heartbeat =>
      let '(s, out) := handle_heartbeat s (hb_id heartbeat) (hb_ts heartbeat) me in (s, st, out)
  | WorkerProtocol.GetClusterState _ => (s, st, [])
  | WorkerProtocol.ClusterState cs =>
      let '(s, out) :=
        handle_cluster_state now s (cs_epoch cs) (cs_leader_id cs) (cs_nodes cs) (cs_partitions cs) me in
      (s, st, out)
  | WorkerProtocol.NodeDisconnected id => (handle_node_disconnected s id, st, [])
  | WorkerProtocol.Leader id epoch ts =>
      let '(s, out) := handle_leader s id epoch ts me in (s, st, out)
  | WorkerProtocol.RemovePartitionFromReplica _ replica_id _ =>
      (s, st, handle_remove_old_partition s replica_id me)
  | WorkerProtocol.SyncBatch _ request =>
      let '(st, out) := handle_sync_batch request st in (s, st, out)
  | WorkerProtocol.SyncBatchResponse recipient_id acks =>
      (handle_sync_batch_response s acks recipient_id, st, [])
  end.

Definition process (now hb_now : Z) (clk : Clock) (msg : WorkerProtocol.t) (svc : WorkerService)
    : WorkerService * list WorkerProtocol.t :=
  let '(svc, out) :=
    match state svc with
    | Some s =>
        let '(s, st, out) := dispatch now msg (me svc) s (runtime_store svc) in
        (mkWorkerService (me svc) (Some s) (config svc) st, out)
    | None => (svc, [])
    end in
  let '(svc, out') := tick hb_now clk svc in
  (svc, out ++ out').

End service.
Arguments WorkerService : clear implicits.
