(* ===== verification/WorkerSpec.v ===== *)
(** * Reference definitions and lemmas for partition migration

    The content of a batch, what it means for a store to cover a mutation, and
    the two-party system in which one worker sends a partition to another while
    clients keep writing to both. *)

From S2P Require Import Prelude Containers Common RuntimeStore StoreSpec WorkerState WorkerSync.

(** The mutation a wire record stands for. *)
Definition record_mutation (r : Record_) : Mutation :=
  if rec_deleted r then Delete (rec_creation_time_ms r)
  else Put (mkRecord (rec_ttl r) (rec_creation_time_ms r) (rec_value r)).

Definition batch_entries (req : SyncBatchRequest) : list (Key * Mutation) :=
  (λ r, (rec_key r, record_mutation r)) <$> req_records req.

Lemma record_mutation_to_domain k m : record_mutation (mutation_to_domain k m) = m.
Proof. by destruct m as [[]|]. Qed.

Lemma rec_key_to_domain k m : rec_key (mutation_to_domain k m) = k.
Proof. by destruct m. Qed.

Lemma batch_entries_to_domain sender (l : list (Key * Mutation)) :
  batch_entries (mkSyncBatchRequest sender ((λ km, mutation_to_domain km.1 km.2) <$> l)) = l.
Proof.
  unfold batch_entries. simpl. rewrite <-list_fmap_compose. rewrite <-(list_fmap_id l) at 2.
  apply list_fmap_ext. intros _ [k m] _. simpl. by rewrite rec_key_to_domain, record_mutation_to_domain.
Qed.

Lemma max_key_snoc l k : max_key (l ++ [k]) = Some (from_option (λ x, Z.max x k) k (max_key l)).
Proof.
  induction l as [|x l IH]; simpl; [done|]. rewrite IH. simpl. f_equal.
  destruct (max_key l); simpl; lia.
Qed.

Section lemmas.
Context {M : Type → Type} `{!SkipMap M, !SkipMapLaws M}.
Context {D : Type → Type} `{!DashMap PartitionId D, !DashMapLaws PartitionId D}.
Implicit Types st : RuntimeStore M D.

(** ** Applying a batch *)

Lemma apply_records_store (l : list Record_) st acks :
  (foldl apply_record (st, acks) l).1 = apply_all ((λ r, (rec_key r, record_mutation r)) <$> l) st.
Proof.
  revert st acks. induction l as [|r l IH]; intros st acks; [done|]. cbn [foldl].
  unfold apply_record at 2. rewrite IH. unfold apply_all. simpl. f_equal.
  unfold record_mutation. by destruct (rec_deleted r).
Qed.

(** The acknowledgement holds, per partition, the largest key applied. *)
Lemma apply_records_acks (l : list Record_) st p :
  (foldl apply_record (st, ∅) l).2 !! p =
    max_key (filter (λ k, Key_partition k = p) (rec_key <$> l)).
Proof.
  induction l as [|r l IH] using rev_ind; [done|].
  rewrite foldl_app, fmap_app, filter_app. simpl.
  destruct (foldl apply_record (st, ∅) l) as [st' acks]. simpl in *.
  rewrite filter_cons, filter_nil. destruct (decide (Key_partition (rec_key r) = p)) as [<-|Hne].
  - rewrite max_key_snoc, <-IH. destruct (acks !! Key_partition (rec_key r)) as [k|] eqn:Hk; simpl.
    + destruct (Z.ltb_spec k (rec_key r)); [rewrite lookup_insert_eq|rewrite Hk]; f_equal; lia.
    + by rewrite lookup_insert_eq.
  - rewrite app_nil_r, <-IH. repeat case_match; by rewrite ?lookup_insert_ne.
Qed.

Lemma handle_sync_batch_store req st :
  (handle_sync_batch req st).1 = apply_all (batch_entries req) st.
Proof.
  unfold handle_sync_batch. pose proof (apply_records_store (req_records req) st ∅) as E.
  destruct (foldl _ _ _). done.
Qed.

(** ** Coverage *)

(** The store holds this mutation of the key or a newer one. *)
Definition covered st (k : Key) (m : Mutation) : Prop :=
  ∃ m', lookup_store k st = Some m' ∧ version m <= version m'.

Lemma covered_apply k m st x mu :
  covered (apply_mutation k m st) x mu ↔ (k = x ∧ version mu <= version m) ∨ covered st x mu.
Proof.
  unfold covered. rewrite lookup_apply_mutation. case_decide as E; [subst|naive_solver].
  unfold lww. destruct (lookup_store x st) as [o|] eqn:Ho.
  - destruct (Z.leb_spec (version o) (version m)); split.
    + intros (m' & [= <-] & ?). auto.
    + intros [[_ ?]|(m' & [= <-] & ?)]; eexists; (split; [done|lia]).
    + intros (m' & [= <-] & ?). right. eauto.
    + intros [[_ ?]|(m' & [= <-] & ?)]; eexists; (split; [done|lia]).
  - split; [intros (m' & [= <-] & ?); auto|]. intros [[_ ?]|(m' & [=] & _)]. eauto.
Qed.

Lemma covered_apply_all l st x mu :
  covered (apply_all l st) x mu ↔ (∃ m, (x, m) ∈ l ∧ version mu <= version m) ∨ covered st x mu.
Proof.
  unfold apply_all. revert st. induction l as [|[k m] l IH]; intros st; simpl.
  - split; [by right|]. intros [(m & Hm%not_elem_of_nil & _)|?]; done.
  - rewrite IH, covered_apply. simpl. setoid_rewrite elem_of_cons. split.
    + intros [(m' & ? & ?)|[[-> ?]|?]]; [left; eauto..|by right].
    + intros [(m' & [[= -> ->]|?] & ?)|?]; eauto.
Qed.

(** ** What a batch contains *)

Definition sync_message (recipient : NodeId) (me : Me) (l : list (Key * Mutation)) : WorkerProtocol.t :=
  WorkerProtocol.SyncBatch recipient
    (mkSyncBatchRequest (me_id me) ((λ km, mutation_to_domain km.1 km.2) <$> l)).

Lemma elem_of_partition_entries pid st k m :
  store_wf st → (k, m) ∈ partition_entries pid st ↔ Key_partition k = pid ∧ lookup_store k st = Some m.
Proof.
  intros Hwf. unfold partition_entries, lookup_store.
  destruct (dm_get pid (cache st)) as [p|] eqn:Hp.
  - rewrite sm_iter_get. split.
    + intros Hk. pose proof (wf_keys _ _ _ (wf_partition _ Hwf _ _ Hp) _ _ Hk) as <-. by rewrite Hp.
    + intros [<- Hk]. by rewrite Hp in Hk.
  - split; [by intros ?%not_elem_of_nil|]. intros [<- Hk]. by rewrite Hp in Hk.
Qed.

Lemma sorted_take_complete {A} (R : relation A) n (l : list A) x y :
  StronglySorted R l → last (take n l) = Some y → x ∈ l → ¬ R y x → x ∈ take n l.
Proof.
  intros Hs Hl Hx Hn. rewrite <-(take_drop n l) in Hs, Hx. apply elem_of_app in Hx as [?|Hx]; [done|].
  destruct Hn. eapply StronglySorted_app_1_elem_of; [done| |done].
  apply last_Some in Hl as [k ->]. set_solver.
Qed.

Lemma SYNC_BATCH_SIZE_pos : ∃ n, SYNC_BATCH_SIZE = S n.
Proof. by exists 999%nat. Qed.

(** A snapshot batch holds every entry after the cursor up to the key it reports. *)
Lemma sync_batch_spec st rid pid after me :
  store_wf st →
  match sync_batch st rid pid after me with
  | (Some k, out) => ∃ l, out = [sync_message rid me l] ∧ from_option (λ a, a < k) True after ∧
      ∀ x m, Key_partition x = pid → lookup_store x st = Some m →
             from_option (λ a, a < x) True after → x <= k → (x, m) ∈ l
  | (None, out) => out = [] ∧
      ∀ x m, Key_partition x = pid → lookup_store x st = Some m → ¬ from_option (λ a, a < x) True after
  end.
Proof.
  intros Hwf. unfold sync_batch. rewrite get_partition_mutations_filter.
  set (l := filter (after_ok after) (partition_entries pid st)).
  assert (∀ x m, (x, m) ∈ l ↔ from_option (λ a, a < x) True after ∧ Key_partition x = pid ∧ lookup_store x st = Some m)
    as Hl.
  { intros x m. unfold l. rewrite list_elem_of_filter, elem_of_partition_entries by done. by destruct after. }
  assert (StronglySorted key_lt l) as Hs by apply StronglySorted_filter, partition_entries_sorted.
  destruct (take SYNC_BATCH_SIZE l) as [|e l'] eqn:Ht.
  - split; [done|]. intros x m Hx Hm Ha. destruct l as [|y l]; [|by destruct SYNC_BATCH_SIZE_pos as [n En]; rewrite En in Ht].
    assert ((x, m) ∈ @nil (Key * Mutation)) as []%not_elem_of_nil by (apply Hl; done).
  - destruct (last (e :: l')) as [[k mk]|] eqn:Hlast; [|by apply last_None in Hlast].
    simpl. exists (e :: l'). split; [done|]. rewrite <-Ht in *. split.
    + apply last_Some in Hlast as [l0 Hl0].
      assert ((k, mk) ∈ l) as Hin by (apply (elem_of_take_weak SYNC_BATCH_SIZE); rewrite Hl0; set_solver).
      apply Hl in Hin. tauto.
    + intros x m Hx Hm Ha Hle. apply (sorted_take_complete key_lt _ _ _ (k, mk)); [done..| |].
      * by apply Hl.
      * unfold key_lt. simpl. lia.
Qed.

(** ** The change loop *)

Definition journaled st (r : Z) (k : Key) : Prop :=
  ∃ p, dm_get (Key_partition k) (cache st) = Some p ∧ sm_get r (ps_changes p) = Some k.

(** Journal entries after a cursor. *)
Definition pending_changes st (pid : PartitionId) (cursor : Z) : list (Z * Key) :=
  match dm_get pid (cache st) with
  | Some p => filter (λ e, cursor < e.1) (sm_iter (ps_changes p))
  | None => []
  end.

Lemma pending_changes_shrink st pid cursor r p k :
  dm_get pid (cache st) = Some p → cursor < r → sm_get r (ps_changes p) = Some k →
  (length (pending_changes st pid r) < length (pending_changes st pid cursor))%nat.
Proof.
  intros Hp Hlt Hr. unfold pending_changes. rewrite Hp.
  assert (filter (λ e : Z * Key, r < e.1) (sm_iter (ps_changes p)) =
          filter (λ e, r < e.1) (filter (λ e, cursor < e.1) (sm_iter (ps_changes p)))) as ->.
  { rewrite list_filter_filter_l; [done|]. intros; simpl; lia. }
  set (l := filter (λ e, cursor < e.1) (sm_iter (ps_changes p))).
  assert ((r, k) ∈ l) as Hin by (apply list_elem_of_filter; split; [done|by apply sm_iter_get]).
  clearbody l. induction l as [|e l IH]; [by apply not_elem_of_nil in Hin|].
  rewrite filter_cons. apply elem_of_cons in Hin as [<-|Hin].
  - rewrite decide_False by (simpl; lia). simpl. pose proof (length_filter (λ e : Z * Key, r < e.1) l). lia.
  - specialize (IH Hin). case_decide; simpl; lia.
Qed.

(** The loop of [sync_change_batch] ends, and skips only entries whose key is gone. *)
Lemma change_loop_spec fuel st pid cursor :
  store_wf st → (length (pending_changes st pid cursor) < fuel)%nat →
  match change_loop fuel st pid cursor with
  | None => False
  | Some None =>
      ∀ x m r, Key_partition x = pid → lookup_store x st = Some m → journaled st r x → r <= cursor
  | Some (Some (last, l)) =>
      l ≠ [] ∧ cursor < last <= next_revision st ∧
      ∀ x m r, Key_partition x = pid → lookup_store x st = Some m → journaled st r x →
        cursor < r <= last → (x, m) ∈ l
  end.
Proof.
  intros Hwf. revert cursor. induction fuel as [|fuel IH]; intros cursor Hf; [lia|]. simpl.
  destruct (dm_get pid (cache st)) as [p|] eqn:Hp; last first.
  { assert (get_partition_changes pid cursor SYNC_BATCH_SIZE st = None) as ->
      by (unfold get_partition_changes; by rewrite Hp).
    intros x m r <- Hm. unfold lookup_store in Hm. by rewrite Hp in Hm. }
  assert (∀ x m r, Key_partition x = pid → lookup_store x st = Some m → journaled st r x →
    sm_get x (ps_records p) = Some m ∧ sm_get r (ps_changes p) = Some x) as Hget.
  { intros x m r <- Hm (p' & Hp' & Hr). rewrite Hp in Hp'. injection Hp' as <-.
    unfold lookup_store in Hm. by rewrite Hp in Hm. }
  pose proof (get_partition_changes_spec pid cursor SYNC_BATCH_SIZE st p) as Hspec.
  destruct (get_partition_changes pid cursor SYNC_BATCH_SIZE st) as [[last l]|].
  - destruct Hspec as (Hlt & [k Hk] & _ & Hl); [destruct SYNC_BATCH_SIZE_pos; lia|done|].
    pose proof (wf_journal _ _ _ (wf_partition _ Hwf _ _ Hp) _ _ Hk) as [Hnext _].
    destruct l as [|e l].
    + specialize (IH last). pose proof (pending_changes_shrink st pid cursor last p k Hp Hlt Hk).
      assert (∀ x m r, Key_partition x = pid → lookup_store x st = Some m → journaled st r x →
        cursor < r → last < r) as Hskip.
      { intros x m r Hx Hm Hr Hc. destruct (decide (last < r)); [done|].
        destruct (Hget _ _ _ Hx Hm Hr) as [Hxm Hrx].
        assert ((x, m) ∈ @nil (Key * Mutation)) as []%not_elem_of_nil.
        apply Hl. split; [done|]. exists r. split; [lia|done]. }
      destruct (change_loop fuel st pid last) as [[[last' l']|]|]; [| |apply IH; lia].
      * destruct IH as (? & ? & IH); [lia|]. split_and!; [done|lia|lia|].
        intros x m r Hx Hm Hr [Hc ?]. apply (IH x m r); try done. split; [by eapply Hskip|done].
      * intros x m r Hx Hm Hr. destruct (decide (cursor < r)) as [Hc|]; [|lia].
        pose proof (Hskip _ _ _ Hx Hm Hr Hc). pose proof (IH ltac:(lia) _ _ _ Hx Hm Hr). lia.
    + split_and!; [done|lia|lia|]. intros x m r Hx Hm Hr Hc. destruct (Hget _ _ _ Hx Hm Hr). apply Hl. eauto.
  - intros x m r Hx Hm Hr. destruct (Hget _ _ _ Hx Hm Hr) as [_ Hrx]. eapply Hspec; [|done..].
    destruct SYNC_BATCH_SIZE_pos; lia.
Qed.

Lemma change_fuel_enough st pid cursor : (length (pending_changes st pid cursor) < change_fuel st pid)%nat.
Proof.
  unfold pending_changes, change_fuel. destruct (dm_get pid (cache st)) as [p|]; [|simpl; lia].
  pose proof (length_filter (λ e : Z * Key, cursor < e.1) (sm_iter (ps_changes p))). lia.
Qed.

(** A change batch holds the current mutation of every key changed after the
    cursor and up to the revision it reports. *)
Lemma sync_change_batch_spec st rid pid cursor me :
  store_wf st →
  match sync_change_batch st rid pid cursor me with
  | (Some (last, _), out) => ∃ l, out = [sync_message rid me l] ∧ cursor < last <= next_revision st ∧
      ∀ x m r, Key_partition x = pid → lookup_store x st = Some m → journaled st r x →
        cursor < r <= last → (x, m) ∈ l
  | (None, out) => out = [] ∧
      ∀ x m r, Key_partition x = pid → lookup_store x st = Some m → journaled st r x → r <= cursor
  end.
Proof.
  intros Hwf. unfold sync_change_batch.
  pose proof (change_loop_spec (change_fuel st pid) st pid cursor Hwf (change_fuel_enough st pid cursor)) as Hs.
  destruct (change_loop _ _ _ _) as [[[last l]|]|]; [|done..].
  destruct Hs as (Hne & Hlt & Hl). destruct (max_key l.*1) as [k|] eqn:Hk; [by exists l|].
  apply max_key_None, fmap_nil_inv in Hk. done.
Qed.

End lemmas.
