(* ===== verification/WorkerMigration.v ===== *)
(** * One partition moving from one worker to another

    A two-party transition system around [sync_partition_to_recipient] and
    [handle_sync_batch]: the sender's store, the receiver's store, the sender's
    record of the transfer, and the connection between them (first in, first
    out; when it breaks, the sender forgets the recipient).  Clients read, write
    and expire records at the sender and write at the receiver in between. *)

From S2P Require Import Prelude Containers Common RuntimeStore StoreSpec WorkerState WorkerSync WorkerSpec.

Section migration.
Context {M : Type → Type} `{!SkipMap M, !SkipMapLaws M}.
Context {D : Type → Type} `{!DashMap PartitionId D, !DashMapLaws PartitionId D}.
Implicit Types st : RuntimeStore M D.

(** ** The system *)

Record Migration := mkMigration {
  src : RuntimeStore M D;
  dst : RuntimeStore M D;
  rstates : gmap NodeId SyncState;
  wire : list SyncBatchRequest;
}.

(** Operations clients and the expiry sweep perform on a store. *)
Definition client_op (op : store_op) : bool :=
  match op with
  | OpPut _ _ | OpDeleteAt _ _ | OpGetVersioned _ _ | OpRemoveExpired _ => true
  | _ => false
  end.

(** The batches of an output that go to the recipient. *)
Definition batches_to (rid : NodeId) (out : list WorkerProtocol.t) : list SyncBatchRequest :=
  omap (λ m, match m with
             | WorkerProtocol.SyncBatch r req => if bool_decide (r = rid) then Some req else None
             | _ => None
             end) out.

(** What the receiver's store becomes once the connection is drained. *)
Definition drained (m : Migration) : RuntimeStore M D :=
  foldl (λ st req, (handle_sync_batch req st).1) (dst m) (wire m).

Section system.
Context (me : Me) (pid : PartitionId) (rid : NodeId).

Inductive migration_step : Migration → Migration → Prop :=
  | ms_client op m :
      client_op op = true → next_revision (src m) + op_cost op (src m) < u64_modulus →
      migration_step m (mkMigration (run_op op (src m)) (dst m) (rstates m) (wire m))
  | ms_receiver_write k mu m :
      migration_step m (mkMigration (src m) (apply_mutation k mu (dst m)) (rstates m) (wire m))
  | ms_deliver req w m :
      wire m = req :: w →
      migration_step m (mkMigration (src m) (handle_sync_batch req (dst m)).1 (rstates m) w)
  | ms_ack acks m :
      (* any acknowledgement, also a late or repeated one *)
      migration_step m (mkMigration (src m) (dst m)
        (default ∅ (foldl (confirm_partition rid) {[ pid := rstates m ]} (map_to_list acks) !! pid)) (wire m))
  | ms_sync clk rs out completed m :
      sync_partition_to_recipient clk (rstates m) (src m) me pid rid = (rs, out, completed) →
      migration_step m (mkMigration (src m) (dst m) rs (wire m ++ batches_to rid out))
  | ms_prune through m :
      (∀ y, rstates m !! rid = Some y → through <= phase_floor (phase y)) →
      migration_step m (mkMigration (prune_partition_changes pid through (src m)) (dst m) (rstates m) (wire m))
  | ms_done m :
      migration_step m (mkMigration (src m) (dst m) (map_retain (λ _ y, negb (confirmed y)) (rstates m)) (wire m))
  | ms_disconnect m :
      migration_step m (mkMigration (src m) (dst m) (delete rid (rstates m)) []).

Inductive migration_reachable : Migration → Prop :=
  | mr_init st st' : store_wf st → migration_reachable (mkMigration st st' ∅ [])
  | mr_step m m' : migration_reachable m → migration_step m m' → migration_reachable m'.

(** ** The invariant *)

(** A key still to be sent: not reached by the snapshot, or changed since. *)
Definition to_send (st : RuntimeStore M D) (y : SyncState) (x : Key) : Prop :=
  match phase y with
  | Snapshot r => curr_max_key y < x ∨ ∃ r', r < r' ∧ journaled st r' x
  | Changes _ pending => ∃ r', pending < r' ∧ journaled st r' x
  end.

Definition phase_bounded (st : RuntimeStore M D) (y : SyncState) : Prop :=
  match phase y with
  | Snapshot r => r <= next_revision st ∧ from_option (λ k, k < curr_max_key y) True (prev_max_key y)
  | Changes c pending => c <= pending <= next_revision st
  end.

Record sync_ok (st st' : RuntimeStore M D) (y : SyncState) : Prop := {
  so_bounded : phase_bounded st y;
  so_cover x mu : Key_partition x = pid → lookup_store x st = Some mu →
    covered st' x mu ∨ to_send st y x;
}.

Record migration_ok (m : Migration) : Prop := {
  mi_wf : store_wf (src m);
  mi_sync y : rstates m !! rid = Some y → sync_ok (src m) (drained m) y;
}.
End system.

(** ** What client operations do to the journal *)

(** A partition that survives keeps its journal. *)
Definition journal_kept st st' : Prop :=
  ∀ q p', dm_get q (cache st') = Some p' →
    ∃ p, dm_get q (cache st) = Some p ∧ ∀ r k, sm_get r (ps_changes p) = Some k → sm_get r (ps_changes p') = Some k.

Lemma journal_kept_refl st : journal_kept st st.
Proof. intros q p' Hp'. eauto. Qed.

Lemma journal_kept_trans st1 st2 st3 : journal_kept st1 st2 → journal_kept st2 st3 → journal_kept st1 st3.
Proof.
  intros H12 H23 q p3 Hp3. destruct (H23 _ _ Hp3) as (p2 & Hp2 & H2).
  destruct (H12 _ _ Hp2) as (p1 & Hp1 & H1). eauto.
Qed.

Lemma journal_kept_insert st q p p' next :
  dm_get q (cache st) = Some p → ps_changes p' = ps_changes p →
  journal_kept st (remove_partition_if_empty q (mkRuntimeStore (dm_insert q p' (cache st)) next)).
Proof.
  intros Hp Hc q' p''. destruct (decide (q' = q)) as [->|Hne].
  - unfold remove_partition_if_empty. simpl. rewrite dm_get_insert, decide_True by done.
    destruct (sm_is_empty _); simpl; rewrite ?dm_get_remove, ?dm_get_insert, decide_True by done; [done|].
    intros [= <-]. exists p. by rewrite Hc.
  - rewrite dm_get_cleanup_ne by done. eauto.
Qed.

Lemma remove_expired_entries_changes now l next p removed :
  ps_changes (foldl (remove_expired_entry now) (next, p, removed) l).1.2 = ps_changes p.
Proof.
  revert next p removed. induction l as [|e l IH]; intros next p removed; [done|]. simpl.
  destruct (expired now e.2); [|apply IH]. by rewrite IH.
Qed.

Lemma remove_expired_partition_kept now st removed q :
  journal_kept st (remove_expired_partition now (st, removed) q).1.
Proof.
  unfold remove_expired_partition. destruct (dm_get q (cache st)) as [p|] eqn:Hp.
  - pose proof (remove_expired_entries_changes now (sm_iter (ps_records p)) (next_revision st) p removed) as Hc.
    destruct (foldl _ _ _) as [[next p'] removed']. simpl in *. by eapply journal_kept_insert.
  - simpl. unfold remove_partition_if_empty. rewrite Hp. apply journal_kept_refl.
Qed.

Lemma remove_expired_kept now st : journal_kept st (remove_expired now st).1.
Proof.
  unfold remove_expired. generalize (dm_keys (cache st)) as ks. intros ks.
  change st with (st, 0).1 at 1. generalize (st, 0). induction ks as [|q ks IH]; intros [st1 n]; simpl.
  - apply journal_kept_refl.
  - eapply journal_kept_trans; [|apply IH]. apply remove_expired_partition_kept.
Qed.

Lemma get_versioned_kept now k st : journal_kept st (get_versioned now k st).2.
Proof.
  unfold get_versioned. destruct (dm_get _ _) as [p|] eqn:Hp; [|apply journal_kept_refl].
  destruct (sm_get k (ps_records p)) as [[r|t]|]; [|apply journal_kept_refl..].
  destruct (_ || _); [apply journal_kept_refl|]. unfold with_writer, drop_writer. cbn [snd].
  by eapply journal_kept_insert.
Qed.

Lemma journaled_kept st st' x mu r :
  journal_kept st st' → lookup_store x st' = Some mu → journaled st r x → journaled st' r x.
Proof.
  unfold lookup_store. intros Hk Hl (p & Hp & Hr).
  destruct (dm_get (Key_partition x) (cache st')) as [p'|] eqn:Hp'; [|done].
  destruct (Hk _ _ Hp') as (p1 & Hp1 & H1). rewrite Hp in Hp1. injection Hp1 as <-.
  exists p'. auto.
Qed.

(** A write journals its key above the counter and keeps the other entries. *)
Lemma apply_mutation_journaled k m st r x :
  store_wf st → next_revision st + 1 < u64_modulus →
  (journaled st r x → journaled (apply_mutation k m st) r x) ∧
  journaled (apply_mutation k m st) (next_revision st + 1) k.
Proof.
  intros Hwf Hlt. pose proof (wf_next _ Hwf). rewrite apply_mutation_unfold. unfold journaled. simpl.
  rewrite u64_add_small by lia. split.
  - intros (p & Hp & Hr). rewrite dm_get_insert. case_decide as E; [|eauto].
    eexists. split; [done|]. simpl. rewrite E, Hp. simpl. rewrite sm_get_insert, decide_False; [done|].
    pose proof (wf_journal _ _ _ (wf_partition _ Hwf _ _ Hp) _ _ Hr). lia.
  - rewrite dm_get_insert, decide_True by done. eexists. split; [done|]. simpl.
    by rewrite sm_get_insert, decide_True.
Qed.

(** After a client operation every stored key is unchanged with its journal
    entries kept, or has an entry above the counter. *)
Lemma client_op_journal op st x mu :
  client_op op = true → store_wf st → next_revision st + op_cost op st < u64_modulus →
  lookup_store x (run_op op st) = Some mu →
  (lookup_store x st = Some mu ∧ ∀ r, journaled st r x → journaled (run_op op st) r x) ∨
  (∃ r, next_revision st < r ∧ journaled (run_op op st) r x).
Proof.
  intros Hop Hwf Hlt Hl.
  assert (∀ k m, run_op op st = apply_mutation k m st → next_revision st + 1 < u64_modulus →
    (lookup_store x st = Some mu ∧ ∀ r, journaled st r x → journaled (run_op op st) r x) ∨
    (∃ r, next_revision st < r ∧ journaled (run_op op st) r x)) as Hwrite.
  { intros k m E Hlt'. rewrite E in *. rewrite lookup_apply_mutation in Hl. case_decide; [subst|].
    - right. exists (next_revision st + 1). split; [lia|]. by apply apply_mutation_journaled.
    - left. split; [done|]. intros r. by apply apply_mutation_journaled. }
  destruct op as [k r|k t|now k|now| | |]; simpl in *; try done.
  - by apply (Hwrite k (Put r)).
  - by apply (Hwrite k (Delete t)).
  - left. split; [|intros r Hr; eapply journaled_kept; [apply get_versioned_kept|exact Hl|exact Hr]].
    rewrite (proj2 (lookup_get_versioned now k st)) in Hl. case_decide; [subst|done].
    unfold visible in Hl. destruct (lookup_store x st); [|done]. simpl in Hl. by case_match; simplify_eq.
  - left. split; [|intros r Hr; eapply journaled_kept; [apply remove_expired_kept|exact Hl|exact Hr]].
    pose proof (expired_entries_bound now st).
    destruct (remove_expired_spec now st) as (st' & E & _ & _ & Hv); [done|lia|]. rewrite E in Hl. simpl in Hl.
    rewrite Hv in Hl. unfold visible in Hl. destruct (lookup_store x st); [|done]. simpl in Hl. by case_match; simplify_eq.
Qed.

Lemma stable_revision_bound pid st r :
  store_wf st → stable_partition_revision pid st = Some r → r <= next_revision st.
Proof.
  intros Hwf. unfold stable_partition_revision, stable_revision.
  destruct (dm_get pid (cache st)) as [p|] eqn:Hp.
  - destruct (negb _); [done|]. destruct (_ && _); [|done]. intros [= <-].
    apply (wf_partition _ Hwf _ _ Hp).
  - intros [= <-]. apply Hwf.
Qed.

(** ** Preservation *)

Lemma drained_apply_all m : drained m = apply_all (wire m ≫= batch_entries) (dst m).
Proof.
  destruct m as [sr ds rs w]. unfold drained, apply_all. simpl. revert ds.
  induction w as [|req w IH]; intros ds; simpl; [done|].
  rewrite handle_sync_batch_store, IH. by rewrite foldl_app.
Qed.

(** The receiver, drained, covers what it has and what is on the wire. *)
Lemma covered_drained m x mu :
  covered (drained m) x mu ↔
    (∃ req mu', req ∈ wire m ∧ (x, mu') ∈ batch_entries req ∧ version mu <= version mu') ∨ covered (dst m) x mu.
Proof.
  rewrite drained_apply_all, covered_apply_all. split.
  - intros [(m' & (req & ? & ?)%list_elem_of_bind & ?)|?]; [left|by right]. eauto.
  - intros [(req & m' & ? & ? & ?)|?]; [left|by right]. exists m'. split; [|done].
    apply list_elem_of_bind. eauto.
Qed.

Section preservation.
Context (me : Me) (pid : PartitionId) (rid : NodeId).

Lemma sync_ok_cover_mono st st1 st2 y :
  (∀ x mu, covered st1 x mu → covered st2 x mu) → sync_ok pid st st1 y → sync_ok pid st st2 y.
Proof. intros Hc [Hb Hs]. split; [done|]. intros x mu Hx Hl. destruct (Hs _ _ Hx Hl); auto. Qed.

Lemma sync_ok_client op st st' y :
  client_op op = true → store_wf st → next_revision st + op_cost op st < u64_modulus →
  sync_ok pid st st' y → sync_ok pid (run_op op st) st' y.
Proof.
  intros Hop Hwf Hlt [Hb Hs]. destruct (run_op_wf op st Hwf Hlt) as [_ Hn]. split.
  - unfold phase_bounded in *. destruct (phase y); [split; [|tauto]|]; lia.
  - intros x mu Hx Hl. destruct (client_op_journal op st x mu) as [[Hl0 Hj]|(r & Hr & Hj)]; try done.
    + destruct (Hs x mu Hx Hl0) as [?|Ht]; [by left|right]. unfold to_send in *. destruct (phase y); naive_solver.
    + right. unfold to_send, phase_bounded in *. destruct (phase y); [right|]; exists r; (split; [lia|done]).
Qed.

Lemma sync_ok_prune through st st' y :
  through <= phase_floor (phase y) → sync_ok pid st st' y →
  sync_ok pid (prune_partition_changes pid through st) st' y.
Proof.
  intros Hle [Hb Hs]. split.
  - unfold phase_bounded in *. rewrite next_revision_prune. done.
  - intros x mu Hx. rewrite lookup_prune. intros Hl.
    assert (∀ r, through < r → journaled st r x → journaled (prune_partition_changes pid through st) r x) as Hj.
    { intros r Hr (p & Hp & Hg). unfold journaled.
      destruct (dm_get_prune pid through st (Key_partition x)) as [->|(_ & p0 & c & Hp0 & -> & Hc)]; [eauto|].
      eexists. split; [done|]. simpl. rewrite Hc. rewrite Hx, Hp0 in Hp. injection Hp as ->.
      assert ((through <? r) = true) as -> by lia. done. }
    destruct (Hs x mu Hx Hl) as [?|Ht]; [by left|right]. unfold to_send, phase_bounded, phase_floor in *.
    destruct (phase y) as [r|c q]; [destruct Ht as [?|(r' & ? & ?)]; [by left|right]|destruct Ht as (r' & ? & ?)];
      exists r'; (split; [done|apply Hj; [lia|done]]).
Qed.

Lemma sync_ok_confirmed st st' b y : sync_ok pid st st' y → sync_ok pid st st' (set_confirmed b y).
Proof. intros [Hb Hs]. by split. Qed.

(** [st'] covers a batch on top of what [st1] covers. *)
Definition covers_batch (st1 st' : RuntimeStore M D) (l : list (Key * Mutation)) : Prop :=
  ∀ x mu, (x, mu) ∈ l ∨ covered st1 x mu → covered st' x mu.

(** What one call to [sync_partition_to_recipient] promises: with the batch it
    sent delivered, the transfer record is right; if it completed, nothing was
    sent and the receiver covers the partition. *)
Definition call_ok st st1 (rs : gmap NodeId SyncState) (out : list WorkerProtocol.t) (completed : bool) : Prop :=
  (completed = true → out = [] ∧
    ∀ x mu, Key_partition x = pid → lookup_store x st = Some mu → covered st1 x mu) ∧
  ∃ l, (out = [] ∧ l = [] ∨ out = [sync_message rid me l]) ∧
    ∀ st', covers_batch st1 st' l → ∀ y, rs !! rid = Some y → sync_ok pid st st' y.

Lemma start_sync_ok now rs st st1 :
  store_wf st → rs !! rid = None →
  let '(rs', out, completed) := start_sync now rs st me pid rid in call_ok st st1 rs' out completed.
Proof.
  intros Hwf Hrs. unfold start_sync. destruct (stable_partition_revision pid st) as [r|] eqn:Hr; last first.
  { split; [done|]. exists []. split; [by left|]. intros st' _ y. by rewrite Hrs. }
  pose proof (sync_batch_spec st rid pid None me Hwf) as Hb.
  destruct (sync_batch st rid pid None me) as [[k|] out].
  - destruct Hb as (l & -> & _ & Hl). split; [done|]. exists l. split; [by right|].
    intros st' Hc y. rewrite lookup_insert_eq. intros [= <-]. split.
    + split; [|done]. simpl. by eapply stable_revision_bound.
    + intros x mu Hx Hm. destruct (decide (x <= k)); [left|right; left; simpl; lia].
      apply Hc. left. by apply Hl.
  - destruct Hb as [-> Hno]. split.
    + intros _. split; [done|]. intros x mu Hx Hm. by destruct (Hno x mu Hx Hm).
    + exists []. split; [by left|]. intros st' _ y. by rewrite Hrs.
Qed.

Lemma continue_changes_ok now y st st1 cursor rs :
  store_wf st → cursor <= next_revision st → phase_bounded st y →
  (∀ x mu, Key_partition x = pid → lookup_store x st = Some mu →
     covered st1 x mu ∨ ∃ r, cursor < r ∧ journaled st r x) →
  (sync_ok pid st st1 y) →
  let '(y', out, completed) := continue_changes now y st me pid rid cursor in
  call_ok st st1 (<[rid := y']> rs) out completed.
Proof.
  intros Hwf Hcur Hpb Hcov Hok. unfold continue_changes.
  pose proof (sync_change_batch_spec st rid pid cursor me Hwf) as Hb.
  destruct (sync_change_batch st rid pid cursor me) as [[[last k]|] out].
  - destruct Hb as (l & -> & Hlt & Hl). split; [done|]. exists l. split; [by right|].
    intros st' Hc y'. rewrite lookup_insert_eq. intros [= <-]. split; [simpl; unfold phase_bounded; simpl; lia|].
    intros x mu Hx Hm. destruct (Hcov x mu Hx Hm) as [?|(r & Hr & Hj)]; [left; apply Hc; by right|].
    destruct (decide (r <= last)); [left; apply Hc; left; by eapply Hl|right; exists r; split; [simpl; lia|done]].
  - destruct Hb as [-> Hno].
    assert (∀ x mu, Key_partition x = pid → lookup_store x st = Some mu → covered st1 x mu) as Hall.
    { intros x mu Hx Hm. destruct (Hcov x mu Hx Hm) as [?|(r & Hr & Hj)]; [done|].
      pose proof (Hno _ _ _ Hx Hm Hj). lia. }
    assert (∀ y', y' = y ∨ y' = set_confirmed true y → ∀ st', covers_batch st1 st' [] → sync_ok pid st st' y') as Hy.
    { intros y' Hy' st' Hc. apply (sync_ok_cover_mono st st1); [intros; apply Hc; by right|].
      destruct Hy' as [->| ->]; [done|by apply sync_ok_confirmed]. }
    case_bool_decide; (split; [done|]); exists []; (split; [by left|]); intros st' Hc y';
      rewrite lookup_insert_eq; intros [= <-]; apply Hy; auto.
Qed.

Lemma continue_confirmed_ok now y st st1 rs :
  store_wf st → sync_ok pid st st1 y →
  let '(y', out, completed) := continue_confirmed_sync now y st me pid rid in
  call_ok st st1 (<[rid := y']> rs) out completed.
Proof.
  intros Hwf Hok. pose proof Hok as [Hb Hs]. unfold continue_confirmed_sync.
  destruct (phase y) as [r|c q] eqn:Hp.
  - pose proof (sync_batch_spec st rid pid (Some (curr_max_key y)) me Hwf) as Hsb.
    unfold phase_bounded, to_send in Hb, Hs. rewrite Hp in Hb, Hs.
    destruct (sync_batch st rid pid (Some (curr_max_key y)) me) as [[k|] out].
    + destruct Hsb as (l & -> & Hk & Hl). simpl in Hk. split; [done|]. exists l. split; [by right|].
      intros st' Hc y'. rewrite lookup_insert_eq. intros [= <-]. split; [unfold phase_bounded; simpl; lia|].
      intros x mu Hx Hm. destruct (decide (k < x)) as [|Hkx]; [right; by left|].
      destruct (Hs x mu Hx Hm) as [?|[Hgt|Hj]]; [left; apply Hc; by right| |right; by right].
      left. apply Hc. left. apply Hl; [done..|lia].
    + destruct Hsb as [-> Hno].
      pose proof (continue_changes_ok now y st st1 r rs Hwf) as Hcc.
      destruct (continue_changes now y st me pid rid r) as [[y' out] completed]. simpl. apply Hcc; [tauto| | |done].
      * unfold phase_bounded. by rewrite Hp.
      * intros x mu Hx Hm. destruct (Hs x mu Hx Hm) as [?|[Hgt|Hj]]; [by left| |by right].
        by destruct (Hno x mu Hx Hm).
  - unfold phase_bounded, to_send in Hb, Hs. rewrite Hp in Hb, Hs.
    apply continue_changes_ok; [done|lia| |done|done]. unfold phase_bounded. by rewrite Hp.
Qed.

Lemma retry_ok now1 now2 y st st1 rs :
  store_wf st → sync_ok pid st st1 y →
  let '(y', out) := retry_timed_out_sync now1 now2 y st me pid rid in
  call_ok st st1 (<[rid := y']> rs) out false.
Proof.
  intros Hwf Hok. pose proof Hok as [Hb Hs]. unfold retry_timed_out_sync.
  assert (∀ st' l, covers_batch st1 st' l → sync_ok pid st st' y) as Hsame.
  { intros st' l Hc. apply (sync_ok_cover_mono st st1); [intros; apply Hc; by right|done]. }
  assert (call_ok st st1 (<[rid := y]> rs) [] false) as Hquiet.
  { split; [done|]. exists []. split; [by left|]. intros st' Hc y'. rewrite lookup_insert_eq. intros [= <-]. eauto. }
  destruct (_ <? SYNC_TIMEOUT_MS); [done|]. destruct (phase y) as [r|c q] eqn:Hp.
  - pose proof (sync_batch_spec st rid pid (prev_max_key y) me Hwf) as Hsb.
    unfold phase_bounded, to_send in Hb, Hs. rewrite Hp in Hb, Hs.
    destruct (sync_batch st rid pid (prev_max_key y) me) as [[k|] out]; [|by destruct Hsb as [-> _]].
    destruct Hsb as (l & -> & Hk & Hl). split; [done|]. exists l. split; [by right|].
    intros st' Hc y'. rewrite lookup_insert_eq. intros [= <-].
    split; [unfold phase_bounded; simpl; tauto|].
    intros x mu Hx Hm. destruct (decide (k < x)) as [|Hkx]; [right; by left|].
    destruct (Hs x mu Hx Hm) as [?|[Hgt|Hj]]; [left; apply Hc; by right| |right; by right].
    left. apply Hc. left. apply Hl; [done..| |lia].
    destruct Hb as [_ Hb]. destruct (prev_max_key y); simpl in *; [lia|done].
  - pose proof (sync_change_batch_spec st rid pid c me Hwf) as Hsb.
    destruct (sync_change_batch st rid pid c me) as [[[last k]|] out]; simpl; [|by destruct Hsb as [-> _]].
    destruct Hsb as (l & -> & _ & _). split; [done|]. exists l. split; [by right|].
    intros st' Hc y'. rewrite lookup_insert_eq. intros [= <-]. destruct (Hsame _ _ Hc) as [Hb' Hs'].
    unfold phase_bounded, to_send in *. rewrite Hp in *. split; unfold phase_bounded, to_send; by simpl.
Qed.

Lemma sync_call_ok clk rs st st1 :
  store_wf st → (∀ y, rs !! rid = Some y → sync_ok pid st st1 y) →
  let '(rs', out, completed) := sync_partition_to_recipient clk rs st me pid rid in
  call_ok st st1 rs' out completed.
Proof.
  intros Hwf Hy. unfold sync_partition_to_recipient. destruct (rs !! rid) as [y|] eqn:Hrs.
  - specialize (Hy y eq_refl). destruct (confirmed y).
    + pose proof (continue_confirmed_ok (clk pid rid 0%nat) y st st1 rs Hwf Hy).
      by destruct (continue_confirmed_sync _ _ _ _ _ _) as [[y' out] c].
    + pose proof (retry_ok (clk pid rid 0%nat) (clk pid rid 1%nat) y st st1 rs Hwf Hy).
      by destruct (retry_timed_out_sync _ _ _ _ _ _ _) as [y' out].
  - by apply start_sync_ok.
Qed.

(** An acknowledgement can only confirm. *)
Lemma acks_confirm rs (l : list (PartitionId * Key)) y :
  default ∅ (foldl (confirm_partition rid) {[ pid := rs ]} l !! pid) !! rid = Some y →
  ∃ y0, rs !! rid = Some y0 ∧ (y = y0 ∨ y = set_confirmed true y0).
Proof.
  assert (∀ Y, (∀ y, default ∅ (Y !! pid) !! rid = Some y → ∃ y0, rs !! rid = Some y0 ∧ (y = y0 ∨ y = set_confirmed true y0)) →
    default ∅ (foldl (confirm_partition rid) Y l !! pid) !! rid = Some y →
    ∃ y0, rs !! rid = Some y0 ∧ (y = y0 ∨ y = set_confirmed true y0)) as H.
  2: { apply H. intros y1. rewrite lookup_singleton_eq. simpl. eauto. }
  induction l as [|[q k] l IH]; intros Y HY; simpl; [by apply HY|]. apply IH. intros y1.
  unfold confirm_partition. simpl. destruct (Y !! q) as [m|] eqn:Hq; [|apply HY].
  destruct (m !! rid) as [z|] eqn:Hz; [|apply HY]. destruct (_ =? _); [|apply HY].
  destruct (decide (q = pid)) as [->|]; [|rewrite lookup_insert_ne by done; apply HY].
  rewrite lookup_insert_eq. simpl. rewrite lookup_insert_eq. intros [= <-].
  rewrite Hq in HY. simpl in HY. destruct (HY z Hz) as (y0 & ? & [->| ->]); exists y0; auto.
Qed.

Lemma batches_to_message l : batches_to rid [sync_message rid me l] =
  [mkSyncBatchRequest (me_id me) ((λ km, mutation_to_domain km.1 km.2) <$> l)].
Proof. unfold batches_to, sync_message. simpl. by rewrite bool_decide_true. Qed.

Lemma migration_step_ok m m' : migration_ok pid rid m → migration_step me pid rid m m' → migration_ok pid rid m'.
Proof.
  intros [Hwf Hy]. destruct 1 as [op m Hop Hlt|k mu m|req w m Hw|acks m|clk rs out completed m Hs|through m Hth|m|m].
  - split; simpl; [by apply run_op_wf|]. intros y ?%Hy. by apply sync_ok_client.
  - split; simpl; [done|]. intros y ?%Hy. eapply sync_ok_cover_mono; [|done]. intros x mu'.
    rewrite !covered_drained. simpl. rewrite covered_apply. tauto.
  - split; simpl; [done|]. intros y ?%Hy. eapply sync_ok_cover_mono; [|done]. intros x mu'.
    unfold drained. rewrite Hw. done.
  - split; simpl; [done|]. intros y (y0 & ?%Hy & Hy0)%acks_confirm.
    destruct Hy0 as [->| ->]; [done|]. by apply sync_ok_confirmed.
  - split; [done|]. simpl. pose proof (sync_call_ok clk (rstates m) (src m) (drained m) Hwf Hy) as Hc.
    rewrite Hs in Hc. destruct Hc as (_ & l & Hout & Hc). apply Hc. intros x mu' Hx.
    apply covered_drained. simpl. destruct Hout as [[-> ->]| ->].
    + rewrite app_nil_r. destruct Hx as [[]%not_elem_of_nil|Hx]. by apply covered_drained in Hx.
    + rewrite batches_to_message. destruct Hx as [Hx|[(req & mu1 & ? & ?)|?]%covered_drained]; [left|left|by right].
      * eexists _, mu'. split; [apply elem_of_app; right; by left|]. rewrite batch_entries_to_domain. split; [done|lia].
      * exists req, mu1. set_solver.
  - split; simpl; [auto with store|]. intros y Hyr. apply sync_ok_prune; eauto.
  - split; simpl; [done|]. intros y. rewrite lookup_map_retain.
    destruct (rstates m !! rid) as [y0|] eqn:E; [|done]. simpl. destruct (negb _); [|done]. intros [= <-]. by apply Hy.
  - split; simpl; [done|]. intros y. by rewrite lookup_delete_eq.
Qed.

Lemma migration_reachable_ok m : migration_reachable me pid rid m → migration_ok pid rid m.
Proof.
  induction 1 as [st st' Hwf|m m' _ IH Hs]; [|by eapply migration_step_ok].
  split; [done|]. intros y. simpl. by rewrite lookup_empty.
Qed.
End preservation.

End migration.
