(* ===== verification/WorkerTheorems.v ===== *)
(** * Properties of the worker: migration, membership, partition clean-up *)

From S2P Require Import Prelude Containers Common RuntimeStore StoreSpec WorkerState WorkerSync WorkerService.
From S2P Require Import WorkerSpec WorkerMigration.

(** ** Reference definitions *)

(** Completions are recorded with the time of the partition table they are for. *)
Definition completion_bounded (s : State) : Prop :=
  ∀ p times n t, actual_nodes_sync_completion s !! p = Some times → times !! n = Some t →
    t <= partitions_last_update_time s.

(** ** Lemmas *)

Lemma length_filter_lt {A} (P Q : A → Prop) `{!∀ x, Decision (P x), !∀ x, Decision (Q x)} (l : list A) x :
  (∀ y, Q y → P y) → x ∈ l → P x → ¬ Q x → (length (filter Q l) < length (filter P l))%nat.
Proof.
  intros HQP Hx HP HQ. induction l as [|y l IH]; [by apply not_elem_of_nil in Hx|].
  rewrite !filter_cons.
  assert (length (filter Q l) <= length (filter P l))%nat as Hle.
  { clear -HQP. induction l as [|z l IH]; [done|]. rewrite !filter_cons.
    repeat case_decide; simpl; try lia. naive_solver. }
  apply elem_of_cons in Hx as [->|Hx].
  - rewrite decide_False, decide_True by done. simpl. lia.
  - specialize (IH Hx). repeat case_decide; simpl; try lia. naive_solver.
Qed.

(** The second branch of the recipient choice. *)
Lemma sync_new_replicas_elem ps partition me (m : Partition) synced n (old : gset NodeId) :
  me ∉ old → old = ∅ →
  n ∈ (if (bool_decide (master m = me) || bool_decide (me ∈ replicas m))%bool then
         match new_replicas ps !! partition with
         | Some new =>
             if bool_decide (me ∉ new) then
               match synced with
               | Some synced => filter (λ node_id, node_id ∉ synced) new
               | None => new
               end
             else ∅
         | None => ∅
         end
       else (∅ : gset NodeId)) ↔
  n ≠ me ∧ ∃ m', Some m = Some m' ∧
    ((me ∈ old ∧ n ∈ {[ master m' ]} ∪ replicas m') ∨
     (old = ∅ ∧ me ∈ {[ master m' ]} ∪ replicas m' ∧
      ∃ new, new_replicas ps !! partition = Some new ∧ (me ∉ new) ∧ n ∈ new ∧ n ∉ (default ∅ synced : gset NodeId))).
Proof.
  intros Hme Ho. destruct (bool_decide (master m = me) || bool_decide (me ∈ replicas m)) eqn:Hown.
  - assert (me ∈ {[ master m ]} ∪ replicas m) as Hin
      by (apply orb_true_iff in Hown as [?%bool_decide_eq_true|?%bool_decide_eq_true]; set_solver).
    destruct (new_replicas ps !! partition) as [new|]; last first.
    { split; [by intros ?%elem_of_empty|]. by intros (_ & ? & _ & [[? _]|(_ & _ & ? & [=] & _)]). }
    destruct (bool_decide_reflect (me ∉ new)) as [Hn|Hn]; last first.
    { split; [by intros ?%elem_of_empty|]. by intros (_ & ? & _ & [[? _]|(_ & _ & ? & [= <-] & ? & _)]). }
    assert (n ∈ match synced with Some synced => filter (λ node_id, node_id ∉ synced) new | None => new end ↔
            n ∈ new ∧ n ∉ (default ∅ synced : gset NodeId)) as -> by (destruct synced; set_solver).
    split.
    + intros [? ?]. split; [set_solver|]. exists m. split; [done|]. right. eauto 10.
    + by intros (_ & ? & _ & [[? _]|(_ & _ & ? & [= <-] & _ & ? & ?)]).
  - apply orb_false_iff in Hown as [?%bool_decide_eq_false ?%bool_decide_eq_false].
    split; [by intros ?%elem_of_empty|]. intros (_ & m' & [= <-] & [[? _]|(_ & ? & _)]); [done|set_solver].
Qed.

(** Who a worker sends a partition to.  A former owner sends to every other
    current owner; when no former owner is left, a current owner that is not
    itself new sends to the new replicas not yet synced for this partition
    table; nobody else sends, nobody sends to itself, and only known nodes are
    addressed. *)
Theorem sync_recipients_exact partition me ps ns synced n :
  n ∈ get_node_ids_curr_node_has_to_sync_the_partition_to partition me ps ns synced ↔
  is_Some (ns !! n) ∧ n ≠ me ∧
  ∃ m, mapping ps !! partition = Some m ∧
    ((me ∈ default ∅ (old_replicas ps !! partition) ∧ n ∈ owners m) ∨
     (default ∅ (old_replicas ps !! partition) = ∅ ∧ me ∈ owners m ∧
      ∃ new, new_replicas ps !! partition = Some new ∧ (me ∉ new) ∧ n ∈ new ∧ n ∉ default ∅ synced)).
Proof.
  unfold get_node_ids_curr_node_has_to_sync_the_partition_to. rewrite elem_of_filter.
  apply and_iff_compat_l. unfold owners.
  destruct (old_replicas ps !! partition) as [old|]; simpl.
  - destruct (bool_decide_reflect (me ∈ old)) as [Hme|Hme].
    + destruct (mapping ps !! partition) as [m|]; [|set_solver]. rewrite elem_of_union, elem_of_filter.
      case_bool_decide; set_solver.
    + case_bool_decide as Ho; [|set_solver]. destruct (mapping ps !! partition) as [m|]; [|set_solver].
      apply sync_new_replicas_elem; [set_solver|done].
  - destruct (mapping ps !! partition) as [m|]; [|set_solver]. apply sync_new_replicas_elem; [set_solver|done].
Qed.

Section theorems.
Context {M : Type → Type} `{!SkipMap M, !SkipMapLaws M}.
Context {D : Type → Type} `{!DashMap PartitionId D, !DashMapLaws PartitionId D}.
Implicit Types st : RuntimeStore M D.

(** How much a transfer still has to send. *)
Definition remaining st (pid : PartitionId) (y : SyncState) : nat :=
  match phase y with
  | Snapshot r =>
      length (filter (after_ok (Some (curr_max_key y))) (partition_entries pid st)) +
      length (pending_changes st pid r)
  | Changes _ q => length (pending_changes st pid q)
  end.

(** Acknowledged rounds of a transfer over a store nobody writes to: the number
    of batches it takes, if it completes within [fuel] rounds. *)
Fixpoint rounds (fuel : nat) (now : Z) st (me : Me) (pid : PartitionId) (rid : NodeId) (y : SyncState) : option nat :=
  match fuel with
  | O => None
  | S fuel =>
      match continue_confirmed_sync now y st me pid rid with
      | (_, _, true) => Some 0%nat
      | (y, _, false) => S <$> rounds fuel now st me pid rid (set_confirmed true y)
      end
  end.

Lemma change_loop_shrinks fuel st pid cursor last l :
  change_loop fuel st pid cursor = Some (Some (last, l)) →
  (length (pending_changes st pid last) < length (pending_changes st pid cursor))%nat.
Proof.
  revert cursor. induction fuel as [|fuel IH]; intros cursor; [done|]. simpl.
  destruct (dm_get pid (cache st)) as [p|] eqn:Hp; last first.
  { unfold get_partition_changes. by rewrite Hp. }
  pose proof (get_partition_changes_spec pid cursor SYNC_BATCH_SIZE st p) as Hspec.
  destruct (get_partition_changes pid cursor SYNC_BATCH_SIZE st) as [[last1 l1]|]; [|done].
  destruct Hspec as (Hlt & [k Hk] & _ & _); [destruct SYNC_BATCH_SIZE_pos; lia|done|].
  pose proof (pending_changes_shrink st pid cursor last1 p k Hp Hlt Hk).
  destruct l1; [intros ?%IH; lia|]. by intros [= <- _].
Qed.

Lemma sync_change_batch_shrinks st rid pid cursor me last k out :
  sync_change_batch st rid pid cursor me = (Some (last, k), out) →
  (length (pending_changes st pid last) < length (pending_changes st pid cursor))%nat.
Proof.
  unfold sync_change_batch. destruct (change_loop _ _ _ _) as [[[last1 l]|]|] eqn:E; [|done..].
  destruct (max_key _); [|done]. intros [= <- _ _]. by eapply change_loop_shrinks.
Qed.

Lemma sync_batch_shrinks st rid pid a me k out :
  sync_batch st rid pid (Some a) me = (Some k, out) →
  (length (filter (after_ok (Some k)) (partition_entries pid st)) <
   length (filter (after_ok (Some a)) (partition_entries pid st)))%nat.
Proof.
  unfold sync_batch. rewrite get_partition_mutations_filter.
  destruct (take _ _) as [|e l] eqn:Ht; [done|].
  destruct (last (e :: l)) as [[k' m]|] eqn:Hl; [|done]. intros [= <- _].
  assert ((k', m) ∈ filter (after_ok (Some a)) (partition_entries pid st)) as [Ha Hin]%list_elem_of_filter.
  { apply (elem_of_take_weak SYNC_BATCH_SIZE). rewrite Ht. apply last_Some in Hl as [l0 ->]. set_solver. }
  apply (length_filter_lt _ _ _ (k', m)); [|done|done|simpl; lia].
  intros [x ?]. simpl in *. lia.
Qed.

Lemma continue_shrinks now y st me pid rid y' out :
  (∃ r, stable_partition_revision pid st = Some r) →
  continue_confirmed_sync now y st me pid rid = (y', out, false) →
  (remaining st pid y' < remaining st pid y)%nat.
Proof.
  intros [r0 Hst].
  assert (∀ cursor z o, continue_changes now y st me pid rid cursor = (z, o, false) →
    (remaining st pid z < length (pending_changes st pid cursor))%nat) as Hch.
  { intros cursor z o. unfold continue_changes.
    destruct (sync_change_batch st rid pid cursor me) as [[[last k]|] o'] eqn:E.
    - intros [= <- _]. unfold remaining. simpl. by eapply sync_change_batch_shrinks.
    - by rewrite Hst, bool_decide_true. }
  unfold continue_confirmed_sync. destruct (phase y) as [r|c q] eqn:Hp.
  - destruct (sync_batch st rid pid (Some (curr_max_key y)) me) as [[k|] o'] eqn:E.
    + intros [= <- _]. unfold remaining. simpl. rewrite Hp. apply sync_batch_shrinks in E. lia.
    + destruct (continue_changes now y st me pid rid r) as [[z o] b] eqn:Ec. intros [= <- _ ->].
      apply Hch in Ec. unfold remaining at 2. rewrite Hp. lia.
  - intros Ec%Hch. unfold remaining at 2. by rewrite Hp.
Qed.

Lemma remaining_confirmed st pid y : remaining st pid (set_confirmed true y) = remaining st pid y.
Proof. done. Qed.

(** One acknowledged partition, as an update of its entry. *)
Definition confirm_entry (sender : NodeId) (_ : PartitionId) (k : Key) (m : option (gmap NodeId SyncState))
    : option (gmap NodeId SyncState) :=
  m ← m;
  Some match m !! sender with
       | Some y => if curr_max_key y =? k then <[sender := set_confirmed true y]> m else m
       | None => m
       end.

Lemma confirm_partition_alter sender Y (pk : PartitionId * Key) :
  confirm_partition sender Y pk = partial_alter (confirm_entry sender pk.1 pk.2) pk.1 Y.
Proof.
  apply map_eq. intros q. unfold confirm_partition.
  destruct (decide (q = pk.1)) as [->|Hne].
  - rewrite lookup_partial_alter_eq. destruct (Y !! pk.1) as [m|] eqn:Hm; simpl; [|done].
    destruct (m !! sender) as [y|]; [|done]. destruct (_ =? _); [by rewrite lookup_insert_eq|done].
  - rewrite lookup_partial_alter_ne by done. repeat case_match; by rewrite ?lookup_insert_ne.
Qed.

Lemma journaled_prune pid through st r k :
  through < r → journaled st r k → journaled (prune_partition_changes pid through st) r k.
Proof.
  intros Hlt (p & Hp & Hr). unfold journaled.
  destruct (dm_get_prune pid through st (Key_partition k)) as [->|(E & p0 & c & Hp0 & -> & Hc)]; [eauto|].
  eexists. split; [done|]. simpl. rewrite Hc. rewrite E, Hp0 in Hp. injection Hp as ->.
  by assert ((through <? r) = true) as -> by lia.
Qed.

Lemma accept_cluster_state_frame s e l s' :
  accept_cluster_state s e l = Some s' →
  partitions s' = partitions s ∧ partitions_last_update_time s' = partitions_last_update_time s ∧
  actual_nodes_sync_completion s' = actual_nodes_sync_completion s.
Proof. unfold accept_cluster_state. repeat case_match; by intros [= <-]. Qed.

(** Folding the clean-up over the migration table. *)
Lemma lookup_fold_remove (f : PartitionId * gmap NodeId SyncState → bool) l st k :
  lookup_store k (foldl (λ st (py : PartitionId * gmap NodeId SyncState),
                           if f py then remove_partition py.1 st else st) st l) =
  if existsb (λ py, f py && bool_decide (py.1 = Key_partition k)) l then None else lookup_store k st.
Proof.
  revert st. induction l as [|py l IH]; intros st; simpl; [done|]. rewrite IH.
  destruct (existsb _ l); [by rewrite orb_true_r|]. rewrite orb_false_r.
  destruct (f py); [|done]. simpl. unfold remove_partition. rewrite lookup_store_remove. by repeat case_decide.
Qed.

(** ** Claims *)


(** C19: a migration finishes.  Over a store with no writer in flight and no
    further writes, a transfer whose batches are acknowledged completes, after no
    more batches than there are records and journalled changes left to send. *)
Theorem migration_terminates now st me pid rid y :
  is_Some (stable_partition_revision pid st) →
  ∃ n, rounds (S (remaining st pid y)) now st me pid rid y = Some n ∧ (n <= remaining st pid y)%nat.
Proof.
  intros Hst. assert (∀ fuel y, (remaining st pid y < fuel)%nat →
    ∃ n, rounds fuel now st me pid rid y = Some n ∧ (n <= remaining st pid y)%nat) as H; [|apply H; lia].
  induction fuel as [|fuel IH]; intros z Hz; [lia|]. simpl.
  destruct (continue_confirmed_sync now z st me pid rid) as [[z' out] [|]] eqn:E.
  - exists 0%nat. split; [done|lia].
  - apply continue_shrinks in E; [|done].
    destruct (IH (set_confirmed true z')) as (n & -> & Hn); [rewrite remaining_confirmed; lia|].
    rewrite remaining_confirmed in Hn. exists (S n). split; [done|lia].
Qed.

(** What a received batch does.  Applying a batch is applying the mutations it
    carries, one after the other, to the store (so last-write-wins decides every
    key), and the one message sent back, to the sender, acknowledges for each
    partition the largest key of the batch in it and names no other partition. *)
Theorem sync_batch_applied req st :
  ∃ acks, handle_sync_batch req st =
    (apply_all (batch_entries req) st, [WorkerProtocol.SyncBatchResponse (req_sender_id req) acks]) ∧
  ∀ p, acks !! p = max_key (filter (λ k, Key_partition k = p) (rec_key <$> req_records req)).
Proof.
  unfold handle_sync_batch.
  pose proof (apply_records_store (req_records req) st ∅) as Hs.
  pose proof (λ p, apply_records_acks (req_records req) st p) as Ha.
  destruct (foldl apply_record (st, ∅) (req_records req)) as [st' acks]. simpl in *.
  exists acks. by rewrite Hs.
Qed.

(** An acknowledgement confirms exactly the transfers it is for: those to its
    sender whose last sent key is the acknowledged one; every other transfer, and
    the rest of the state, is untouched. *)
Theorem sync_ack_exact s acks sender p r :
  let y' := sync (handle_sync_batch_response s acks sender) !! p ≫= (λ m, m !! r) in
  let y := sync s !! p ≫= (λ m, m !! r) in
  y' = (y ← y; Some (if bool_decide (r = sender ∧ acks !! p = Some (curr_max_key y))
                     then set_confirmed true y else y)).
Proof.
  cbv zeta. unfold handle_sync_batch_response. cbn [sync set_sync].
  rewrite (foldl_ext_eq (confirm_partition sender)
    (λ Y e, partial_alter (confirm_entry sender e.1 e.2) e.1 Y)) by apply confirm_partition_alter.
  rewrite lookup_foldl_alter. destruct (acks !! p) as [k|] eqn:Hk; last first.
  { destruct (sync s !! p) as [m|]; [|done]. simpl. destruct (m !! r) as [y|]; [|done]. simpl.
    rewrite bool_decide_false; [done|]. by intros [_ ?]. }
  destruct (sync s !! p) as [m|]; [|done]. simpl. destruct (m !! sender) as [y0|] eqn:Hy0.
  - destruct (decide (r = sender)) as [->|Hne].
    + rewrite Hy0. simpl. destruct (Z.eqb_spec (curr_max_key y0) k) as [<-|Hne]; simpl.
      * by rewrite lookup_insert_eq, bool_decide_true.
      * rewrite Hy0, bool_decide_false; [done|]. intros [_ [= ?]]. congruence.
    + assert ((if curr_max_key y0 =? k then <[sender := set_confirmed true y0]> m else m) !! r = m !! r) as E
        by (destruct (_ =? _); [by rewrite lookup_insert_ne|done]).
      rewrite E. destruct (m !! r) as [y|]; simpl; [|done]. by rewrite bool_decide_false by tauto.
  - simpl. destruct (m !! r) as [y|] eqn:Hy; [|done]. simpl. rewrite bool_decide_false; [done|].
    intros [-> _]. congruence.
Qed.

(** Pruning never drops a change a recipient still needs.  After a pass over a
    partition, for every transfer still open, all journal entries above the
    revision that transfer resumes from are still there, and no record of the
    store was touched. *)
Theorem sync_partition_keeps_journal clk s st me pid rids :
  let '(s', st', _) := sync_partition clk s st me pid rids in
  (∀ k, lookup_store k st' = lookup_store k st) ∧
  ∀ rs r y k rev, sync s' !! pid = Some rs → rs !! r = Some y →
    phase_floor (phase y) < rev → journaled st rev k → journaled st' rev k.
Proof.
  unfold sync_partition. set (s1 := match sync s !! pid with Some _ => _ | None => s end). clearbody s1.
  destruct (foldl (sync_recipient clk st me pid) (s1, []) (elements rids)) as [s2 out].
  destruct (sync s2 !! pid) as [rs2|] eqn:Hs2.
  - set (rs := map_retain _ rs2).
    destruct (min_key ((λ ry : NodeId * SyncState, phase_floor (phase ry.2)) <$> map_to_list rs)) as [fl|] eqn:Hmin.
    + split; [intros k; apply lookup_prune|]. cbn [sync set_sync]. intros rs' r y k rev.
      rewrite lookup_insert_eq. intros [= <-] Hy Hlt. apply min_key_Some in Hmin as [_ Hmin].
      apply journaled_prune. enough (fl <= phase_floor (phase y)) by lia. apply Hmin.
      apply list_elem_of_fmap. exists (r, y). by rewrite elem_of_map_to_list.
    + apply min_key_None, fmap_nil_inv, map_to_list_empty_iff in Hmin.
      destruct (stable_partition_revision pid st) as [rev0|]; (split; [intros k; by rewrite ?lookup_prune|]);
        cbn [sync set_sync]; intros rs' r y k rev; rewrite lookup_insert_eq; intros [= <-]; by rewrite Hmin, lookup_empty.
  - destruct (stable_partition_revision pid st) as [rev0|]; (split; [intros k; by rewrite ?lookup_prune|]);
      intros rs' r y k rev; by rewrite Hs2.
Qed.

(** The clean-up after a pass forgets exactly the partitions whose transfers
    are all done, and removes exactly the records of those among them this worker
    does not own; every other record and every open transfer is kept. *)
Theorem obsolete_partitions_removed s st me :
  let '(s', st') := remove_completed_syncs_and_obsolete_partitions s st me in
  (∀ p, sync s' !! p = if bool_decide (sync s !! p = Some ∅) then None else sync s !! p) ∧
  ∀ k, lookup_store k st' =
    if bool_decide (sync s !! Key_partition k = Some ∅) &&
       negb (node_owns_partition (partitions s) (Key_partition k) (me_id me))
    then None else lookup_store k st.
Proof.
  unfold remove_completed_syncs_and_obsolete_partitions. split.
  - intros p. cbn [sync set_sync]. rewrite lookup_map_retain. destruct (sync s !! p) as [m|]; [|done]. simpl.
    destruct (bool_decide_reflect (m = ∅)) as [->|Hne]; simpl; [done|].
    rewrite bool_decide_false by (by intros [= ->]). done.
  - intros k. rewrite (lookup_fold_remove (λ py, bool_decide (py.2 = ∅) &&
      negb (node_owns_partition (partitions s) py.1 (me_id me)))).
    match goal with |- (if ?b then _ else _) = (if ?c then _ else _) => assert (b = c) as ->; [|done] end.
    apply eq_iff_eq_true. rewrite existsb_exists, andb_true_iff, bool_decide_eq_true. split.
    + intros ([q m] & Hin%list_elem_of_In & [[Hm Hown]%andb_true_iff Hq]%andb_true_iff). simpl in *.
      apply bool_decide_eq_true in Hm as ->. apply bool_decide_eq_true in Hq as ->.
      by apply elem_of_map_to_list in Hin.
    + intros [Hs Hown]. exists (Key_partition k, ∅). simpl. rewrite Hown, !bool_decide_true by done.
      split; [|done]. apply list_elem_of_In. by apply elem_of_map_to_list.
Qed.

(** A new partition table restarts every transfer.  When recorded completions
    are not in the future and the update time has room to advance, an accepted
    snapshot with a different table leaves no node counted as synced, and one
    with the same table leaves the synced nodes as they were; in both cases the
    recorded completions stay consistent. *)
Theorem partition_change_restarts_sync now s e l items ps me :
  completion_bounded s → partitions_last_update_time s < u64_modulus - 1 →
  let s' := (handle_cluster_state now s e l items ps me).1 in
  is_Some (accept_cluster_state s e l) →
  get_currently_synced_actual_nodes s' =
    (if bool_decide (partitions s = ps) then get_currently_synced_actual_nodes s else ∅) ∧
  completion_bounded s' ∧ partitions s' = ps.
Proof.
  intros Hb Hroom s' [s1 Ha]. unfold s'. clear s'. unfold handle_cluster_state. rewrite Ha.
  apply accept_cluster_state_frame in Ha as (Hp & Ht & Hc).
  destruct (foldl merge_cluster_node _ items) as [ns out]. cbn [fst]. rewrite Hp.
  destruct (bool_decide_reflect (partitions s = ps)) as [Heq|Hne].
  - rewrite bool_decide_false by (by intros []). split_and!; [| |done].
    + unfold get_currently_synced_actual_nodes. simpl. by rewrite Ht, Hc.
    + unfold completion_bounded. simpl. by rewrite Hc, Ht.
  - rewrite bool_decide_true by done. unfold u64_saturating_add. split_and!; [| |done].
    + apply map_eq. intros p. unfold get_currently_synced_actual_nodes. simpl. rewrite Hc, Ht, lookup_omap, lookup_empty.
      destruct (actual_nodes_sync_completion s !! p) as [times|] eqn:Hti; [|done]. simpl.
      rewrite bool_decide_true; [done|]. apply dom_empty_iff_L, map_empty. intros n.
      apply map_lookup_filter_None. right. intros t Hn. simpl. specialize (Hb _ _ _ _ Hti Hn). lia.
    + intros p times n t. simpl. rewrite Hc, Ht. intros Hti Hn. specialize (Hb _ _ _ _ Hti Hn). lia.
Qed.

End theorems.

(** ** Concrete workers *)

Abbreviation Store := (RuntimeStore (gmap Z) (gmap PartitionId)) (only parsing).

Definition worker_a : NodeId := mkNodeId "wa".
Definition worker_b : NodeId := mkNodeId "wb".
Definition worker_c : NodeId := mkNodeId "wc".
Definition manager_m : NodeId := mkNodeId "m".
Definition me_wa : Me := mkMe worker_a "host-a" 9100.
Definition part1 : PartitionId := mkPartitionId 1.
Definition clk100 : Clock := λ _ _ _, 100.

Definition rec_1 : Record := mkRecord 0 7 [42].
Definition store_1 : Store := put 1 rec_1 RuntimeStore_new.

Definition mig0 : Migration (M := gmap Z) (D := gmap PartitionId) := mkMigration store_1 RuntimeStore_new ∅ [].
Definition sync1 := sync_partition_to_recipient clk100 (rstates mig0) (src mig0) me_wa part1 worker_b.
Definition mig1 : Migration := mkMigration store_1 RuntimeStore_new sync1.1.1 ([] ++ batches_to worker_b sync1.1.2).
Definition mig2 : Migration :=
  mkMigration store_1 RuntimeStore_new
    (default ∅ (foldl (confirm_partition worker_b) {[ part1 := rstates mig1 ]} (map_to_list {[ part1 := 1 ]}) !! part1))
    (wire mig1).

Lemma store_1_wf : store_wf store_1.
Proof. apply (run_op_wf (OpPut 1 rec_1) RuntimeStore_new); [apply new_wf|vm_compute; reflexivity]. Qed.

Lemma mig2_reachable : migration_reachable me_wa part1 worker_b mig2.
Proof.
  refine (mr_step _ _ _ mig1 mig2 _ (ms_ack _ _ _ {[ part1 := 1 ]} mig1)).
  refine (mr_step _ _ _ mig0 mig1 (mr_init _ _ _ store_1 RuntimeStore_new store_1_wf) _).
  refine (ms_sync _ _ _ clk100 sync1.1.1 sync1.1.2 sync1.2 mig0 _). vm_compute. reflexivity.
Qed.


Lemma migration_terminates_witness :
  ∃ n, rounds (S (remaining store_1 part1 (mkSyncState None 0 (Snapshot 0) true 0))) 100 store_1 me_wa part1 worker_b
         (mkSyncState None 0 (Snapshot 0) true 0) = Some n.
Proof.
  destruct (migration_terminates 100 store_1 me_wa part1 worker_b (mkSyncState None 0 (Snapshot 0) true 0))
    as (n & Hn & _); [eexists; vm_compute; reflexivity|].
  exists n. exact Hn.
Defined.

(** A former owner of partition 1, now owned by [wb] alone. *)
Definition node_of (t : NodeType) : Node := mkNode "host" 9000 0 t.
Definition moved_to_b : Partitions :=
  mkPartitions {[ part1 := mkPartition worker_b ∅ ]} {[ part1 := {[ worker_a ]} ]} ∅.
Definition state_moved : State :=
  mkState (Some 1) (Some manager_m)
    (<[worker_a := node_of Worker]> {[ worker_b := node_of Worker ]}) moved_to_b 0 ∅ ∅.

(** The store while another task is removing an expired record of partition 1:
    its writer guard is taken and not dropped yet. *)
Definition store_expiring : Store :=
  mkRuntimeStore (partial_alter (fmap writer) part1 (cache store_1)) (next_revision store_1).

Definition sends_batch (m : WorkerProtocol.t) : bool :=
  match m with WorkerProtocol.SyncBatch _ _ => true | _ => false end.

(** Expiry during a pass can lose a migrating partition.  When
    [start_sync] finds a writer active (the sweep or a read removing an expired
    record) it gives up for this pass, but an empty transfer table for the
    partition is left behind; the clean-up of the same pass takes it for a finished
    transfer and removes the whole partition, although no batch was sent to its new
    owner. *)
Theorem expiry_in_flight_loses_partition :
  let '(_, st', out) := sync_partitions clk100 state_moved store_expiring me_wa in
  lookup_store 1 store_expiring = Some (Put rec_1) ∧
  lookup_store 1 st' = None ∧ existsb sends_batch out = false.
Proof.
  assert (lookup_store 1 (sync_partitions clk100 state_moved store_expiring me_wa).1.2 = None ∧
          existsb sends_batch (sync_partitions clk100 state_moved store_expiring me_wa).2 = false) as H
    by (vm_compute; split; reflexivity).
  assert (lookup_store 1 store_expiring = Some (Put rec_1)) as H0 by (vm_compute; reflexivity).
  revert H H0. generalize (lookup_store 1 store_expiring).
  destruct (sync_partitions clk100 state_moved store_expiring me_wa) as [[s' st'] out].
  intros o [H1 H2] H0. exact (conj H0 (conj H1 H2)).
Qed.

(** A transfer to two new owners: the one to [wb] is acknowledged to its end, the
    one to [wc] is not. *)
Definition moved_to_bc : Partitions :=
  mkPartitions {[ part1 := mkPartition worker_b {[ worker_c ]} ]} {[ part1 := {[ worker_a ]} ]} ∅.
Definition state_half : State :=
  mkState (Some 1) (Some manager_m)
    (<[worker_a := node_of Worker]> (<[worker_b := node_of Worker]> {[ worker_c := node_of Worker ]})) moved_to_bc 0
    {[ part1 := <[worker_b := mkSyncState None 1 (Snapshot 1) true 100]>
                {[ worker_c := mkSyncState None 1 (Snapshot 1) false 100 ]} ]} ∅.

(** A former owner reports a partition as handed over when the first
    of its recipients is done: the message that makes the manager drop it from
    the old replicas goes out while the transfer to the other recipient is open. *)
Theorem released_before_last_recipient :
  let '(s', _, out) :=
    sync_partition clk100 state_half store_1 me_wa part1 {[ worker_b; worker_c ]} in
  out = [WorkerProtocol.RemovePartitionFromReplica manager_m worker_a part1] ∧
  sync s' !! part1 ≫= (λ m, m !! worker_c) = Some (mkSyncState None 1 (Snapshot 1) false 100).
Proof. vm_compute. done. Qed.

Lemma partition_change_restarts_sync_witness :
  get_currently_synced_actual_nodes
    (handle_cluster_state 200 (set_completion {[ part1 := {[ worker_b := 0 ]} ]} state_moved) 2 manager_m []
       moved_to_bc me_wa).1 = ∅.
Proof.
  pose proof (partition_change_restarts_sync 200 (set_completion {[ part1 := {[ worker_b := 0 ]} ]} state_moved)
    2 manager_m [] moved_to_bc me_wa) as H.
  rewrite bool_decide_false in H by (apply (bool_decide_unpack _); vm_compute; exact I).
  apply H; [|vm_compute; reflexivity|vm_compute; by eexists].
  intros p times n t. cbn [actual_nodes_sync_completion set_completion].
  intros [<- <-]%lookup_singleton_Some [<- <-]%lookup_singleton_Some. vm_compute. done.
Defined.

Definition batch_1 : SyncBatchRequest := mkSyncBatchRequest worker_b [mkRecord_ 1 [43] 0 9 false; mkRecord_ 2 [] 0 3 true].

Lemma sync_batch_applied_witness :
  ∃ acks, handle_sync_batch batch_1 store_1 =
    (apply_all (batch_entries batch_1) store_1, [WorkerProtocol.SyncBatchResponse worker_b acks]).
Proof.
  destruct (sync_batch_applied (M := gmap Z) (D := gmap PartitionId) batch_1 store_1) as (acks & Ha & _).
  exists acks. exact Ha.
Defined.

Lemma obsolete_partitions_removed_witness :
  lookup_store 1
    (remove_completed_syncs_and_obsolete_partitions (set_sync {[ part1 := ∅ ]} state_moved) store_1 me_wa).2 = None.
Proof.
  pose proof (obsolete_partitions_removed (M := gmap Z) (D := gmap PartitionId)
    (set_sync {[ part1 := ∅ ]} state_moved) store_1 me_wa) as H.
  destruct (remove_completed_syncs_and_obsolete_partitions (set_sync {[ part1 := ∅ ]} state_moved) store_1 me_wa)
    as [s' st'].
  destruct H as [_ H]. exact (H 1).
Defined.

Lemma sync_partition_keeps_journal_witness :
  lookup_store 1 (sync_partition clk100 state_half store_1 me_wa part1 {[ worker_b; worker_c ]}).1.2 =
  lookup_store 1 store_1.
Proof.
  pose proof (sync_partition_keeps_journal (M := gmap Z) (D := gmap PartitionId)
    clk100 state_half store_1 me_wa part1 {[ worker_b; worker_c ]}) as H.
  destruct (sync_partition clk100 state_half store_1 me_wa part1 {[ worker_b; worker_c ]}) as [[s' st'] out].
  destruct H as [H _]. exact (H 1).
Defined.
