(* ===== verification/WorkerHandover.v ===== *)
(** * A worker handing its partitions over (worker/service.rs, worker/service/partitions.rs)

    A worker with its whole service, and the peers it sends partitions to: their
    stores and the connections to them.  The invariant of one transfer
    ([WorkerMigration]) is lifted to all partitions and all recipients of a full
    pass of [sync_partitions], with everything else the service does in between. *)

From S2P Require Import Prelude Containers Common RuntimeStore StoreSpec WorkerState WorkerSync WorkerService.
From S2P Require Import WorkerSpec WorkerMigration WorkerTheorems.

Section handover.
Context {M : Type → Type} `{!SkipMap M, !SkipMapLaws M}.
Context {D : Type → Type} `{!DashMap PartitionId D, !DashMapLaws PartitionId D}.
Implicit Types st : RuntimeStore M D.

(** ** The system *)

(** A peer and the batches under way to it. *)
Record Peer := mkPeer { peer_store : RuntimeStore M D; peer_wire : list SyncBatchRequest }.

(** Its store once it applied them. *)
Definition peer_drained (p : Peer) : RuntimeStore M D :=
  foldl (λ st req, (handle_sync_batch req st).1) (peer_store p) (peer_wire p).

Definition send (out : list WorkerProtocol.t) (peers : NodeId → Peer) (r : NodeId) : Peer :=
  mkPeer (peer_store (peers r)) (peer_wire (peers r) ++ batches_to r out).

Definition update_peer (rid : NodeId) (p : Peer) (peers : NodeId → Peer) (r : NodeId) : Peer :=
  if decide (r = rid) then p else peers r.

Record Cluster := mkCluster { cl_svc : WorkerService M D; cl_peers : NodeId → Peer }.

(** The first half of [process]: the handler of a message. *)
Definition handle_message (now : Z) (msg : WorkerProtocol.t) (svc : WorkerService M D)
    : WorkerService M D * list WorkerProtocol.t :=
  match state svc with
  | Some s =>
      let '(s, st, out) := dispatch now msg (me svc) s (runtime_store svc) in
      (mkWorkerService (me svc) (Some s) (config svc) st, out)
  | None => (svc, [])
  end.

(** Revisions a message takes from the counter. *)
Definition message_cost (msg : WorkerProtocol.t) : Z :=
  match msg with
  | WorkerProtocol.SyncBatch _ req => Z.of_nat (length (req_records req))
  | _ => 0
  end.

Inductive cluster_step : Cluster → Cluster → Prop :=
  | cs_message c now msg svc out :
      next_revision (runtime_store (cl_svc c)) + message_cost msg < u64_modulus →
      handle_message now msg (cl_svc c) = (svc, out) →
      cluster_step c (mkCluster svc (send out (cl_peers c)))
  | cs_tick c now clk svc out :
      tick now clk (cl_svc c) = (svc, out) → cluster_step c (mkCluster svc (send out (cl_peers c)))
  | cs_disconnect c now hb_now clk rid svc out :
      (* what is under way on a broken connection is lost *)
      process now hb_now clk (WorkerProtocol.NodeDisconnected rid) (cl_svc c) = (svc, out) →
      state (cl_svc c) ≠ None →
      cluster_step c (mkCluster svc (update_peer rid (mkPeer (peer_store (cl_peers c rid)) []) (send out (cl_peers c))))
  | cs_client c op :
      client_op op = true →
      next_revision (runtime_store (cl_svc c)) + op_cost op (runtime_store (cl_svc c)) < u64_modulus →
      cluster_step c (mkCluster (set_store (run_op op (runtime_store (cl_svc c))) (cl_svc c)) (cl_peers c))
  | cs_peer_write c rid k mu :
      cluster_step c (mkCluster (cl_svc c)
        (update_peer rid (mkPeer (apply_mutation k mu (peer_store (cl_peers c rid))) (peer_wire (cl_peers c rid)))
           (cl_peers c)))
  | cs_deliver c rid req w :
      peer_wire (cl_peers c rid) = req :: w →
      cluster_step c (mkCluster (cl_svc c)
        (update_peer rid (mkPeer (handle_sync_batch req (peer_store (cl_peers c rid))).1 w) (cl_peers c))).

(** A worker that has not started a transfer, its store well formed. *)
Inductive cluster_reachable : Cluster → Prop :=
  | cr_init svc peers :
      store_wf (runtime_store svc) → (∀ s, state svc = Some s → sync s = ∅) →
      cluster_reachable (mkCluster svc peers)
  | cr_step c c' : cluster_reachable c → cluster_step c c' → cluster_reachable c'.

(** [process] is the handler and then [tick]. *)
Lemma worker_process_handle_tick now hb_now clk msg (svc : WorkerService M D) :
  process now hb_now clk msg svc =
    let '(svc, out) := handle_message now msg svc in
    let '(svc, out') := tick hb_now clk svc in (svc, out ++ out').
Proof. unfold process, handle_message. by destruct (state svc). Qed.

(** ** The invariant *)

Definition entries_ok (s : State) st (w : NodeId → Peer) : Prop :=
  ∀ pid rs rid y, sync s !! pid = Some rs → rs !! rid = Some y → sync_ok pid st (peer_drained (w rid)) y.

(** The peer, drained, has every record of the partition. *)
Definition holds (pid : PartitionId) st (p : Peer) : Prop :=
  ∀ x mu, Key_partition x = pid → lookup_store x st = Some mu → covered (peer_drained p) x mu.

(** Peer [p'] covers what [p] covers. *)
Definition peer_le (p p' : Peer) : Prop := ∀ x mu, covered (peer_drained p) x mu → covered (peer_drained p') x mu.

#[export] Instance peer_le_preorder : PreOrder peer_le.
Proof. split; [by intros p x mu|]. intros p1 p2 p3 H12 H23 x mu Hc. by apply H23, H12. Qed.

Lemma covered_peer p x mu :
  covered (peer_drained p) x mu ↔
    (∃ req mu', req ∈ peer_wire p ∧ (x, mu') ∈ batch_entries req ∧ version mu <= version mu') ∨
    covered (peer_store p) x mu.
Proof. apply (covered_drained (mkMigration RuntimeStore_new (peer_store p) ∅ (peer_wire p))). Qed.

Lemma batches_to_app rid out out' : batches_to rid (out ++ out') = batches_to rid out ++ batches_to rid out'.
Proof. apply omap_app. Qed.

Lemma send_app out out' w r : send (out ++ out') w r = send out' (send out w) r.
Proof. unfold send. simpl. by rewrite batches_to_app, app_assoc. Qed.

Lemma peer_le_send out w r : peer_le (w r) (send out w r).
Proof.
  intros x mu. rewrite !covered_peer. simpl. intros [(req & mu' & ? & ?)|?]; [left|by right].
  exists req, mu'. split; [apply elem_of_app; by left|done].
Qed.

Lemma peer_le_send_app out out' w r : peer_le (send out w r) (send (out ++ out') w r).
Proof. rewrite send_app. apply peer_le_send. Qed.

Lemma holds_mono pid st st' p p' :
  (∀ x, Key_partition x = pid → lookup_store x st' = lookup_store x st) → peer_le p p' → holds pid st p → holds pid st' p'.
Proof. intros Hl Hp Hh x mu Hx. rewrite Hl by done. intros Hm. by apply Hp, Hh. Qed.

Lemma entries_ok_mono s st w w' : (∀ r, peer_le (w r) (w' r)) → entries_ok s st w → entries_ok s st w'.
Proof. intros Hw He pid rs rid y Hs Hy. eapply sync_ok_cover_mono; [apply Hw|by eapply He]. Qed.

(** A transfer only looks at its own partition. *)
Lemma sync_ok_frame pid st st' d y :
  dm_get pid (cache st') = dm_get pid (cache st) → next_revision st <= next_revision st' →
  sync_ok pid st d y → sync_ok pid st' d y.
Proof.
  intros Hd Hn [Hb Hs]. split.
  - unfold phase_bounded in *. destruct (phase y); [|lia]. split; [lia|tauto].
  - intros x mu Hx. unfold lookup_store. rewrite Hx, Hd, <-Hx. intros Hl.
    destruct (Hs x mu Hx Hl) as [?|Ht]; [by left|right].
    assert (∀ r, journaled st r x → journaled st' r x) as Hj.
    { intros r (p & Hp & ?). exists p. by rewrite Hx, Hd, <-Hx. }
    unfold to_send in *. destruct (phase y); naive_solver.
Qed.

(** ** One recipient *)

Section pass.
Context (self : Me) (clk : Clock) (pid : PartitionId).

Lemma sync_to_recipient_other rs st rid r :
  r ≠ rid → (sync_partition_to_recipient clk rs st self pid rid).1.1 !! r = rs !! r.
Proof.
  intros Hne. unfold sync_partition_to_recipient, start_sync. destruct (rs !! rid) as [y|].
  - destruct (confirmed y).
    + destruct (continue_confirmed_sync _ _ _ _ _ _) as [[? ?] ?]. simpl. by rewrite lookup_insert_ne.
    + destruct (retry_timed_out_sync _ _ _ _ _ _ _). simpl. by rewrite lookup_insert_ne.
  - destruct (stable_partition_revision _ _); [|done]. destruct (sync_batch _ _ _ _ _) as [[k|] ?]; [|done].
    simpl. by rewrite lookup_insert_ne.
Qed.

(** With no writer active, a transfer that leaves no unconfirmed state is complete. *)
Lemma sync_to_recipient_done rs st rid :
  is_Some (stable_partition_revision pid st) →
  let '(rs', _, completed) := sync_partition_to_recipient clk rs st self pid rid in
  (∀ y, rs' !! rid = Some y → confirmed y = true) → completed = true.
Proof.
  intros [r0 Hr]. unfold sync_partition_to_recipient, start_sync. rewrite Hr.
  assert (∀ now y cursor, let '(y', _, completed) := continue_changes now y st self pid rid cursor in
    confirmed y' = true → completed = true) as Hch.
  { intros now y cursor. unfold continue_changes. destruct (sync_change_batch _ _ _ _ _) as [[[? ?]|] ?]; [done|].
    by rewrite Hr, bool_decide_true. }
  destruct (rs !! rid) as [y|] eqn:Hy; [destruct (confirmed y) eqn:Hc|].
  - unfold continue_confirmed_sync. destruct (phase y) as [r|r r'].
    + destruct (sync_batch _ _ _ _ _) as [[k|] out].
      * intros Hall. by specialize (Hall _ (lookup_insert_eq _ _ _)).
      * specialize (Hch (clk pid rid 0%nat) y r). destruct (continue_changes _ _ _ _ _ _ _) as [[y' ?] completed].
        intros Hall. apply Hch, Hall, lookup_insert_eq.
    + specialize (Hch (clk pid rid 0%nat) y r'). destruct (continue_changes _ _ _ _ _ _ _) as [[y' ?] completed].
      intros Hall. apply Hch, Hall, lookup_insert_eq.
  - destruct (retry_timed_out_sync _ _ _ _ _ _ _) as [y' out] eqn:E. intros Hall.
    specialize (Hall _ (lookup_insert_eq _ _ _)). revert E Hall. unfold retry_timed_out_sync.
    destruct (_ <? _); [intros [= <- _]; by rewrite Hc|]. destruct (match phase y with Snapshot _ => _ | _ => _ end) as [[k|] o].
    + by intros [= <- _].
    + intros [= <- _]. by rewrite Hc.
  - destruct (sync_batch _ _ _ _ _) as [[k|] out].
    + intros Hall. by specialize (Hall _ (lookup_insert_eq _ _ _)).
    + intros _. by apply bool_decide_eq_true.
Qed.

(** What the passes over the recipients [l] of the partition did. *)
Record recipients_ok st (w : NodeId → Peer) (l : list NodeId) (s s' : State) (out : list WorkerProtocol.t) : Prop := {
  ro_entries : entries_ok s' st (send out w);
  ro_nodes : nodes s' = nodes s;
  ro_partitions : partitions s' = partitions s;
  ro_other q : q ≠ pid → sync s' !! q = sync s !! q;
  ro_untouched r : r ∉ l → default ∅ (sync s' !! pid) !! r = default ∅ (sync s !! pid) !! r;
  ro_done r : r ∈ l → is_Some (stable_partition_revision pid st) →
    (∀ y, default ∅ (sync s' !! pid) !! r = Some y → confirmed y = true) → holds pid st (send out w r);
  ro_reports leader replica q : WorkerProtocol.RemovePartitionFromReplica leader replica q ∈ out →
    q = pid ∧ ∃ r, r ∈ l ∧ holds pid st (send out w r);
}.

Lemma covers_sent out o w r l :
  out = [] ∧ l = [] ∨ out = [sync_message r self l] →
  covers_batch (peer_drained (w r)) (peer_drained (send (out ++ o) w r)) l.
Proof.
  intros Hout x mu [Hx|Hx]; [|by apply peer_le_send]. destruct Hout as [[-> ->]| ->]; [by apply not_elem_of_nil in Hx|].
  rewrite send_app. apply peer_le_send, covered_peer. left. unfold send. cbn [peer_wire]. rewrite (batches_to_message self).
  eexists _, mu. split; [apply elem_of_app; right; by left|]. by rewrite batch_entries_to_domain.
Qed.

(** The state [record_completed_sync] leaves, and its report. *)
Lemma record_completed_frame s rid :
  let '(s', out) := record_completed_sync s self pid rid in
  nodes s' = nodes s ∧ partitions s' = partitions s ∧ sync s' = sync s ∧
  (∀ leader replica q, WorkerProtocol.RemovePartitionFromReplica leader replica q ∈ out → q = pid).
Proof.
  unfold record_completed_sync. split_and!; try (by destruct (node_owns_partition _ _ _)).
  intros leader replica q. destruct (elected_leader_id s); [|by intros ?%not_elem_of_nil].
  by intros [= _ _ ->]%list_elem_of_singleton.
Qed.

Lemma sync_message_no_report r l leader replica q :
  WorkerProtocol.RemovePartitionFromReplica leader replica q ∉ [sync_message r self l].
Proof. by intros ?%list_elem_of_singleton. Qed.

Lemma sync_recipient_ok st w l s0 s out rid :
  store_wf st → rid ∉ l → recipients_ok st w l s0 s out →
  let '(s', out') := sync_recipient clk st self pid (s, out) rid in recipients_ok st w (l ++ [rid]) s0 s' out'.
Proof.
  intros Hwf Hrid []. unfold sync_recipient. set (rs := default ∅ (sync s !! pid)) in *.
  assert (∀ r y, rs !! r = Some y → sync_ok pid st (peer_drained (send out w r)) y) as Hy.
  { intros r y. unfold rs. destruct (sync s !! pid) eqn:E; simpl; [|by rewrite lookup_empty]. by eapply ro_entries0. }
  pose proof (sync_call_ok self pid rid clk rs st (peer_drained (send out w rid)) Hwf (Hy rid)) as Hcall.
  pose proof (λ r, sync_to_recipient_other rs st rid r) as Hoth.
  pose proof (sync_to_recipient_done rs st rid) as Hdone.
  destruct (sync_partition_to_recipient clk rs st self pid rid) as [[rs' out1] completed]. simpl in Hoth.
  destruct Hcall as (Hcomp & lst & Hout & Hent).
  assert (∀ s' o, nodes s' = nodes s → partitions s' = partitions s → sync s' = <[pid := rs']> (sync s) →
    (∀ leader replica q, WorkerProtocol.RemovePartitionFromReplica leader replica q ∈ o → q = pid ∧ completed = true) →
    recipients_ok st w (l ++ [rid]) s0 s' (out ++ out1 ++ o)) as Hmain.
  { intros s' o Hn Hp Hs Ho.
    assert (∀ r, peer_le (send out w r) (send (out ++ out1 ++ o) w r)) as Hle by (intros; apply peer_le_send_app).
    assert (completed = true → holds pid st (send (out ++ out1 ++ o) w rid)) as Hholds.
    { intros [_ Hc]%Hcomp x mu Hx Hm. by apply Hle, Hc. }
    split; try congruence.
    - intros q rs1 r y. rewrite Hs. intros [[<- <-]|[Hne Hq]]%lookup_insert_Some Hr.
      + destruct (decide (r = rid)) as [->|Hne]; [|rewrite Hoth in Hr by done; eapply sync_ok_cover_mono; [apply Hle|by apply Hy]].
        apply Hent; [|done]. rewrite send_app. by apply covers_sent.
      + eapply sync_ok_cover_mono; [apply Hle|by eapply ro_entries0].
    - intros q Hne. rewrite Hs, lookup_insert_ne by done. by apply ro_other0.
    - intros r [Hrl Hrr%not_elem_of_cons]%not_elem_of_app. rewrite Hs, lookup_insert_eq. simpl.
      rewrite Hoth by tauto. by apply ro_untouched0.
    - intros r [Hr|Hr]%elem_of_app Hst; rewrite Hs, lookup_insert_eq; simpl.
      + assert (r ≠ rid) by (by intros ->). rewrite Hoth by done. intros Hall.
        eapply holds_mono; [done|apply Hle|]. by apply ro_done0.
      + apply list_elem_of_singleton in Hr as ->. intros Hall. by apply Hholds, Hdone.
    - intros leader replica q. rewrite !elem_of_app. intros [Hin|[Hin|Hin]].
      + destruct (ro_reports0 _ _ _ Hin) as (? & r & ? & ?). split; [done|]. exists r.
        split; [apply elem_of_app; by left|]. by eapply holds_mono; [|apply Hle|].
      + destruct Hout as [[-> _]| ->]; [by apply not_elem_of_nil in Hin|by apply sync_message_no_report in Hin].
      + destruct (Ho _ _ _ Hin) as [? ?]. split; [done|]. exists rid. split; [apply elem_of_app; right; by left|auto]. }
  destruct completed.
  - pose proof (record_completed_frame (set_sync (<[pid := rs']> (sync s)) s) rid) as Hf.
    destruct (record_completed_sync _ _ _ _) as [s' o]. destruct Hf as (? & ? & ? & Ho). apply Hmain; [done..|].
    intros ??? Hin. split; [by eapply Ho|done].
  - rewrite <-(app_nil_r (out ++ out1)), <-app_assoc. apply Hmain; [done..|]. by intros ??? ?%not_elem_of_nil.
Qed.

Lemma sync_recipients_ok st w l s :
  store_wf st → entries_ok s st w → NoDup l →
  let '(s', out) := foldl (sync_recipient clk st self pid) (s, []) l in recipients_ok st w l s s' out.
Proof.
  intros Hwf He. induction l as [|rid l IH] using rev_ind; intros Hnd.
  - simpl. split; try done; [|by intros ? ?%not_elem_of_nil|by intros ??? ?%not_elem_of_nil].
    eapply entries_ok_mono; [|done]. intros r. apply peer_le_send.
  - apply NoDup_app in Hnd as (Hnd & Hdis & _). rewrite foldl_snoc. specialize (IH Hnd).
    destruct (foldl _ _ l) as [s1 out1]. apply sync_recipient_ok; [done| |done].
    intros Hin. apply (Hdis rid Hin). by left.
Qed.

(** What a pass over the partition did. *)
Record partition_pass_ok (rids : gset NodeId) (s : State) st (w : NodeId → Peer) (s' : State) (st' : RuntimeStore M D)
    (out : list WorkerProtocol.t) : Prop := {
  po_wf : store_wf st';
  po_entries : entries_ok s' st' (send out w);
  po_nodes : nodes s' = nodes s;
  po_partitions : partitions s' = partitions s;
  po_records x : lookup_store x st' = lookup_store x st;
  po_other q : q ≠ pid → sync s' !! q = sync s !! q ∧ dm_get q (cache st') = dm_get q (cache st);
  po_released : sync s' !! pid = Some ∅ → is_Some (stable_partition_revision pid st) →
    ∀ r, r ∈ rids → holds pid st (send out w r);
  po_known rs r y : sync s' !! pid = Some rs → rs !! r = Some y → is_Some (nodes s !! r);
  po_reports leader replica q : WorkerProtocol.RemovePartitionFromReplica leader replica q ∈ out →
    q = pid ∧ ∃ r, r ∈ rids ∧ holds pid st (send out w r);
}.

(** Pruning the journal of the partition up to what its transfers need. *)
Lemma entries_ok_prune s st w through :
  (∀ rs r y, sync s !! pid = Some rs → rs !! r = Some y → through <= phase_floor (phase y)) →
  entries_ok s st w → entries_ok s (prune_partition_changes pid through st) w.
Proof.
  intros Hth He q rs r y Hq Hy. destruct (decide (q = pid)) as [->|Hne].
  - apply sync_ok_prune; [by eapply Hth|by eapply He].
  - apply (sync_ok_frame q st); [|by rewrite next_revision_prune|by eapply He].
    by destruct (dm_get_prune pid through st q) as [->|[? _]].
Qed.

Lemma dm_get_prune_ne through st q :
  q ≠ pid → dm_get q (cache (prune_partition_changes pid through st)) = dm_get q (cache st).
Proof. intros Hne. by destruct (dm_get_prune pid through st q) as [->|[? _]]. Qed.

(** The transfers to nodes that left are dropped first. *)
Definition drop_lost (s : State) : State :=
  match sync s !! pid with
  | Some rs =>
      set_sync (<[pid := map_retain (λ r _, negb (bool_decide (nodes s !! r = None))) rs]> (sync s)) s
  | None => s
  end.

Lemma drop_lost_spec s :
  nodes (drop_lost s) = nodes s ∧ partitions (drop_lost s) = partitions s ∧
  (∀ q, q ≠ pid → sync (drop_lost s) !! q = sync s !! q) ∧
  ∀ rs r y, sync (drop_lost s) !! pid = Some rs → rs !! r = Some y →
    is_Some (nodes s !! r) ∧ ∃ rs0, sync s !! pid = Some rs0 ∧ rs0 !! r = Some y.
Proof.
  unfold drop_lost. destruct (sync s !! pid) as [rs0|] eqn:E; [|by rewrite E; split_and!].
  split_and!; try done; [intros q Hne; simpl; by rewrite lookup_insert_ne|].
  intros rs r y. simpl. rewrite lookup_insert_eq. intros [= <-]. rewrite lookup_map_retain.
  destruct (rs0 !! r) eqn:Er; simpl; [|done]. destruct (nodes s !! r); simpl; [|done]. intros [= <-]. eauto.
Qed.

Lemma drop_lost_entries s st w : entries_ok s st w → entries_ok (drop_lost s) st w.
Proof.
  intros He q rs r y Hq Hy. destruct (drop_lost_spec s) as (_ & _ & Ho & Hs).
  destruct (decide (q = pid)) as [->|Hne]; [|rewrite Ho in Hq by done; by eapply He].
  destruct (Hs _ _ _ Hq Hy) as (_ & rs0 & ? & ?). by eapply He.
Qed.

(** The end of a pass drops confirmed transfers and may prune the journal. *)
Definition pruned (rs : gmap NodeId SyncState) st st' : Prop :=
  st' = st ∨ ∃ through, st' = prune_partition_changes pid through st ∧
    ∀ r y, rs !! r = Some y → through <= phase_floor (phase y).

Lemma pass_end_ok rids s st w s2 out s3 st3 :
  store_wf st → (∀ r, r ∈ rids → is_Some (nodes s !! r)) →
  recipients_ok st w (elements rids) (drop_lost s) s2 out →
  nodes s3 = nodes s2 → partitions s3 = partitions s2 → (∀ q, q ≠ pid → sync s3 !! q = sync s2 !! q) →
  sync s3 !! pid = map_retain (λ _ y, negb (confirmed y)) <$> sync s2 !! pid →
  pruned (default ∅ (sync s3 !! pid)) st st3 → partition_pass_ok rids s st w s3 st3 out.
Proof.
  intros Hwf Hknown [] Hn3 Hp3 Ho3 Hs3 Hst3. destruct (drop_lost_spec s) as (Hn1 & Hp1 & Ho1 & Hs1).
  assert (∀ rs r y, sync s3 !! pid = Some rs → rs !! r = Some y →
    confirmed y = false ∧ default ∅ (sync s2 !! pid) !! r = Some y) as Hs32.
  { intros rs r y. rewrite Hs3. destruct (sync s2 !! pid) as [rs2|]; simpl; [|done]. intros [= <-].
    rewrite lookup_map_retain. destruct (rs2 !! r) as [y2|]; simpl; [|done].
    destruct (confirmed y2) eqn:Ec; simpl; [done|]. by intros [= <-]. }
  assert (entries_ok s3 st (send out w)) as He3.
  { intros q rs r y Hq Hy. destruct (decide (q = pid)) as [->|Hne]; [|rewrite Ho3 in Hq by done; by eapply ro_entries0].
    destruct (Hs32 _ _ _ Hq Hy) as [_ Hy2]. destruct (sync s2 !! pid) eqn:E; simpl in Hy2; [by eapply ro_entries0|].
    by rewrite lookup_empty in Hy2. }
  split; try congruence.
  - destruct Hst3 as [->|(through & -> & _)]; [done|auto with store].
  - destruct Hst3 as [->|(through & -> & Hth)]; [done|]. apply entries_ok_prune; [|done].
    intros rs r y Hrs. rewrite Hrs in Hth. apply Hth.
  - intros x. destruct Hst3 as [->|(through & -> & _)]; [done|apply lookup_prune].
  - intros q Hne. rewrite Ho3, ro_other0, Ho1 by done. split; [done|].
    destruct Hst3 as [->|(through & -> & _)]; [done|by apply dm_get_prune_ne].
  - rewrite Hs3. destruct (sync s2 !! pid) as [rs2|]; simpl; [|done]. intros [= Hrs] Hst r Hin.
    apply ro_done0; [by apply elem_of_elements|done|]. simpl. intros y Hy.
    assert (map_retain (λ _ y, negb (confirmed y)) rs2 !! r = None) as Hno by (rewrite Hrs; apply lookup_empty).
    rewrite lookup_map_retain, Hy in Hno. simpl in Hno. by destruct (confirmed y).
  - intros rs r y Hrs Hy. destruct (Hs32 _ _ _ Hrs Hy) as [_ Hy2].
    destruct (decide (r ∈ elements rids)) as [Hin%elem_of_elements|Hni]; [by apply Hknown|].
    rewrite ro_untouched0 in Hy2 by done. destruct (sync (drop_lost s) !! pid) as [rs1|] eqn:E; simpl in Hy2; [|by rewrite lookup_empty in Hy2].
    by destruct (Hs1 _ _ _ eq_refl Hy2).
  - intros leader replica q Hin. destruct (ro_reports0 _ _ _ Hin) as (? & r & ?%elem_of_elements & ?). eauto.
Qed.

(** The state a pass leaves: confirmed transfers dropped, the journal pruned. *)
Definition drop_confirmed (s : State) : State :=
  match sync s !! pid with
  | Some rs => set_sync (<[pid := map_retain (λ _ y, negb (confirmed y)) rs]> (sync s)) s
  | None => s
  end.

Lemma sync_partition_shape rids s st :
  let '(s2, out2) := foldl (sync_recipient clk st self pid) (drop_lost s, []) (elements rids) in
  let '(s', st', out) := sync_partition clk s st self pid rids in
  out = out2 ∧ s' = drop_confirmed s2 ∧ pruned (default ∅ (sync s' !! pid)) st st'.
Proof.
  unfold sync_partition, drop_confirmed. fold (drop_lost s). destruct (foldl _ _ (elements rids)) as [s2 out2].
  destruct (sync s2 !! pid) as [rs2|] eqn:E2.
  - set (rs := map_retain _ rs2). destruct (min_key _) as [fl|] eqn:Hmin.
    + split_and!; [done..|]. simpl. rewrite lookup_insert_eq. right. exists fl. split; [done|]. intros x y Hy.
      apply min_key_Some in Hmin as [_ Hmin]. apply Hmin, list_elem_of_fmap. exists (x, y). by rewrite elem_of_map_to_list.
    + apply min_key_None, fmap_nil_inv, map_to_list_empty_iff in Hmin.
      destruct (stable_partition_revision pid st) as [rev|]; (split_and!; [done..|]); simpl; rewrite lookup_insert_eq; [right|by left].
      exists rev. split; [done|]. intros x y. simpl. by rewrite Hmin, lookup_empty.
  - destruct (stable_partition_revision pid st) as [rev|]; (split_and!; [done..|]); rewrite E2; [right|by left].
    exists rev. split; [done|]. intros x y. simpl. by rewrite lookup_empty.
Qed.

Lemma sync_partition_ok rids s st w :
  store_wf st → entries_ok s st w → (∀ r, r ∈ rids → is_Some (nodes s !! r)) →
  let '(s', st', out) := sync_partition clk s st self pid rids in partition_pass_ok rids s st w s' st' out.
Proof.
  intros Hwf He Hknown. pose proof (sync_partition_shape rids s st) as Hshape.
  pose proof (sync_recipients_ok st w (elements rids) (drop_lost s) Hwf (drop_lost_entries _ _ _ He) (NoDup_elements rids)) as Hr.
  destruct (foldl _ _ (elements rids)) as [s2 out2], (sync_partition _ _ _ _ _ _) as [[s' st'] out].
  destruct Hshape as (-> & -> & Hp). apply (pass_end_ok rids s st w s2); try done; unfold drop_confirmed in *;
    destruct (sync s2 !! pid) as [rs2|] eqn:E; simpl; try done.
  - intros q Hne. by rewrite lookup_insert_ne.
  - by rewrite lookup_insert_eq.
Qed.

End pass.

(** ** All partitions *)

Section passes.
Context (self : Me) (clk : Clock).

Definition recipients (synced : gmap PartitionId (gset NodeId)) (s : State) (q : PartitionId) : gset NodeId :=
  get_node_ids_curr_node_has_to_sync_the_partition_to q (me_id self) (partitions s) (nodes s) (synced !! q).

Lemma recipients_known synced s q r : r ∈ recipients synced s q → is_Some (nodes s !! r).
Proof. by intros [? _]%elem_of_filter. Qed.

Lemma stable_frame q st st' :
  dm_get q (cache st') = dm_get q (cache st) → stable_partition_revision q st' = stable_partition_revision q st.
Proof. unfold stable_partition_revision. by intros ->. Qed.

(** What a pass over the partitions [l] did. *)
Record pass_ok (synced : gmap PartitionId (gset NodeId)) (l : list PartitionId) (s : State) st (w : NodeId → Peer)
    (s' : State) (st' : RuntimeStore M D) (out : list WorkerProtocol.t) : Prop := {
  pa_wf : store_wf st';
  pa_entries : entries_ok s' st' (send out w);
  pa_nodes : nodes s' = nodes s;
  pa_partitions : partitions s' = partitions s;
  pa_records x : lookup_store x st' = lookup_store x st;
  pa_rest q : q ∉ l → sync s' !! q = sync s !! q ∧ dm_get q (cache st') = dm_get q (cache st);
  pa_released q : q ∈ l → sync s' !! q = Some ∅ → is_Some (stable_partition_revision q st) →
    ∀ r, r ∈ recipients synced s q → holds q st (send out w r);
  pa_known q rs r y : q ∈ l → sync s' !! q = Some rs → rs !! r = Some y → is_Some (nodes s !! r);
  pa_reports leader replica q : WorkerProtocol.RemovePartitionFromReplica leader replica q ∈ out →
    ∃ r, r ∈ recipients synced s q ∧ holds q st (send out w r);
}.

Lemma sync_one_ok synced l s st w s1 st1 out1 q :
  q ∉ l → pass_ok synced l s st w s1 st1 out1 →
  let '(s', st', out') := sync_one_partition clk synced self (s1, st1, out1) q in
  pass_ok synced (l ++ [q]) s st w s' st' out'.
Proof.
  intros Hq []. unfold sync_one_partition. rewrite pa_partitions0, pa_nodes0. fold (recipients synced s q).
  pose proof (sync_partition_ok self clk q (recipients synced s q) s1 st1 (send out1 w) pa_wf0 pa_entries0) as Hp.
  destruct (sync_partition clk s1 st1 self q _) as [[s' st'] o].
  destruct Hp as []; [intros r Hr; rewrite pa_nodes0; by eapply recipients_known|].
  assert (∀ r, peer_le (send out1 w r) (send (out1 ++ o) w r)) as Hle by (intros; apply peer_le_send_app).
  assert (∀ p r, holds p st1 (send o (send out1 w) r) → holds p st (send (out1 ++ o) w r)) as Hnew.
  { intros p r. rewrite send_app. by apply holds_mono; [intros; rewrite pa_records0|]. }
  split; try congruence.
  - eapply entries_ok_mono; [|done]. intros r. by rewrite send_app.
  - intros q' [Hl Hne%not_elem_of_cons]%not_elem_of_app. destruct (po_other0 q') as [-> ->]; [tauto|]. by apply pa_rest0.
  - intros q' Hin Hs Hst r Hr. destruct (decide (q' = q)) as [->|Hne].
    + apply Hnew, po_released0; [done| |done]. rewrite (stable_frame q st st1); [done|]. by apply pa_rest0.
    + destruct (po_other0 q' Hne) as [E _]. rewrite E in Hs.
      apply elem_of_app in Hin as [Hin|Hin%list_elem_of_singleton]; [|done].
      eapply holds_mono; [done|apply Hle|]. by apply pa_released0.
  - intros q' rs r y Hin Hs Hy. destruct (decide (q' = q)) as [->|Hne]; [rewrite <-pa_nodes0; by eapply po_known0|].
    destruct (po_other0 q' Hne) as [E _]. rewrite E in Hs.
    apply elem_of_app in Hin as [Hin|Hin%list_elem_of_singleton]; [|done]. by eapply pa_known0.
  - intros leader replica q' [Hin|Hin]%elem_of_app.
    + destruct (pa_reports0 _ _ _ Hin) as (r & ? & ?). exists r. split; [done|]. by eapply holds_mono; [|apply Hle|].
    + destruct (po_reports0 _ _ _ Hin) as (-> & r & ? & ?). exists r. split; [done|]. by apply Hnew.
Qed.

Lemma sync_all_ok synced l s st w :
  store_wf st → entries_ok s st w → NoDup l →
  let '(s', st', out) := foldl (sync_one_partition clk synced self) (s, st, []) l in pass_ok synced l s st w s' st' out.
Proof.
  intros Hwf He. induction l as [|q l IH] using rev_ind; intros Hnd.
  - simpl. split; try done; [|by intros ? ?%not_elem_of_nil|by intros ???? ?%not_elem_of_nil|by intros ??? ?%not_elem_of_nil].
    eapply entries_ok_mono; [|done]. intros r. apply peer_le_send.
  - apply NoDup_app in Hnd as (Hnd & Hdis & _). rewrite foldl_snoc. specialize (IH Hnd).
    destruct (foldl _ _ l) as [[s1 st1] out1]. apply sync_one_ok; [|done]. intros Hin. apply (Hdis q Hin). by left.
Qed.

(** The clean-up keeps the partitions of open transfers. *)
Lemma fold_remove_frame (f : PartitionId * gmap NodeId SyncState → bool) l st :
  let st' := foldl (λ st (py : PartitionId * gmap NodeId SyncState),
                      if f py then remove_partition py.1 st else st) st l in
  next_revision st' = next_revision st ∧ (store_wf st → store_wf st') ∧
  ∀ q, (∀ py, py ∈ l → f py = true → py.1 ≠ q) → dm_get q (cache st') = dm_get q (cache st).
Proof.
  cbv zeta. revert st. induction l as [|py l IH]; intros st; simpl; [done|].
  destruct (IH (if f py then remove_partition py.1 st else st)) as (Hn & Hw & Hq). split_and!.
  - rewrite Hn. by destruct (f py).
  - intros Hwf. apply Hw. destruct (f py); [by apply wf_remove|done].
  - intros q Hall. rewrite Hq by set_solver. destruct (f py) eqn:E; [|done]. simpl. rewrite dm_get_remove.
    rewrite decide_False; [done|]. apply (Hall py); [by left|done].
Qed.

Lemma fold_remove_get (f : PartitionId * gmap NodeId SyncState → bool) l st q :
  let st' := foldl (λ st (py : PartitionId * gmap NodeId SyncState),
                      if f py then remove_partition py.1 st else st) st l in
  dm_get q (cache st') = dm_get q (cache st) ∨ dm_get q (cache st') = None.
Proof.
  cbv zeta. revert st. induction l as [|py l IH]; intros st; simpl; [by left|].
  destruct (IH (if f py then remove_partition py.1 st else st)) as [->|?]; [|by right].
  destruct (f py); [|by left]. simpl. rewrite dm_get_remove. case_decide; auto.
Qed.

Lemma cleanup_entries s st w :
  store_wf st → entries_ok s st w →
  let '(s', st') := remove_completed_syncs_and_obsolete_partitions s st self in
  store_wf st' ∧ entries_ok s' st' w.
Proof.
  intros Hwf He. pose proof (obsolete_partitions_removed s st self) as Hob.
  unfold remove_completed_syncs_and_obsolete_partitions in *. destruct Hob as [Hsync _].
  destruct (fold_remove_frame (λ py, bool_decide (py.2 = ∅) && negb (node_owns_partition (partitions s) py.1 (me_id self)))
    (map_to_list (sync s)) st) as (Hn & Hw & Hd). split; [by apply Hw|].
  intros q rs r y Hq Hy. rewrite Hsync in Hq. case_bool_decide as Hem; [done|].
  eapply sync_ok_frame; [apply Hd|by rewrite Hn|by eapply He].
  intros [q' rs'] Hin%elem_of_map_to_list Hf Heq. simpl in *. subst q'. apply andb_true_iff in Hf as [Hf _].
  apply bool_decide_eq_true in Hf. congruence.
Qed.

(** Transfers are for partitions of the table. *)
Definition in_range (l : list PartitionId) (s : State) : Prop := ∀ q rs, sync s !! q = Some rs → q ∈ l.

(** What a whole pass promises. *)
Record handover_ok (l : list PartitionId) (s : State) st (w : NodeId → Peer) (s' : State) (st' : RuntimeStore M D)
    (out : list WorkerProtocol.t) : Prop := {
  ho_wf : store_wf st';
  ho_entries : entries_ok s' st' (send out w);
  ho_range : in_range l s';
  ho_known q rs r y : sync s' !! q = Some rs → rs !! r = Some y → is_Some (nodes s !! r);
  ho_kept x mu : lookup_store x st = Some mu →
    lookup_store x st' = Some mu ∨
    (lookup_store x st' = None ∧ node_owns_partition (partitions s) (Key_partition x) (me_id self) = false ∧
     (is_Some (stable_partition_revision (Key_partition x) st) →
      ∀ r, r ∈ recipients (get_currently_synced_actual_nodes s) s (Key_partition x) →
        covered (peer_drained (send out w r)) x mu));
  ho_reports leader replica q : WorkerProtocol.RemovePartitionFromReplica leader replica q ∈ out →
    ∃ r, r ∈ recipients (get_currently_synced_actual_nodes s) s q ∧ holds q st (send out w r);
}.

Lemma sync_partitions_ok s st w :
  store_wf st → entries_ok s st w → in_range (partition_range PARTITIONS_AMOUNT) s →
  let '(s', st', out) := sync_partitions clk s st self in
  handover_ok (partition_range PARTITIONS_AMOUNT) s st w s' st' out.
Proof.
  intros Hwf He Hrg. unfold sync_partitions.
  assert (NoDup (partition_range PARTITIONS_AMOUNT)) as Hnd by (by apply NoDup_partition_range).
  revert Hrg Hnd. generalize (partition_range PARTITIONS_AMOUNT). intros l Hrg Hnd.
  pose proof (sync_all_ok (get_currently_synced_actual_nodes s) l s st w Hwf He Hnd) as Hall.
  destruct (foldl _ _ l) as [[s1 st1] out]. destruct Hall.
  pose proof (cleanup_entries s1 st1 (send out w) pa_wf0 pa_entries0) as Hc.
  pose proof (obsolete_partitions_removed s1 st1 self) as Hob.
  destruct (remove_completed_syncs_and_obsolete_partitions s1 st1 self) as [s2 st2].
  destruct Hc as [Hwf2 He2], Hob as [Hsync Hrec].
  assert (∀ q rs, sync s1 !! q = Some rs → q ∈ l) as Hl.
  { intros q rs Hq. destruct (decide (q ∈ l)) as [|Hni]; [done|]. destruct (pa_rest0 q Hni) as [E _].
    rewrite E in Hq. by eapply Hrg. }
  split; try done.
  - intros q rs Hq. rewrite Hsync in Hq. case_bool_decide; [done|]. by eapply Hl.
  - intros q rs r y Hq Hy. rewrite Hsync in Hq. case_bool_decide; [done|]. eapply pa_known0; [by eapply Hl|done..].
  - intros x mu Hx. rewrite Hrec, pa_records0, pa_partitions0.
    destruct (bool_decide_reflect (sync s1 !! Key_partition x = Some ∅)) as [Hem|]; simpl; [|by left].
    destruct (node_owns_partition _ _ _) eqn:Eo; simpl; [by left|]. right. split; [done|]. split; [done|].
    intros Hst r Hr. eapply (pa_released0 (Key_partition x)); try done. by eapply Hl.
Qed.

(** ** A tick *)

Lemma heartbeats_keep now s :
  let '(s', out) := heartbeats now s self in
  sync s' = sync s ∧ partitions s' = partitions s ∧
  get_currently_synced_actual_nodes s' = get_currently_synced_actual_nodes s ∧
  (∀ r, is_Some (nodes s' !! r) ↔ is_Some (nodes s !! r)) ∧
  (∀ r, batches_to r out = []) ∧
  ∀ leader replica q, WorkerProtocol.RemovePartitionFromReplica leader replica q ∉ out.
Proof.
  unfold heartbeats. destruct (nodes s !! me_id self) as [n|] eqn:E; [|split_and!; try done; by intros ??? ?%not_elem_of_nil].
  destruct (_ && _); [|split_and!; try done; by intros ??? ?%not_elem_of_nil]. split_and!; try done.
  - intros r. simpl. rewrite lookup_insert_is_Some'. naive_solver.
  - intros r. match goal with |- batches_to _ (_ <$> ?l) = [] => by induction l end.
  - intros leader replica q. by intros (? & ? & _)%list_elem_of_fmap.
Qed.

Lemma tick_handover now (svc svc' : WorkerService M D) s w out :
  self = me svc → state svc = Some s → store_wf (runtime_store svc) → entries_ok s (runtime_store svc) w →
  in_range (partition_range PARTITIONS_AMOUNT) s → tick now clk svc = (svc', out) →
  ∃ s', state svc' = Some s' ∧
    handover_ok (partition_range PARTITIONS_AMOUNT) s (runtime_store svc) w s' (runtime_store svc') out.
Proof.
  intros Hme Hs Hwf He Hrg. unfold tick. rewrite Hs, <-Hme. pose proof (heartbeats_keep now s) as Hk.
  destruct (heartbeats now s self) as [s1 out1]. destruct Hk as (Hsy & Hp & Hcs & Hn & Hb & Hrep).
  pose proof (sync_partitions_ok s1 (runtime_store svc) w Hwf) as Hok.
  revert Hok. unfold entries_ok, in_range in *. rewrite Hsy. intros Hok. specialize (Hok He Hrg). revert Hok.
  generalize (partition_range PARTITIONS_AMOUNT). intros l.
  destruct (sync_partitions clk s1 (runtime_store svc) self) as [[s2 st2] out2]. intros [] [= <- <-].
  exists s2. split; [done|].
  assert (∀ r, send (out1 ++ out2) w r = send out2 w r) as Hsend.
  { intros r. unfold send. by rewrite batches_to_app, Hb. }
  assert (∀ q, recipients (get_currently_synced_actual_nodes s1) s1 q =
               recipients (get_currently_synced_actual_nodes s) s q) as Hrc.
  { intros q. unfold recipients, get_node_ids_curr_node_has_to_sync_the_partition_to. rewrite Hp, Hcs.
    apply set_eq. intros r. rewrite !elem_of_filter. by rewrite Hn. }
  split; try done.
  - intros q rs r y Hq Hy. rewrite Hsend. by eapply ho_entries0.
  - intros q rs r y Hq Hy. rewrite <-Hn. by eapply ho_known0.
  - intros x mu Hx. rewrite <-Hp. destruct (ho_kept0 x mu Hx) as [?|(? & ? & Hc)]; [by left|right].
    split_and!; [done..|]. intros Hst r. rewrite Hsend, <-Hrc. by apply Hc.
  - intros leader replica q [Hin|Hin]%elem_of_app; [by apply Hrep in Hin|].
    destruct (ho_reports0 _ _ _ Hin) as (r & ? & ?). exists r. by rewrite <-Hrc, Hsend.
Qed.

End passes.

(** ** Messages *)

Lemma apply_all_entries s w l st :
  store_wf st → next_revision st + Z.of_nat (length l) < u64_modulus → entries_ok s st w →
  store_wf (apply_all l st) ∧ entries_ok s (apply_all l st) w.
Proof.
  revert st. induction l as [|[k m] l IH]; intros st Hwf Hn He; simpl in *; [done|].
  destruct (apply_mutation_wf k m st Hwf) as [Hwf' Hn']; [lia|].
  apply IH; [done|lia|]. intros q rs r y Hq Hy.
  destruct m; [apply (sync_ok_client _ (OpPut k record))|apply (sync_ok_client _ (OpDeleteAt k deletion_time_ms))];
    try done; simpl; try lia; by eapply He.
Qed.

Lemma dispatch_keeps now msg self s st :
  match msg with
  | WorkerProtocol.SyncBatch _ _ | WorkerProtocol.SyncBatchResponse _ _ => True
  | _ => sync (dispatch now msg self s st).1.1 = sync s ∧ (dispatch now msg self s st).1.2 = st
  end.
Proof.
  destruct msg; simpl; try done.
  - unfold handle_new_connection. by repeat case_match; simplify_eq/=.
  - unfold handle_heartbeat. by repeat case_match; simplify_eq/=.
  - unfold handle_cluster_state, accept_cluster_state. repeat case_match; by simplify_eq/=.
  - unfold handle_leader. by repeat case_match; simplify_eq/=.
Qed.

(** An acknowledgement confirms transfers and adds none. *)
Lemma ack_keys sender Y (l : list (PartitionId * Key)) q :
  is_Some (foldl (confirm_partition sender) Y l !! q) → is_Some (Y !! q).
Proof.
  revert Y. induction l as [|[p k] l IH]; intros Y; simpl; [done|]. intros Hq%IH. revert Hq.
  unfold confirm_partition. simpl. destruct (Y !! p) as [rs|] eqn:Hp; [|done]. destruct (rs !! sender); [|done].
  destruct (_ =? _); [|done]. rewrite lookup_insert_is_Some'. intros [<-|?]; [by rewrite Hp|done].
Qed.

Lemma ack_entries s st w acks sender :
  entries_ok s st w → entries_ok (handle_sync_batch_response s acks sender) st w.
Proof.
  intros He q rs' r y' Hq Hy. pose proof (sync_ack_exact s acks sender q r) as Ha. cbv zeta in Ha.
  rewrite Hq in Ha. simpl in Ha. rewrite Hy in Ha. destruct (sync s !! q) as [rs|] eqn:Es; [|done]. simpl in Ha.
  destruct (rs !! r) as [y|] eqn:Er; [|done]. simpl in Ha. injection Ha as ->.
  case_bool_decide; [apply sync_ok_confirmed|]; by eapply He.
Qed.

Lemma dispatch_ok now msg self s st w l :
  store_wf st → next_revision st + message_cost msg < u64_modulus → entries_ok s st w → in_range l s →
  let '(s', st', out) := dispatch now msg self s st in
  store_wf st' ∧ entries_ok s' st' (send out w) ∧ in_range l s'.
Proof.
  intros Hwf Hn He Hrg.
  assert (let '(s', st', _) := dispatch now msg self s st in store_wf st' ∧ entries_ok s' st' w ∧ in_range l s') as H.
  { pose proof (dispatch_keeps now msg self s st) as Hk. destruct msg; try (destruct (dispatch _ _ _ _ _) as [[s' st'] out];
      simpl in Hk; pose proof (proj1 Hk) as Hsy; rewrite (proj2 Hk); unfold entries_ok, in_range; by rewrite Hsy).
    - clear Hk. simpl in *. pose proof (handle_sync_batch_store request st) as Hb.
      destruct (handle_sync_batch request st) as [st' out]. simpl in Hb. subst st'.
      destruct (apply_all_entries s w (batch_entries request) st) as [? ?]; [done| |done|done].
      unfold batch_entries. by rewrite length_fmap.
    - clear Hk. simpl. split; [done|]. split; [by apply ack_entries|]. intros q rs Hq.
      destruct (ack_keys recipient_id (sync s) (map_to_list partition_id_to_max_applied_key) q) as [rs0 ?]; [|by eapply Hrg].
      by exists rs. }
  destruct (dispatch now msg self s st) as [[s' st'] out]. destruct H as (? & ? & ?). split_and!; try done.
  eapply entries_ok_mono; [|done]. intros r. apply peer_le_send.
Qed.

(** ** The cluster *)

Record cluster_inv (c : Cluster) : Prop := {
  ci_wf : store_wf (runtime_store (cl_svc c));
  ci_state s : state (cl_svc c) = Some s →
    entries_ok s (runtime_store (cl_svc c)) (cl_peers c) ∧ in_range (partition_range PARTITIONS_AMOUNT) s;
}.

Lemma handle_message_inv now msg svc w svc' out :
  next_revision (runtime_store svc) + message_cost msg < u64_modulus →
  cluster_inv (mkCluster svc w) → handle_message now msg svc = (svc', out) →
  cluster_inv (mkCluster svc' (send out w)).
Proof.
  intros Hn [Hwf Hst]. unfold handle_message. simpl in *. destruct (state svc) as [s|] eqn:Es.
  - destruct (Hst s eq_refl) as [He Hrg]. pose proof (dispatch_ok now msg (me svc) s (runtime_store svc) w _ Hwf Hn He Hrg) as Hd.
    destruct (dispatch _ _ _ _ _) as [[s' st'] o]. destruct Hd as (? & ? & ?). intros [= <- <-].
    split; simpl; [done|]. by intros ? [= <-].
  - intros [= <- <-]. split; simpl; [done|]. intros s. by rewrite Es.
Qed.

Lemma tick_inv now clk svc w svc' out :
  cluster_inv (mkCluster svc w) → tick now clk svc = (svc', out) → cluster_inv (mkCluster svc' (send out w)).
Proof.
  intros [Hwf Hst] Ht. simpl in *. destruct (state svc) as [s|] eqn:Es.
  - destruct (Hst s eq_refl) as [He Hrg].
    destruct (tick_handover (me svc) clk now svc svc' s w out eq_refl Es Hwf He Hrg Ht) as (s' & Hs' & []).
    split; simpl; [done|]. intros s2. rewrite Hs'. by intros [= <-].
  - unfold tick in Ht. rewrite Es in Ht. injection Ht as <- <-. split; simpl; [done|]. intros s. by rewrite Es.
Qed.

(** Only the peer changed, and it covers what it covered. *)
Lemma peer_update_inv svc w rid p :
  peer_le (w rid) p → cluster_inv (mkCluster svc w) → cluster_inv (mkCluster svc (update_peer rid p w)).
Proof.
  intros Hp [Hwf Hst]. split; [done|]. intros s Hs. destruct (Hst s Hs) as [He Hrg]. split; [|done].
  eapply entries_ok_mono; [|done]. intros r. simpl. unfold update_peer. case_decide as E; [by rewrite E|done].
Qed.

Lemma disconnect_inv now hb_now clk rid c svc out :
  cluster_inv c → state (cl_svc c) ≠ None →
  process now hb_now clk (WorkerProtocol.NodeDisconnected rid) (cl_svc c) = (svc, out) →
  cluster_inv (mkCluster svc (update_peer rid (mkPeer (peer_store (cl_peers c rid)) []) (send out (cl_peers c)))).
Proof.
  destruct c as [svc0 w]. simpl. intros [Hwf Hst] Hsome. simpl in *. rewrite worker_process_handle_tick.
  unfold handle_message. destruct (state svc0) as [s|] eqn:Es; [|done]. destruct (Hst s eq_refl) as [He Hrg]. simpl.
  set (s1 := handle_node_disconnected s rid). set (svc1 := mkWorkerService (me svc0) (Some s1) (config svc0) (runtime_store svc0)).
  destruct (tick hb_now clk svc1) as [svc2 out2] eqn:Ht. intros [= <- <-].
  destruct (tick_handover (me svc1) clk hb_now svc1 svc2 s1 w out2 eq_refl eq_refl Hwf He Hrg Ht) as (s2 & Hs2 & []).
  split; simpl; [done|]. intros s'. rewrite Hs2. intros [= <-]. split; [|done].
  intros q rs r y Hq Hy. unfold update_peer. case_decide as E; [|by eapply ho_entries0].
  destruct (ho_known0 _ _ _ _ Hq Hy) as [n Hnode]. subst r. unfold s1 in Hnode. simpl in Hnode.
  by rewrite lookup_delete_eq in Hnode.
Qed.

Lemma cluster_step_inv c c' : cluster_inv c → cluster_step c c' → cluster_inv c'.
Proof.
  intros Hi. destruct 1 as [c now msg svc out Hn Hm|c now clk svc out Ht|c now hb_now clk rid svc out Hp Hs|c op Hop Hn|c rid k mu|c rid req wr Hw].
  - destruct c. by eapply handle_message_inv.
  - destruct c. by eapply tick_inv.
  - by eapply disconnect_inv.
  - destruct Hi as [Hwf Hst]. split; simpl; [by apply run_op_wf|]. intros s Hs. destruct (Hst s Hs) as [He Hrg].
    split; [|done]. intros q rs r y Hq Hy. apply sync_ok_client; [done..|by eapply He].
  - destruct c as [svc w]. apply peer_update_inv; [|done]. intros x mu'. rewrite !covered_peer. simpl.
    rewrite covered_apply. tauto.
  - destruct c as [svc w]. apply peer_update_inv; [|done]. intros x mu'. unfold peer_drained. simpl in *. by rewrite Hw.
Qed.

Lemma cluster_reachable_inv c : cluster_reachable c → cluster_inv c.
Proof.
  induction 1 as [svc peers Hwf Hs|c c' _ IH Hstep]; [|by eapply cluster_step_inv].
  split; simpl; [done|]. intros s Hst. unfold entries_ok, in_range. rewrite (Hs s Hst).
  split; [intros ????|intros ??]; by rewrite lookup_empty.
Qed.

(** ** Claims *)


End handover.

(** ** A concrete worker *)

(** Worker [wa] hands partition 1 over to [wb]: a pass, the acknowledgement. *)
Definition svc_moving : WorkerService (gmap Z) (gmap PartitionId) :=
  mkWorkerService me_wa (Some state_moved) (WorkerConfig 9100 ("host-a", 9100) ("m", 9000) 300) store_1.
Definition new_peers (_ : NodeId) : Peer (M := gmap Z) (D := gmap PartitionId) := mkPeer RuntimeStore_new [].

Definition cluster_0 : Cluster := mkCluster svc_moving new_peers.
Definition cluster_sent : Cluster :=
  mkCluster (tick 50 clk100 svc_moving).1 (send (tick 50 clk100 svc_moving).2 new_peers).
Definition acked := handle_message 60 (WorkerProtocol.SyncBatchResponse worker_b {[ part1 := 1 ]}) (cl_svc cluster_sent).
Definition cluster_acked : Cluster := mkCluster acked.1 (send acked.2 (cl_peers cluster_sent)).

Lemma cluster_sent_reachable : cluster_reachable cluster_sent.
Proof.
  apply (cr_step cluster_0).
  - apply cr_init; [apply store_1_wf|]. by intros s [= <-].
  - refine (cs_tick cluster_0 50 clk100 _ _ _). apply surjective_pairing.
Qed.

Lemma cluster_acked_reachable : cluster_reachable cluster_acked.
Proof.
  apply (cr_step cluster_sent); [apply cluster_sent_reachable|].
  refine (cs_message cluster_sent 60 (WorkerProtocol.SyncBatchResponse worker_b {[ part1 := 1 ]}) _ _ _ _).
  - vm_compute. reflexivity.
  - apply surjective_pairing.
Qed.


(** Recipients of the batches of an output. *)
Definition sent_to (out : list WorkerProtocol.t) : list NodeId :=
  omap (λ m, match m with WorkerProtocol.SyncBatch r _ => Some r | _ => None end) out.

Lemma batches_to_none r out : r ∉ sent_to out → batches_to r out = [].
Proof.
  induction out as [|m out IH]; [done|]. unfold sent_to, batches_to in *. destruct m; simpl; try exact IH.
  intros [Hne Hr]%not_elem_of_cons. rewrite bool_decide_false by done. by apply IH.
Qed.

Lemma drained_not_sent r out1 out2 :
  r ∉ sent_to out1 → r ∉ sent_to out2 → peer_drained (send out2 (send out1 new_peers) r) = RuntimeStore_new.
Proof. intros H1 H2. unfold peer_drained, send. simpl. by rewrite (batches_to_none r out1), (batches_to_none r out2). Qed.

Definition lost := process 60 60 clk100 (WorkerProtocol.NodeDisconnected worker_b) (cl_svc cluster_sent).

(** A former owner that loses the connection to the recipient in the middle of a
    transfer deletes the partition: the transfer is dropped with the recipient, and
    the clean-up takes the empty transfer table for a finished migration.  No
    node then holds the record. *)
Theorem lost_recipient_drops_partition :
  ∃ c c' : Cluster (M := gmap Z) (D := gmap PartitionId),
    cluster_reachable c ∧ cluster_step c c' ∧
    lookup_store 1 (runtime_store (cl_svc c)) = Some (Put rec_1) ∧
    lookup_store 1 (runtime_store (cl_svc c')) = None ∧
    ∀ r, lookup_store 1 (peer_drained (cl_peers c' r)) = None.
Proof.
  exists cluster_sent. eexists. split; [apply cluster_sent_reachable|]. split.
  { refine (cs_disconnect cluster_sent 60 60 clk100 worker_b lost.1 lost.2 _ _); [apply surjective_pairing|vm_compute; discriminate]. }
  split; [vm_compute; reflexivity|]. split; [vm_compute; reflexivity|]. intros r. cbn [cl_peers]. unfold update_peer.
  destruct (decide (r = worker_b)) as [->|Hne]; [reflexivity|].
  assert (sent_to (tick 50 clk100 svc_moving).2 = [worker_b] ∧ sent_to lost.2 = []) as [H1 H2] by (vm_compute; split; reflexivity).
  change (lookup_store 1 (peer_drained (send lost.2 (send (tick 50 clk100 svc_moving).2 new_peers) r)) = None).
  rewrite drained_not_sent; [reflexivity| |].
  - rewrite H1. apply not_elem_of_cons. by split; [|apply not_elem_of_nil].
  - rewrite H2. apply not_elem_of_nil.
Qed.
