(* ===== verification/WorkerPass.v ===== *)
(** * More about a tick of a worker (worker/service/partitions.rs)

    What several workers running together need to know of one of them: the batches
    it sends hold records of its store, it keeps its table, it leaves no writer
    active, and it does nothing while nothing is to be sent. *)

From S2P Require Import Prelude Containers Common RuntimeStore StoreSpec WorkerState WorkerSync WorkerService.
From S2P Require Import WorkerSpec WorkerMigration WorkerTheorems WorkerHandover.

Section pass.
Context {M : Type → Type} `{!SkipMap M, !SkipMapLaws M}.
Context {D : Type → Type} `{!DashMap PartitionId D, !DashMapLaws PartitionId D}.
Implicit Types (st : RuntimeStore M D) (svc : WorkerService M D).

(** ** Batches come from the store *)

(** The records of a message are records of the store, a report is about this worker. *)
Definition from_store (self : Me) st (msg : WorkerProtocol.t) : Prop :=
  match msg with
  | WorkerProtocol.SyncBatch _ req => ∀ x mu, (x, mu) ∈ batch_entries req → lookup_store x st = Some mu
  | WorkerProtocol.RemovePartitionFromReplica _ replica _ => replica = me_id self
  | _ => True
  end.

Lemma from_store_message st self rid l :
  (∀ x mu, (x, mu) ∈ l → lookup_store x st = Some mu) → Forall (from_store self st) [sync_message rid self l].
Proof. intros Hl. apply Forall_singleton. simpl. by rewrite batch_entries_to_domain. Qed.

Lemma mutations_from_store pid amount after st x mu :
  store_wf st → (x, mu) ∈ get_partition_mutations pid amount after st → lookup_store x st = Some mu.
Proof.
  intros Hwf. rewrite get_partition_mutations_filter. intros Hin.
  assert ((x, mu) ∈ filter (after_ok after) (partition_entries pid st)) as [_ He]%list_elem_of_filter.
  { rewrite <- (take_drop amount (filter _ _)). apply elem_of_app. by left. }
  by apply elem_of_partition_entries in He as [_ ?].
Qed.

Lemma sync_batch_from st rid pid after self :
  store_wf st → Forall (from_store self st) (sync_batch st rid pid after self).2.
Proof.
  intros Hwf. unfold sync_batch. pose proof (λ x mu, mutations_from_store pid SYNC_BATCH_SIZE after st x mu Hwf) as Hm.
  destruct (get_partition_mutations _ _ _ _) as [|e l]; [apply Forall_nil_2|]. by apply from_store_message.
Qed.

Lemma change_loop_from fuel st pid cursor r l x mu :
  store_wf st → change_loop fuel st pid cursor = Some (Some (r, l)) → (x, mu) ∈ l → lookup_store x st = Some mu.
Proof.
  intros Hwf. revert cursor. induction fuel as [|fuel IH]; intros cursor; simpl; [done|].
  destruct (get_partition_changes _ _ _ _) as [[r' l']|] eqn:E; [|done].
  destruct l' as [|e l']; [apply IH|]. intros [= -> <-] Hin. revert E Hin. generalize (e :: l'). intros l0.
  unfold get_partition_changes. destruct (dm_get pid (cache st)) as [p|] eqn:Hp; [|done]. simpl. set (cs := take _ _).
  destruct (last cs); [|done]. intros [= _ <-] (e' & _ & (m' & Hm & [= -> ->])%fmap_Some)%list_elem_of_omap.
  apply (elem_of_partition_entries pid st); [done|]. unfold partition_entries. rewrite Hp. by apply sm_iter_get.
Qed.

Lemma sync_change_batch_from st rid pid cursor self :
  store_wf st → Forall (from_store self st) (sync_change_batch st rid pid cursor self).2.
Proof.
  intros Hwf. unfold sync_change_batch. destruct (change_loop _ _ _ _) as [[[r l]|]|] eqn:E; [|apply Forall_nil_2..].
  destruct (max_key _); [|apply Forall_nil_2]. apply from_store_message. intros x mu. by eapply change_loop_from.
Qed.

Lemma continue_changes_from now y st self pid rid cursor :
  store_wf st → Forall (from_store self st) (continue_changes now y st self pid rid cursor).1.2.
Proof.
  intros Hwf. unfold continue_changes. pose proof (sync_change_batch_from st rid pid cursor self Hwf) as Hb.
  destruct (sync_change_batch _ _ _ _ _) as [[[r k]|] o]; [done|]. by case_bool_decide.
Qed.

Lemma sync_to_recipient_from clk rs st self pid rid :
  store_wf st → Forall (from_store self st) (sync_partition_to_recipient clk rs st self pid rid).1.2.
Proof.
  intros Hwf. unfold sync_partition_to_recipient. destruct (rs !! rid) as [y|]; [destruct (confirmed y)|].
  - unfold continue_confirmed_sync. destruct (phase y) as [r|r r'].
    + pose proof (sync_batch_from st rid pid (Some (curr_max_key y)) self Hwf) as Hb.
      pose proof (continue_changes_from (clk pid rid 0%nat) y st self pid rid r Hwf) as Hc.
      destruct (sync_batch _ _ _ _ _) as [[k|] o]; [done|].
      destruct (continue_changes _ _ _ _ _ _ _) as [[y' o'] d]. by apply Forall_app_2.
    + pose proof (continue_changes_from (clk pid rid 0%nat) y st self pid rid r' Hwf) as Hc.
      by destruct (continue_changes _ _ _ _ _ _ _) as [[y' o'] d].
  - unfold retry_timed_out_sync. destruct (_ <? _); [apply Forall_nil_2|]. destruct (phase y) as [r|r r'].
    + pose proof (sync_batch_from st rid pid (prev_max_key y) self Hwf) as Hb.
      by destruct (sync_batch _ _ _ _ _) as [[k|] o].
    + pose proof (sync_change_batch_from st rid pid r self Hwf) as Hb.
      by destruct (sync_change_batch _ _ _ _ _) as [[[r1 k]|] o].
  - unfold start_sync. destruct (stable_partition_revision pid st); [|apply Forall_nil_2].
    pose proof (sync_batch_from st rid pid None self Hwf) as Hb. by destruct (sync_batch _ _ _ _ _) as [[k|] o].
Qed.

(** ** No writer stays active *)

Definition quiet st : Prop := ∀ q p, dm_get q (cache st) = Some p → ps_active_writers p = 0.

Lemma quiet_stable st q : quiet st → is_Some (stable_partition_revision q st).
Proof.
  intros Hq. unfold stable_partition_revision, stable_revision. destruct (dm_get q (cache st)) as [p|] eqn:E; [|done].
  rewrite (Hq _ _ E). simpl. rewrite Z.eqb_refl. simpl. eauto.
Qed.

Lemma quiet_apply k m st : quiet st → quiet (apply_mutation k m st).
Proof.
  intros Hq. assert (ps_active_writers (default PartitionStore_default (dm_get (Key_partition k) (cache st))) = 0) as H0.
  { destruct (dm_get (Key_partition k) (cache st)) as [p|] eqn:E; [by eapply Hq|done]. }
  intros q p. destruct m; unfold apply_mutation, put, delete_at, with_writer, drop_writer, writer, set_records; simpl;
    rewrite dm_get_insert; case_decide; try apply Hq; intros [= <-]; simpl; rewrite H0; reflexivity.
Qed.

Lemma quiet_apply_all l st : quiet st → quiet (apply_all l st).
Proof. revert st. induction l as [|[k m] l IH]; intros st Hq; simpl; [done|]. by apply IH, quiet_apply. Qed.

Lemma quiet_prune pid through st : quiet st → quiet (prune_partition_changes pid through st).
Proof.
  intros Hq q p. destruct (dm_get_prune pid through st q) as [->|(-> & p0 & c & Hp & -> & _)]; [apply Hq|].
  intros [= <-]. by apply (Hq pid p0).
Qed.

Lemma quiet_pruned pid rs st st' : pruned pid rs st st' → quiet st → quiet st'.
Proof. intros [->|(through & -> & _)] Hq; [done|by apply quiet_prune]. Qed.

Lemma lookup_pruned pid rs st st' x : pruned pid rs st st' → lookup_store x st' = lookup_store x st.
Proof. intros [->|(through & -> & _)]; [done|apply lookup_prune]. Qed.

Lemma wf_pruned pid rs st st' : pruned pid rs st st' → store_wf st → store_wf st'.
Proof. intros [->|(through & -> & _)] ?; [done|auto with store]. Qed.

(** ** A tick *)

Section tick.
Context (self : Me) (clk : Clock).

(** What the passes over the partitions leave: the table, the records, and an
    output that holds records of the store. *)
Record pass_keeps (s : State) st (acc : State * RuntimeStore M D * list WorkerProtocol.t) : Prop := {
  pk_table : partitions acc.1.1 = partitions s;
  pk_wf : store_wf acc.1.2;
  pk_records x : lookup_store x acc.1.2 = lookup_store x st;
  pk_quiet : quiet st → quiet acc.1.2;
  pk_out : Forall (from_store self st) acc.2;
}.

Lemma from_store_ext st st' out :
  (∀ x, lookup_store x st' = lookup_store x st) → Forall (from_store self st') out → Forall (from_store self st) out.
Proof. intros Hl Ho. eapply Forall_impl; [exact Ho|]. intros [] Hm; simpl in *; try done. intros x mu Hin. rewrite <- Hl. by apply Hm. Qed.

Lemma record_completed_keeps s st pid rid :
  partitions (record_completed_sync s self pid rid).1 = partitions s ∧
  Forall (from_store self st) (record_completed_sync s self pid rid).2.
Proof.
  unfold record_completed_sync. simpl. split; [by destruct (node_owns_partition _ _ _)|].
  destruct (elected_leader_id s); [by apply Forall_singleton|apply Forall_nil_2].
Qed.

Lemma sync_recipients_keep st pid s l :
  store_wf st →
  let acc := foldl (sync_recipient clk st self pid) (s, []) l in
  partitions acc.1 = partitions s ∧ Forall (from_store self st) acc.2.
Proof.
  intros Hwf. apply (foldl_invariant (λ acc, partitions acc.1 = partitions s ∧ Forall (from_store self st) acc.2));
    [by split; [|apply Forall_nil_2]|].
  intros [s1 out] rid _ [Hp Ho]. cbn [fst snd] in *. unfold sync_recipient. cbv zeta.
  pose proof (sync_to_recipient_from clk (default ∅ (sync s1 !! pid)) st self pid rid Hwf) as Hr.
  destruct (sync_partition_to_recipient _ _ _ _ _ _) as [[rs' o] d]. simpl in Hr.
  destruct d; [|split; [done|by apply Forall_app_2]].
  pose proof (record_completed_keeps (set_sync (<[pid := rs']> (sync s1)) s1) st pid rid) as Hc.
  destruct (record_completed_sync _ _ _ _) as [s2 o2]. destruct Hc as [Hp2 Ho2].
  cbn [fst snd] in *. split; [by rewrite Hp2|by repeat apply Forall_app_2].
Qed.

Lemma sync_one_keeps synced s st acc pid : pass_keeps s st acc → pass_keeps s st (sync_one_partition clk synced self acc pid).
Proof.
  destruct acc as [[s1 st1] out1]. intros [Hp Hwf Hl Hq Ho]. cbn [fst snd] in *. unfold sync_one_partition.
  set (rids := get_node_ids_curr_node_has_to_sync_the_partition_to _ _ _ _ _).
  pose proof (sync_partition_shape self clk pid rids s1 st1) as Hshape.
  pose proof (sync_recipients_keep st1 pid (drop_lost pid s1) (elements rids) Hwf) as Hk. cbv zeta in Hk.
  destruct (foldl _ _ (elements rids)) as [s2 out2], (sync_partition _ _ _ _ _ _) as [[s' st'] out].
  destruct Hshape as (-> & -> & Hpr), Hk as [Hp2 Ho2]. cbn [fst snd] in *. split; cbn [fst snd].
  - transitivity (partitions s2); [unfold drop_confirmed; by destruct (sync s2 !! pid)|].
    rewrite Hp2. by destruct (drop_lost_spec pid s1) as (_ & -> & _).
  - by eapply wf_pruned.
  - intros x. rewrite (lookup_pruned _ _ _ _ x Hpr). apply Hl.
  - intros H0. eapply quiet_pruned; [done|by apply Hq].
  - apply Forall_app_2; [done|]. by eapply from_store_ext.
Qed.

Lemma remove_completed_keeps s st :
  let '(s', st') := remove_completed_syncs_and_obsolete_partitions s st self in
  partitions s' = partitions s ∧ (quiet st → quiet st') ∧
  ∀ x mu, lookup_store x st' = Some mu → lookup_store x st = Some mu.
Proof.
  unfold remove_completed_syncs_and_obsolete_partitions.
  pose proof (fold_remove_get (λ py, bool_decide (py.2 = ∅) && negb (node_owns_partition (partitions s) py.1 (me_id self)))
    (map_to_list (sync s)) st) as Hf. cbv zeta in Hf. split_and!; [done|..].
  - intros Hq q p. destruct (Hf q) as [->| ->]; [apply Hq|done].
  - intros x mu. unfold lookup_store. by destruct (Hf (Key_partition x)) as [->| ->].
Qed.

Lemma heartbeats_from now s st : Forall (from_store self st) (heartbeats now s self).2.
Proof.
  unfold heartbeats. destruct (nodes s !! _); [|apply Forall_nil_2]. destruct (_ && _); [|apply Forall_nil_2].
  simpl. apply Forall_fmap, Forall_forall. done.
Qed.

Lemma tick_keeps now svc svc' s out :
  self = me svc → state svc = Some s → store_wf (runtime_store svc) → tick now clk svc = (svc', out) →
  ∃ s', state svc' = Some s' ∧ me svc' = me svc ∧ partitions s' = partitions s ∧
    (quiet (runtime_store svc) → quiet (runtime_store svc')) ∧ Forall (from_store self (runtime_store svc)) out ∧
    ∀ x mu, lookup_store x (runtime_store svc') = Some mu → lookup_store x (runtime_store svc) = Some mu.
Proof.
  intros Hme Hs Hwf. unfold tick. rewrite Hs, <-Hme. pose proof (heartbeats_keep self now s) as Hk.
  pose proof (heartbeats_from now s (runtime_store svc)) as Hf.
  destruct (heartbeats now s self) as [s1 out1]. destruct Hk as (_ & Hp & _). simpl in Hf. unfold sync_partitions.
  generalize (partition_range PARTITIONS_AMOUNT). intros l.
  assert (pass_keeps s1 (runtime_store svc)
    (foldl (sync_one_partition clk (get_currently_synced_actual_nodes s1) self) (s1, runtime_store svc, []) l)) as Hpk.
  { apply foldl_invariant; [split; try done; apply Forall_nil_2|]. intros acc q _. apply sync_one_keeps. }
  destruct (foldl _ _ l) as [[s2 st2] out2]. destruct Hpk as [Hp2 _ Hl2 Hq2 Ho2]. cbn [fst snd] in *.
  pose proof (remove_completed_keeps s2 st2) as Hr.
  destruct (remove_completed_syncs_and_obsolete_partitions s2 st2 self) as [s3 st3]. destruct Hr as (Hp3 & Hq3 & Hl3).
  intros [= <- <-]. exists s3. split_and!; [done..|congruence|auto|by apply Forall_app_2|].
  intros x mu Hx%Hl3. by rewrite Hl2 in Hx.
Qed.

(** ** A worker with nothing to send *)

Definition idle (s : State) : Prop :=
  ∀ ns q, get_node_ids_curr_node_has_to_sync_the_partition_to q (me_id self) (partitions s) ns
            (get_currently_synced_actual_nodes s !! q) = ∅.

Lemma idle_ext s s' :
  partitions s' = partitions s → get_currently_synced_actual_nodes s' = get_currently_synced_actual_nodes s →
  idle s → idle s'.
Proof. unfold idle. intros -> ->. done. Qed.

Lemma sync_partition_idle s st pid :
  sync s = ∅ →
  let '(s', st', out) := sync_partition clk s st self pid ∅ in
  s' = s ∧ out = [] ∧ ∀ x, lookup_store x st' = lookup_store x st.
Proof.
  intros Hs. unfold sync_partition. rewrite Hs, lookup_empty, elements_empty. simpl. rewrite Hs, lookup_empty.
  destruct (stable_partition_revision pid st); split_and!; try done. intros x. apply lookup_prune.
Qed.

Lemma sync_all_nothing_to_send s st l :
  sync s = ∅ → idle s →
  let acc := foldl (sync_one_partition clk (get_currently_synced_actual_nodes s) self) (s, st, []) l in
  acc.1.1 = s ∧ ∀ x, lookup_store x acc.1.2 = lookup_store x st.
Proof.
  intros Hs Hi. apply (foldl_invariant (λ acc, acc.1.1 = s ∧ ∀ x, lookup_store x acc.1.2 = lookup_store x st)); [done|].
  intros [[s1 st1] out] q _ [E Hl]. cbn [fst snd] in *. subst s1. unfold sync_one_partition. rewrite Hi.
  pose proof (sync_partition_idle s st1 q Hs) as Hp. destruct (sync_partition _ _ _ _ _ _) as [[s' st'] o].
  destruct Hp as (-> & _ & Hx). split; [done|]. intros x. simpl. by rewrite Hx.
Qed.

Lemma tick_idle now svc svc' s out :
  self = me svc → state svc = Some s → sync s = ∅ → idle s → tick now clk svc = (svc', out) →
  ∃ s', state svc' = Some s' ∧ sync s' = ∅ ∧ idle s' ∧
    ∀ x, lookup_store x (runtime_store svc') = lookup_store x (runtime_store svc).
Proof.
  intros Hme Hs Hy Hi. unfold tick. rewrite Hs, <-Hme. pose proof (heartbeats_keep self now s) as Hk.
  destruct (heartbeats now s self) as [s1 out1]. destruct Hk as (Hy1 & Hp1 & Hc1 & _).
  assert (sync s1 = ∅) as Hy1' by congruence. assert (idle s1) as Hi1 by by eapply idle_ext.
  unfold sync_partitions. generalize (partition_range PARTITIONS_AMOUNT). intros l.
  pose proof (sync_all_nothing_to_send s1 (runtime_store svc) l Hy1' Hi1) as Hall. cbv zeta in Hall.
  destruct (foldl _ _ l) as [[s2 st2] out2]. cbn [fst snd] in Hall. destruct Hall as [-> Hl].
  unfold remove_completed_syncs_and_obsolete_partitions. rewrite Hy1', map_to_list_empty. simpl. intros [= <- <-].
  eexists. split; [done|]. simpl. split_and!; [by apply map_filter_empty|by eapply idle_ext|done].
Qed.

End tick.

(** ** Messages other than batches *)

(** Neither a batch nor a report. *)
Definition plain (msg : WorkerProtocol.t) : Prop :=
  match msg with
  | WorkerProtocol.SyncBatch _ _ | WorkerProtocol.RemovePartitionFromReplica _ _ _ => False
  | _ => True
  end.

Lemma plain_batches out r : Forall plain out → batches_to r out = [].
Proof. induction 1 as [|m out Hm _ IH]; [done|]. unfold batches_to in *. destruct m; simpl in *; done. Qed.

Lemma plain_fmap {A} (f : A → WorkerProtocol.t) l : (∀ x, plain (f x)) → Forall plain (f <$> l).
Proof. intros Hf. apply Forall_fmap, Forall_forall. intros x _. apply Hf. Qed.

Lemma ask_managers_plain self s : Forall plain (ask_managers self s).
Proof. by apply plain_fmap. Qed.

Lemma merge_plain items ns : Forall plain (foldl merge_cluster_node (ns, []) items).2.
Proof.
  apply (foldl_invariant (λ acc : gmap NodeId Node * list WorkerProtocol.t, Forall plain acc.2)); [apply Forall_nil_2|].
  intros [ns' out] item _ Ho. simpl in *. destruct (ns' !! cn_id item) as [n|]; [by destruct (_ <? _)|].
  apply Forall_app_2; [done|]. by apply Forall_singleton.
Qed.

Lemma ack_empty s acks sender : sync s = ∅ → sync (handle_sync_batch_response s acks sender) = ∅.
Proof.
  intros Hs. apply map_empty. intros q. apply eq_None_not_Some. simpl. intros Hq%ack_keys. revert Hq.
  rewrite Hs, lookup_empty. by intros [? [=]].
Qed.

(** What a snapshot does to the table. *)
Lemma cluster_state_table now s cs self :
  let '(s', out) := handle_cluster_state now s (cs_epoch cs) (cs_leader_id cs) (cs_nodes cs) (cs_partitions cs) self in
  sync s' = sync s ∧ Forall plain out ∧
  (partitions s' = partitions s ∧ get_currently_synced_actual_nodes s' = get_currently_synced_actual_nodes s ∨
   partitions s' = cs_partitions cs ∧ cs_partitions cs ≠ partitions s).
Proof.
  unfold handle_cluster_state. destruct (accept_cluster_state _ _ _) as [s1|] eqn:Ha; [|by split_and!; [|apply Forall_nil_2|left]].
  assert (sync s1 = sync s ∧ partitions s1 = partitions s ∧
    get_currently_synced_actual_nodes s1 = get_currently_synced_actual_nodes s) as (Hs1 & Hp1 & Hc1).
  { unfold accept_cluster_state in Ha. destruct (_ || _); [|destruct (_ && _)]; by simplify_eq. }
  set (s2 := set_partitions _ _). set (ns := match cs_nodes cs with [] => _ | _ => _ end).
  pose proof (merge_plain (cs_nodes cs) ns) as Hm. destruct (foldl _ _ _) as [ns' out]. simpl in Hm. unfold s2.
  case_bool_decide as E; (split_and!; [done..|]); simpl in *; [right|left]; split; first [congruence|exact Hc1].
Qed.

Lemma dispatch_table now msg self s st :
  match msg with WorkerProtocol.SyncBatch _ _ => False | _ => True end →
  let '(s', st', out) := dispatch now msg self s st in
  st' = st ∧ Forall plain out ∧ (sync s = ∅ → sync s' = ∅) ∧
  (partitions s' = partitions s ∧ get_currently_synced_actual_nodes s' = get_currently_synced_actual_nodes s ∨
   ∃ cs, msg = WorkerProtocol.ClusterState cs ∧ partitions s' = cs_partitions cs ∧ cs_partitions cs ≠ partitions s).
Proof.
  intros Hmsg. destruct msg; simpl; try done.
  - unfold handle_new_connection. repeat case_match; simplify_eq/=;
      (split_and!; [done|first [apply Forall_nil_2|by apply Forall_singleton|by repeat constructor|apply ask_managers_plain]|done|by left]).
  - unfold handle_heartbeat. repeat case_match; simplify_eq/=;
      (split_and!; [done|first [apply Forall_nil_2|apply ask_managers_plain]|done|by left]).
  - split_and!; [done|apply Forall_nil_2|done|by left].
  - pose proof (cluster_state_table now s state self) as Hc. destruct (handle_cluster_state _ _ _ _ _ _ _) as [s' out].
    destruct Hc as (Hs & ? & Ht). split_and!; [done|done|congruence|]. destruct Ht as [?|[? ?]]; [by left|right]. eauto.
  - split_and!; [done|apply Forall_nil_2|done|by left].
  - unfold handle_leader. repeat case_match; simplify_eq/=;
      (split_and!; [done|first [apply Forall_nil_2|apply ask_managers_plain]|done|by left]).
  - split_and!; [done| |done|by left]. unfold handle_remove_old_partition. case_match; [apply ask_managers_plain|apply Forall_nil_2].
  - split_and!; [done|apply Forall_nil_2|apply ack_empty|by left].
Qed.

End pass.
