(* ===== verification/Rebalance.v ===== *)
(** * A rebalance, from the new assignment to the last release

    The leader and all its workers as one system: the services of the workers with
    their stores, the batches under way to each of them, the snapshots the leader has
    sent and the handovers that were reported to it.  The system starts where the
    leader has computed a new assignment and no transfer is open.  Its steps are the
    handlers and ticks of the nodes, in any order: workers learn the assignment at
    different times, transfers run in parallel, clients write in between, reports
    arrive late, twice or not at all.

    The theorem composes what each worker promises for itself ([WorkerHandover]) with
    the assignment of the leader ([PartitionTheorems]): no record is lost on the way,
    and once the leader has seen the last release of a partition an owner has every
    record of it. *)

From stdpp Require Import functions.
From S2P Require Import Prelude Containers Common RuntimeStore StoreSpec.
From S2P Require Import ManagerState ManagerElection ManagerPartitions ManagerService PartitionSpec PartitionTheorems ManagerTheorems.
From S2P Require Import WorkerState WorkerSync WorkerService WorkerSpec WorkerMigration WorkerTheorems WorkerHandover WorkerPass.

Section system.
Context {M : Type → Type} `{!SkipMap M, !SkipMapLaws M}.
Context {D : Type → Type} `{!DashMap PartitionId D, !DashMapLaws PartitionId D}.
Implicit Types st : RuntimeStore M D.

(** ** The system *)

Record System := mkSystem {
  sy_svc : NodeId → WorkerService M D;
  sy_wire : NodeId → list SyncBatchRequest;
  sy_mgr : ManagerState.State;
  sy_elections : gmap Z Election;
  sy_snapshots : list ClusterState;
  sy_reports : list (NodeId * PartitionId);
}.

Definition store_of (c : System) (w : NodeId) : RuntimeStore M D := runtime_store (sy_svc c w).

(** The snapshots among what the leader sends. *)
Definition snapshots_of (out : list ManagerProtocol.t) : list ClusterState :=
  omap (λ m, match m with ManagerProtocol.ClusterState _ cs => Some cs | _ => None end) out.

#[local] Arguments snapshots_of : simpl never.

(** The handovers a worker reports. *)
Definition reports_of (out : list WorkerProtocol.t) : list (NodeId * PartitionId) :=
  omap (λ m, match m with
             | WorkerProtocol.RemovePartitionFromReplica _ replica pid => Some (replica, pid)
             | _ => None
             end) out.

(** A worker took a step and sent [out]. *)
Definition emit (w : NodeId) (svc : WorkerService M D) (out : list WorkerProtocol.t) (c : System) : System :=
  mkSystem (<[w := svc]> (sy_svc c)) (λ r, sy_wire c r ++ batches_to r out) (sy_mgr c) (sy_elections c)
    (sy_snapshots c) (sy_reports c ++ reports_of out).

Definition set_wire (w : NodeId) (l : list SyncBatchRequest) (c : System) : System :=
  mkSystem (sy_svc c) (<[w := l]> (sy_wire c)) (sy_mgr c) (sy_elections c) (sy_snapshots c) (sy_reports c).

(** Owners and former holders of a partition. *)
Definition owners_of (ps : Partitions) (pid : PartitionId) : gset NodeId := from_option owners ∅ (mapping ps !! pid).
Definition old_of (ps : Partitions) (pid : PartitionId) : gset NodeId := default ∅ (old_replicas ps !! pid).

Section steps.
Context (W : gset NodeId) (me_m : Me) (B : Partitions).

(** What a worker may receive at any time.  Batches have a step of their own, and
    the connections between workers stay up. *)
Definition accepts (c : System) (w : NodeId) (msg : WorkerProtocol.t) : Prop :=
  match msg with
  | WorkerProtocol.ClusterState cs =>
      cs ∈ sy_snapshots c ∨ ∃ s, state (sy_svc c w) = Some s ∧ cs_partitions cs = partitions s
  | WorkerProtocol.NodeDisconnected id => id ∉ W
  | WorkerProtocol.SyncBatch _ _ => False
  | _ => True
  end.

(** What the leader may receive: of releases, those that were reported; it takes no
    assignment from another manager. *)
Definition manager_accepts (c : System) (msg : ManagerProtocol.t) : Prop :=
  match msg with
  | ManagerProtocol.RemovePartitionFromReplica _ replica pid => (replica, pid) ∈ sy_reports c
  | ManagerProtocol.ClusterState _ _ => False
  | _ => True
  end.

(** A worker knows an owner of each partition it does not own itself. *)
Definition knows_owner (w : NodeId) (s : State) : Prop :=
  ∀ pid q, mapping (partitions s) !! pid = Some q → w ∉ owners q → ∃ r, r ∈ owners q ∧ is_Some (nodes s !! r).

(** Clients write to owners, and to former holders that have not reported the
    partition as handed over. *)
Definition may_write (c : System) (w : NodeId) (pid : PartitionId) : Prop :=
  w ∈ owners_of B pid ∨ (w ∈ old_of B pid ∧ (w, pid) ∉ sy_reports c).

Inductive system_step : System → System → Prop :=
  | ss_message c w now msg svc out :
      w ∈ W → accepts c w msg → next_revision (store_of c w) < u64_modulus →
      handle_message now msg (sy_svc c w) = (svc, out) → system_step c (emit w svc out c)
  | ss_tick c w now clk svc out :
      w ∈ W → (∀ s, state (sy_svc c w) = Some s → knows_owner w s) →
      tick now clk (sy_svc c w) = (svc, out) → system_step c (emit w svc out c)
  | ss_deliver c w now rid req l1 l2 svc out :
      w ∈ W → sy_wire c w = l1 ++ req :: l2 →
      next_revision (store_of c w) + Z.of_nat (length (req_records req)) < u64_modulus →
      handle_message now (WorkerProtocol.SyncBatch rid req) (sy_svc c w) = (svc, out) →
      system_step c (emit w svc out (set_wire w (l1 ++ l2) c))
  | ss_write c w k mu :
      w ∈ W → may_write c w (Key_partition k) → next_revision (store_of c w) + 1 < u64_modulus →
      system_step c (emit w (set_store (apply_mutation k mu (store_of c w)) (sy_svc c w)) [] c)
  | ss_manager c now msg mgr es out :
      manager_accepts c msg →
      ManagerService.dispatch now msg me_m (sy_mgr c) (sy_elections c) = (mgr, es, out) →
      system_step c (mkSystem (sy_svc c) (sy_wire c) mgr es (sy_snapshots c ++ snapshots_of out) (sy_reports c))
  | ss_manager_tick c i config svc mgr out :
      (* the set of workers has not changed *)
      ¬ stale_workers (ManagerState.heartbeats (hb_now i) (hb_rnd i) (sy_mgr c) me_m).1 →
      ManagerService.tick i (mkManagerService me_m (Some (sy_mgr c)) (sy_elections c) config) = Some (svc, out) →
      ManagerService.state svc = Some mgr →
      system_step c (mkSystem (sy_svc c) (sy_wire c) mgr (elections svc) (sy_snapshots c ++ snapshots_of out) (sy_reports c)).

(** ** The leader *)

Lemma snapshots_fmap {A} (f : A → ManagerProtocol.t) l :
  (∀ x, match f x with ManagerProtocol.ClusterState _ _ => False | _ => True end) → snapshots_of (f <$> l) = [].
Proof.
  intros Hf. induction l as [|x l IH]; [done|]. unfold snapshots_of in *. simpl. specialize (Hf x). by destruct (f x).
Qed.

Ltac no_snapshot := let H := fresh in intros ? H; rewrite ?snapshots_fmap in H by done; by apply not_elem_of_nil in H.

Lemma manager_dispatch_table now msg s es :
  match msg with ManagerProtocol.ClusterState _ _ => False | _ => True end →
  let '(s', _, out) := ManagerService.dispatch now msg me_m s es in
  (∀ cs, cs ∈ snapshots_of out → cs_partitions cs = ManagerState.partitions s) ∧
  (ManagerState.partitions s' = ManagerState.partitions s ∨
   ∃ id r p, msg = ManagerProtocol.RemovePartitionFromReplica id r p ∧
     s' = (ManagerState.handle_remove_old_partition s id r p me_m).1).
Proof.
  intros Hmsg.
  destruct msg; simpl; try done.
  - unfold ManagerState.handle_new_connection. repeat case_match; simplify_eq/=; (split; [no_snapshot|by left]).
  - unfold ManagerState.handle_heartbeat. repeat case_match; simplify_eq/=;
      (split; [no_snapshot|by left]).
  - split; [|by left]. unfold handle_get_cluster_state. repeat case_match; simpl; intros cs Hcs.
    + unfold snapshots_of in Hcs. simpl in Hcs. apply list_elem_of_singleton in Hcs as ->. simpl. by destruct (ManagerState.partitions s).
    + by apply not_elem_of_nil in Hcs.
    + by apply not_elem_of_nil in Hcs.
  - unfold handle_vote_request. repeat case_match; simplify_eq/=; (split; [no_snapshot|by left]).
  - unfold handle_vote_response. repeat case_match; simplify_eq/=;
      (split; [no_snapshot|by left]).
  - unfold ManagerElection.handle_leader. repeat case_match; simplify_eq/=;
      (split; [no_snapshot|by left]).
  - split; [no_snapshot|left]. unfold ManagerState.handle_node_disconnected. by repeat case_match.
  - destruct (ManagerState.handle_remove_old_partition s id replica_id partition_id me_m) as [s' out] eqn:E. split.
    + unfold ManagerState.handle_remove_old_partition in E. injection E as _ <-. case_bool_decide; no_snapshot.
    + right. exists id, replica_id, partition_id. split; [done|]. by injection E as <- _.
Qed.

Lemma snapshots_app out out' : snapshots_of (out ++ out') = snapshots_of out ++ snapshots_of out'.
Proof. apply omap_app. Qed.

Lemma manager_heartbeats_table now rnd s :
  ManagerState.partitions (ManagerState.heartbeats now rnd s me_m).1 = ManagerState.partitions s ∧
  snapshots_of (ManagerState.heartbeats now rnd s me_m).2 = [].
Proof.
  unfold ManagerState.heartbeats. destruct (ManagerState.nodes s !! me_id me_m) as [n|]; [|done].
  destruct (is_manager n); [|done]. destruct (_ <=? _); repeat (case_match; try done); split; try done; by apply snapshots_fmap.
Qed.

Lemma start_election_snapshots now rnd s es : snapshots_of (start_election_if_needed now rnd s es me_m).2 = [].
Proof. unfold start_election_if_needed. repeat (case_match; try done); by apply snapshots_fmap. Qed.

Lemma worker_partitions_unchanged s rf : ¬ stale_workers s → worker_partitions s me_m rf = Some (s, []).
Proof.
  intros Hst. unfold worker_partitions, stale_workers in *. apply dec_stable in Hst. case_bool_decide; [|done].
  by rewrite Hst, Nat.eqb_refl, bool_decide_eq_true_2 by done.
Qed.

Lemma manager_tick_table i s es config svc out :
  ¬ stale_workers (ManagerState.heartbeats (hb_now i) (hb_rnd i) s me_m).1 →
  ManagerService.tick i (mkManagerService me_m (Some s) es config) = Some (svc, out) →
  snapshots_of out = [] ∧ ∀ s', ManagerService.state svc = Some s' → ManagerState.partitions s' = ManagerState.partitions s.
Proof.
  intros Hst. unfold ManagerService.tick. cbn [ManagerService.state ManagerService.me elections ManagerService.config].
  destruct (manager_heartbeats_table (hb_now i) (hb_rnd i) s) as [Hp Ho].
  destruct (ManagerState.heartbeats _ _ s me_m) as [s1 o1]. cbn [fst snd] in *.
  pose proof (start_election_snapshots (el_now i) (el_rnd i) s1 es) as He.
  destruct (start_election_if_needed _ _ s1 es me_m) as [es' o2]. cbn [snd] in He.
  destruct (Config_replication_factor config) as [rf|]; [|done]. cbn [mbind option_bind].
  rewrite (worker_partitions_unchanged s1 rf Hst). cbn [mbind option_bind]. intros [= <- <-].
  split; [by rewrite !snapshots_app, Ho, He|]. by intros s' [= <-].
Qed.

(** ** The invariant

    Next to the stores, [g] keeps for every worker what it ever stored: its store
    with nothing removed. *)

Definition peers (g : NodeId → RuntimeStore M D) (c : System) (r : NodeId) : Peer := mkPeer (g r) (sy_wire c r).

(** The announced assignment, without some of the former holders that reported. *)
Record released (c : System) (ps : Partitions) : Prop := {
  rl_mapping : mapping ps = mapping B;
  rl_new : new_replicas ps = new_replicas B;
  rl_old pid n : n ∈ old_of ps pid → n ∈ old_of B pid;
  rl_reported pid n : n ∈ old_of B pid → n ∈ old_of ps pid ∨ (n, pid) ∈ sy_reports c;
}.

(** An owner has a record, or a former holder has it and has not reported. *)
Definition safe (g : NodeId → RuntimeStore M D) (c : System) (x : Key) (mu : Mutation) : Prop :=
  (∃ r, r ∈ owners_of B (Key_partition x) ∧ covered (peer_drained (peers g c r)) x mu) ∨
  (∃ w, w ∈ old_of B (Key_partition x) ∧ ((w, Key_partition x) ∉ sy_reports c) ∧ covered (store_of c w) x mu).

(** A worker that has not adopted the assignment has no transfer and nothing to send. *)
Definition table_ok (c : System) (w : NodeId) (s : State) : Prop :=
  (sync s = ∅ ∧ idle (me (sy_svc c w)) s) ∨ released c (partitions s).

Record worker_ok (g : NodeId → RuntimeStore M D) (c : System) (w : NodeId) : Prop := {
  wo_me : me_id (me (sy_svc c w)) = w;
  wo_cluster : cluster_inv (mkCluster (sy_svc c w) (peers g c));
  wo_quiet : quiet (store_of c w);
  wo_table : ∃ s, state (sy_svc c w) = Some s ∧ table_ok c w s;
  wo_kept x mu : w ∈ owners_of B (Key_partition x) → covered (g w) x mu → covered (store_of c w) x mu;
  wo_past x mu : covered (store_of c w) x mu → covered (g w) x mu;
}.

Record system_inv (g : NodeId → RuntimeStore M D) (c : System) : Prop := {
  si_worker w : w ∈ W → worker_ok g c w;
  si_snapshots cs : cs ∈ sy_snapshots c → released c (cs_partitions cs);
  si_manager : released c (ManagerState.partitions (sy_mgr c));
  si_nonempty q old : old_replicas (ManagerState.partitions (sy_mgr c)) !! q = Some old → old ≠ ∅;
  si_history w x mu : w ∈ W → covered (peer_drained (peers g c w)) x mu → safe g c x mu;
}.

(** What the announced assignment promises. *)
Record announced : Prop := {
  an_owners x : owners_of B (Key_partition x) ≠ ∅;
  an_workers pid n : n ∈ owners_of B pid ∨ n ∈ old_of B pid → n ∈ W;
  an_new x X n : new_replicas B !! Key_partition x = Some X → n ∈ X → n ∈ owners_of B (Key_partition x);
}.

Lemma released_mono c c' ps : (∀ x, x ∈ sy_reports c → x ∈ sy_reports c') → released c ps → released c' ps.
Proof. intros Hr []. split; try done. intros pid n [?|?]%rl_reported0; [by left|right; auto]. Qed.

Lemma cluster_inv_peers svc w w' :
  (∀ r, peer_le (w r) (w' r)) → cluster_inv (mkCluster svc w) → cluster_inv (mkCluster svc w').
Proof. intros Hle [Hwf Hst]. split; [done|]. intros s Hs. destruct (Hst s Hs). split; [by eapply entries_ok_mono|done]. Qed.

Lemma owns_owners ps pid n : node_owns_partition ps pid n = true ↔ n ∈ owners_of ps pid.
Proof.
  unfold node_owns_partition, owners_of, owners. destruct (mapping ps !! pid) as [q|]; simpl; [|set_solver].
  rewrite orb_true_iff, !bool_decide_eq_true. set_solver.
Qed.

Lemma released_recipient c ps self ns synced x r :
  announced → released c ps →
  r ∈ get_node_ids_curr_node_has_to_sync_the_partition_to (Key_partition x) self ps ns synced →
  r ∈ owners_of B (Key_partition x).
Proof.
  intros Han Hr (_ & _ & q & Hq & Hcase)%sync_recipients_exact. rewrite (rl_mapping _ _ Hr) in Hq.
  destruct Hcase as [[_ ?]|(_ & _ & X & HX & _ & Hn & _)].
  - unfold owners_of. by rewrite Hq.
  - rewrite (rl_new _ _ Hr) in HX. by eapply an_new.
Qed.

(** A former holder that has not reported sends to an owner. *)
Lemma released_sends c self s synced pid :
  announced → released c (partitions s) → knows_owner self s →
  self ∈ old_of B pid → (self, pid) ∉ sy_reports c → self ∉ owners_of B pid → owners_of B pid ≠ ∅ →
  ∃ r, r ∈ get_node_ids_curr_node_has_to_sync_the_partition_to pid self (partitions s) (nodes s) synced.
Proof.
  intros Han Hr Hk Hold Hrep Hself Hne. unfold owners_of in *. destruct (mapping B !! pid) as [q|] eqn:Hq; [|done].
  simpl in *. destruct (Hk pid q) as (r & Hr1 & Hr2); [by rewrite (rl_mapping _ _ Hr)|done|].
  exists r. apply sync_recipients_exact. split_and!; [done|by intros ->|]. exists q.
  rewrite (rl_mapping _ _ Hr). split; [done|]. left. split; [|done].
  by destruct (rl_reported _ _ Hr pid self Hold).
Qed.

(** ** Preservation *)

Lemma safe_mono g c g' c' x mu :
  (∀ r, peer_le (peers g c r) (peers g' c' r)) → sy_reports c' = sy_reports c →
  (∀ w, covered (store_of c w) x mu → covered (store_of c' w) x mu) → safe g c x mu → safe g' c' x mu.
Proof.
  intros Hp Hr Hs [(r & ? & Hc)|(w & ? & ? & ?)]; [left; exists r|right; exists w]; rewrite ?Hr; split; auto. by apply Hp.
Qed.

Lemma store_emit_eq w svc out c : store_of (emit w svc out c) w = runtime_store svc.
Proof. unfold store_of. simpl. by rewrite fn_lookup_insert. Qed.

Lemma store_emit_ne w v svc out c : v ≠ w → store_of (emit w svc out c) v = store_of c v.
Proof. intros Hne. unfold store_of. simpl. by rewrite fn_lookup_insert_ne. Qed.

Lemma reports_emit w svc out c x : x ∈ sy_reports c → x ∈ sy_reports (emit w svc out c).
Proof. intros Hx. apply elem_of_app. by left. Qed.

(** The worker next to the one that takes a step. *)
Lemma worker_ok_other g c w svc out v :
  v ≠ w → worker_ok g c v → worker_ok g (emit w svc out c) v.
Proof.
  intros Hne [Hme Hcl Hq (s & Hs & Ht) Hk Hp]. pose proof (store_emit_ne w v svc out c Hne) as Hst.
  assert (sy_svc (emit w svc out c) v = sy_svc c v) as Hsvc by (simpl; by rewrite fn_lookup_insert_ne).
  split; rewrite ?Hst, ?Hsvc; try done.
  - eapply cluster_inv_peers; [|exact Hcl]. intros r. apply (peer_le_send out (peers g c)).
  - exists s. split; [done|]. unfold table_ok. rewrite Hsvc. destruct Ht as [?|Ht]; [by left|right].
    eapply released_mono; [|exact Ht]. intros x. apply reports_emit.
Qed.

Lemma elem_of_reports out v q :
  (v, q) ∈ reports_of out ↔ ∃ leader, WorkerProtocol.RemovePartitionFromReplica leader v q ∈ out.
Proof.
  unfold reports_of. rewrite list_elem_of_omap. split.
  - intros ([] & Hin & [=]); subst. by eexists.
  - intros [leader Hin]. by eexists.
Qed.

(** A step of worker [w] that sends records of its store, reports only itself and
    keeps its records safe. *)
Lemma emit_inv g c w svc out :
  system_inv g c → w ∈ W → worker_ok g (emit w svc out c) w →
  Forall (from_store (me (sy_svc c w)) (store_of c w)) out →
  (∀ x mu, covered (store_of c w) x mu → w ∈ old_of B (Key_partition x) → (w, Key_partition x) ∉ sy_reports c →
     safe g (emit w svc out c) x mu) →
  system_inv g (emit w svc out c).
Proof.
  intros Hi Hw Hok Hout Hkeep. destruct (si_worker _ _ Hi w Hw) as [Hme _ _ _ _ Hpast].
  assert (∀ r, peer_le (peers g c r) (peers g (emit w svc out c) r)) as Hle by (intros r; apply (peer_le_send out (peers g c))).
  assert (∀ x mu, safe g c x mu → safe g (emit w svc out c) x mu) as Hsafe.
  { intros x mu [(r & ? & Hc)|(v & Hv & Hrep & Hc)]; [left; exists r; split; [done|by apply Hle]|].
    destruct (decide (v = w)) as [->|Hne]; [by apply Hkeep|right]. exists v. rewrite store_emit_ne by done.
    split_and!; [done| |done]. intros [?|[leader Hin]%elem_of_reports]%elem_of_app; [done|].
    rewrite Forall_forall in Hout. specialize (Hout _ Hin). simpl in Hout. congruence. }
  split.
  - intros v Hv. destruct (decide (v = w)) as [->|Hne]; [done|]. by apply worker_ok_other, si_worker.
  - intros cs Hcs. eapply released_mono; [|exact (si_snapshots _ _ Hi cs Hcs)]. intros y. apply reports_emit.
  - eapply released_mono; [|exact (si_manager _ _ Hi)]. intros y. apply reports_emit.
  - exact (si_nonempty _ _ Hi).
  - intros v x mu Hv Hc. apply Hsafe. apply covered_peer in Hc. simpl in Hc.
    assert (covered (peer_drained (peers g c v)) x mu ∨ covered (store_of c w) x mu) as [Hc'|Hc'].
    { rewrite covered_peer. simpl. destruct Hc as [(req & mu' & [Hin|Hin]%elem_of_app & Hx & Hver)|Hc]; [eauto 10| |eauto].
      right. unfold batches_to in Hin. apply list_elem_of_omap in Hin as (m & Hm & Hreq). rewrite Forall_forall in Hout.
      specialize (Hout _ Hm). destruct m; try done. case_bool_decide; [|done]. injection Hreq as ->.
      exists mu'. split; [by apply Hout|done]. }
    + by eapply si_history.
    + apply (si_history _ _ Hi w); [done|]. apply covered_peer. right. by apply Hpast.
Qed.

Lemma plain_reports out : Forall plain out → reports_of out = [].
Proof. induction 1 as [|m out Hm _ IH]; [done|]. unfold reports_of in *. by destruct m. Qed.

Lemma plain_from_store self st out : Forall plain out → Forall (from_store self st) out.
Proof. intros Hp. eapply Forall_impl; [exact Hp|]. by intros []. Qed.

Lemma message_inv g c w now msg svc out :
  system_inv g c → w ∈ W → accepts c w msg → next_revision (store_of c w) < u64_modulus →
  handle_message now msg (sy_svc c w) = (svc, out) → system_inv g (emit w svc out c).
Proof.
  intros Hi Hw Hacc Hn Hm. pose proof (si_worker _ _ Hi w Hw) as [Hme Hcl Hq (s & Hs & Ht) Hk Hp].
  assert (cluster_inv (mkCluster svc (peers g (emit w svc out c)))) as Hcl'.
  { apply (handle_message_inv now msg _ _ _ _) with (2 := Hcl) (3 := Hm). unfold store_of in Hn. destruct msg; simpl; try lia. done. }
  unfold handle_message in Hm. rewrite Hs in Hm.
  pose proof (dispatch_table now msg (me (sy_svc c w)) s (runtime_store (sy_svc c w))) as Hd.
  destruct (dispatch _ _ _ _ _) as [[s' st'] o]. injection Hm as <- <-.
  destruct Hd as (-> & Hpl & Hsy & Htab); [by destruct msg|].
  apply emit_inv; [done|done| |by apply plain_from_store|].
  - split; rewrite ?store_emit_eq; simpl; rewrite ?fn_lookup_insert; try done. exists s'. split; [done|].
    unfold table_ok. simpl. rewrite fn_lookup_insert. simpl.
    assert (∀ ps, released c ps → released (emit w (mkWorkerService (me (sy_svc c w)) (Some s') (config (sy_svc c w))
      (runtime_store (sy_svc c w))) o c) ps) as Hrel.
    { intros ps. apply released_mono. intros x. apply reports_emit. }
    destruct Htab as [[Hpt Hct]|(cs & -> & Hpt & Hne)].
    + destruct Ht as [[? ?]|Ht]; [left|right; apply Hrel; by rewrite Hpt]. split; [auto|by eapply idle_ext].
    + right. apply Hrel. rewrite Hpt. destruct Hacc as [Hcs|(s0 & Hs0 & E)]; [by apply (si_snapshots _ _ Hi)|].
      rewrite Hs in Hs0. congruence.
  - intros x mu Hc Hold Hrep. right. exists w. rewrite store_emit_eq. split_and!; [done| |done]. simpl.
    by rewrite (plain_reports o Hpl), app_nil_r.
Qed.

Lemma covered_lookup st x mu : covered st x mu ↔ ∃ mu', lookup_store x st = Some mu' ∧ version mu <= version mu'.
Proof. done. Qed.

(** The tick of a worker that has not adopted the assignment. *)
Lemma tick_idle_inv g c w now clk svc out s :
  system_inv g c → w ∈ W → state (sy_svc c w) = Some s → sync s = ∅ → idle (me (sy_svc c w)) s →
  tick now clk (sy_svc c w) = (svc, out) → system_inv g (emit w svc out c).
Proof.
  intros Hi Hw Hs Hsy Hid Ht. pose proof (si_worker _ _ Hi w Hw) as [Hme Hcl Hq _ Hk Hp].
  pose proof (ci_wf _ Hcl) as Hwf. destruct (ci_state _ Hcl s Hs) as [He Hrg]. cbn [cl_svc cl_peers] in *.
  pose proof (tick_inv now clk _ _ _ _ Hcl Ht) as Hcl'.
  destruct (tick_keeps _ clk now _ _ s out eq_refl Hs Hwf Ht) as (s1 & Hs1 & Hme1 & _ & Hq1 & Hfrom & _).
  destruct (tick_idle _ clk now _ _ s out eq_refl Hs Hsy Hid Ht) as (s2 & Hs2 & Hsy2 & Hid2 & Hl).
  destruct (tick_handover _ clk now _ _ s (peers g c) out eq_refl Hs Hwf He Hrg Ht) as (s3 & _ & Hok).
  assert (reports_of out = []) as Hno.
  { destruct (reports_of out) as [|[v q] l] eqn:E; [done|]. assert ((v, q) ∈ reports_of out) as Hin by (rewrite E; by left).
    apply elem_of_reports in Hin as [leader Hin]. destruct (ho_reports _ _ _ _ _ _ _ _ Hok _ _ _ Hin) as (r & Hr & _).
    unfold recipients in Hr. by rewrite Hid in Hr. }
  assert (∀ x mu, covered (runtime_store svc) x mu ↔ covered (store_of c w) x mu) as Hcov.
  { intros x mu. rewrite !covered_lookup. unfold store_of. by rewrite Hl. }
  apply emit_inv; [done|done| |exact Hfrom|].
  - split; rewrite ?store_emit_eq; simpl; rewrite ?fn_lookup_insert; try congruence; try done.
    + by apply Hq1.
    + exists s2. split; [done|]. unfold table_ok. simpl. rewrite fn_lookup_insert, Hme1. by left.
    + intros x mu. rewrite Hcov. apply Hk.
    + intros x mu. rewrite Hcov. apply Hp.
  - intros x mu Hc Hold Hrep. right. exists w. rewrite store_emit_eq, Hcov. simpl. by rewrite Hno, app_nil_r.
Qed.

(** The tick of a worker that has adopted it. *)
Lemma tick_released_inv g c w now clk svc out s :
  announced → system_inv g c → w ∈ W → state (sy_svc c w) = Some s → released c (partitions s) → knows_owner w s →
  tick now clk (sy_svc c w) = (svc, out) → system_inv g (emit w svc out c).
Proof.
  intros Han Hi Hw Hs Hrel Hknow Ht. pose proof (si_worker _ _ Hi w Hw) as [Hme Hcl Hq _ Hk Hp].
  pose proof (ci_wf _ Hcl) as Hwf. destruct (ci_state _ Hcl s Hs) as [He Hrg]. cbn [cl_svc cl_peers] in *.
  pose proof (tick_inv now clk _ _ _ _ Hcl Ht) as Hcl'.
  destruct (tick_keeps _ clk now _ _ s out eq_refl Hs Hwf Ht) as (s1 & Hs1 & Hme1 & Hpt & Hq1 & Hfrom & Hsub).
  destruct (tick_handover _ clk now _ _ s (peers g c) out eq_refl Hs Hwf He Hrg Ht) as (s3 & _ & Hok).
  assert (∀ x r, r ∈ recipients (me (sy_svc c w)) (get_currently_synced_actual_nodes s) s (Key_partition x) →
    r ∈ owners_of B (Key_partition x)) as Hrec by (intros x r; by eapply released_recipient).
  assert (∀ x mu, lookup_store x (store_of c w) = Some mu →
    lookup_store x (runtime_store svc) = Some mu ∨
    (w ∉ owners_of B (Key_partition x)) ∧ ∀ r, r ∈ recipients (me (sy_svc c w)) (get_currently_synced_actual_nodes s) s (Key_partition x) →
      covered (peer_drained (send out (peers g c) r)) x mu) as Hkept.
  { intros x mu Hx. destruct (ho_kept _ _ _ _ _ _ _ _ Hok x mu Hx) as [?|(_ & Hown & Hc)]; [by left|right]. split.
    - intros Hin%owns_owners. rewrite Hme in Hown. unfold node_owns_partition in *. rewrite (rl_mapping _ _ Hrel) in Hown. congruence.
    - by apply Hc, quiet_stable. }
  apply emit_inv; [done|done| |exact Hfrom|].
  - split; rewrite ?store_emit_eq; simpl; rewrite ?fn_lookup_insert; try congruence; try done.
    + by apply Hq1.
    + exists s1. split; [done|]. right. rewrite Hpt. eapply released_mono; [|exact Hrel]. intros x. apply reports_emit.
    + intros x mu Hown Hc. destruct (Hk x mu Hown Hc) as (mu' & Hx & Hv).
      destruct (Hkept x mu' Hx) as [?|[? _]]; [by exists mu'|done].
    + intros x mu (mu' & Hx & Hv). apply Hp. exists mu'. split; [by apply Hsub|done].
  - intros x mu (mu' & Hx & Hv) Hold Hrep.
    assert (∀ r, covered (peer_drained (send out (peers g c) r)) x mu' → r ∈ owners_of B (Key_partition x) →
      safe g (emit w svc out c) x mu) as Hat.
    { intros r (mu2 & ? & ?) Hr. left. exists r. split; [done|]. exists mu2. split; [done|lia]. }
    destruct (decide ((w, Key_partition x) ∈ reports_of out)) as [[leader Hin]%elem_of_reports|Hno].
    + destruct (ho_reports _ _ _ _ _ _ _ _ Hok _ _ _ Hin) as (r & Hr & Hh). eapply (Hat r); [by apply Hh|by apply Hrec].
    + destruct (Hkept x mu' Hx) as [Hx'|[Hown Hc]].
      * right. exists w. rewrite store_emit_eq. split_and!; [done| |by exists mu']. simpl. by intros [?|?]%elem_of_app.
      * destruct (released_sends c w s (get_currently_synced_actual_nodes s !! Key_partition x) (Key_partition x))
          as [r Hr]; [done..|by apply an_owners|]. rewrite <- Hme in Hr. eapply (Hat r); [by apply Hc|by apply Hrec].
Qed.

(** Worker [w] stores the mutations [l], from a batch or from a client. *)
Lemma apply_inv g c c' w l :
  let g' := <[w := apply_all l (g w)]> g in
  system_inv g c → w ∈ W →
  sy_svc c' = <[w := set_store (apply_all l (store_of c w)) (sy_svc c w)]> (sy_svc c) →
  sy_reports c' = sy_reports c → sy_snapshots c' = sy_snapshots c → sy_mgr c' = sy_mgr c →
  (∀ r, peer_le (peers g c r) (peers g' c' r)) → cluster_inv (mkCluster (sy_svc c' w) (peers g' c')) →
  (∀ v x mu, v ∈ W → covered (peer_drained (peers g' c' v)) x mu →
     covered (peer_drained (peers g c v)) x mu ∨ safe g' c' x mu) →
  system_inv g' c'.
Proof.
  intros g' Hi Hw Hsvc Hrep Hsn Hmg Hle Hcl' Hhist.
  assert (∀ v, v ≠ w → sy_svc c' v = sy_svc c v) as Hoth by (intros v ?; rewrite Hsvc; by rewrite fn_lookup_insert_ne).
  assert (sy_svc c' w = set_store (apply_all l (store_of c w)) (sy_svc c w)) as Hself by (rewrite Hsvc; by rewrite fn_lookup_insert).
  assert (store_of c' w = apply_all l (store_of c w)) as Hstore by (unfold store_of at 1; by rewrite Hself).
  assert (∀ ps, released c ps → released c' ps) as Hrel by (intros ps; apply released_mono; intros y; by rewrite Hrep).
  split; rewrite ?Hsn, ?Hmg.
  - intros v Hv. destruct (si_worker _ _ Hi v Hv) as [Hme Hcl Hq (s & Hs & Ht) Hk Hp]. unfold g'.
    destruct (decide (v = w)) as [->|Hne].
    + split; rewrite ?Hstore; try done; try by rewrite Hself.
      * by apply quiet_apply_all.
      * exists s. unfold table_ok. rewrite Hself. split; [done|]. destruct Ht; [by left|right; auto].
      * intros x mu. rewrite fn_lookup_insert, !covered_apply_all. naive_solver.
      * intros x mu. rewrite fn_lookup_insert, !covered_apply_all. naive_solver.
    + assert (store_of c' v = store_of c v) as Hsv by (unfold store_of; by rewrite Hoth).
      split; rewrite ?Hsv, ?Hoth, ?fn_lookup_insert_ne by done; try done; [by eapply cluster_inv_peers|].
      exists s. split; [done|]. unfold table_ok. rewrite Hoth by done. destruct Ht; [by left|right; auto].
  - intros cs Hcs. by apply Hrel, (si_snapshots _ _ Hi).
  - by apply Hrel, (si_manager _ _ Hi).
  - exact (si_nonempty _ _ Hi).
  - intros v x mu Hv [Hc%(si_history _ _ Hi v)|?]%Hhist; [|done..]. eapply safe_mono; [exact Hle|exact Hrep| |exact Hc].
    intros v'. destruct (decide (v' = w)) as [->|Hne]; [rewrite Hstore, covered_apply_all; by right|].
    unfold store_of. by rewrite Hoth.
Qed.

(** A batch arrives.  What the receiver has once its connection is drained stays
    the same. *)
Lemma deliver_inv g c w now rid req l1 l2 svc out :
  system_inv g c → w ∈ W → sy_wire c w = l1 ++ req :: l2 →
  next_revision (store_of c w) + Z.of_nat (length (req_records req)) < u64_modulus →
  handle_message now (WorkerProtocol.SyncBatch rid req) (sy_svc c w) = (svc, out) →
  system_inv (<[w := apply_all (batch_entries req) (g w)]> g) (emit w svc out (set_wire w (l1 ++ l2) c)).
Proof.
  intros Hi Hw Hwire Hn Hm. pose proof (si_worker _ _ Hi w Hw) as [_ Hcl _ (s & Hs & _) _ _].
  pose proof (handle_message_inv now (WorkerProtocol.SyncBatch rid req) (sy_svc c w) (peers g c) svc out Hn Hcl Hm) as Hcl'.
  unfold handle_message in Hm. rewrite Hs in Hm. simpl in Hm.
  pose proof (handle_sync_batch_store req (runtime_store (sy_svc c w))) as Hst.
  destruct (handle_sync_batch req _) as [st' o] eqn:E. simpl in Hst. subst st'. injection Hm as Hsvc Ho. subst o.
  assert (Forall plain out) as Hpl.
  { unfold handle_sync_batch in E. destruct (foldl _ _ _). injection E as _ <-. by apply Forall_singleton. }
  set (c' := emit w svc out _). set (g' := <[w := _]> g).
  assert (∀ r x mu, covered (peer_drained (peers g' c' r)) x mu ↔ covered (peer_drained (peers g c r)) x mu) as Heq.
  { intros r x mu. rewrite !covered_peer. simpl. rewrite (plain_batches out r Hpl), app_nil_r. unfold g'.
    destruct (decide (r = w)) as [->|Hne]; [|by rewrite !fn_lookup_insert_ne].
    rewrite !fn_lookup_insert, covered_apply_all, Hwire. setoid_rewrite elem_of_app. setoid_rewrite elem_of_cons. naive_solver. }
  apply (apply_inv g c c'); unfold c'; simpl; try done.
  - unfold set_store, store_of. by rewrite Hs, <- Hsvc.
  - by rewrite (plain_reports out Hpl), app_nil_r.
  - intros r x mu Hc. by apply Heq.
  - rewrite fn_lookup_insert. eapply cluster_inv_peers; [|exact Hcl']. intros r x mu Hc. apply Heq.
    revert Hc. rewrite !covered_peer. simpl. by rewrite (plain_batches out r Hpl), app_nil_r.
  - intros v x mu Hv Hc. left. by apply Heq.
Qed.

Lemma write_inv g c w k mu :
  system_inv g c → w ∈ W → may_write c w (Key_partition k) → next_revision (store_of c w) + 1 < u64_modulus →
  system_inv (<[w := apply_all [(k, mu)] (g w)]> g)
    (emit w (set_store (apply_mutation k mu (store_of c w)) (sy_svc c w)) [] c).
Proof.
  intros Hi Hw Hmay Hn. pose proof (si_worker _ _ Hi w Hw) as [_ Hcl _ _ _ _].
  set (svc := set_store _ _). set (c' := emit w svc [] c). set (g' := <[w := _]> g).
  assert (∀ r, peers g' c' r = mkPeer (g' r) (sy_wire c r)) as Hpeer.
  { intros r. unfold peers, c'. simpl. by rewrite app_nil_r. }
  assert (∀ r x nu, covered (peer_drained (peers g' c' r)) x nu ↔
    (r = w ∧ k = x ∧ version nu <= version mu) ∨ covered (peer_drained (peers g c r)) x nu) as Heq.
  { intros r x nu. rewrite Hpeer, !covered_peer. simpl. unfold g'. destruct (decide (r = w)) as [->|Hne].
    - rewrite fn_lookup_insert. simpl. rewrite covered_apply. tauto.
    - rewrite fn_lookup_insert_ne by done. tauto. }
  assert (∀ r, peer_le (peers g c r) (peers g' c' r)) as Hle by (intros r x nu ?; apply Heq; by right).
  apply (apply_inv g c c'); unfold c'; simpl; try done.
  - by rewrite app_nil_r.
  - rewrite fn_lookup_insert. eapply cluster_inv_peers; [exact Hle|].
    set (op := match mu with Put r => OpPut k r | Delete t => OpDeleteAt k t end).
    assert (run_op op (store_of c w) = apply_mutation k mu (store_of c w)) as Hop by (unfold op; by destruct mu).
    unfold svc. rewrite <- Hop. apply (cluster_step_inv _ _ Hcl), (cs_client (mkCluster (sy_svc c w) (peers g c)) op);
      unfold op; by destruct mu.
  - intros v x nu Hv [(-> & <- & Hv')|?]%Heq; [right|by left]. destruct Hmay as [Hown|[Hold Hrep]].
    + left. exists w. split; [done|]. apply Heq. by left.
    + right. exists w. fold c'. unfold c'. rewrite store_emit_eq. simpl. rewrite app_nil_r. split_and!; [done..|].
      apply covered_apply. by left.
Qed.

(** A step of the leader that keeps its table a release of the announced one, and
    sends that table or the one it had. *)
Lemma leader_inv g c mgr es l :
  system_inv g c → released c (ManagerState.partitions mgr) →
  (∀ q old, old_replicas (ManagerState.partitions mgr) !! q = Some old → old ≠ ∅) →
  (∀ cs, cs ∈ l → cs_partitions cs = ManagerState.partitions (sy_mgr c)) →
  system_inv g (mkSystem (sy_svc c) (sy_wire c) mgr es (sy_snapshots c ++ l) (sy_reports c)).
Proof.
  intros [Hwk Hs Hm Hne Hh] Hm' Hne' Hsn. set (c' := mkSystem _ _ _ _ _ _).
  assert (∀ ps, released c ps → released c' ps) as Hrel by (intros ps; by apply released_mono).
  split; try done.
  - intros w Hw. destruct (Hwk w Hw) as [? ? ? (s & ? & Ht) ? ?]. split; try done. exists s. split; [done|].
    destruct Ht; [by left|right; auto].
  - intros cs [?|Hcs%Hsn]%elem_of_app; [by apply Hrel, Hs|]. rewrite Hcs. by apply Hrel.
  - by apply Hrel.
Qed.

Lemma manager_inv g c now msg mgr es out :
  system_inv g c → manager_accepts c msg →
  ManagerService.dispatch now msg me_m (sy_mgr c) (sy_elections c) = (mgr, es, out) →
  system_inv g (mkSystem (sy_svc c) (sy_wire c) mgr es (sy_snapshots c ++ snapshots_of out) (sy_reports c)).
Proof.
  intros Hi Hacc Hd. pose proof (manager_dispatch_table now msg (sy_mgr c) (sy_elections c)) as Ht. rewrite Hd in Ht.
  destruct Ht as [Hsn Htab]; [by destruct msg|]. pose proof (si_manager _ _ Hi) as Hm. pose proof (si_nonempty _ _ Hi) as Hne.
  assert (released c (ManagerState.partitions mgr) ∧
    ∀ q old, old_replicas (ManagerState.partitions mgr) !! q = Some old → old ≠ ∅) as [Hm' Hne'].
  { destruct Htab as [->|(id & r & p & -> & ->)]; [done|]. simpl in Hacc.
    pose proof (remove_old_partition_exact (sy_mgr c) id r p me_m Hne) as Hex.
    destruct (ManagerState.handle_remove_old_partition _ _ _ _ _) as [s' o]. destruct Hex as (Hold & Hne' & Hmap & Hnew & _).
    simpl. split; [|done]. destruct Hm as [H1 H2 H3 H4]. split; [congruence..|by intros pid n [? _]%Hold; apply H3|].
    intros pid n [Hin|?]%H4; [|by right]. destruct (decide (pid = p ∧ n = r)) as [[-> ->]|]; [by right|left]. by apply Hold. }
  by apply leader_inv.
Qed.

Lemma manager_tick_inv g c i config svc mgr out :
  system_inv g c → ¬ stale_workers (ManagerState.heartbeats (hb_now i) (hb_rnd i) (sy_mgr c) me_m).1 →
  ManagerService.tick i (mkManagerService me_m (Some (sy_mgr c)) (sy_elections c) config) = Some (svc, out) →
  ManagerService.state svc = Some mgr →
  system_inv g (mkSystem (sy_svc c) (sy_wire c) mgr (elections svc) (sy_snapshots c ++ snapshots_of out) (sy_reports c)).
Proof.
  intros Hi Hst Ht Hs. destruct (manager_tick_table i _ _ _ svc out Hst Ht) as [-> Hp]. specialize (Hp mgr Hs).
  apply leader_inv; rewrite ?Hp; [done|exact (si_manager _ _ Hi)|exact (si_nonempty _ _ Hi)|by intros cs ?%not_elem_of_nil].
Qed.

Lemma system_step_inv g c c' :
  announced → system_inv g c → system_step c c' →
  ∃ g', system_inv g' c' ∧ ∀ w x mu, covered (g w) x mu → covered (g' w) x mu.
Proof.
  intros Han Hi. assert (∀ w l v x mu, covered (g v) x mu → covered ((<[w := apply_all l (g w)]> g) v) x mu) as Hgrow.
  { intros w l v x mu Hc. destruct (decide (v = w)) as [->|Hne]; [|by rewrite fn_lookup_insert_ne].
    rewrite fn_lookup_insert. apply covered_apply_all. by right. }
  destruct 1 as [c w now msg svc out Hw Hacc Hn Hm|c w now clk svc out Hw Hk Ht|c w now rid req l1 l2 svc out Hw Hwire Hn Hm
                |c w k mu Hw Hmay Hn|c now msg mgr es out Hacc Hd|c i config svc mgr out Hst Ht Hs].
  - exists g. split; [by eapply message_inv|done].
  - exists g. split; [|done]. destruct (wo_table _ _ _ (si_worker _ _ Hi w Hw)) as (s & Hs & [[Hsy Hid]|Hrel]).
    + by eapply tick_idle_inv.
    + eapply tick_released_inv; eauto.
  - eexists. split; [by eapply deliver_inv|apply Hgrow].
  - eexists. split; [by apply write_inv|apply Hgrow].
  - exists g. split; [by eapply manager_inv|done].
  - exists g. split; [by eapply manager_tick_inv|done].
Qed.

Lemma system_run_inv g c c' :
  announced → system_inv g c → rtc system_step c c' →
  ∃ g', system_inv g' c' ∧ ∀ w x mu, covered (g w) x mu → covered (g' w) x mu.
Proof.
  intros Han Hi Hrun. revert g Hi. induction Hrun as [c|c c1 c2 Hstep _ IH]; intros g Hi; [by exists g|].
  destruct (system_step_inv g c c1 Han Hi Hstep) as (g1 & Hi1 & H1). destruct (IH g1 Hi1) as (g2 & Hi2 & H2).
  exists g2. split; [done|]. auto.
Qed.

(** ** The start: a new assignment, and no transfer open *)

Record started (ps : Partitions) (c : System) : Prop := {
  sr_wire w : sy_wire c w = [];
  sr_reports : sy_reports c = [];
  sr_snapshots cs : cs ∈ sy_snapshots c → cs_partitions cs = B;
  sr_manager : ManagerState.partitions (sy_mgr c) = B;
  sr_worker w : w ∈ W → me_id (me (sy_svc c w)) = w ∧ store_wf (store_of c w) ∧ quiet (store_of c w) ∧
    ∃ s, state (sy_svc c w) = Some s ∧ sync s = ∅ ∧ idle (me (sy_svc c w)) s;
  sr_placed w x mu : w ∈ W → lookup_store x (store_of c w) = Some mu → w ∈ holders ps (Key_partition x);
}.

Lemma released_self c : released c B.
Proof. split; try done. intros pid n ?. by left. Qed.

Lemma started_inv ps c :
  (∀ pid w, w ∈ holders ps pid → w ∈ W → w ∈ old_of B pid) → (∀ q old, old_replicas B !! q = Some old → old ≠ ∅) →
  started ps c → system_inv (store_of c) c.
Proof.
  intros Hold Hne [Hwire Hrep Hsn Hmg Hwk Hpl]. split.
  - intros w Hw. destruct (Hwk w Hw) as (Hme & Hwf & Hq & s & Hs & Hsy & Hid). split; try done.
    + split; [done|]. cbn [cl_svc]. intros s1. rewrite Hs. intros [= <-]. unfold entries_ok, in_range. rewrite Hsy.
      split; [intros ????|intros ??]; by rewrite lookup_empty.
    + exists s. split; [done|]. by left.
  - intros cs ->%Hsn. apply released_self.
  - rewrite Hmg. apply released_self.
  - rewrite Hmg. exact Hne.
  - intros w x mu Hw Hc. apply covered_peer in Hc. simpl in Hc. rewrite Hwire in Hc.
    destruct Hc as [(req & ? & []%not_elem_of_nil & _)|Hc]. pose proof Hc as (mu' & Hx & _).
    right. exists w. rewrite Hrep. split_and!; [apply Hold; [by eapply Hpl|done]|apply not_elem_of_nil|done].
Qed.

(** The worker has the record, at its version or a newer one, once it applied what
    is under way to it. *)
Definition held (c : System) (w : NodeId) (x : Key) (mu : Mutation) : Prop :=
  ∃ mu', lookup_store x (peer_drained (mkPeer (store_of c w) (sy_wire c w))) = Some mu' ∧ version mu <= version mu'.

Lemma safe_held g c x mu :
  announced → system_inv g c → safe g c x mu →
  (∃ v, v ∈ W ∧ held c v x mu) ∧
  (old_of (ManagerState.partitions (sy_mgr c)) (Key_partition x) = ∅ →
   ∃ v, v ∈ owners_of (ManagerState.partitions (sy_mgr c)) (Key_partition x) ∧ held c v x mu).
Proof.
  intros Han Hi Hsafe.
  assert (∀ r, r ∈ owners_of B (Key_partition x) → covered (peer_drained (peers g c r)) x mu → held c r x mu) as Hown.
  { intros r Hr. unfold held. fold (covered (peer_drained (mkPeer (store_of c r) (sy_wire c r))) x mu). rewrite !covered_peer.
    simpl. intros [?|Hc]; [by left|right]. eapply wo_kept; [|done|done]. apply (si_worker _ _ Hi), (an_workers Han (Key_partition x)). by left. }
  assert (∀ w, covered (store_of c w) x mu → held c w x mu) as Hst.
  { intros w Hc. change (covered (peer_drained (mkPeer (store_of c w) (sy_wire c w))) x mu). apply covered_peer. by right. }
  destruct (si_manager _ _ Hi) as [Hmap _ _ Hreport].
  destruct Hsafe as [(r & Hr & Hc)|(w & Hw & Hrep & Hc)].
  - split; [exists r; split; [apply (an_workers Han (Key_partition x)); by left|auto]|]. intros _. exists r. unfold owners_of in *. rewrite Hmap. auto.
  - split; [exists w; split; [apply (an_workers Han (Key_partition x)); by right|auto]|]. intros Hem.
    destruct (Hreport _ _ Hw) as [Hin|]; [|done]. rewrite Hem in Hin. set_solver.
Qed.

End steps.

Lemma Key_partition_range x : 0 <= partition_id_u16 (Key_partition x) < PARTITIONS_AMOUNT.
Proof.
  unfold Key_partition. simpl. pose proof (Z.mod_pos_bound x PARTITIONS_AMOUNT ltac:(done)) as Hm.
  rewrite as_u16_small; [done|]. unfold is_u16, u16_modulus, PARTITIONS_AMOUNT in *. lia.
Qed.

(** What the assignment of a rebalance promises. *)
Lemma rebalance_announced s me_m rf e s' out :
  ManagerState.elected_leader_id s = Some (me_id me_m) → ManagerState.epoch s = Some e → stale_workers s →
  current_workers s ≠ ∅ → 1 <= rf →
  (∀ pid, mapping (ManagerState.partitions s) !! pid = None → new_replicas (ManagerState.partitions s) !! pid = None) →
  worker_partitions s me_m rf = Some (s', out) →
  let B := ManagerState.partitions s' in
  announced (current_workers s) B ∧
  (∀ pid w, w ∈ holders (ManagerState.partitions s) pid → w ∈ current_workers s → w ∈ old_of B pid) ∧
  (∀ q old, old_replicas B !! q = Some old → old ≠ ∅) ∧
  ∀ cs, cs ∈ snapshots_of out → cs_partitions cs = B.
Proof.
  intros Hl He Hst Hne Hrf Hfresh Hwp B.
  destruct (worker_partitions_rebalance s me_m rf e) as (s1 & m & Hwp' & _ & Hb & Hm & Hold & Hnew); [done..|].
  rewrite Hwp in Hwp'. injection Hwp' as <- ->. clear Hwp. fold B in Hm, Hold, Hnew.
  pose proof (worker_list_pos _ Hne) as Hpos.
  pose proof (λ pid, build_mapping_dom rf _ m pid Hpos Hrf Hb) as Hdom.
  pose proof (λ pid q, build_mapping_owners rf _ m pid q Hpos Hrf Hb) as Hown. clear Hb.
  assert (∀ pid w, w ∈ old_of B pid ↔ w ∈ holders (ManagerState.partitions s) pid ∧ w ∈ current_workers s) as Hin.
  { intros pid w. unfold old_of. rewrite Hold. cbv zeta. case_decide as E; simpl; set_solver. }
  assert (∀ x, is_Some (m !! Key_partition x)) as Hkey.
  { intros x. apply Hdom. apply Key_partition_range. }
  split_and!.
  - split.
    + intros x. unfold owners_of. rewrite Hm. destruct (Hkey x) as [q ->]. simpl. unfold owners. set_solver.
    + intros pid n [Hn|Hn]; [|by apply Hin in Hn as [_ ?]]. unfold owners_of in Hn. rewrite Hm in Hn.
      destruct (m !! pid) as [q|] eqn:Eq; simpl in Hn; [|set_solver]. destruct (Hown _ _ Eq) as [_ Hw].
      rewrite <- elem_of_elements, <- worker_list_perm. auto.
    + intros x X n HX Hn. rewrite Hnew in HX. unfold owners_of. rewrite Hm. destruct (Hkey x) as [q Hq]. rewrite Hq in *.
      destruct (mapping (ManagerState.partitions s) !! _) as [q0|] eqn:E0; [|by rewrite (Hfresh _ E0) in HX].
      simplify_eq. simpl. set_solver.
  - intros pid w ? ?. by apply Hin.
  - intros q old Ho. rewrite Hold in Ho. cbv zeta in Ho. case_decide; by simplify_eq.
  - intros cs. unfold snapshots_of. rewrite list_elem_of_omap. intros (msg & (id & -> & _)%list_elem_of_fmap & [= <-]). done.
Qed.


End system.

(** ** A concrete rebalance *)

Definition worker_1 : NodeId := mkNodeId "w1".
Definition rec_0 : Record := mkRecord 0 7 [42].

(** A second worker joined a cluster of one, which has a record of partition 0. *)
Definition fresh_worker (w : NodeId) : WorkerService (gmap Z) (gmap PartitionId) :=
  mkWorkerService (mkMe w "localhost" 7101) (Some (State_new ∅)) (WorkerConfig 7101 ("localhost", 7101) ("localhost", 7001) 300)
    (if decide (w = worker_1) then put 0 rec_0 RuntimeStore_new else RuntimeStore_new).

Definition joined (s : ManagerState.State) (out : list ManagerProtocol.t) : System (M := gmap Z) (D := gmap PartitionId) :=
  mkSystem fresh_worker (λ _, []) s ∅ (snapshots_of out) [].

Lemma fresh_idle self ns : idle self (State_new ns).
Proof.
  intros ns' q. apply set_eq. intros r. rewrite sync_recipients_exact. split; [|set_solver].
  intros (_ & _ & m & Hm & _). simpl in Hm. by rewrite lookup_empty in Hm.
Qed.

Lemma fresh_store w : store_wf (runtime_store (fresh_worker w)) ∧ quiet (runtime_store (fresh_worker w)).
Proof.
  simpl. destruct (decide (w = worker_1)).
  - split; [apply (run_op_wf (OpPut 0 rec_0) RuntimeStore_new); [apply new_wf|vm_compute; reflexivity]|]. apply (quiet_apply 0 (Put rec_0)). by intros q p [=].
  - split; [apply new_wf|]. by intros q p [=].
Qed.

Lemma joined_started s' out :
  (∀ cs, cs ∈ snapshots_of out → cs_partitions cs = ManagerState.partitions s') →
  started (current_workers sample_state) (ManagerState.partitions s') (ManagerState.partitions sample_state) (joined s' out).
Proof.
  intros Hout. split.
  - intros w. reflexivity.
  - reflexivity.
  - exact Hout.
  - reflexivity.
  - intros w _. destruct (fresh_store w). split_and!; [done..|]. exists (State_new ∅). split_and!; [done..|apply fresh_idle].
  - intros w x mu _. unfold store_of. simpl. destruct (decide (w = worker_1)) as [->|]; [|done].
    change (lookup_store x (apply_mutation 0 (Put rec_0) (RuntimeStore_new (M := gmap Z) (D := gmap PartitionId))) = Some mu →
      worker_1 ∈ holders (ManagerState.partitions sample_state) (Key_partition x)).
    rewrite lookup_apply_mutation. case_decide as E; [|done]. intros _. subst x.
    apply (bool_decide_unpack _). vm_compute. exact I.
Qed.


(** ** A report that outlives its assignment

    Worker [wa] owns partition 1 and brings the new replica [wb] up to date.  Its
    report is on the way to the leader when [wb] leaves, [wc] joins and the leader
    moves the partition to [wc], with [wa] as its only source. *)

Definition table_ab : Partitions :=
  mkPartitions {[ part1 := mkPartition worker_a {[ worker_b ]} ]} ∅ {[ part1 := {[ worker_b ]} ]}.

Definition state_replicating : State :=
  mkState (Some 1) (Some manager_m) (<[worker_a := node_of Worker]> {[ worker_b := node_of Worker ]}) table_ab 0
    {[ part1 := {[ worker_b := mkSyncState None 1 (Snapshot 1) true 100 ]} ]} ∅.

Definition leader_m : Me := mkMe manager_m "host-m" 9000.

Definition leader_lost_b : ManagerState.State :=
  ManagerState.mkState (Some 1) (Some manager_m)
    (<[manager_m := node_of Manager]> (<[worker_a := node_of Worker]> {[ worker_c := node_of Worker ]})) table_ab
    {[ worker_a; worker_b ]}.

Lemma leader_lost_b_workers : current_workers leader_lost_b = {[ worker_a; worker_c ]}.
Proof. apply (bool_decide_unpack _). vm_compute. exact I. Qed.

(** A report has no epoch: one made under an earlier assignment releases the only
    source of the next one.  The leader then has no former holder of the partition,
    its only owner counts as new, and whatever table a worker has from here on, nobody
    sends the partition: its records stay with a worker that no client asks. *)
Theorem stale_report_releases_source :
  let rids := get_node_ids_curr_node_has_to_sync_the_partition_to part1 worker_a table_ab (nodes state_replicating) None in
  WorkerProtocol.RemovePartitionFromReplica manager_m worker_a part1 ∈
    (sync_partition clk100 state_replicating store_1 me_wa part1 rids).2 ∧
  lookup_store 1 (sync_partition clk100 state_replicating store_1 me_wa part1 rids).1.2 = Some (Put rec_1) ∧
  ∃ s' out, worker_partitions leader_lost_b leader_m 1 = Some (s', out) ∧
    old_of (ManagerState.partitions s') part1 = {[ worker_a ]} ∧
    owners_of (ManagerState.partitions s') part1 = {[ worker_c ]} ∧
    let s'' := (ManagerState.handle_remove_old_partition s' worker_a worker_a part1 leader_m).1 in
    ∀ w ns synced,
      get_node_ids_curr_node_has_to_sync_the_partition_to part1 w (ManagerState.partitions s'') ns synced = ∅.
Proof.
  split; [vm_compute; constructor|]. split; [vm_compute; reflexivity|].
  destruct (worker_partitions_rebalance leader_lost_b leader_m 1 1) as (s' & m & Hwp & _ & Hb & Hm & Hold & Hnew);
    [reflexivity|reflexivity|..|lia|].
  { unfold stale_workers. rewrite leader_lost_b_workers. apply (bool_decide_unpack _). vm_compute. exact I. }
  { rewrite leader_lost_b_workers. set_solver. }
  eexists s', _. split; [exact Hwp|]. clear Hwp. rewrite leader_lost_b_workers in *.
  assert (m !! part1 = Some (mkPartition worker_c ∅)) as Hp1.
  { rewrite (build_mapping_lookup 1 _ m) with (3 := Hb); [vm_compute; reflexivity|vm_compute; lia|lia]. }
  clear Hb. set (B := ManagerState.partitions s') in *.
  assert (old_replicas B !! part1 = Some {[ worker_a ]}) as Ho by (rewrite Hold; vm_compute; reflexivity).
  assert (new_replicas B !! part1 = Some {[ worker_c ]}) as Hn by (rewrite Hnew, Hp1; vm_compute; reflexivity).
  assert (owners (mkPartition worker_c ∅) = {[ worker_c ]}) as Hc by (apply (bool_decide_unpack _); vm_compute; exact I).
  split_and!; [unfold old_of; by rewrite Ho|unfold owners_of; by rewrite Hm, Hp1|]. intros s'' w ns synced.
  pose proof (remove_old_partition_exact s' worker_a worker_a part1 leader_m) as Hex. fold B in Hex. subst s''.
  destruct (ManagerState.handle_remove_old_partition _ _ _ _ _) as [s'' out].
  destruct Hex as (Hold' & _ & Hmap & Hnew' & _); [intros q old; rewrite Hold; cbv zeta; case_decide; by intros [= <-]|].
  apply set_eq. intros r. rewrite sync_recipients_exact. cbn [fst]. split; [|set_solver].
  intros (_ & _ & q & Hq & Hcase). rewrite Hmap, Hm, Hp1 in Hq. injection Hq as <-. rewrite Hc in Hcase.
  destruct Hcase as [[Hin _]|(_ & Hw & X & HX & Hnot & _)].
  - apply Hold' in Hin as [Hin Hne]. rewrite Ho in Hin. simpl in Hin. set_solver.
  - rewrite Hnew', Hn in HX. injection HX as <-. set_solver.
Qed.
