(* ===== verification/HandoverLiveness.v ===== *)
(** * A handover finishes (worker/service.rs, worker/service/partitions.rs)

    The worker of [WorkerHandover] in a closed loop with the peers it sends to: in
    every exchange the peers apply the batches under way and acknowledge them, and
    the worker's service processes the acknowledgements, a tick after each.  Every
    transfer loses part of what it has left to send in every exchange, so the
    partition is reported as handed over after a bounded number of them. *)

From S2P Require Import Prelude Containers Common RuntimeStore StoreSpec WorkerState WorkerSync WorkerService.
From S2P Require Import WorkerSpec WorkerMigration WorkerTheorems WorkerHandover.

Section liveness.
Context {M : Type → Type} `{!SkipMap M, !SkipMapLaws M}.
Context {D : Type → Type} `{!DashMap PartitionId D, !DashMapLaws PartitionId D}.
Implicit Types st : RuntimeStore M D.

(** ** The closed loop *)

(** Peer [r] applies its batches; its acknowledgements reach the worker's service
    with the peer's identifier. *)
Fixpoint serve (r : NodeId) st (wire : list SyncBatchRequest) : RuntimeStore M D * list WorkerProtocol.t :=
  match wire with
  | [] => (st, [])
  | req :: wire =>
      let '(st, out) := handle_sync_batch req st in
      let '(st, out') := serve r st wire in
      (st, omap (λ m, match m with
                      | WorkerProtocol.SyncBatchResponse _ acks => Some (WorkerProtocol.SyncBatchResponse r acks)
                      | _ => None
                      end) out ++ out')
  end.

(** The service processes one message. *)
Definition turn (t : Z) (acc : Cluster * list WorkerProtocol.t) (msg : WorkerProtocol.t)
    : Cluster (M := M) (D := D) * list WorkerProtocol.t :=
  let '(c, out) := acc in
  let '(svc, o) := process t t (λ _ _ _, t) msg (cl_svc c) in
  (mkCluster svc (send o (cl_peers c)), out ++ o).

(** The peers [rs] answer, at time [t]. *)
Definition exchange (t : Z) (rs : list NodeId) (c : Cluster) : Cluster * list WorkerProtocol.t :=
  let served r := serve r (peer_store (cl_peers c r)) (peer_wire (cl_peers c r)) in
  foldl (turn t)
    (mkCluster (cl_svc c) (λ r, if decide (r ∈ rs) then mkPeer (served r).1 [] else cl_peers c r), [])
    (rs ≫= λ r, (served r).2).

(** A tick at time [T 0] and [n] exchanges at times [T 1], [T 2], ...; with all the
    messages emitted. *)
Fixpoint exchanges (T : nat → Z) (rs : list NodeId) (n : nat) (c : Cluster) : Cluster * list WorkerProtocol.t :=
  match n with
  | O =>
      let '(svc, out) := tick (T 0%nat) (λ _ _ _, T 0%nat) (cl_svc c) in
      (mkCluster svc (send out (cl_peers c)), out)
  | S n =>
      let '(c, out) := exchanges T rs n c in
      let '(c, out') := exchange (T (S n)) rs c in
      (c, out ++ out')
  end.

(** Turns only add to what is emitted and under way. *)
Lemma turns_app t r msgs (c : Cluster (M := M) (D := D)) out :
  let '(c', out') := foldl (turn t) (c, out) msgs in
  ∃ o, out' = out ++ o ∧ peer_wire (cl_peers c r) ⊆ peer_wire (cl_peers c' r).
Proof.
  revert c out. induction msgs as [|m msgs IH]; intros c out; cbn [foldl].
  { exists []. by rewrite app_nil_r. }
  unfold turn at 2. destruct (process _ _ _ _ _) as [svc o1].
  specialize (IH (mkCluster svc (send o1 (cl_peers c))) (out ++ o1)). destruct (foldl _ _ msgs) as [c' out'].
  destruct IH as (o & -> & Hsub). exists (o1 ++ o). split; [by rewrite app_assoc|]. simpl in Hsub. set_solver.
Qed.

(** ** What a batch is acknowledged with *)

Definition batch_ack (req : SyncBatchRequest) (pid : PartitionId) : option Key :=
  max_key (filter (λ k, Key_partition k = pid) (rec_key <$> req_records req)).

Lemma max_key_unique l k : k ∈ l → (∀ x, x ∈ l → x <= k) → max_key l = Some k.
Proof.
  intros Hin Hmax. destruct (max_key l) as [k'|] eqn:E.
  - apply max_key_Some in E as [Hin' Hle]. f_equal. apply Hmax in Hin'. apply Hle in Hin. lia.
  - apply max_key_None in E. subst. by apply not_elem_of_nil in Hin.
Qed.

(** A batch of one partition is acknowledged with its greatest key. *)
Lemma batch_ack_message r self pid l k :
  (∀ x m, (x, m) ∈ l → Key_partition x = pid) → max_key l.*1 = Some k →
  ∃ req, batches_to r [sync_message r self l] = [req] ∧ batch_ack req pid = Some k.
Proof.
  intros Hl Hk. eexists. split; [apply batches_to_message|]. unfold batch_ack. simpl.
  rewrite <-list_fmap_compose. rewrite (list_fmap_ext _ fst) by (intros; apply rec_key_to_domain).
  rewrite (filter_all _ l.*1); [done|]. apply Forall_forall. intros x (m & ? & Hin)%list_elem_of_fmap. subst x. destruct m. by eapply Hl.
Qed.

Lemma sync_batch_ack st r pid after self k out :
  store_wf st → sync_batch st r pid after self = (Some k, out) →
  ∃ req, batches_to r out = [req] ∧ batch_ack req pid = Some k.
Proof.
  intros Hwf. unfold sync_batch. rewrite get_partition_mutations_filter.
  set (l := take SYNC_BATCH_SIZE (filter (after_ok after) (partition_entries pid st))).
  assert (StronglySorted key_lt l) as Hsorted by apply StronglySorted_take, StronglySorted_filter, partition_entries_sorted.
  assert (∀ x m, (x, m) ∈ l → Key_partition x = pid) as Hl.
  { intros x m [_ Hin]%elem_of_take_weak%list_elem_of_filter. by apply (elem_of_partition_entries pid st) in Hin as [? _]. }
  clearbody l. destruct l as [|e l']; [done|]. set (l := e :: l') in *. clearbody l.
  destruct (last l) as [[k' m]|] eqn:Hlast; [|done]. intros [= <- <-]. apply batch_ack_message; [done|]. apply max_key_unique.
  - apply list_elem_of_fmap. exists (k', m). split; [done|]. apply last_Some in Hlast as [l0 ->]. set_solver.
  - intros x ([x' m'] & -> & Hin)%list_elem_of_fmap. simpl.
    destruct (StronglySorted_last_max key_lt l (x', m') (k', m)) as [Hlt|[= -> ->]]; try done; unfold key_lt in *; simpl in *; lia.
Qed.

(** The records of a change batch are of its partition. *)
Lemma change_loop_keys fuel st pid cursor last l :
  store_wf st → change_loop fuel st pid cursor = Some (Some (last, l)) → ∀ x m, (x, m) ∈ l → Key_partition x = pid.
Proof.
  intros Hwf. revert cursor. induction fuel as [|fuel IH]; intros cursor; [done|]. simpl.
  destruct (dm_get pid (cache st)) as [p|] eqn:Hp; [|unfold get_partition_changes; by rewrite Hp].
  pose proof (get_partition_changes_spec pid cursor SYNC_BATCH_SIZE st p) as Hspec.
  destruct (get_partition_changes pid cursor SYNC_BATCH_SIZE st) as [[last1 l1]|]; [|done].
  destruct Hspec as (_ & _ & _ & Hl); [destruct SYNC_BATCH_SIZE_pos; lia|done|].
  destruct l1 as [|e l1]; [apply IH|]. intros [= _ <-] x m [Hx _]%Hl.
  by apply (wf_keys _ _ _ (wf_partition _ Hwf _ _ Hp) _ _ Hx).
Qed.

Lemma sync_change_batch_ack st r pid cursor self last k out :
  store_wf st → sync_change_batch st r pid cursor self = (Some (last, k), out) →
  ∃ req, batches_to r out = [req] ∧ batch_ack req pid = Some k.
Proof.
  intros Hwf. unfold sync_change_batch. destruct (change_loop _ _ _ _) as [[[last1 l]|]|] eqn:E; [|done..].
  destruct (max_key l.*1) as [k'|] eqn:Hk; [|done]. intros [= <- <- <-].
  apply batch_ack_message; [|done]. by eapply change_loop_keys.
Qed.

(** ** One transfer *)

Section transfer.
Context (self : Me) (pid : PartitionId) (r : NodeId) (t : Z).

(** What a transfer that has not begun has to send, plus one. *)
Definition size st : nat :=
  length (partition_entries pid st) +
  match dm_get pid (cache st) with Some p => length (sm_iter (ps_changes p)) | None => 0 end.

Definition potential st (e : option SyncState) : nat :=
  match e with Some y => remaining st pid y | None => S (size st) end.

(** A batch went out at [t] and less than [bound] is left. *)
Definition advanced st (bound : nat) (e : option SyncState) (out : list WorkerProtocol.t) : Prop :=
  ∃ y, e = Some y ∧ confirmed y = false ∧ last_start_time y = t ∧ (remaining st pid y < bound)%nat ∧
    ∃ req, req ∈ batches_to r out ∧ batch_ack req pid = Some (curr_max_key y).

(** A transfer that waits for an acknowledgement keeps waiting, any other advances. *)
Definition moved st (e e' : option SyncState) (out : list WorkerProtocol.t) : Prop :=
  match e with
  | Some y => if confirmed y then advanced st (remaining st pid y) e' out else e' = Some y
  | None => advanced st (S (size st)) e' out
  end.

Definition in_time (e : option SyncState) : Prop :=
  ∀ y, e = Some y → confirmed y = false → t -64 last_start_time y < SYNC_TIMEOUT_MS.

Lemma remaining_size st y : (remaining st pid y <= size st)%nat.
Proof.
  assert (∀ c, (length (pending_changes st pid c) <=
    match dm_get pid (cache st) with Some p => length (sm_iter (ps_changes p)) | None => 0 end)%nat) as Hp.
  { intros c. unfold pending_changes. destruct (dm_get pid (cache st)); [apply length_filter|done]. }
  unfold remaining, size. destruct (phase y) as [c|c q]; [|specialize (Hp q); lia].
  specialize (Hp c). pose proof (length_filter (after_ok (Some (curr_max_key y))) (partition_entries pid st)). lia.
Qed.

Lemma continue_changes_advances y st cursor :
  store_wf st → is_Some (stable_partition_revision pid st) →
  let '(y', out, completed) := continue_changes t y st self pid r cursor in
  completed = true ∨ advanced st (length (pending_changes st pid cursor)) (Some y') out.
Proof.
  intros Hwf [rev Hst]. unfold continue_changes.
  destruct (sync_change_batch st r pid cursor self) as [[[last k]|] out] eqn:E.
  - right. eexists. split; [done|]. split; [done|]. split; [done|]. split; [by eapply sync_change_batch_shrinks|].
    destruct (sync_change_batch_ack _ _ _ _ _ _ _ _ Hwf E) as (req & Hreq & ?). exists req. rewrite Hreq.
    split; [by left|done].
  - rewrite Hst. by left.
Qed.

Lemma recipient_moves rs st :
  store_wf st → is_Some (stable_partition_revision pid st) → in_time (rs !! r) →
  let '(rs', out, completed) := sync_partition_to_recipient (λ _ _ _, t) rs st self pid r in
  completed = true ∨ moved st (rs !! r) (rs' !! r) out.
Proof.
  intros Hwf Hst Htime. unfold sync_partition_to_recipient, start_sync.
  assert (∀ y bound out req, confirmed y = false → last_start_time y = t → (remaining st pid y < bound)%nat →
    batches_to r out = [req] → batch_ack req pid = Some (curr_max_key y) → advanced st bound (Some y) out) as Hadv.
  { intros y bound out req ??? Hreq ?. exists y. split_and!; try done. exists req. rewrite Hreq. split; [by left|done]. }
  destruct (rs !! r) as [y|] eqn:Hy; [destruct (confirmed y) eqn:Hc|].
  - unfold continue_confirmed_sync. unfold moved. rewrite Hc. destruct (phase y) as [c|c q] eqn:Hp.
    + destruct (sync_batch st r pid (Some (curr_max_key y)) self) as [[k|] out] eqn:E.
      * destruct (sync_batch_ack _ _ _ _ _ _ _ Hwf E) as (req & ? & ?). right. rewrite lookup_insert_eq.
        eapply Hadv; try done. unfold remaining. simpl. rewrite Hp. apply sync_batch_shrinks in E. lia.
      * pose proof (continue_changes_advances y st c Hwf Hst) as Hch.
        assert (out = []) as -> by (by pose proof (sync_batch_spec st r pid (Some (curr_max_key y)) self Hwf) as Hs; rewrite E in Hs; destruct Hs).
        destruct (continue_changes _ _ _ _ _ _ _) as [[y' out'] completed]. destruct Hch as [?|(y1 & [= <-] & ? & ? & Hlt & ?)]; [by left|].
        right. rewrite lookup_insert_eq. exists y'. split_and!; try done. unfold remaining at 2. rewrite Hp. lia.
    + pose proof (continue_changes_advances y st q Hwf Hst) as Hch.
      destruct (continue_changes _ _ _ _ _ _ _) as [[y' out'] completed]. destruct Hch as [?|Hch]; [by left|].
      right. rewrite lookup_insert_eq. unfold remaining. by rewrite Hp.
  - unfold moved. rewrite Hc. unfold retry_timed_out_sync. specialize (Htime y eq_refl Hc).
    assert ((t -64 last_start_time y <? SYNC_TIMEOUT_MS) = true) as -> by lia. right. by rewrite lookup_insert_eq.
  - destruct Hst as [rev Hst]. rewrite Hst. destruct (sync_batch st r pid None self) as [[k|] out] eqn:E.
    + destruct (sync_batch_ack _ _ _ _ _ _ _ Hwf E) as (req & ? & ?). right. rewrite lookup_insert_eq.
      eapply Hadv; try done. pose proof (remaining_size st (mkSyncState None k (Snapshot rev) false t)). lia.
    + left. by apply bool_decide_eq_true.
Qed.

(** ** A pass over the partitions *)

Definition entry (s : State) : option SyncState := sync s !! pid ≫= λ rs, rs !! r.

Definition reported (out : list WorkerProtocol.t) : Prop :=
  ∃ leader, WorkerProtocol.RemovePartitionFromReplica leader (me_id self) pid ∈ out.

(** Membership, leader and table stay; a completion is recorded for the partition
    only when it is reported. *)
Record stays (s s' : State) (out : list WorkerProtocol.t) : Prop := {
  sy_nodes : nodes s' = nodes s;
  sy_partitions : partitions s' = partitions s;
  sy_leader : elected_leader_id s' = elected_leader_id s;
  sy_time : partitions_last_update_time s' = partitions_last_update_time s;
  sy_completion : reported out ∨ actual_nodes_sync_completion s' !! pid = actual_nodes_sync_completion s !! pid;
}.

Lemma reported_app out out' : reported (out ++ out') ↔ reported out ∨ reported out'.
Proof.
  unfold reported. split.
  - intros (l & [?|?]%elem_of_app); [left|right]; eauto.
  - intros [(l & ?)|(l & ?)]; exists l; apply elem_of_app; auto.
Qed.

Lemma stays_refl s : stays s s [].
Proof. split; try done. by right. Qed.

Lemma stays_trans s1 s2 s3 o1 o2 : stays s1 s2 o1 → stays s2 s3 o2 → stays s1 s3 (o1 ++ o2).
Proof.
  intros [] []. split; try congruence. rewrite reported_app.
  destruct sy_completion0; [tauto|]. destruct sy_completion1; [tauto|]. right. congruence.
Qed.

Lemma advanced_app st bound e out out1 out2 : advanced st bound e out → advanced st bound e (out1 ++ out ++ out2).
Proof.
  intros (y & ? & ? & ? & ? & req & ? & ?). exists y. split_and!; try done. exists req. split; [|done].
  rewrite !batches_to_app, !elem_of_app. tauto.
Qed.

Lemma moved_app st e e' out out1 out2 : moved st e e' out → moved st e e' (out1 ++ out ++ out2).
Proof. unfold moved. destruct e as [y|]; [destruct (confirmed y)|]; try done; apply advanced_app. Qed.

Lemma default_lookup (m : option (gmap NodeId SyncState)) x : default ∅ m !! x = m ≫= λ rs, rs !! x.
Proof. destruct m; [done|apply lookup_empty]. Qed.

(** The end of a turn for a recipient: its new state is stored, and a completed
    transfer is reported. *)
Lemma recipient_stored (q : PartitionId) (r' : NodeId) (s : State) rs out1 (completed : bool) :
  is_Some (elected_leader_id s) →
  let s1 := set_sync (<[q := rs]> (sync s)) s in
  let '(s', o) := if completed then record_completed_sync s1 self q r' else (s1, []) in
  stays s s' (out1 ++ o) ∧ sync s' = <[q := rs]> (sync s) ∧ (completed = true → q = pid → reported o).
Proof.
  intros [leader Hl] s1. destruct completed.
  - unfold record_completed_sync. cbn [elected_leader_id set_sync s1]. rewrite Hl.
    assert (q = pid → reported [WorkerProtocol.RemovePartitionFromReplica leader (me_id self) q]) as Hrep.
    { intros ->. exists leader. by left. }
    split_and!; [|by destruct (node_owns_partition _ _ _)|done].
    split; try (by destruct (node_owns_partition _ _ _)). rewrite reported_app.
    destruct (decide (q = pid)) as [->|Hne]; [left; right; by apply Hrep|right].
    destruct (node_owns_partition _ _ _); [|done]. simpl. by rewrite lookup_insert_ne.
  - split_and!; try done. split; try done. by right.
Qed.

Lemma sync_recipient_stays q r' st s out :
  is_Some (elected_leader_id s) →
  let '(s', out') := sync_recipient (λ _ _ _, t) st self q (s, out) r' in
  ∃ o, out' = out ++ o ∧ stays s s' o ∧ (q ≠ pid ∨ r' ≠ r → entry s' = entry s).
Proof.
  intros Hl. unfold sync_recipient.
  pose proof (λ x, sync_to_recipient_other self (λ _ _ _, t) q (default ∅ (sync s !! q)) st r' x) as Hoth.
  destruct (sync_partition_to_recipient _ _ _ _ _ _) as [[rs out1] completed]. simpl in Hoth.
  pose proof (recipient_stored q r' s rs out1 completed Hl) as Hst. cbv zeta in Hst.
  assert (∀ s', sync s' = <[q := rs]> (sync s) → q ≠ pid ∨ r' ≠ r → entry s' = entry s) as Hentry.
  { intros s' Hs Hne. unfold entry. rewrite Hs. destruct (decide (q = pid)) as [->|Hq]; [|by rewrite lookup_insert_ne].
    rewrite lookup_insert_eq. simpl. rewrite Hoth by naive_solver. apply default_lookup. }
  destruct completed.
  - destruct (record_completed_sync _ _ _ _) as [s' o]. destruct Hst as (? & ? & _). exists (out1 ++ o). auto.
  - destruct Hst as (? & ? & _). rewrite app_nil_r in *. exists out1. auto.
Qed.

Lemma sync_recipients_stay q st l s out :
  is_Some (elected_leader_id s) → q ≠ pid ∨ r ∉ l →
  let '(s', out') := foldl (sync_recipient (λ _ _ _, t) st self q) (s, out) l in
  ∃ o, out' = out ++ o ∧ stays s s' o ∧ entry s' = entry s.
Proof.
  revert s out. induction l as [|r' l IH]; intros s out Hl Hne; cbn [foldl].
  { exists []. rewrite app_nil_r. split; [done|]. split; [apply stays_refl|done]. }
  pose proof (sync_recipient_stays q r' st s out Hl) as H1.
  destruct (sync_recipient _ _ _ _ _ r') as [s1 out1]. destruct H1 as (o1 & -> & Hs1 & He1).
  specialize (IH s1 (out ++ o1)). destruct (foldl _ _ l) as [s2 out2].
  destruct IH as (o2 & -> & Hs2 & He2); [by rewrite (sy_leader _ _ _ Hs1)|set_solver|].
  exists (o1 ++ o2). split; [by rewrite app_assoc|]. split; [by eapply stays_trans|].
  rewrite He2. apply He1. set_solver.
Qed.

(** The pass over the recipients of the partition. *)
Lemma sync_recipients_move st l s :
  store_wf st → is_Some (stable_partition_revision pid st) → in_time (entry s) → is_Some (elected_leader_id s) →
  NoDup l → r ∈ l →
  let '(s', out) := foldl (sync_recipient (λ _ _ _, t) st self pid) (s, []) l in
  stays s s' out ∧ (reported out ∨ moved st (entry s) (entry s') out).
Proof.
  intros Hwf Hst Htime Hl Hnd (l1 & l2 & ->)%list_elem_of_split.
  apply NoDup_app in Hnd as (_ & Hn1 & [Hn2 _]%NoDup_cons). rewrite foldl_app. cbn [foldl].
  pose proof (sync_recipients_stay pid st l1 s [] Hl) as H1.
  destruct (foldl _ _ l1) as [s1 out1]. destruct H1 as (o1 & -> & Hs1 & He1); [right; intros Hin; apply (Hn1 r Hin); by left|].
  cbn [app]. unfold sync_recipient at 2.
  pose proof (recipient_moves (default ∅ (sync s1 !! pid)) st Hwf Hst) as Hm.
  rewrite default_lookup in Hm. fold (entry s1) in Hm. rewrite He1 in Hm. specialize (Hm Htime).
  destruct (sync_partition_to_recipient _ _ _ _ _ _) as [[rs out] completed].
  pose proof (recipient_stored pid r s1 rs out completed) as Hst2. cbv zeta in Hst2.
  rewrite (sy_leader _ _ _ Hs1) in Hst2. specialize (Hst2 Hl).
  assert (∀ s2 o, stays s1 s2 (out ++ o) → sync s2 = <[pid := rs]> (sync s1) → (completed = true → reported o) →
    let '(s', out') := foldl (sync_recipient (λ _ _ _, t) st self pid) (s2, o1 ++ out ++ o) l2 in
    stays s s' out' ∧ (reported out' ∨ moved st (entry s) (entry s') out')) as Hrest.
  { intros s2 o Hs2 Hsync Hrep. pose proof (sync_recipients_stay pid st l2 s2 (o1 ++ out ++ o)) as H3.
    destruct (foldl _ _ l2) as [s3 out3]. destruct H3 as (o3 & -> & Hs3 & He3); [|by right|].
    { by rewrite (sy_leader _ _ _ Hs2), (sy_leader _ _ _ Hs1). }
    split; [by eapply stays_trans; [eapply stays_trans|]|]. destruct Hm as [Hc|Hm].
    - left. rewrite !reported_app. left; right; right. by apply Hrep.
    - right. rewrite He3. unfold entry at 2. rewrite Hsync, lookup_insert_eq. simpl.
      rewrite <-!app_assoc. by apply moved_app. }
  destruct completed.
  - destruct (record_completed_sync _ _ _ _) as [s2 o]. destruct Hst2 as (? & ? & Hr). apply Hrest; auto.
  - destruct Hst2 as (? & ? & Hr). rewrite app_nil_r in *. specialize (Hrest _ [] ltac:(by rewrite app_nil_r) ltac:(done) ltac:(done)).
    by rewrite app_nil_r in Hrest.
Qed.

(** Pruning what the transfer does not need leaves it as much to send. *)
Lemma remaining_frame st st' y : dm_get pid (cache st') = dm_get pid (cache st) → remaining st' pid y = remaining st pid y.
Proof. intros Hd. unfold remaining, partition_entries, pending_changes. by rewrite Hd. Qed.

Lemma remaining_prune st through y :
  through <= phase_floor (phase y) → phase_bounded st y →
  remaining (prune_partition_changes pid through st) pid y = remaining st pid y.
Proof.
  intros Hth Hb. destruct (dm_get_prune pid through st pid) as [Hd|(_ & p & c & Hp & Hd & Hc)]; [by apply remaining_frame|].
  assert (∀ cursor, through <= cursor →
    pending_changes (prune_partition_changes pid through st) pid cursor = pending_changes st pid cursor) as Hpend.
  { intros cursor Hcur. unfold pending_changes. rewrite Hd, Hp. simpl.
    apply sorted_ext; try (by apply StronglySorted_filter, sm_iter_sorted).
    intros [x k]. rewrite !list_elem_of_filter, !sm_iter_get, Hc. simpl. split; [|intros [? ?]; split; [done|]; by assert ((through <? x) = true) as -> by lia].
    intros [? Hx]. destruct (through <? x); naive_solver. }
  unfold remaining, phase_bounded in *. unfold partition_entries. rewrite Hd, Hp. simpl.
  destruct (phase y); simpl in *; rewrite Hpend by lia; done.
Qed.

Lemma moved_waits st e e' out : moved st e e' out → ∃ y, e' = Some y ∧ confirmed y = false.
Proof.
  unfold moved, advanced. destruct e as [y|]; [destruct (confirmed y) eqn:Hc|]; naive_solver.
Qed.

Lemma entry_drop_lost s : is_Some (nodes s !! r) → entry (drop_lost pid s) = entry s.
Proof.
  intros [n Hn]. unfold entry, drop_lost. destruct (sync s !! pid) as [rs|] eqn:E; [|by rewrite E].
  simpl. rewrite lookup_insert_eq. simpl. rewrite lookup_map_retain. destruct (rs !! r); simpl; [|done]. by rewrite Hn.
Qed.

Lemma stays_drop_lost q s s' out : stays (drop_lost q s) s' out → stays s s' out.
Proof. intros []. unfold drop_lost in *. destruct (sync s !! q); by split. Qed.

Lemma stays_drop_confirmed q s s' out : stays s s' out → stays s (drop_confirmed q s') out.
Proof. intros []. unfold drop_confirmed. destruct (sync s' !! q); by split. Qed.

(** The pass over the partition: the transfer is reported, or it moved and the
    journal it needs is still there. *)
Lemma sync_partition_moves rids s st w :
  store_wf st → entries_ok s st w → (∀ x, x ∈ rids → is_Some (nodes s !! x)) → r ∈ rids →
  is_Some (stable_partition_revision pid st) → in_time (entry s) → is_Some (elected_leader_id s) →
  let '(s', st', out) := sync_partition (λ _ _ _, t) s st self pid rids in
  stays s s' out ∧ is_Some (stable_partition_revision pid st') ∧
  (reported out ∨ moved st (entry s) (entry s') out ∧ ∀ y, entry s' = Some y → remaining st' pid y = remaining st pid y).
Proof.
  intros Hwf He Hknown Hr Hst Htime Hl. pose proof (sync_partition_shape self (λ _ _ _, t) pid rids s st) as Hshape.
  pose proof (sync_recipients_ok self (λ _ _ _, t) pid st w (elements rids) (drop_lost pid s) Hwf
    (drop_lost_entries pid _ _ _ He) (NoDup_elements rids)) as Hok.
  pose proof (sync_recipients_move st (elements rids) (drop_lost pid s) Hwf Hst) as Hm.
  rewrite entry_drop_lost in Hm by auto. specialize (Hm Htime).
  destruct (foldl _ _ (elements rids)) as [s2 out2], (sync_partition _ _ _ _ _ _) as [[s' st'] out].
  destruct Hshape as (-> & -> & Hp), Hok as [Hent _ _ _ _ _ _].
  destruct Hm as [Hstay Hm]; [by unfold drop_lost; destruct (sync s !! pid)|apply NoDup_elements|by apply elem_of_elements|].
  split_and!.
  - apply stays_drop_lost in Hstay. by apply stays_drop_confirmed.
  - destruct Hp as [->|(through & -> & _)]; [done|]. unfold stable_partition_revision in *.
    destruct (dm_get_prune pid through st pid) as [->|(_ & p & c & Hp & -> & _)]; [done|]. by rewrite Hp in Hst.
  - destruct Hm as [?|Hm]; [by left|right]. destruct (moved_waits _ _ _ _ Hm) as (y & Hy & Hc).
    assert (entry (drop_confirmed pid s2) = Some y) as Hy3.
    { unfold entry, drop_confirmed in *. destruct (sync s2 !! pid) as [rs2|]; [|done]. simpl in *.
      rewrite lookup_insert_eq. simpl. rewrite lookup_map_retain, Hy. simpl. by rewrite Hc. }
    split; [by rewrite Hy3, <-Hy|]. intros y'. rewrite Hy3. intros [= <-].
    destruct Hp as [->|(through & -> & Hth)]; [done|]. apply remaining_prune.
    + apply (Hth r). by rewrite default_lookup.
    + unfold entry in Hy. destruct (sync s2 !! pid) as [rs2|] eqn:E2; [|done]. by destruct (Hent _ _ _ _ E2 Hy).
Qed.

(** The pass over another partition. *)
Lemma sync_partition_stays q rids s st :
  q ≠ pid → is_Some (elected_leader_id s) →
  let '(s', st', out) := sync_partition (λ _ _ _, t) s st self q rids in
  stays s s' out ∧ entry s' = entry s ∧ dm_get pid (cache st') = dm_get pid (cache st).
Proof.
  intros Hne Hl. pose proof (sync_partition_shape self (λ _ _ _, t) q rids s st) as Hshape.
  pose proof (sync_recipients_stay q st (elements rids) (drop_lost q s) []) as Hs.
  destruct (foldl _ _ (elements rids)) as [s2 out2], (sync_partition _ _ _ _ _ _) as [[s' st'] out].
  destruct Hs as (o & Ho & Hs & He); [by unfold drop_lost; destruct (sync s !! q)|by left|].
  destruct Hshape as (-> & -> & Hp). simpl in Ho. subst o. apply stays_drop_lost in Hs. split_and!.
  - by apply stays_drop_confirmed.
  - transitivity (entry s2); [|rewrite He]; unfold entry, drop_confirmed, drop_lost; case_match; simpl; rewrite ?lookup_insert_ne; done.
  - destruct Hp as [->|(through & -> & _)]; [done|by apply dm_get_prune_ne].
Qed.

Lemma passes_stay synced l s st out w :
  pid ∉ l → store_wf st → entries_ok s st (send out w) → is_Some (elected_leader_id s) →
  let '(s', st', out') := foldl (sync_one_partition (λ _ _ _, t) synced self) (s, st, out) l in
  ∃ o, out' = out ++ o ∧ stays s s' o ∧ entry s' = entry s ∧ dm_get pid (cache st') = dm_get pid (cache st) ∧
    store_wf st' ∧ entries_ok s' st' (send out' w).
Proof.
  revert s st out. induction l as [|q l IH]; intros s st out Hni Hwf He Hl; cbn [foldl].
  { exists []. rewrite app_nil_r. split_and!; try done. apply stays_refl. }
  apply not_elem_of_cons in Hni as [Hne Hni]. unfold sync_one_partition at 2. fold (recipients self synced s q).
  pose proof (sync_partition_ok self (λ _ _ _, t) q (recipients self synced s q) s st (send out w) Hwf He
    (recipients_known self synced s q)) as Hok.
  pose proof (sync_partition_stays q (recipients self synced s q) s st (not_eq_sym Hne) Hl) as Hs.
  destruct (sync_partition _ _ _ _ _ _) as [[s1 st1] o1]. destruct Hok as [Hwf1 He1 _ _ _ _ _ _ _], Hs as (Hs & Hentry & Hdm).
  specialize (IH s1 st1 (out ++ o1) Hni Hwf1). destruct (foldl _ _ l) as [[s2 st2] out2].
  destruct IH as (o2 & -> & Hs2 & Hentry2 & Hdm2 & ?).
  { eapply entries_ok_mono; [|done]. intros x. by rewrite send_app. }
  { by rewrite (sy_leader _ _ _ Hs). }
  exists (o1 ++ o2). split_and!; [by rewrite app_assoc|by eapply stays_trans|congruence|congruence|tauto..].
Qed.

Lemma moved_frame st st' e e' out :
  dm_get pid (cache st') = dm_get pid (cache st) → moved st' e e' out → moved st e e' out.
Proof.
  intros Hd. unfold moved, advanced, remaining, size, partition_entries, pending_changes. by rewrite Hd.
Qed.

Lemma passes_move synced l s st w :
  NoDup l → pid ∈ l → store_wf st → entries_ok s st w → is_Some (stable_partition_revision pid st) →
  in_time (entry s) → is_Some (elected_leader_id s) → r ∈ recipients self synced s pid →
  let '(s', st', out) := foldl (sync_one_partition (λ _ _ _, t) synced self) (s, st, []) l in
  stays s s' out ∧ is_Some (stable_partition_revision pid st') ∧
  (reported out ∨ moved st (entry s) (entry s') out ∧ ∀ y, entry s' = Some y → remaining st' pid y = remaining st pid y).
Proof.
  intros Hnd (l1 & l2 & ->)%list_elem_of_split Hwf He Hst Htime Hl Hr.
  apply NoDup_app in Hnd as (_ & Hn1 & [Hn2 _]%NoDup_cons). rewrite foldl_app. cbn [foldl].
  pose proof (passes_stay synced l1 s st [] w) as H1. destruct (foldl _ _ l1) as [[s1 st1] out1].
  destruct H1 as (o1 & -> & Hs1 & Hentry1 & Hd1 & Hwf1 & He1); [|done| |done|].
  { intros Hin. apply (Hn1 pid Hin). by left. }
  { eapply entries_ok_mono; [|done]. intros x. apply peer_le_send. }
  unfold sync_one_partition at 2. rewrite (sy_partitions _ _ _ Hs1), (sy_nodes _ _ _ Hs1). fold (recipients self synced s pid).
  assert (∀ x, x ∈ recipients self synced s pid → is_Some (nodes s1 !! x)) as Hk.
  { intros x. rewrite (sy_nodes _ _ _ Hs1). apply recipients_known. }
  pose proof (sync_partition_ok self (λ _ _ _, t) pid _ s1 st1 (send o1 w) Hwf1 He1 Hk) as Hok.
  pose proof (sync_partition_moves _ s1 st1 (send o1 w) Hwf1 He1 Hk Hr) as Hm.
  rewrite (stable_frame pid st st1), Hentry1, (sy_leader _ _ _ Hs1) in Hm by done. specialize (Hm Hst Htime Hl).
  destruct (sync_partition _ _ _ _ _ _) as [[s2 st2] o2]. destruct Hok as [Hwf2 He2 _ _ _ _ _ _ _], Hm as (Hs2 & Hst2 & Hm).
  pose proof (passes_stay synced l2 s2 st2 (o1 ++ o2) w Hn2 Hwf2) as H3. cbn [app] in *.
  destruct (foldl _ _ l2) as [[s3 st3] out3]. destruct H3 as (o3 & -> & Hs3 & Hentry3 & Hd3 & _).
  { eapply entries_ok_mono; [|done]. intros x. by rewrite send_app. }
  { by rewrite (sy_leader _ _ _ Hs2), (sy_leader _ _ _ Hs1). }
  split_and!; [by eapply stays_trans; [eapply stays_trans|]|by rewrite (stable_frame pid st2)|].
  rewrite !reported_app. destruct Hm as [?|[Hm Hrem]]; [tauto|right]. rewrite Hentry3. split.
  - rewrite <-app_assoc. apply moved_app. by apply (moved_frame st st1).
  - intros y Hy. rewrite (remaining_frame st2 st3), Hrem by done. by apply remaining_frame.
Qed.

(** The clean-up leaves an open transfer alone. *)
Lemma cleanup_stays s st :
  let '(s', st') := remove_completed_syncs_and_obsolete_partitions s st self in
  stays s s' [] ∧ (is_Some (stable_partition_revision pid st) → is_Some (stable_partition_revision pid st')) ∧
  ∀ y, entry s = Some y → entry s' = Some y ∧ remaining st' pid y = remaining st pid y.
Proof.
  unfold remove_completed_syncs_and_obsolete_partitions.
  set (f := λ py : PartitionId * gmap NodeId SyncState,
    bool_decide (py.2 = ∅) && negb (node_owns_partition (partitions s) py.1 (me_id self))).
  destruct (fold_remove_frame f (map_to_list (sync s)) st) as (_ & _ & Hd). split_and!.
  - split; try done. by right.
  - intros Hst. destruct (fold_remove_get f (map_to_list (sync s)) st pid) as [E|E].
    + erewrite stable_frame; [exact Hst|exact E].
    + unfold stable_partition_revision. unfold f in E. cbn beta in E. by rewrite E.
  - intros y. unfold entry. simpl. rewrite lookup_map_retain. destruct (sync s !! pid) as [rs|] eqn:E; [|done]. simpl.
    intros Hy. assert (rs ≠ ∅) as Hne by (intros ->; by rewrite lookup_empty in Hy).
    rewrite bool_decide_false by done. simpl. split; [done|]. apply remaining_frame, Hd.
    intros [q rs'] Hin%elem_of_map_to_list Hf Heq. simpl in *. subst q. unfold f in Hf. simpl in Hf.
    apply andb_true_iff in Hf as [Hf%bool_decide_eq_true _]. congruence.
Qed.

(** ** A tick *)

(** The worker has to send the partition to [r], knows a leader, and no writer is
    active in the partition. *)
Record ready (c : Cluster (M := M) (D := D)) (s : State) : Prop := {
  rd_inv : cluster_inv c;
  rd_me : me (cl_svc c) = self;
  rd_state : state (cl_svc c) = Some s;
  rd_leader : is_Some (elected_leader_id s);
  rd_recipient : r ∈ recipients self (get_currently_synced_actual_nodes s) s pid;
  rd_stable : is_Some (stable_partition_revision pid (runtime_store (cl_svc c)));
}.

Lemma recipients_stay s s' :
  partitions s' = partitions s → partitions_last_update_time s' = partitions_last_update_time s →
  actual_nodes_sync_completion s' !! pid = actual_nodes_sync_completion s !! pid →
  (∀ x, is_Some (nodes s' !! x) ↔ is_Some (nodes s !! x)) →
  recipients self (get_currently_synced_actual_nodes s') s' pid = recipients self (get_currently_synced_actual_nodes s) s pid.
Proof.
  intros Hp Ht Hc Hn. unfold recipients, get_node_ids_curr_node_has_to_sync_the_partition_to.
  assert (get_currently_synced_actual_nodes s' !! pid = get_currently_synced_actual_nodes s !! pid) as ->.
  { unfold get_currently_synced_actual_nodes. by rewrite !lookup_omap, Hc, Ht. }
  rewrite Hp. apply set_eq. intros x. rewrite !elem_of_filter. by rewrite Hn.
Qed.

Lemma heartbeats_stay now s :
  let '(s', _) := heartbeats now s self in
  elected_leader_id s' = elected_leader_id s ∧ partitions_last_update_time s' = partitions_last_update_time s ∧
  actual_nodes_sync_completion s' = actual_nodes_sync_completion s.
Proof. unfold heartbeats. by destruct (nodes s !! me_id self); [destruct (_ && _)|]. Qed.

Lemma tick_moves now c s svc out :
  pid ∈ partition_range PARTITIONS_AMOUNT → ready c s → in_time (entry s) →
  tick now (λ _ _ _, t) (cl_svc c) = (svc, out) →
  reported out ∨ ∃ s', ready (mkCluster svc (send out (cl_peers c))) s' ∧
    moved (runtime_store (cl_svc c)) (entry s) (entry s') out ∧
    ∀ y, entry s' = Some y → remaining (runtime_store svc) pid y = remaining (runtime_store (cl_svc c)) pid y.
Proof.
  intros Hpid [Hinv Hme Hs Hl Hr Hst] Htime Ht. destruct c as [svc0 w]. simpl in *.
  pose proof (tick_inv now (λ _ _ _, t) svc0 w svc out Hinv Ht) as Hinv'. destruct Hinv as [Hwf Hent].
  destruct (Hent s Hs) as [He _]. simpl in He, Hwf. unfold tick in Ht. rewrite Hs, Hme in Ht.
  pose proof (heartbeats_keep self now s) as Hk. pose proof (heartbeats_stay now s) as Hk'.
  destruct (heartbeats now s self) as [s1 out1]. destruct Hk as (Hsy & Hp & Hcs & Hn & _ & _), Hk' as (Hl1 & Ht1 & Hc1).
  assert (recipients self (get_currently_synced_actual_nodes s1) s1 pid =
          recipients self (get_currently_synced_actual_nodes s) s pid) as Hrc
    by (apply recipients_stay; [done..| |done]; by rewrite Hc1).
  assert (entry s1 = entry s) as He1 by (unfold entry; by rewrite Hsy).
  unfold sync_partitions in Ht.
  pose proof (passes_move (get_currently_synced_actual_nodes s1) (partition_range PARTITIONS_AMOUNT) s1 (runtime_store svc0) w
    ltac:(by apply NoDup_partition_range) Hpid Hwf) as Hm.
  unfold entries_ok in Hm. rewrite Hsy, He1, Hl1, Hrc in Hm. specialize (Hm He Hst Htime Hl Hr). revert Hm Ht.
  generalize (partition_range PARTITIONS_AMOUNT). intros l Hm.
  destruct (foldl _ _ l) as [[s2 st2] out2]. destruct Hm as (Hs2 & Hst2 & Hm).
  pose proof (cleanup_stays s2 st2) as Hc. destruct (remove_completed_syncs_and_obsolete_partitions s2 st2 self) as [s3 st3].
  destruct Hc as (Hs3 & Hst3 & Hentry3). intros [= <- <-].
  destruct (decide (actual_nodes_sync_completion s3 !! pid = actual_nodes_sync_completion s1 !! pid)) as [Hcomp|Hcomp]; last first.
  { left. rewrite reported_app. right. pose proof (stays_trans _ _ _ _ _ Hs2 Hs3) as Hs13. rewrite app_nil_r in Hs13.
    by destruct (sy_completion _ _ _ Hs13). }
  destruct Hm as [?|[Hm Hrem]]; [left; rewrite reported_app; by right|right].
  destruct (moved_waits _ _ _ _ Hm) as (y & Hy & _). destruct (Hentry3 y Hy) as [Hy3 Hrem3].
  exists s3. split; [|split].
  - split; simpl; try done.
    + by rewrite (sy_leader _ _ _ Hs3), (sy_leader _ _ _ Hs2), Hl1.
    + rewrite (recipients_stay s1 s3), Hrc; [done|..].
      * by rewrite (sy_partitions _ _ _ Hs3), (sy_partitions _ _ _ Hs2).
      * by rewrite (sy_time _ _ _ Hs3), (sy_time _ _ _ Hs2).
      * done.
      * intros x. by rewrite (sy_nodes _ _ _ Hs3), (sy_nodes _ _ _ Hs2).
    + by apply Hst3.
  - rewrite Hy3, <-Hy. rewrite <-(app_nil_r out2). by apply moved_app.
  - intros y'. rewrite Hy3. intros [= <-]. etrans; [apply Hrem3|]. by apply Hrem.
Qed.

(** ** An acknowledgement *)

Definition matches (y : SyncState) (msg : WorkerProtocol.t) : Prop :=
  ∃ acks, msg = WorkerProtocol.SyncBatchResponse r acks ∧ acks !! pid = Some (curr_max_key y).

(** The transfer waits for an acknowledgement, in time. *)
Record waiting (c : Cluster (M := M) (D := D)) (s : State) (y : SyncState) : Prop := {
  wt_ready : ready c s;
  wt_entry : entry s = Some y;
  wt_open : confirmed y = false;
  wt_time : t -64 last_start_time y < SYNC_TIMEOUT_MS;
}.

(** Its batch is under way. *)
Definition on_wire (c : Cluster (M := M) (D := D)) (y : SyncState) : Prop :=
  ∃ req, req ∈ peer_wire (cl_peers c r) ∧ batch_ack req pid = Some (curr_max_key y).

Definition left_of (c : Cluster (M := M) (D := D)) (y : SyncState) : nat := remaining (runtime_store (cl_svc c)) pid y.

Lemma ack_inv c s acks x :
  cluster_inv c → state (cl_svc c) = Some s →
  cluster_inv (mkCluster (mkWorkerService (me (cl_svc c)) (Some (handle_sync_batch_response s acks x)) (config (cl_svc c))
    (runtime_store (cl_svc c))) (cl_peers c)).
Proof.
  intros [Hwf Hent] Hs. destruct (Hent s Hs) as [He Hrg]. split; simpl; [done|]. intros s' [= <-].
  split; [by apply ack_entries|]. intros q rs Hq.
  destruct (ack_keys x (sync s) (map_to_list acks) q) as [rs0 ?]; [by exists rs|by eapply Hrg].
Qed.

(** A confirmed transfer advances in the tick that follows; any other
    acknowledgement changes nothing for it. *)
Lemma process_moves c s y x acks svc out :
  pid ∈ partition_range PARTITIONS_AMOUNT → waiting c s y →
  process t t (λ _ _ _, t) (WorkerProtocol.SyncBatchResponse x acks) (cl_svc c) = (svc, out) →
  let c' := mkCluster svc (send out (cl_peers c)) in
  reported out ∨ ∃ s' y', waiting c' s' y' ∧
    (y' = y ∧ left_of c' y = left_of c y ∧ ¬ matches y (WorkerProtocol.SyncBatchResponse x acks) ∨
     (left_of c' y' < left_of c y)%nat ∧ last_start_time y' = t ∧ on_wire c' y').
Proof.
  intros Hpid [[Hinv Hme Hs Hl Hr Hst] Hy Hopen Htime]. rewrite worker_process_handle_tick. unfold handle_message.
  rewrite Hs. cbn [dispatch]. set (s1 := handle_sync_batch_response s acks x).
  pose proof (ack_inv c s acks x Hinv Hs) as Hinv1. fold s1 in Hinv1.
  set (svc1 := mkWorkerService (me (cl_svc c)) (Some s1) (config (cl_svc c)) (runtime_store (cl_svc c))) in *.
  assert (ready (mkCluster svc1 (cl_peers c)) s1) as Hready by (split; try done; by rewrite <-Hme).
  assert (entry s1 = Some (if bool_decide (r = x ∧ acks !! pid = Some (curr_max_key y)) then set_confirmed true y else y)) as Hack.
  { unfold entry, s1. rewrite (sync_ack_exact s acks x pid r). fold (entry s). by rewrite Hy. }
  destruct (tick t (λ _ _ _, t) svc1) as [svc2 out2] eqn:Ht. intros [= <- <-].
  assert (in_time (entry s1)) as Htime1.
  { rewrite Hack. intros y0 [= <-]. case_bool_decide; [done|]. by intros _. }
  destruct (tick_moves t (mkCluster svc1 (cl_peers c)) s1 svc2 out2 Hpid Hready Htime1 Ht) as [?|(s' & Hr' & Hm & Hrem)]; [by left|].
  right. simpl in Hm, Hrem, Hr'. rewrite Hack in Hm. unfold moved in Hm. case_bool_decide as Hmatch.
  - simpl in Hm. destruct Hm as (y' & Hy' & Hopen' & Htime' & Hlt & Hreq). exists s', y'. split.
    { split; try done. rewrite Htime'. unfold u64_sub. rewrite Z.sub_diag. done. }
    right. split; [|split; [done|]].
    + unfold left_of. simpl. rewrite Hrem by done. by rewrite remaining_confirmed in Hlt.
    + destruct Hreq as (req & ? & ?). exists req. split; [|done]. simpl. apply elem_of_app. by right.
  - rewrite Hopen in Hm. exists s', y. split; [by split|]. left. split; [done|]. split; [by apply Hrem|].
    intros (acks' & [= -> ->] & ?). naive_solver.
Qed.

(** The service works off a list of acknowledgements. *)
Lemma turns_move msgs c out s y :
  pid ∈ partition_range PARTITIONS_AMOUNT → waiting c s y →
  Forall (λ m, ∃ x acks, m = WorkerProtocol.SyncBatchResponse x acks) msgs →
  let '(c', out') := foldl (turn t) (c, out) msgs in
  ∃ o, out' = out ++ o ∧ peer_wire (cl_peers c r) ⊆ peer_wire (cl_peers c' r) ∧
    (reported o ∨ ∃ s' y', waiting c' s' y' ∧
      (y' = y ∧ left_of c' y = left_of c y ∧ (∀ m, m ∈ msgs → ¬ matches y m) ∨
       (left_of c' y' < left_of c y)%nat ∧ last_start_time y' = t ∧ on_wire c' y')).
Proof.
  intros Hpid. revert c out s y. induction msgs as [|m msgs IH]; intros c out s y Hw Hall.
  { simpl. exists []. rewrite app_nil_r. split_and!; [done..|]. right. exists s, y. split; [done|]. left.
    split_and!; try done. by intros ? ?%not_elem_of_nil. }
  apply Forall_cons in Hall as [(x & acks & ->) Hall]. cbn [foldl]. unfold turn at 2.
  destruct (process _ _ _ _ _) as [svc o1] eqn:Hp.
  pose proof (process_moves c s y x acks svc o1 Hpid Hw Hp) as Hm. cbv zeta in Hm.
  set (c1 := mkCluster svc (send o1 (cl_peers c))) in *.
  assert (peer_wire (cl_peers c r) ⊆ peer_wire (cl_peers c1 r)) as Hsub by (simpl; set_solver).
  destruct Hm as [Hrep|(s1 & y1 & Hw1 & Hcase)].
  { pose proof (turns_app t r msgs c1 (out ++ o1)) as Happ. destruct (foldl _ _ msgs) as [c' out'].
    destruct Happ as (o & -> & Hsub'). exists (o1 ++ o). split; [by rewrite app_assoc|]. split; [set_solver|].
    left. rewrite reported_app. by left. }
  specialize (IH c1 (out ++ o1) s1 y1 Hw1 Hall). destruct (foldl _ _ msgs) as [c' out'].
  destruct IH as (o & -> & Hsub' & IH). exists (o1 ++ o). split; [by rewrite app_assoc|]. split; [set_solver|].
  rewrite reported_app. destruct IH as [?|(s' & y' & Hw' & IH)]; [tauto|right]. exists s', y'. split; [done|].
  destruct Hcase as [(-> & Heq & Hno)|(Hlt & Htm & Hwire)].
  - rewrite <-Heq. destruct IH as [(-> & ? & Hall')|?]; [left|by right]. split_and!; [done..|].
    by intros m [->|?]%elem_of_cons; [|apply Hall'].
  - right. destruct IH as [(-> & Heq & _)|(Hlt' & ? & ?)]; [|split_and!; [lia|done..]]. rewrite Heq. split_and!; [done..|].
    destruct Hwire as (req & ? & ?). exists req. split; [set_solver|done].
Qed.

End transfer.

(** ** Exchanges *)

Lemma serve_spec x wire st :
  (serve x st wire).1 = foldl (λ st req, (handle_sync_batch req st).1) st wire ∧
  Forall (λ m, ∃ x acks, m = WorkerProtocol.SyncBatchResponse x acks) (serve x st wire).2 ∧
  ∀ req, req ∈ wire →
    ∃ acks, WorkerProtocol.SyncBatchResponse x acks ∈ (serve x st wire).2 ∧ ∀ p, acks !! p = batch_ack req p.
Proof.
  revert st. induction wire as [|req wire IH]; intros st; simpl.
  { split_and!; [done|constructor|by intros ? ?%not_elem_of_nil]. }
  destruct (sync_batch_applied req st) as (acks & -> & Hacks). simpl.
  specialize (IH (apply_all (batch_entries req) st)). destruct (serve x _ wire) as [st' out]. simpl in *.
  destruct IH as (IH1 & IH2 & IH3). split_and!; [done|constructor; eauto|].
  intros req' [->|Hin]%elem_of_cons; [exists acks; split; [by left|done]|].
  destruct (IH3 req' Hin) as (acks' & ? & ?). exists acks'. split; [by right|done].
Qed.

Lemma exchange_moves self pid r t rs c s y :
  pid ∈ partition_range PARTITIONS_AMOUNT → r ∈ rs → waiting self pid r t c s y → on_wire pid r c y →
  let '(c', out) := exchange t rs c in
  reported self pid out ∨ ∃ s' y', waiting self pid r t c' s' y' ∧ on_wire pid r c' y' ∧ last_start_time y' = t ∧
    (left_of pid c' y' < left_of pid c y)%nat.
Proof.
  intros Hpid Hr [[[Hwf Hent] Hme Hs Hl Hrc Hst] Hy Hopen Htime] (req & Hreq & Hack). unfold exchange. cbv zeta.
  set (served x := serve x (peer_store (cl_peers c x)) (peer_wire (cl_peers c x))).
  set (c0 := mkCluster (cl_svc c) _).
  assert (waiting self pid r t c0 s y) as Hw0.
  { split; [|done..]. split; [|done..]. split; [done|]. intros s0 Hs0. destruct (Hent s0 Hs0) as [He ?]. split; [|done].
    eapply entries_ok_mono; [|done]. intros x. simpl. case_decide; [|done].
    intros k mu. unfold peer_drained at 2. simpl. by rewrite (proj1 (serve_spec _ _ _)). }
  set (msgs := rs ≫= _).
  assert (Forall (λ m, ∃ x acks, m = WorkerProtocol.SyncBatchResponse x acks) msgs) as Hall.
  { apply Forall_forall. intros m (x & Hm & _)%list_elem_of_bind. revert m Hm. apply Forall_forall, serve_spec. }
  pose proof (turns_move self pid r t msgs c0 [] s y Hpid Hw0 Hall) as Hm.
  destruct (foldl (turn t) (c0, []) msgs) as [c' out]. destruct Hm as (o & -> & _ & Hm).
  destruct Hm as [?|(s' & y' & Hw' & [(-> & _ & Hno)|(? & ? & ?)])]; [by left| |right; by exists s', y'].
  destruct (proj2 (proj2 (serve_spec r (peer_wire (cl_peers c r)) (peer_store (cl_peers c r)))) req Hreq) as (acks & Hin & Hacks).
  destruct (Hno (WorkerProtocol.SyncBatchResponse r acks)); [|exists acks; by rewrite Hacks].
  apply list_elem_of_bind. by exists r.
Qed.

(** Every round trip takes less than the time after which a batch is sent again. *)
Definition clock_ok (T : nat → Z) : Prop :=
  ∀ n, 0 <= T n <= T (S n) ∧ T (S n) < T n + SYNC_TIMEOUT_MS ∧ T (S n) < u64_modulus.

Lemma exchanges_move self pid r T rs c s n :
  clock_ok T → pid ∈ partition_range PARTITIONS_AMOUNT → r ∈ rs → ready self pid r c s → entry pid r s = None →
  let '(c', out) := exchanges T rs n c in
  reported self pid out ∨ ∃ s' y', waiting self pid r (T n) c' s' y' ∧ on_wire pid r c' y' ∧ last_start_time y' = T n ∧
    (left_of pid c' y' + n <= size pid (runtime_store (cl_svc c)))%nat.
Proof.
  intros HT Hpid Hr Hready Hentry. induction n as [|n IH]; cbn [exchanges].
  - destruct (tick (T 0%nat) (λ _ _ _, T 0%nat) (cl_svc c)) as [svc out] eqn:Ht.
    destruct (tick_moves self pid r (T 0%nat) (T 0%nat) c s svc out Hpid Hready) as [?|(s' & Hr' & Hm & Hrem)];
      [by rewrite Hentry|done|by left|right].
    rewrite Hentry in Hm. destruct Hm as (y & Hy & Hopen & Htime & Hlt & req & Hin & Hack). exists s', y.
    assert (T 0%nat -64 T 0%nat < SYNC_TIMEOUT_MS) as H0 by (unfold u64_sub; by rewrite Z.sub_diag).
    split_and!; [by split; [..|rewrite Htime]| |done|].
    + exists req. split; [|done]. simpl. apply elem_of_app. by right.
    + unfold left_of. simpl. rewrite Hrem by done. lia.
  - destruct (exchanges T rs n c) as [c1 out1].
    destruct IH as [Hrep|(s1 & y1 & [Hw1 Hy1 Hopen1 _] & Hwire1 & Htime1 & Hle1)].
    { destruct (exchange _ _ _) as [c2 out2]. left. rewrite reported_app. by left. }
    assert (waiting self pid r (T (S n)) c1 s1 y1) as Hw.
    { split; try done. rewrite Htime1. destruct (HT n) as (? & ? & ?). rewrite u64_sub_small by lia. lia. }
    pose proof (exchange_moves self pid r (T (S n)) rs c1 s1 y1 Hpid Hr Hw Hwire1) as Hm.
    destruct (exchange _ _ _) as [c2 out2]. rewrite reported_app.
    destruct Hm as [?|(s2 & y2 & ? & ? & ? & ?)]; [tauto|right]. exists s2, y2. split_and!; try done. lia.
Qed.

(** ** Claims *)


End liveness.

(** ** A concrete handover *)

