(* ===== verification/WorkerTyping.v ===== *)
(** * The worker's data stays within its types

    As for the manager: every integer of the worker's store, state and messages
    lies in the range of its Rust type, whatever well-typed messages, requests and
    clock reads come in. *)

From S2P Require Import Prelude Containers Common ManagerTyping RuntimeStore WorkerState WorkerSync WorkerService.
From S2P Require Import StoreSpec WorkerSpec WorkerMigration WorkerTheorems WorkerHandover.

(** ** Types *)

Definition is_u8 (x : Z) : Prop := 0 <= x < 256.

Definition mutation_typed (m : Mutation) : Prop :=
  match m with
  | Put r => is_u64 (expiration_time_ms r) ∧ is_u64 (creation_time_ms r) ∧ Forall is_u8 (value r)
  | Delete t => is_u64 t
  end.

Definition entry_typed (e : Key * Mutation) : Prop := is_u64 e.1 ∧ mutation_typed e.2.

Definition record_typed (r : Record_) : Prop :=
  is_u64 (rec_key r) ∧ is_u64 (rec_ttl r) ∧ is_u64 (rec_creation_time_ms r) ∧ Forall is_u8 (rec_value r).

Definition acks_typed (acks : gmap PartitionId Key) : Prop :=
  map_Forall (λ pid k, is_u16 (partition_id_u16 pid) ∧ is_u64 k) acks.

Definition worker_message_typed (msg : WorkerProtocol.t) : Prop :=
  match msg with
  | WorkerProtocol.NewConnection _ _ port _ => is_u32 port
  | WorkerProtocol.Heartbeat _ hb => is_u64 (hb_ts hb)
  | WorkerProtocol.ClusterState cs => snapshot_typed cs
  | WorkerProtocol.Leader _ epoch ts => is_u64 epoch ∧ is_u64 ts
  | WorkerProtocol.RemovePartitionFromReplica _ _ pid => is_u16 (partition_id_u16 pid)
  | WorkerProtocol.SyncBatch _ req => Forall record_typed (req_records req)
  | WorkerProtocol.SyncBatchResponse _ acks => acks_typed acks
  | WorkerProtocol.GetClusterState _ | WorkerProtocol.NodeDisconnected _ => True
  end.

Definition phase_typed (p : SyncPhase) : Prop :=
  match p with Snapshot r => is_u64 r | Changes c r => is_u64 c ∧ is_u64 r end.

Record sync_typed (y : SyncState) : Prop := {
  yt_prev k : prev_max_key y = Some k → is_u64 k;
  yt_curr : is_u64 (curr_max_key y);
  yt_phase : phase_typed (phase y);
  yt_time : is_u64 (last_start_time y);
}.

Definition transfers_typed (rs : gmap NodeId SyncState) : Prop := map_Forall (λ _ y, sync_typed y) rs.

Record worker_state_typed (s : State) : Prop := {
  wt_epoch e : epoch s = Some e → is_u64 e;
  wt_nodes : nodes_typed (nodes s);
  wt_partitions : partitions_typed (partitions s);
  wt_update_time : is_u64 (partitions_last_update_time s);
  wt_sync : map_Forall (λ pid rs, is_u16 (partition_id_u16 pid) ∧ transfers_typed rs) (sync s);
  wt_completion : map_Forall (λ pid times, is_u16 (partition_id_u16 pid) ∧ map_Forall (λ _ t, is_u64 t) times)
                    (actual_nodes_sync_completion s);
}.

Section store.
Context {M : Type → Type} `{!SkipMap M, !SkipMapLaws M}.
Context {D : Type → Type} `{!DashMap PartitionId D, !DashMapLaws PartitionId D}.
Implicit Types (p : PartitionStore M) (st : RuntimeStore M D).

Record partition_typed (p : PartitionStore M) : Prop := {
  pt_records k m : sm_get k (ps_records p) = Some m → is_u64 k ∧ mutation_typed m;
  pt_changes r k : sm_get r (ps_changes p) = Some k → is_u64 r ∧ is_u64 k;
  pt_writers : is_u64 (ps_active_writers p);
  pt_revision : is_u64 (ps_revision p);
}.

Record store_typed (st : RuntimeStore M D) : Prop := {
  rt_next : is_u64 (next_revision st);
  rt_cache pid p : dm_get pid (cache st) = Some p → is_u16 (partition_id_u16 pid) ∧ partition_typed p;
}.

Record worker_typed (svc : WorkerService M D) : Prop := {
  ws_state s : state svc = Some s → worker_state_typed s;
  ws_store : store_typed (runtime_store svc);
}.

(** ** The store *)

Lemma is_u64_sub a b : is_u64 (a -64 b).
Proof. unfold is_u64, u64_sub, u64_modulus. apply Z.mod_pos_bound. lia. Qed.

Lemma is_u64_0 : is_u64 0.
Proof. unfold is_u64, u64_modulus. lia. Qed.

Lemma Key_partition_u16 k : is_u16 (partition_id_u16 (Key_partition k)).
Proof. apply as_u16_range. Qed.

Lemma partition_default_typed : partition_typed PartitionStore_default.
Proof. split; simpl; [intros ??; by rewrite sm_get_new..|apply is_u64_0|apply is_u64_0]. Qed.

Lemma default_typed st pid : store_typed st → partition_typed (default PartitionStore_default (dm_get pid (cache st))).
Proof.
  intros Hst. destruct (dm_get pid (cache st)) as [p|] eqn:E; [|apply partition_default_typed].
  by apply (rt_cache _ Hst) in E as [_ ?].
Qed.

Lemma with_writer_typed next key body p next' p' :
  is_u64 next → from_option is_u64 True key → partition_typed p →
  (∀ k m, sm_get k (body (ps_records p)) = Some m → is_u64 k ∧ mutation_typed m) →
  with_writer next key body p = (next', p') → is_u64 next' ∧ partition_typed p'.
Proof.
  intros Hn Hk [Hr Hc Hw Hv] Hb. unfold with_writer, drop_writer, writer, set_records. simpl. intros [= <- <-].
  split; [apply is_u64_add|]. split; simpl; [exact Hb| |apply is_u64_sub|apply is_u64_add].
  intros r k. destruct key as [key|]; [|apply Hc]. rewrite sm_get_insert. case_decide; [|apply Hc].
  intros [= <-]. subst r. split; [apply is_u64_add|done].
Qed.

Lemma store_typed_insert st next pid p :
  store_typed st → is_u64 next → is_u16 (partition_id_u16 pid) → partition_typed p →
  store_typed (mkRuntimeStore (dm_insert pid p (cache st)) next).
Proof.
  intros Hst Hn Hpid Hp. split; [done|]. simpl. intros q p'. rewrite dm_get_insert.
  case_decide; [|by apply (rt_cache _ Hst)]. intros [= <-]. by subst.
Qed.

Lemma store_typed_remove st pid : store_typed st → store_typed (remove_partition pid st).
Proof.
  intros Hst. split; [apply (rt_next _ Hst)|]. simpl. intros q p'. rewrite dm_get_remove.
  case_decide; [done|apply (rt_cache _ Hst)].
Qed.

Lemma store_typed_remove_if_empty st pid : store_typed st → store_typed (remove_partition_if_empty pid st).
Proof.
  intros Hst. unfold remove_partition_if_empty. destruct (dm_get pid (cache st)); [|done].
  destruct (sm_is_empty _); [|done]. by apply (store_typed_remove st pid).
Qed.

(** A writer scope on one partition of the store. *)
Lemma store_typed_writer st pid p key body next' p' :
  store_typed st → is_u16 (partition_id_u16 pid) → partition_typed p → from_option is_u64 True key →
  (∀ k m, sm_get k (body (ps_records p)) = Some m → is_u64 k ∧ mutation_typed m) →
  with_writer (next_revision st) key body p = (next', p') →
  store_typed (mkRuntimeStore (dm_insert pid p' (cache st)) next').
Proof.
  intros Hst Hpid Hp Hk Hb Hw. destruct (with_writer_typed _ _ _ _ _ _ (rt_next _ Hst) Hk Hp Hb Hw).
  by apply store_typed_insert.
Qed.

Lemma apply_mutation_typed key m st : is_u64 key → mutation_typed m → store_typed st → store_typed (apply_mutation key m st).
Proof.
  intros Hk Hm Hst. unfold apply_mutation.
  assert (∀ f, store_typed
    (let '(next, p') := with_writer (next_revision st) (Some key) (sm_compare_insert key m f)
        (default PartitionStore_default (dm_get (Key_partition key) (cache st))) in
     mkRuntimeStore (dm_insert (Key_partition key) p' (cache st)) next)) as Hw.
  { intros f. destruct (with_writer _ _ _ _) as [next p'] eqn:E.
    pose proof (default_typed st (Key_partition key) Hst) as Hd.
    eapply (store_typed_writer st _ _ (Some key)); [done|apply Key_partition_u16|exact Hd|exact Hk| |exact E].
    intros k m'. rewrite sm_get_compare_insert. destruct (decide (key = k)) as [<-|]; [|apply (pt_records _ Hd)].
    destruct (sm_get key _) as [old|] eqn:Eo; [|by intros [= <-]].
    destruct (f old); intros [= <-]; [done|by eapply (pt_records _ Hd)]. }
  destruct m as [r|t]; apply Hw.
Qed.

Lemma prune_loop_typed fuel through (c c' : M Key) :
  (∀ r k, sm_get r c = Some k → is_u64 r ∧ is_u64 k) → prune_loop fuel through c = Some c' →
  ∀ r k, sm_get r c' = Some k → is_u64 r ∧ is_u64 k.
Proof.
  revert c. induction fuel as [|fuel IH]; intros c Hc; simpl; [done|].
  destruct (sm_front c) as [e|]; [|by intros [= <-]]. destruct (_ <? _); [by intros [= <-]|].
  apply IH. intros r k. rewrite sm_get_remove. case_decide; [done|apply Hc].
Qed.

Lemma prune_typed pid through st : store_typed st → store_typed (prune_partition_changes pid through st).
Proof.
  intros Hst. unfold prune_partition_changes. destruct (dm_get pid (cache st)) as [p|] eqn:E; [|done].
  destruct (rt_cache _ Hst _ _ E) as [Hpid [Hr Hc Hw Hv]].
  destruct (prune_loop _ _ _) as [c|] eqn:El; [|done].
  apply store_typed_insert; [done|apply (rt_next _ Hst)|done|].
  split; simpl; [done| |done..]. by eapply prune_loop_typed.
Qed.

Lemma stable_typed pid st r : store_typed st → stable_partition_revision pid st = Some r → is_u64 r.
Proof.
  intros Hst. unfold stable_partition_revision, stable_revision.
  destruct (dm_get pid (cache st)) as [p|] eqn:E; [|intros [= <-]; apply is_u64_0].
  destruct (rt_cache _ Hst _ _ E) as [_ []]. destruct (negb _); [done|]. destruct (_ && _); [|done]. by intros [= <-].
Qed.

Lemma elem_of_take_inv {A} n (l : list A) x : x ∈ take n l → x ∈ l.
Proof. intros Hx. rewrite <- (take_drop n l). set_solver. Qed.

Lemma mutations_typed pid amount after st : store_typed st → Forall entry_typed (get_partition_mutations pid amount after st).
Proof.
  intros Hst. unfold get_partition_mutations. destruct (dm_get pid (cache st)) as [p|] eqn:E; [|apply Forall_nil_2].
  destruct (rt_cache _ Hst _ _ E) as [_ [Hr _ _ _]]. apply Forall_forall. intros [k m] Hin%elem_of_take_inv.
  apply Hr, sm_iter_get. by eapply elem_of_skip_while.
Qed.

Lemma changes_typed pid after amount st r l :
  store_typed st → get_partition_changes pid after amount st = Some (r, l) → is_u64 r ∧ Forall entry_typed l.
Proof.
  intros Hst. unfold get_partition_changes. destruct (dm_get pid (cache st)) as [p|] eqn:E; [|done].
  destruct (rt_cache _ Hst _ _ E) as [_ [Hr Hc _ _]]. simpl.
  set (cs := take _ _). assert (∀ e, e ∈ cs → is_u64 e.1) as Hcs.
  { intros [r' k] Hin%elem_of_take_inv%elem_of_skip_while%sm_iter_get. by apply Hc in Hin as [? _]. }
  destruct (last cs) as [e|] eqn:El; [|done]. intros [= <- <-]. split.
  - apply Hcs. apply last_Some in El as [l' ->]. set_solver.
  - apply Forall_forall. intros [k m] (e' & _ & (m' & Hm & [= -> ->])%fmap_Some)%list_elem_of_omap. by apply Hr.
Qed.

(** ** Batches *)

Create HintDb worker_typing.

Lemma batch_message_typed rid (self : Me) l :
  Forall entry_typed l →
  worker_message_typed (WorkerProtocol.SyncBatch rid
    (mkSyncBatchRequest (me_id self) ((λ km, mutation_to_domain km.1 km.2) <$> l))).
Proof.
  intros Hl. simpl. apply Forall_fmap. eapply Forall_impl; [exact Hl|]. intros [k m] [Hk Hm].
  unfold record_typed. destruct m as [r|t]; simpl in *; [tauto|]. split_and!; [done|apply is_u64_0|done|apply Forall_nil_2].
Qed.

Lemma sync_batch_typed st rid pid after self k out :
  store_typed st → sync_batch st rid pid after self = (k, out) →
  from_option is_u64 True k ∧ Forall worker_message_typed out.
Proof.
  intros Hst. unfold sync_batch. pose proof (mutations_typed pid SYNC_BATCH_SIZE after st Hst) as Ht.
  destruct (get_partition_mutations _ _ _ _) as [|e l] eqn:E; [intros [= <- <-]; by split; [|apply Forall_nil_2]|].
  revert Ht. generalize (e :: l). intros v Ht [= <- <-].
  split; [|apply Forall_singleton; by apply batch_message_typed].
  destruct (last v) as [x|] eqn:El; [|done]. simpl. rewrite Forall_forall in Ht. apply Ht.
  apply last_Some in El as [l' ->]. set_solver.
Qed.

Lemma change_loop_typed fuel st pid cursor r l :
  store_typed st → change_loop fuel st pid cursor = Some (Some (r, l)) → is_u64 r ∧ Forall entry_typed l.
Proof.
  intros Hst. revert cursor. induction fuel as [|fuel IH]; intros cursor; simpl; [done|].
  destruct (get_partition_changes _ _ _ _) as [[r' [|e l']]|] eqn:E; [apply IH| |done].
  intros [= <- <-]. by eapply changes_typed.
Qed.

Lemma max_key_elem l k : max_key l = Some k → k ∈ l.
Proof.
  revert k. induction l as [|x l IH]; intros k; simpl; [done|]. destruct (max_key l) as [y|]; simpl.
  - intros [= <-]. destruct (Z.max_spec x y) as [[_ ->]|[_ ->]]; [right; by apply IH|by left].
  - intros [= <-]. by left.
Qed.

Lemma sync_change_batch_typed st rid pid cursor self k out :
  store_typed st → sync_change_batch st rid pid cursor self = (k, out) →
  from_option (λ rk : Z * Key, is_u64 rk.1 ∧ is_u64 rk.2) True k ∧ Forall worker_message_typed out.
Proof.
  intros Hst. unfold sync_change_batch.
  destruct (change_loop _ _ _ _) as [[[r l]|]|] eqn:E; [|intros [= <- <-]; by split; [|apply Forall_nil_2]..].
  apply (change_loop_typed _ _ _ _ _ _ Hst) in E as [Hr Hl].
  destruct (max_key l.*1) as [k'|] eqn:Ek; intros [= <- <-]; [|by split; [|apply Forall_nil_2]].
  split; [|apply Forall_singleton; by apply batch_message_typed]. simpl. split; [done|].
  apply max_key_elem, list_elem_of_fmap in Ek as ([k'' m] & -> & Hin). rewrite Forall_forall in Hl. by apply (Hl (k'', m)).
Qed.

(** ** Transfers *)

Section transfers.
Context (self : Me) (clk : Clock) (clk_typed : ∀ q r n, is_u64 (clk q r n)).

Lemma lookup_map_retain_Some {K V} `{Countable K} (f : K → V → bool) (m : gmap K V) k v :
  map_retain f m !! k = Some v → m !! k = Some v.
Proof. rewrite lookup_map_retain. destruct (m !! k); [|done]. simpl. by case_match. Qed.

Lemma sync_typed_confirmed b y : sync_typed y → sync_typed (set_confirmed b y).
Proof. intros []. by split. Qed.

Lemma start_sync_typed now rs st pid rid rs' out done :
  is_u64 now → store_typed st → transfers_typed rs → start_sync now rs st self pid rid = (rs', out, done) →
  transfers_typed rs' ∧ Forall worker_message_typed out.
Proof.
  intros Hnow Hst Hrs. unfold start_sync.
  destruct (stable_partition_revision pid st) as [r|] eqn:Er; [|intros [= <- <- _]; by split; [|apply Forall_nil_2]].
  destruct (sync_batch st rid pid None self) as [[k|] o] eqn:Eb; apply (sync_batch_typed _ _ _ _ _ _ _ Hst) in Eb as [Hk Ho];
    intros [= <- <- _]; split; try done. apply map_Forall_insert_2; [|done].
  split; simpl; [done..|by eapply stable_typed|done].
Qed.

Lemma continue_changes_typed now y st pid rid cursor y' out done :
  is_u64 now → store_typed st → sync_typed y → is_u64 cursor →
  continue_changes now y st self pid rid cursor = (y', out, done) → sync_typed y' ∧ Forall worker_message_typed out.
Proof.
  intros Hnow Hst Hy Hc. unfold continue_changes.
  destruct (sync_change_batch st rid pid cursor self) as [[[r k]|] o] eqn:Eb;
    apply (sync_change_batch_typed _ _ _ _ _ _ _ Hst) in Eb as [Hk Ho].
  - intros [= <- <- _]. destruct Hk. split; [|done]. by split.
  - case_bool_decide; intros [= <- <- _]; split; try done. by apply sync_typed_confirmed.
Qed.

Lemma continue_confirmed_typed now y st pid rid y' out done :
  is_u64 now → store_typed st → sync_typed y →
  continue_confirmed_sync now y st self pid rid = (y', out, done) → sync_typed y' ∧ Forall worker_message_typed out.
Proof.
  intros Hnow Hst Hy. pose proof Hy as [Hp Hc Hph Ht]. unfold continue_confirmed_sync.
  destruct (phase y) as [r|c r] eqn:Ep.
  - destruct (sync_batch st rid pid (Some (curr_max_key y)) self) as [[k|] o] eqn:Eb;
      apply (sync_batch_typed _ _ _ _ _ _ _ Hst) in Eb as [Hk Ho].
    + intros [= <- <- _]. split; [|done]. split; simpl; [by intros ? [= <-]|done..].
    + destruct (continue_changes _ _ _ _ _ _ _) as [[y1 o1] d1] eqn:Ec.
      apply continue_changes_typed in Ec as [? ?]; [|done..]. intros [= <- <- _]. by split; [|apply Forall_app_2].
  - destruct Hph. by apply continue_changes_typed.
Qed.

Lemma retry_typed now1 now2 y st pid rid y' out :
  is_u64 now2 → store_typed st → sync_typed y →
  retry_timed_out_sync now1 now2 y st self pid rid = (y', out) → sync_typed y' ∧ Forall worker_message_typed out.
Proof.
  intros Hnow Hst Hy. pose proof Hy as [Hp Hc Hph Ht]. unfold retry_timed_out_sync.
  destruct (_ <? _); [intros [= <- <-]; by split; [|apply Forall_nil_2]|].
  set (b := match phase y with Snapshot _ => _ | Changes _ _ => _ end).
  assert (from_option is_u64 True b.1 ∧ Forall worker_message_typed b.2) as [Hb Ho].
  { unfold b. destruct (phase y) as [r|c r].
    - destruct (sync_batch _ _ _ _ _) as [k o] eqn:Eb. by apply (sync_batch_typed _ _ _ _ _ _ _ Hst) in Eb.
    - destruct (sync_change_batch _ _ _ _ _) as [k o] eqn:Eb.
      apply (sync_change_batch_typed _ _ _ _ _ _ _ Hst) in Eb as [Hk Ho]. split; [|done]. destruct k as [[r' k]|]; [apply Hk|done]. }
  destruct b as [[k|] o]; intros [= <- <-]; split; try done.
Qed.

Lemma sync_call_typed rs st pid rid rs' out done :
  store_typed st → transfers_typed rs → sync_partition_to_recipient clk rs st self pid rid = (rs', out, done) →
  transfers_typed rs' ∧ Forall worker_message_typed out.
Proof.
  intros Hst Hrs. unfold sync_partition_to_recipient. destruct (rs !! rid) as [y|] eqn:Ey; [|by apply start_sync_typed].
  pose proof (map_Forall_lookup_1 _ _ _ _ Hrs Ey) as Hy. destruct (confirmed y).
  - destruct (continue_confirmed_sync _ _ _ _ _ _) as [[y1 o1] d1] eqn:E.
    apply continue_confirmed_typed in E as [? ?]; [|done..]. intros [= <- <- _]. split; [by apply map_Forall_insert_2|done].
  - destruct (retry_timed_out_sync _ _ _ _ _ _ _) as [y1 o1] eqn:E.
    apply retry_typed in E as [? ?]; [|done..]. intros [= <- <- _]. split; [by apply map_Forall_insert_2|done].
Qed.

Lemma set_sync_typed s y :
  worker_state_typed s → map_Forall (λ pid rs, is_u16 (partition_id_u16 pid) ∧ transfers_typed rs) y →
  worker_state_typed (set_sync y s).
Proof. intros [] Hy. by split. Qed.

Lemma default_transfers_typed s pid : worker_state_typed s → transfers_typed (default ∅ (sync s !! pid)).
Proof.
  intros Hs. destruct (sync s !! pid) as [rs|] eqn:E; [|apply map_Forall_empty].
  by apply (map_Forall_lookup_1 _ _ _ _ (wt_sync _ Hs)) in E as [_ ?].
Qed.

Lemma record_completed_typed s pid rid s' out :
  worker_state_typed s → is_u16 (partition_id_u16 pid) → record_completed_sync s self pid rid = (s', out) →
  worker_state_typed s' ∧ Forall worker_message_typed out.
Proof.
  intros Hs Hpid. unfold record_completed_sync. intros [= <- <-]. split.
  - destruct (node_owns_partition _ _ _); [|done]. destruct Hs as [? ? ? Ht ? Hc]. split; try done. simpl.
    apply map_Forall_insert_2; [|done]. split; [done|]. apply map_Forall_insert_2; [done|].
    destruct (actual_nodes_sync_completion s !! pid) as [times|] eqn:E; [|apply map_Forall_empty].
    by apply (map_Forall_lookup_1 _ _ _ _ Hc) in E as [_ ?].
  - destruct (elected_leader_id s); [by apply Forall_singleton|apply Forall_nil_2].
Qed.

(** A state and its output, as the folds thread them. *)
Definition out_typed (acc : State * list WorkerProtocol.t) : Prop :=
  worker_state_typed acc.1 ∧ Forall worker_message_typed acc.2.

Lemma sync_recipient_typed st pid acc rid :
  store_typed st → is_u16 (partition_id_u16 pid) → out_typed acc → out_typed (sync_recipient clk st self pid acc rid).
Proof.
  intros Hst Hpid. destruct acc as [s out]. intros [Hs Ho]. cbn [fst snd] in *.
  unfold sync_recipient. cbv zeta. destruct (sync_partition_to_recipient _ _ _ _ _ _) as [[rs' o] d] eqn:E.
  apply sync_call_typed in E as [Hrs Ho']; [|done|by apply default_transfers_typed].
  assert (worker_state_typed (set_sync (<[pid := rs']> (sync s)) s)) as Hs'.
  { apply set_sync_typed; [done|]. apply map_Forall_insert_2; [done|apply (wt_sync _ Hs)]. }
  destruct d; [|split; [done|by apply Forall_app_2]].
  destruct (record_completed_sync _ _ _ _) as [s'' o''] eqn:Er. apply record_completed_typed in Er as [? ?]; [|done..].
  split; [done|]. by repeat apply Forall_app_2.
Qed.

Lemma sync_partition_typed s st pid rids s' st' out :
  worker_state_typed s → store_typed st → is_u16 (partition_id_u16 pid) →
  sync_partition clk s st self pid rids = (s', st', out) →
  worker_state_typed s' ∧ store_typed st' ∧ Forall worker_message_typed out.
Proof.
  intros Hs Hst Hpid. unfold sync_partition.
  set (s0 := match sync s !! pid with Some _ => _ | None => _ end).
  assert (worker_state_typed s0) as Hs0.
  { unfold s0. destruct (sync s !! pid) as [rs|] eqn:E; [|done]. apply set_sync_typed; [done|].
    apply (map_Forall_lookup_1 _ _ _ _ (wt_sync _ Hs)) in E as [? Hrs].
    apply map_Forall_insert_2; [|apply (wt_sync _ Hs)]. split; [done|]. intros r y Hy. apply lookup_map_retain_Some in Hy.
    by apply (map_Forall_lookup_1 _ _ _ _ Hrs) in Hy. }
  assert (out_typed (foldl (sync_recipient clk st self pid) (s0, []) (elements rids))) as [H1 H2].
  { apply foldl_invariant; [by split; [|apply Forall_nil_2]|]. intros acc r _. by apply sync_recipient_typed. }
  destruct (foldl _ _ _) as [s1 o1]. simpl in H1, H2. clear s0 Hs0.
  destruct (sync s1 !! pid) as [rs|] eqn:E.
  - set (rs' := map_retain _ rs).
    assert (worker_state_typed (set_sync (<[pid := rs']> (sync s1)) s1)).
    { apply set_sync_typed; [done|]. apply (map_Forall_lookup_1 _ _ _ _ (wt_sync _ H1)) in E as [? Hrs].
      apply map_Forall_insert_2; [|apply (wt_sync _ H1)]. split; [done|]. intros r y Hy.
      apply lookup_map_retain_Some in Hy. by apply (map_Forall_lookup_1 _ _ _ _ Hrs) in Hy. }
    destruct (min_key _) as [t|]; [intros [= <- <- <-]; split_and!; [done|by apply prune_typed|done]|].
    destruct (stable_partition_revision pid st); intros [= <- <- <-]; split_and!; try done. by apply prune_typed.
  - destruct (stable_partition_revision pid st); intros [= <- <- <-]; split_and!; try done. by apply prune_typed.
Qed.

(** The accumulator of the pass over all partitions. *)
Definition pass_typed (acc : State * RuntimeStore M D * list WorkerProtocol.t) : Prop :=
  worker_state_typed acc.1.1 ∧ store_typed acc.1.2 ∧ Forall worker_message_typed acc.2.

Lemma sync_one_typed synced acc pid :
  is_u16 (partition_id_u16 pid) → pass_typed acc → pass_typed (sync_one_partition clk synced self acc pid).
Proof.
  intros Hpid. destruct acc as [[s st] out]. intros (Hs & Hst & Ho). cbn [fst snd] in *. unfold sync_one_partition.
  destruct (sync_partition _ _ _ _ _ _) as [[s1 st1] o1] eqn:E.
  apply sync_partition_typed in E as (? & ? & ?); [|done..]. split_and!; [done..|]. by apply Forall_app_2.
Qed.

Lemma remove_completed_typed s st s' st' :
  worker_state_typed s → store_typed st →
  remove_completed_syncs_and_obsolete_partitions s st self = (s', st') → worker_state_typed s' ∧ store_typed st'.
Proof.
  intros Hs Hst. unfold remove_completed_syncs_and_obsolete_partitions. intros [= <- <-]. split.
  - apply set_sync_typed; [done|]. intros q rs Hq. apply lookup_map_retain_Some in Hq.
    by apply (map_Forall_lookup_1 _ _ _ _ (wt_sync _ Hs)) in Hq.
  - apply foldl_invariant; [done|]. intros st1 py _ Hst1. destruct (_ && _); [|done]. by apply store_typed_remove.
Qed.

Lemma sync_partitions_typed s st s' st' out :
  worker_state_typed s → store_typed st → sync_partitions clk s st self = (s', st', out) →
  worker_state_typed s' ∧ store_typed st' ∧ Forall worker_message_typed out.
Proof.
  intros Hs Hst. unfold sync_partitions.
  assert (∀ q, q ∈ partition_range PARTITIONS_AMOUNT → is_u16 (partition_id_u16 q)) as Hq.
  { intros q Hq. apply elem_of_partition_range in Hq; [|done]. unfold is_u16, u16_modulus, PARTITIONS_AMOUNT in *. lia. }
  revert Hq. generalize (partition_range PARTITIONS_AMOUNT). intros l Hq.
  assert (pass_typed (foldl (sync_one_partition clk (get_currently_synced_actual_nodes s) self) (s, st, []) l)) as Hp.
  { apply foldl_invariant; [by split_and!; [..|apply Forall_nil_2]|]. intros acc q Hin. apply sync_one_typed. by apply Hq. }
  destruct (foldl _ _ l) as [[s1 st1] o1]. destruct Hp as (H1 & H2 & H3). cbn [fst snd] in *.
  destruct (remove_completed_syncs_and_obsolete_partitions s1 st1 self) as [s2 st2] eqn:E.
  apply remove_completed_typed in E as [? ?]; [|done..]. intros [= <- <- <-]. done.
Qed.

End transfers.

(** ** Handlers *)

#[local] Hint Resolve Forall_nil_2 Forall_app_2 is_u64_add is_u64_max nodes_typed_insert node_typed_heartbeat : worker_typing.
#[local] Hint Extern 1 (Forall worker_message_typed [_]) => (by apply Forall_singleton) : worker_typing.

Lemma worker_fmap_typed {A} (f : A → WorkerProtocol.t) l :
  (∀ x, worker_message_typed (f x)) → Forall worker_message_typed (f <$> l).
Proof. intros Hf. apply Forall_fmap, Forall_forall. intros x _. apply Hf. Qed.

Lemma ask_managers_typed self s : Forall worker_message_typed (ask_managers self s).
Proof. by apply worker_fmap_typed. Qed.
#[local] Hint Resolve ask_managers_typed : worker_typing.

Lemma set_nodes_typed s ns : worker_state_typed s → nodes_typed ns → worker_state_typed (set_nodes ns s).
Proof. intros [] ?. by split. Qed.
#[local] Hint Resolve set_nodes_typed : worker_typing.

Lemma worker_merge_typed items ns out :
  Forall item_typed items → nodes_typed ns → Forall worker_message_typed out →
  nodes_typed (foldl merge_cluster_node (ns, out) items).1 ∧
  Forall worker_message_typed (foldl merge_cluster_node (ns, out) items).2.
Proof.
  intros Hi Hn Ho.
  apply (foldl_invariant (λ acc, nodes_typed acc.1 ∧ Forall worker_message_typed acc.2) merge_cluster_node items (ns, out)); [done|].
  intros [ns' out'] item Hin [Hn' Ho']. rewrite Forall_forall in Hi. destruct (Hi _ Hin) as [? ?]. simpl in *.
  destruct (ns' !! cn_id item) as [n|] eqn:Hl.
  - specialize (map_Forall_lookup_1 _ _ _ _ Hn' Hl) as ?. destruct (_ <? _); simpl; auto with worker_typing.
  - split; [done|]. apply Forall_app_2; [done|]. by apply Forall_singleton.
Qed.

Lemma saturating_typed a b : is_u64 a → 0 <= b → is_u64 (u64_saturating_add a b).
Proof. unfold is_u64, u64_saturating_add, u64_modulus. lia. Qed.

Lemma worker_cluster_state_typed now s cs self s' out :
  is_u64 now → worker_state_typed s → snapshot_typed cs →
  handle_cluster_state now s (cs_epoch cs) (cs_leader_id cs) (cs_nodes cs) (cs_partitions cs) self = (s', out) →
  worker_state_typed s' ∧ Forall worker_message_typed out.
Proof.
  intros Hnow Hs [He Hn Hp]. unfold handle_cluster_state.
  destruct (accept_cluster_state s (cs_epoch cs) (cs_leader_id cs)) as [s1|] eqn:Ha; [|intros [= <- <-]; auto with worker_typing].
  assert (worker_state_typed s1) as Hs1.
  { unfold accept_cluster_state in Ha. destruct (_ || _); [|destruct (_ && _)]; simplify_eq; [|done].
    destruct Hs. split; simpl; [by intros ? [= <-]|done..]. }
  clear Ha Hs. set (s2 := if bool_decide _ then _ else s1).
  assert (worker_state_typed (set_partitions (cs_partitions cs) s2)) as Hs2.
  { unfold s2. destruct Hs1 as [? ? ? Ht ? ?]. case_bool_decide; split; simpl; try done.
    apply is_u64_max; [done|]. apply saturating_typed; [done|lia]. }
  clearbody s2. set (ns := match cs_nodes cs with [] => _ | _ => _ end).
  assert (nodes_typed ns) as Hns.
  { unfold ns. destruct (cs_nodes cs); [apply (wt_nodes _ Hs2)|]. intros id n Hl.
    apply lookup_map_retain_Some in Hl. by apply (wt_nodes _ Hs2 id). }
  destruct (worker_merge_typed (cs_nodes cs) ns [] Hn Hns) as [? ?]; [auto with worker_typing|].
  destruct (foldl _ _ _) as [ns' o]. intros [= <- <-]. split; [|done]. by apply set_nodes_typed.
Qed.

Lemma apply_records_typed l st acks :
  Forall record_typed l → store_typed st → acks_typed acks →
  store_typed (foldl apply_record (st, acks) l).1 ∧ acks_typed (foldl apply_record (st, acks) l).2.
Proof.
  intros Hl Hst Ha. rewrite Forall_forall in Hl.
  apply (foldl_invariant (λ acc, store_typed acc.1 ∧ acks_typed acc.2) apply_record l (st, acks)); [done|].
  intros [st1 a1] r Hin [H1 H2]. destruct (Hl r Hin) as (Hk & Ht & Hc & Hv). simpl in *. split.
  - destruct (rec_deleted r); [by apply (apply_mutation_typed (rec_key r) (Delete _))|by apply (apply_mutation_typed (rec_key r) (Put _))].
  - pose proof (Key_partition_u16 (rec_key r)) as Hu.
    destruct (a1 !! Key_partition (rec_key r)); [case_match; [|done]|]; by apply map_Forall_insert_2.
Qed.

Lemma ack_sync_typed s acks sender : worker_state_typed s → worker_state_typed (handle_sync_batch_response s acks sender).
Proof.
  intros Hs. apply set_sync_typed; [done|]. apply foldl_invariant; [apply (wt_sync _ Hs)|].
  intros y [q k] _ Hy. unfold confirm_partition. simpl. destruct (y !! q) as [rs|] eqn:Eq; [|done].
  destruct (map_Forall_lookup_1 _ _ _ _ Hy Eq) as [Hq Hrs]. destruct (rs !! sender) as [z|] eqn:Ez; [|done].
  pose proof (map_Forall_lookup_1 _ _ _ _ Hrs Ez) as Hz. destruct (_ =? _); [|done].
  apply map_Forall_insert_2; [|done]. split; [done|]. apply map_Forall_insert_2; [|done]. by apply sync_typed_confirmed.
Qed.

Lemma worker_dispatch_typed now msg self s st s' st' out :
  is_u64 now → worker_message_typed msg → worker_state_typed s → store_typed st →
  dispatch now msg self s st = (s', st', out) →
  worker_state_typed s' ∧ store_typed st' ∧ Forall worker_message_typed out.
Proof.
  intros Hnow Hmsg Hs Hst. pose proof (wt_nodes _ Hs) as Hn. destruct msg; simpl in *.
  - unfold handle_new_connection. repeat case_match; simplify_eq/=; intros [= <- <- <-]; split_and!; auto with worker_typing;
      apply set_nodes_typed; try done; by apply nodes_typed_insert.
  - unfold handle_heartbeat. destruct (nodes s !! _) as [n|] eqn:El; intros [= <- <- <-]; split_and!; auto with worker_typing.
    specialize (map_Forall_lookup_1 _ _ _ _ Hn El) as [? ?]. apply set_nodes_typed; [done|].
    apply nodes_typed_insert; [done|]. split; [done|by apply is_u64_max].
  - intros [= <- <- <-]. auto with worker_typing.
  - destruct (handle_cluster_state _ _ _ _ _ _ _) as [s1 o1] eqn:E. apply worker_cluster_state_typed in E as [? ?]; [|done..].
    by intros [= <- <- <-].
  - intros [= <- <- <-]. split_and!; auto with worker_typing. apply set_nodes_typed; [done|by apply map_Forall_delete].
  - destruct Hmsg as [He Ht]. unfold handle_leader.
    destruct (epoch_lt _ _); [|intros [= <- <- <-]; auto with worker_typing].
    destruct (nodes s !! id) as [n|] eqn:El; [|intros [= <- <- <-]; auto with worker_typing].
    specialize (map_Forall_lookup_1 _ _ _ _ Hn El) as ?.
    destruct (is_manager n); intros [= <- <- <-]; split_and!; auto with worker_typing.
    destruct Hs. split; simpl; try done; [by intros ? [= <-]|auto with worker_typing].
  - intros [= <- <- <-]. split_and!; [done..|]. unfold handle_remove_old_partition. case_match; auto with worker_typing.
  - unfold handle_sync_batch.
    destruct (apply_records_typed (req_records request) st ∅ Hmsg Hst) as [H1 H2]; [apply map_Forall_empty|].
    destruct (foldl _ _ _) as [st1 acks]. intros [= <- <- <-]. split_and!; auto with worker_typing.
  - intros [= <- <- <-]. split_and!; auto with worker_typing. by apply ack_sync_typed.
Qed.

Lemma worker_heartbeats_typed now s self s' out :
  is_u64 now → worker_state_typed s → heartbeats now s self = (s', out) →
  worker_state_typed s' ∧ Forall worker_message_typed out.
Proof.
  intros Hnow Hs. unfold heartbeats. destruct (nodes s !! me_id self) as [n|] eqn:El; [|intros [= <- <-]; auto with worker_typing].
  specialize (map_Forall_lookup_1 _ _ _ _ (wt_nodes _ Hs) El) as ?.
  destruct (_ && _); intros [= <- <-]; [|auto with worker_typing]. split.
  - apply set_nodes_typed; [done|]. apply nodes_typed_insert; [apply (wt_nodes _ Hs)|by apply node_typed_heartbeat].
  - by apply worker_fmap_typed.
Qed.

Lemma worker_tick_typed now clk svc svc' out :
  is_u64 now → (∀ q r n, is_u64 (clk q r n)) → worker_typed svc → tick now clk svc = (svc', out) →
  worker_typed svc' ∧ Forall worker_message_typed out.
Proof.
  intros Hnow Hclk [Hs Hst]. unfold tick. destruct (state svc) as [s|] eqn:E; last first.
  { intros [= <- <-]. split; [split; [congruence|done]|apply Forall_nil_2]. }
  destruct (heartbeats now s (me svc)) as [s1 o1] eqn:Eh. apply worker_heartbeats_typed in Eh as [? ?]; [|done|by apply Hs].
  destruct (sync_partitions clk s1 (runtime_store svc) (me svc)) as [[s2 st2] o2] eqn:Es.
  apply sync_partitions_typed in Es as (? & ? & ?); [|done..]. intros [= <- <-].
  split; [split; [by intros ? [= <-]|done]|by apply Forall_app_2].
Qed.

(** ** Other users of the store *)

Definition op_typed (op : store_op) : Prop :=
  match op with
  | OpPut key record => is_u64 key ∧ mutation_typed (Put record)
  | OpDeleteAt key t => is_u64 key ∧ is_u64 t
  | _ => True
  end.

Lemma remove_entry_typed k (c : M Mutation) :
  (∀ k m, sm_get k c = Some m → is_u64 k ∧ mutation_typed m) →
  ∀ k' m, sm_get k' (sm_remove k c) = Some m → is_u64 k' ∧ mutation_typed m.
Proof. intros Hc k' m. rewrite sm_get_remove. case_decide; [done|apply Hc]. Qed.

Lemma get_versioned_typed now key st : store_typed st → store_typed (get_versioned now key st).2.
Proof.
  intros Hst. unfold get_versioned. destruct (dm_get _ _) as [p|] eqn:E; [|done].
  destruct (rt_cache _ Hst _ _ E) as [Hq Hp]. destruct (sm_get key (ps_records p)) as [[r|t]|]; [|done..].
  destruct (_ || _); [done|]. destruct (with_writer _ _ _ _) as [next p'] eqn:Ew. cbn [snd].
  apply store_typed_remove_if_empty. eapply (store_typed_writer st _ p None); [done..| |exact Ew].
  apply remove_entry_typed, (pt_records _ Hp).
Qed.

Lemma remove_expired_typed now st : store_typed st → store_typed (remove_expired now st).1.
Proof.
  intros Hst. unfold remove_expired.
  apply (foldl_invariant (λ acc : RuntimeStore M D * Z, store_typed acc.1)); [done|].
  intros [st1 n] q _ Hst1. cbn [fst] in *. unfold remove_expired_partition.
  destruct (dm_get q (cache st1)) as [p|] eqn:E; [|by apply store_typed_remove_if_empty].
  destruct (rt_cache _ Hst1 _ _ E) as [Hq Hp].
  assert (∀ l acc, is_u64 acc.1.1 ∧ partition_typed acc.1.2 →
    is_u64 (foldl (remove_expired_entry now) acc l).1.1 ∧ partition_typed (foldl (remove_expired_entry now) acc l).1.2) as Hf.
  { intros l acc Hacc. apply (foldl_invariant (λ acc : Z * PartitionStore M * Z, is_u64 acc.1.1 ∧ partition_typed acc.1.2)); [done|].
    intros [[next p1] removed] e _ [Hn Hp1]. unfold remove_expired_entry. destruct (expired _ _); [|done].
    destruct (with_writer _ _ _ _) as [next' p'] eqn:Ew. cbn [fst snd] in *.
    eapply (with_writer_typed next None); [done..| |exact Ew]. apply remove_entry_typed, (pt_records _ Hp1). }
  specialize (Hf (sm_iter (ps_records p)) (next_revision st1, p, n) (conj (rt_next _ Hst1) Hp)).
  destruct (foldl _ _ _) as [[next p'] removed]. cbn [fst snd] in *. destruct Hf.
  apply store_typed_remove_if_empty. by apply store_typed_insert.
Qed.

Lemma run_op_typed op st : op_typed op → store_typed st → store_typed (run_op op st).
Proof.
  intros Hop Hst. destruct op; simpl in *.
  - destruct Hop. by apply (apply_mutation_typed key (Put record)).
  - destruct Hop. by apply (apply_mutation_typed key (Delete _)).
  - by apply get_versioned_typed.
  - by apply remove_expired_typed.
  - by apply prune_typed.
  - by apply store_typed_remove_if_empty.
  - by apply store_typed_remove.
Qed.


End store.

(** ** A worker with a transfer under way *)

Definition svc_half : WorkerService (gmap Z) (gmap PartitionId) :=
  mkWorkerService me_wa (Some state_half) (WorkerConfig 9100 ("host-a", 9100) ("m", 9000) 300) store_1.

Ltac solve_typed :=
  unfold is_u8, is_u16, is_u32, is_u64, u16_modulus, u32_modulus, u64_modulus in *; simpl; lia.

Lemma state_half_typed : worker_state_typed state_half.
Proof.
  assert (∀ c, sync_typed (mkSyncState None 1 (Snapshot 1) c 100)) as Hy by (intros c; split; simpl; [done|solve_typed..]).
  split; simpl.
  - intros e [= <-]. solve_typed.
  - repeat first [apply map_Forall_empty|apply map_Forall_insert_2]; split; solve_typed.
  - split; simpl; repeat first [apply map_Forall_empty|apply map_Forall_insert_2]; solve_typed.
  - solve_typed.
  - apply map_Forall_singleton. split; [solve_typed|]. apply map_Forall_insert_2; [|apply map_Forall_singleton]; apply Hy.
  - apply map_Forall_empty.
Qed.

Lemma store_1_typed : store_typed store_1.
Proof.
  apply (apply_mutation_typed 1 (Put rec_1)); [solve_typed| |].
  - split_and!; [solve_typed..|]. apply Forall_singleton. solve_typed.
  - split; simpl; [solve_typed|]. intros pid p. by rewrite lookup_empty.
Qed.

