(* ===== verification/ConformanceStore.v ===== *)
(** * The unit tests of worker/runtime_store.rs on the model

    Every sequential test of the module [tests], as a boolean that evaluates to
    [true]; [now_millis()] starts at [test_now], and a sleep adds to it. *)

From S2P Require Import Prelude Containers Common RuntimeStore.

Abbreviation TestStore := (RuntimeStore (gmap Z) (gmap PartitionId)).

Definition test_now : Z := 1700000000000.

(** [RuntimeStore::get], which only the tests use. *)
Definition get (now : Z) (key : Key) (store : TestStore) : option Record * TestStore :=
  match get_versioned now key store with
  | (Some (Put record), store) => (Some record, store)
  | (Some (Delete _), store) | (None, store) => (None, store)
  end.

(** [store.cache.contains_key(&partition)] *)
Definition contains_partition (partition : PartitionId) (store : TestStore) : bool :=
  match dm_get partition (cache store) with Some _ => true | None => false end.

(** [partition.records.get(&key)] of the key's partition, if it exists. *)
Definition stored (key : Key) (store : TestStore) : option Mutation :=
  p ← dm_get (Key_partition key) (cache store); sm_get key (ps_records p).

Definition is_present (r : option Record) : bool := match r with Some _ => true | None => false end.

Definition value_is (v : list Z) (r : option Record) : bool :=
  match r with Some r => bool_decide (value r = v) | None => false end.

Definition test_runtime_store_expiration : bool :=
  let store := RuntimeStore_new in
  let key := 1 in
  let value := [1; 2; 3] in
  let now := test_now in
  let store := put key (mkRecord (now + 100) now value) store in
  let '(record, store) := get now key store in
  let '(later, store) := get (now + 150) key store in
  value_is value record && negb (is_present later) && negb (contains_partition (Key_partition key) store).

Definition test_remove_partition_if_empty : bool :=
  let store := RuntimeStore_new in
  let key := 1 in
  let partition := Key_partition key in
  let now := test_now in
  let store := put key (mkRecord (now + 1000) now [1]) store in
  let before := contains_partition partition store in
  let store := remove_partition_if_empty partition store in
  let kept := contains_partition partition store in
  let '(later, store) := get (now + 1100) key store in
  before && kept && negb (is_present later) && negb (contains_partition partition store).

Definition test_runtime_store_delete : bool :=
  let store := RuntimeStore_new in
  let key := 1 in
  let partition := Key_partition key in
  let store := put key (mkRecord 0 0 [1; 2; 3]) store in
  let before := contains_partition partition store in
  let '(found, store) := get test_now key store in
  let store := delete_at key test_now store in
  let '(later, store) := get test_now key store in
  before && is_present found && negb (is_present later) && contains_partition partition store.

Definition tombstone_prevents_stale_put_but_allows_newer_put : bool :=
  let store := RuntimeStore_new in
  let key := 1 in
  let store := delete_at key 200 store in
  let store := put key (mkRecord 0 100 [1]) store in
  let '(stale, store) := get test_now key store in
  let store := put key (mkRecord 0 300 [2]) store in
  let '(newer, _) := get test_now key store in
  negb (is_present stale) && value_is [2] newer.

Definition test_runtime_store_put_ordering : bool :=
  let store := RuntimeStore_new in
  let key := 1 in
  let store := put key (mkRecord 0 100 [1]) store in
  let '(r1, store) := get test_now key store in
  let store := put key (mkRecord 0 50 [2]) store in
  let '(r2, store) := get test_now key store in
  let store := put key (mkRecord 0 150 [3]) store in
  let '(r3, store) := get test_now key store in
  let store := put key (mkRecord 0 150 [4]) store in
  let '(r4, store) := get test_now key store in
  value_is [1] r1 && value_is [1] r2 && value_is [3] r3 && value_is [4] r4.

Definition test_runtime_store_no_expiration : bool :=
  let store := RuntimeStore_new in
  let key := 1 in
  let now := test_now in
  let store := put key (mkRecord 0 now [1]) store in
  is_present (get (now + 100) key store).1.

Definition remove_expired_scans_all_partitions_and_keeps_live_records : bool :=
  let expired_one := 1 in
  let expired_two := PARTITIONS_AMOUNT + 2 in
  let live := 3 in
  let immortal := 4 in
  let store :=
    foldl (λ store (ke : Key * Z), put ke.1 (mkRecord ke.2 1 [ke.1 `mod` 256]) store) RuntimeStore_new
      [(expired_one, 99); (expired_two, 100); (live, 101); (immortal, 0)] in
  let '(store, removed) := remove_expired 100 store in
  bool_decide (removed = 2) && bool_decide (stored expired_one store = None) &&
  bool_decide (stored expired_two store = None) && bool_decide (stored live store ≠ None) &&
  bool_decide (stored immortal store ≠ None).

Lemma runtime_store_tests_pass :
  forallb id
    [test_runtime_store_expiration; test_remove_partition_if_empty; test_runtime_store_delete;
     tombstone_prevents_stale_put_but_allows_newer_put; test_runtime_store_put_ordering;
     test_runtime_store_no_expiration; remove_expired_scans_all_partitions_and_keeps_live_records] = true.
Proof. vm_compute. reflexivity. Qed.
