(* ===== verification/ConformanceWorker.v ===== *)
(** * The unit tests of worker/service/partitions.rs on the model

    Every test of the module [tests] is translated to a boolean: the state it
    builds, the calls it makes, the conjunction of its assertions.  All of them
    hold of the model.  [now_millis()] is read as the constant [test_clock]; the
    random choice of a HashMap order is the order of the model's maps. *)

From S2P Require Import Prelude Containers Common RuntimeStore WorkerState WorkerSync ConformanceStore.
From Stdlib Require Import Ascii.

Definition test_clock : Clock := λ _ _ _, 1000.
Definition PARTITION : PartitionId := mkPartitionId 17.

(** The last hexadecimal digit of a UUID; the tests use values of two digits. *)
Definition hex (n : Z) : string :=
  String (ascii_of_nat (Z.to_nat (if n <? 10 then 48 + n else 87 + n))) EmptyString.

Definition node_id (value : Z) : NodeId :=
  mkNodeId ("00000000-0000-0000-0000-0000000000" ++ hex (value / 16 mod 16) ++ hex (value mod 16))%string.

Definition worker : Node := mkNode "worker.local" 9000 0 Worker.

Definition cluster_nodes (ids : list NodeId) : gmap NodeId Node := collect_map ((λ id, (id, worker)) <$> ids).

Definition test_mapping (master : NodeId) (replicas : list NodeId) : gmap PartitionId Partition :=
  {[ PARTITION := mkPartition master (list_to_set replicas) ]}.

Definition test_me (id : NodeId) : Me := mkMe id "worker.local" 9000.

Definition test_state (partitions : Partitions) (nodes : gmap NodeId Node) : State :=
  mkState (Some 1) (Some (node_id 99)) nodes partitions 42 ∅ ∅.

Definition put_partition_record (store : TestStore) : TestStore * Key :=
  let key := partition_id_u16 PARTITION in
  (put key (mkRecord 0 1 [1]) store, key).

Definition is_release (m : WorkerProtocol.t) : bool :=
  match m with WorkerProtocol.RemovePartitionFromReplica _ _ _ => true | _ => false end.

Definition is_release_of (replica : NodeId) (partition : PartitionId) (m : WorkerProtocol.t) : bool :=
  match m with
  | WorkerProtocol.RemovePartitionFromReplica _ replica_id partition_id =>
      bool_decide (replica_id = replica) && bool_decide (partition_id = partition)
  | _ => false
  end.

Definition is_batch (m : WorkerProtocol.t) : bool :=
  match m with WorkerProtocol.SyncBatch _ _ => true | _ => false end.

(** ** The targets of a partition *)

Definition old_replica_syncs_to_every_available_node_in_the_current_mapping_except_itself : bool :=
  let me := node_id 1 in
  let master := node_id 2 in
  let replica := node_id 3 in
  let disconnected_replica := node_id 4 in
  let partitions :=
    mkPartitions (test_mapping master [me; replica; disconnected_replica])
      {[ PARTITION := {[ me ]} ]} {[ PARTITION := {[ replica ]} ]} in
  let nodes := cluster_nodes [me; master; replica] in
  bool_decide (get_node_ids_curr_node_has_to_sync_the_partition_to PARTITION me partitions nodes None =
               {[ master; replica ]}).

Definition node_does_not_start_second_phase_while_an_old_replica_remains : bool :=
  let me := node_id 1 in
  let new_replica := node_id 2 in
  let old_replica := node_id 3 in
  let partitions :=
    mkPartitions (test_mapping me [new_replica]) {[ PARTITION := {[ old_replica ]} ]}
      {[ PARTITION := {[ new_replica ]} ]} in
  let nodes := cluster_nodes [me; new_replica; old_replica] in
  bool_decide (get_node_ids_curr_node_has_to_sync_the_partition_to PARTITION me partitions nodes None = ∅).

Definition retained_current_node_syncs_to_available_new_replicas_after_old_replicas_are_done : bool :=
  let me := node_id 1 in
  let new_replica := node_id 2 in
  let disconnected_new_replica := node_id 3 in
  let partitions :=
    mkPartitions (test_mapping me [new_replica; disconnected_new_replica]) {[ PARTITION := ∅ ]}
      {[ PARTITION := {[ new_replica; disconnected_new_replica ]} ]} in
  let nodes := cluster_nodes [me; new_replica] in
  bool_decide (get_node_ids_curr_node_has_to_sync_the_partition_to PARTITION me partitions nodes None =
               {[ new_replica ]}).

Definition absent_old_replicas_entry_also_means_the_first_phase_is_done : bool :=
  let me := node_id 1 in
  let new_master := node_id 2 in
  let partitions := mkPartitions (test_mapping new_master [me]) ∅ {[ PARTITION := {[ new_master ]} ]} in
  let nodes := cluster_nodes [me; new_master] in
  bool_decide (get_node_ids_curr_node_has_to_sync_the_partition_to PARTITION me partitions nodes None =
               {[ new_master ]}).

Definition newly_added_node_does_not_relay_the_partition_to_other_new_nodes : bool :=
  let me := node_id 1 in
  let retained_master := node_id 2 in
  let other_new_replica := node_id 3 in
  let partitions :=
    mkPartitions (test_mapping retained_master [me; other_new_replica]) ∅
      {[ PARTITION := {[ me; other_new_replica ]} ]} in
  let nodes := cluster_nodes [me; retained_master; other_new_replica] in
  bool_decide (get_node_ids_curr_node_has_to_sync_the_partition_to PARTITION me partitions nodes None = ∅).

Definition node_outside_both_old_and_current_mapping_has_no_sync_targets : bool :=
  let me := node_id 1 in
  let master := node_id 2 in
  let new_replica := node_id 3 in
  let partitions := mkPartitions (test_mapping master [new_replica]) ∅ {[ PARTITION := {[ new_replica ]} ]} in
  let nodes := cluster_nodes [me; master; new_replica] in
  bool_decide (get_node_ids_curr_node_has_to_sync_the_partition_to PARTITION me partitions nodes None = ∅).

Definition migrated_tombstone_prevents_stale_record_resurrection : bool :=
  let key := partition_id_u16 PARTITION in
  let store := put key (mkRecord 0 100 [1]) (RuntimeStore_new : TestStore) in
  let '(store, _) := handle_sync_batch (mkSyncBatchRequest (node_id 1) [mkRecord_ key [] 0 200 true]) store in
  let '(store, _) := handle_sync_batch (mkSyncBatchRequest (node_id 1) [mkRecord_ key [2] 0 150 false]) store in
  negb (is_present (get test_now key store).1).

(** ** Passes over one partition

    The states of the tests know one partition only; a pass over all partitions
    is then a pass over that one. *)

Section focus.
Context {M : Type → Type} `{!SkipMap M} {D : Type → Type} `{!DashMap PartitionId D, !DashMapLaws PartitionId D}.
Implicit Types (s : State) (st : RuntimeStore M D).

Definition only (pid : PartitionId) (s : State) (st : RuntimeStore M D) : bool :=
  forallb (λ q, bool_decide (q = pid))
    ((map_to_list (mapping (partitions s))).*1 ++ (map_to_list (sync s)).*1 ++ dm_keys (cache st)).

Definition focus_pass (clk : Clock) (pid : PartitionId) (s : State) (st : RuntimeStore M D) (me : Me)
    : State * RuntimeStore M D * list WorkerProtocol.t :=
  let '(s, st, out) := sync_one_partition clk (get_currently_synced_actual_nodes s) me (s, st, []) pid in
  let '(s, st) := remove_completed_syncs_and_obsolete_partitions s st me in
  (s, st, out).

Lemma only_none pid s st q :
  only pid s st = true → q ≠ pid →
  mapping (partitions s) !! q = None ∧ sync s !! q = None ∧ dm_get q (cache st) = None.
Proof.
  unfold only. rewrite forallb_forall. intros Hall Hq.
  assert (∀ x, x ∈ (map_to_list (mapping (partitions s))).*1 ++ (map_to_list (sync s)).*1 ++ dm_keys (cache st) → x = pid) as Hx.
  { intros x Hx%list_elem_of_In. by apply Hall, bool_decide_eq_true in Hx. }
  split_and!; apply eq_None_not_Some; intros [v Hv]; apply Hq, Hx; rewrite !elem_of_app.
  - left. apply list_elem_of_fmap. exists (q, v). by rewrite elem_of_map_to_list.
  - right. left. apply list_elem_of_fmap. exists (q, v). by rewrite elem_of_map_to_list.
  - right. right. apply dm_keys_get. by exists v.
Qed.

Lemma sync_one_idle clk synced me s st out q :
  mapping (partitions s) !! q = None → sync s !! q = None → dm_get q (cache st) = None →
  sync_one_partition clk synced me (s, st, out) q = (s, st, out).
Proof.
  intros Hm Hs Hd. unfold sync_one_partition, get_node_ids_curr_node_has_to_sync_the_partition_to.
  rewrite Hm. set (rids := filter _ _). assert (rids = ∅) as ->.
  { unfold rids. apply set_eq. intros x. rewrite elem_of_filter. repeat case_match; set_solver. }
  unfold sync_partition. rewrite Hs, elements_empty. cbn [foldl]. rewrite Hs.
  unfold stable_partition_revision, prune_partition_changes. rewrite Hd. by rewrite app_nil_r.
Qed.

Lemma sync_all_idle clk synced me pid s st out l :
  only pid s st = true → pid ∉ l → foldl (sync_one_partition clk synced me) (s, st, out) l = (s, st, out).
Proof.
  intros Ho. induction l as [|q l IH]; [done|]. intros [Hq Hl]%not_elem_of_cons. cbn [foldl].
  destruct (only_none pid s st q Ho) as (? & ? & ?); [congruence|]. rewrite sync_one_idle by done. by apply IH.
Qed.

Lemma sync_partitions_focus clk pid s st me :
  pid ∈ partition_range PARTITIONS_AMOUNT → only pid s st = true →
  (let r := sync_one_partition clk (get_currently_synced_actual_nodes s) me (s, st, []) pid in
   only pid r.1.1 r.1.2 = true) →
  sync_partitions clk s st me = focus_pass clk pid s st me.
Proof.
  intros Hpid Ho Ho'. unfold sync_partitions, focus_pass.
  assert (NoDup (partition_range PARTITIONS_AMOUNT)) as Hnd by (by apply NoDup_partition_range).
  revert Hpid Hnd. generalize (partition_range PARTITIONS_AMOUNT). intros l Hpid Hnd.
  apply list_elem_of_split in Hpid as (l1 & l2 & ->).
  apply NoDup_app in Hnd as (_ & Hd & [Hl2 _]%NoDup_cons).
  rewrite foldl_app, (sync_all_idle _ _ _ pid); [|done|set_solver]. cbn [foldl]. cbv zeta in Ho'.
  destruct (sync_one_partition _ _ _ _ _) as [[s1 st1] out]. cbn in Ho'. by rewrite (sync_all_idle _ _ _ pid).
Qed.

End focus.

Lemma PARTITION_in_range : PARTITION ∈ partition_range PARTITIONS_AMOUNT.
Proof. apply elem_of_partition_range; [done|]. vm_compute. split; [discriminate|reflexivity]. Qed.


(** The pass over one partition, where it is all there is to do. *)
Definition checked_pass (s : State) (st : TestStore) (me : Me)
    : option (State * TestStore * list WorkerProtocol.t) :=
  let r := sync_one_partition test_clock (get_currently_synced_actual_nodes s) me (s, st, []) PARTITION in
  if only PARTITION s st && only PARTITION r.1.1 r.1.2 then Some (focus_pass test_clock PARTITION s st me) else None.

Lemma checked_pass_sound s st me r : checked_pass s st me = Some r → Some (sync_partitions test_clock s st me) = Some r.
Proof.
  unfold checked_pass. destruct (_ && _) eqn:E; [|done]. intros [= <-]. apply andb_true_iff in E as [E1 E2].
  f_equal. apply sync_partitions_focus; [apply PARTITION_in_range|done..].
Qed.

(** ** Tests that run passes

    They are written over the pass they run: [sync_partitions], or [checked_pass]
    to evaluate them. *)

Section passes.
Variable pass : State → TestStore → Me → option (State * TestStore * list WorkerProtocol.t).

Definition complete_first_batch (state : State) (store : TestStore) (me : Me) (recipient : NodeId) (key : Key)
    : option (State * TestStore * list WorkerProtocol.t) :=
  '(state, store, _) ← pass state store me;
  let state := handle_sync_batch_response state {[ PARTITION := key ]} recipient in
  pass state store me.

Definition retained_node_keeps_partition_and_remembers_completed_new_node : option bool :=
  let current := node_id 1 in
  let new_replica := node_id 2 in
  let partitions := mkPartitions (test_mapping current [new_replica]) ∅ {[ PARTITION := {[ new_replica ]} ]} in
  let state := test_state partitions (cluster_nodes [current; new_replica]) in
  let me := test_me current in
  let '(store, key) := put_partition_record RuntimeStore_new in
  '(state, store, output) ← complete_first_batch state store me new_replica key;
  let '(found, store) := get test_now key store in
  let remembered := actual_nodes_sync_completion state !! PARTITION ≫= (!!) new_replica in
  '(_, _, output') ← pass state store me;
  Some (is_present found && bool_decide (remembered = Some (partitions_last_update_time state)) &&
        existsb is_release output && bool_decide (length output' = 0%nat)).

Definition removes_incomplete_sync_when_recipient_leaves_cluster : option bool :=
  let current := node_id 1 in
  let new_replica := node_id 2 in
  let partitions := mkPartitions (test_mapping current [new_replica]) ∅ {[ PARTITION := {[ new_replica ]} ]} in
  let state := test_state partitions (cluster_nodes [current; new_replica]) in
  let me := test_me current in
  let '(store, _) := put_partition_record RuntimeStore_new in
  '(state, store, _) ← pass state store me;
  let started := bool_decide (sync state !! PARTITION ≫= (!!) new_replica ≠ None) in
  let state := set_nodes (delete new_replica (nodes state)) state in
  '(state, _, output) ← pass state store me;
  Some (started && bool_decide (sync state !! PARTITION = None) && bool_decide (length output = 0%nat)).

Definition obsolete_node_removes_partition_after_all_current_nodes_are_synced : option bool :=
  let obsolete := node_id 1 in
  let new_master := node_id 2 in
  let partitions := mkPartitions (test_mapping new_master []) {[ PARTITION := {[ obsolete ]} ]} ∅ in
  let state := test_state partitions (cluster_nodes [obsolete; new_master]) in
  let me := test_me obsolete in
  let '(store, key) := put_partition_record RuntimeStore_new in
  '(_, store, output) ← complete_first_batch state store me new_master key;
  Some (negb (is_present (get test_now key store).1) && existsb (is_release_of obsolete PARTITION) output).

Definition empty_partition_is_acknowledged_without_sending_a_batch : option bool :=
  let obsolete := node_id 1 in
  let new_master := node_id 2 in
  let partitions := mkPartitions (test_mapping new_master []) {[ PARTITION := {[ obsolete ]} ]} ∅ in
  let state := test_state partitions (cluster_nodes [obsolete; new_master]) in
  '(_, _, output) ← pass state RuntimeStore_new (test_me obsolete);
  Some (existsb (is_release_of obsolete PARTITION) output && negb (existsb is_batch output)).

(** A thousand and one records: the first batch is full, an insert behind the
    cursor of the snapshot goes out with the changes, the snapshot is not sent
    again. *)
Definition batch_keys (m : WorkerProtocol.t) : list Key :=
  match m with WorkerProtocol.SyncBatch _ request => rec_key <$> req_records request | _ => [] end.

Definition batch_max_key (m : WorkerProtocol.t) : option Key :=
  match m with WorkerProtocol.SyncBatch _ request => rec_key <$> last (req_records request) | _ => None end.

(** The loop: a pass, and the acknowledgement of every batch. *)
Fixpoint test_rounds (n : nat) (me : Me) (recipient : NodeId) (inserted first : Key) (state : State)
    (store : TestStore) (transferred resent_snapshot_start : bool) : option (bool * bool) :=
  match n with
  | O => Some (transferred, resent_snapshot_start)
  | S n =>
      '(state, store, output) ← pass state store me;
      let keys := concat (batch_keys <$> output) in
      let state :=
        foldl (λ state max_key, handle_sync_batch_response state {[ PARTITION := max_key ]} recipient) state
          (omap batch_max_key output) in
      test_rounds n me recipient inserted first state store
        (transferred || existsb (Z.eqb inserted) keys) (resent_snapshot_start || existsb (Z.eqb first) keys)
  end.

Definition sends_behind_cursor_insert_from_change_log_without_restarting_snapshot : option bool :=
  let current := node_id 1 in
  let new_replica := node_id 2 in
  let partitions := mkPartitions (test_mapping current [new_replica]) ∅ {[ PARTITION := {[ new_replica ]} ]} in
  let state := test_state partitions (cluster_nodes [current; new_replica]) in
  let me := test_me current in
  let partition_stride := PARTITIONS_AMOUNT in
  let first_snapshot_key := partition_id_u16 PARTITION in
  let store :=
    foldl (λ store index, put (first_snapshot_key + index * 2 * partition_stride) (mkRecord 0 1 [1]) store)
      RuntimeStore_new (seqZ 0 1001) in
  let inserted_behind_cursor := first_snapshot_key + partition_stride in
  '(state, store, output) ← pass state store me;
  first_max_key ← head (omap batch_max_key output);
  let store := put inserted_behind_cursor (mkRecord 0 2 [2]) store in
  let state := handle_sync_batch_response state {[ PARTITION := first_max_key ]} new_replica in
  '(transferred, resent_snapshot_start) ←
    test_rounds 6 me new_replica inserted_behind_cursor first_snapshot_key state store false false;
  Some (transferred && negb resent_snapshot_start).

End passes.

(** ** Evaluation *)

Definition program_pass (s : State) (st : TestStore) (me : Me) : option (State * TestStore * list WorkerProtocol.t) :=
  Some (sync_partitions test_clock s st me).

Lemma bind_mono {A B} (m m' : option A) (k k' : A → option B) b :
  (∀ x, m = Some x → m' = Some x) → (∀ x, k x = Some b → k' x = Some b) → m ≫= k = Some b → m' ≫= k' = Some b.
Proof. destruct m as [x|]; [|done]. intros Hm Hk Hb. rewrite (Hm x eq_refl). by apply Hk. Qed.

Lemma complete_first_batch_replay state store me recipient key r :
  complete_first_batch checked_pass state store me recipient key = Some r →
  complete_first_batch program_pass state store me recipient key = Some r.
Proof. apply bind_mono; [apply checked_pass_sound|]. intros [[? ?] ?]. apply checked_pass_sound. Qed.

Lemma retained_node_test_passes :
  retained_node_keeps_partition_and_remembers_completed_new_node program_pass = Some true.
Proof.
  assert (retained_node_keeps_partition_and_remembers_completed_new_node checked_pass = Some true) as E
    by (vm_compute; reflexivity).
  revert E. unfold retained_node_keeps_partition_and_remembers_completed_new_node. cbv zeta.
  destruct (put_partition_record _) as [store key].
  apply bind_mono; [apply complete_first_batch_replay|]. intros [[s st] out].
  destruct (get _ _ _) as [found st']. apply bind_mono; [apply checked_pass_sound|done].
Qed.

Lemma leaving_recipient_test_passes :
  removes_incomplete_sync_when_recipient_leaves_cluster program_pass = Some true.
Proof.
  assert (removes_incomplete_sync_when_recipient_leaves_cluster checked_pass = Some true) as E
    by (vm_compute; reflexivity).
  revert E. unfold removes_incomplete_sync_when_recipient_leaves_cluster. cbv zeta.
  destruct (put_partition_record _) as [store key].
  apply bind_mono; [apply checked_pass_sound|]. intros [[s st] out].
  apply bind_mono; [apply checked_pass_sound|done].
Qed.

Lemma obsolete_node_test_passes :
  obsolete_node_removes_partition_after_all_current_nodes_are_synced program_pass = Some true.
Proof.
  assert (obsolete_node_removes_partition_after_all_current_nodes_are_synced checked_pass = Some true) as E
    by (vm_compute; reflexivity).
  revert E. unfold obsolete_node_removes_partition_after_all_current_nodes_are_synced. cbv zeta.
  destruct (put_partition_record _) as [store key].
  apply bind_mono; [apply complete_first_batch_replay|done].
Qed.

Lemma empty_partition_test_passes :
  empty_partition_is_acknowledged_without_sending_a_batch program_pass = Some true.
Proof.
  assert (empty_partition_is_acknowledged_without_sending_a_batch checked_pass = Some true) as E
    by (vm_compute; reflexivity).
  revert E. unfold empty_partition_is_acknowledged_without_sending_a_batch. cbv zeta.
  apply bind_mono; [apply checked_pass_sound|done].
Qed.

Lemma test_rounds_replay n me recipient inserted first state store t r b :
  test_rounds checked_pass n me recipient inserted first state store t r = Some b →
  test_rounds program_pass n me recipient inserted first state store t r = Some b.
Proof.
  revert state store t r. induction n as [|n IH]; intros state store t r; [done|]. cbn [test_rounds].
  apply bind_mono; [apply checked_pass_sound|]. intros [[s st] out]. apply IH.
Qed.

Lemma behind_cursor_test_passes :
  sends_behind_cursor_insert_from_change_log_without_restarting_snapshot program_pass = Some true.
Proof.
  assert (sends_behind_cursor_insert_from_change_log_without_restarting_snapshot checked_pass = Some true) as E
    by (vm_compute; reflexivity).
  revert E. unfold sends_behind_cursor_insert_from_change_log_without_restarting_snapshot. cbv zeta.
  generalize (foldl (λ (store : TestStore) index,
    put (partition_id_u16 PARTITION + index * 2 * PARTITIONS_AMOUNT) (mkRecord 0 1 [1]) store) RuntimeStore_new (seqZ 0 1001)).
  intros store. apply bind_mono; [apply checked_pass_sound|]. intros [[s st] out].
  apply bind_mono; [done|]. intros max_key. apply bind_mono; [apply test_rounds_replay|done].
Qed.

Lemma migrated_tombstone_test_passes : migrated_tombstone_prevents_stale_record_resurrection = true.
Proof. vm_compute. reflexivity. Qed.

Lemma partition_target_tests_pass :
  forallb id
    [old_replica_syncs_to_every_available_node_in_the_current_mapping_except_itself;
     node_does_not_start_second_phase_while_an_old_replica_remains;
     retained_current_node_syncs_to_available_new_replicas_after_old_replicas_are_done;
     absent_old_replicas_entry_also_means_the_first_phase_is_done;
     newly_added_node_does_not_relay_the_partition_to_other_new_nodes;
     node_outside_both_old_and_current_mapping_has_no_sync_targets] = true.
Proof. vm_compute. reflexivity. Qed.

