(* ===== verification/Conversions.v ===== *)
(** * Wire messages and conversions (no-sql-store-proto, conversions.rs)

    The message types of the three .proto files, as their generated code
    represents them ([map] as a hash map, [repeated] as a vector, [bytes] as a
    vector of bytes, an enumeration as its number), and the conversions between
    them and the domain types.  Parsing a node id may panic, so conversions from
    the wire return an option. *)

From S2P Require Import Prelude Common.

(** ** common.proto *)

Record GAddr := mkGAddr { ga_host : string; ga_port : Z }.
Record GPartition := mkGPartition { gp_master : string; gp_replicas : list string }.
Record GReplicas := mkGReplicas { gr_replicas : list string }.
Record GPartitions := mkGPartitions {
  gps_mapping : gmap Z GPartition;
  gps_new_replicas : gmap Z GReplicas;
  gps_old_replicas : gmap Z GReplicas;
}.
Record GNode := mkGNode {
  gn_id : string;
  gn_addr : option GAddr;
  gn_last_heartbeat : Z;
  gn_node_type : Z;
}.
Record GClusterState := mkGClusterState {
  gcs_epoch : Z;
  gcs_leader_id : string;
  gcs_nodes : list GNode;
  gcs_partitions : option GPartitions;
}.

(** ** manager_api.proto *)

Record GConnect := mkGConnect { gc_id : string; gc_addr : option GAddr; gc_replication_factor : option Z }.

Module ManagerEvent.
Inductive t :=
  | Connect (c : GConnect)
  | ConnectResponse (id : string)
  | Heartbeat (id : string) (ts : Z)
  | GetClusterState
  | ClusterState (state : GClusterState)
  | VoteRequest (epoch ts : Z)
  | VoteResponse (leader_id : string) (ts : Z)
  | Leader (id : string) (epoch ts : Z)
  | RemovePartitionFromReplica (replica_id : string) (partition_id : Z).
End ManagerEvent.

(** The stream between a manager and a worker. *)
Module WorkerEvent.
Inductive t :=
  | Connect (c : GConnect)
  | ConnectResponse (id : string)
  | Heartbeat (id : string) (ts : Z)
  | GetClusterState
  | ClusterState (state : GClusterState)
  | ManagerLeader (id : string) (epoch ts : Z)
  | RemovePartitionFromReplica (replica_id : string) (partition_id : Z).
End WorkerEvent.

(** ** worker_api.proto *)

Record GRecord := mkGRecord {
  grec_key : Z;
  grec_value : list Z;
  grec_ttl : Z;
  grec_creation_time : Z;
  grec_deleted : bool;
}.

(** The stream between two workers. *)
Module PeerEvent.
Inductive t :=
  | Connect (id : string) (addr : option GAddr)
  | ConnectResponse (id : string)
  | SyncBatchRequest (records : list GRecord)
  | SyncBatchResponse (partition_id_to_max_applied_key : gmap Z Z).
End PeerEvent.

(** [RequestType]: Get = 0, Put = 1, Delete = 2. *)
Definition REQUEST_GET : Z := 0.
Definition REQUEST_PUT : Z := 1.
Definition REQUEST_DELETE : Z := 2.

Record ClientRequest := mkClientRequest {
  cr_id : Z;
  cr_request_type : Z;
  cr_key : Z;
  cr_creation_time : option Z;
  cr_value : option (list Z);
  cr_ttl : option Z;
}.

Record WorkerResponse := mkWorkerResponse {
  wr_request_id : Z;
  wr_record : option GRecord;
  wr_deletion_time : option Z;
}.

(** ** conversions.rs *)

Definition grpc_node_type_to_domain (node_type : Z) : NodeType :=
  if node_type =? 1 then Worker else Manager.

Definition domain_node_type_to_grpc (node_type : NodeType) : Z :=
  match node_type with Manager => 0 | Worker => 1 end.

Section conversions.
Context `{UuidApi}.

Definition grpc_partition_mapping_to_domain (m : gmap Z GPartition) : option (gmap PartitionId Partition) :=
  collect_map <$>
    mapM (λ kv : Z * GPartition,
            master ← NodeId_from_string (gp_master kv.2);
            replicas ← mapM NodeId_from_string (gp_replicas kv.2);
            Some (mkPartitionId (as_u16 kv.1), mkPartition master (list_to_set replicas)))
      (map_to_list m).

Definition domain_partition_mapping_to_grpc (m : gmap PartitionId Partition) : gmap Z GPartition :=
  collect_map
    ((λ kv : PartitionId * Partition,
        (as_u32 (partition_id_u16 kv.1),
         mkGPartition (NodeId_to_string (master kv.2)) (NodeId_to_string <$> elements (replicas kv.2)))) <$>
       map_to_list m).

Definition grpc_old_replicas_to_domain (m : gmap Z GReplicas) : option (gmap PartitionId (gset NodeId)) :=
  collect_map <$>
    mapM (λ kv : Z * GReplicas,
            replicas ← mapM NodeId_from_string (gr_replicas kv.2);
            Some (mkPartitionId (as_u16 kv.1), list_to_set replicas))
      (map_to_list m).

Definition domain_old_replicas_to_grpc (m : gmap PartitionId (gset NodeId)) : gmap Z GReplicas :=
  collect_map
    ((λ kv : PartitionId * gset NodeId,
        (as_u32 (partition_id_u16 kv.1), mkGReplicas (NodeId_to_string <$> elements kv.2))) <$>
       map_to_list m).

Definition grpc_partitions_to_domain (ps : GPartitions) : option Partitions :=
  mapping ← grpc_partition_mapping_to_domain (gps_mapping ps);
  old_replicas ← grpc_old_replicas_to_domain (gps_old_replicas ps);
  new_replicas ← grpc_old_replicas_to_domain (gps_new_replicas ps);
  Some (mkPartitions mapping old_replicas new_replicas).

Definition domain_partitions_to_grpc (ps : Partitions) : GPartitions :=
  mkGPartitions (domain_partition_mapping_to_grpc (mapping ps))
    (domain_old_replicas_to_grpc (new_replicas ps)) (domain_old_replicas_to_grpc (old_replicas ps)).

(** The [Node] a snapshot carries for a cluster node (manager/grpc/output.rs). *)
Definition cluster_node_to_grpc (n : ClusterNode) : GNode :=
  mkGNode (NodeId_to_string (cn_id n)) (Some (mkGAddr (cn_host n) (cn_port n))) (cn_last_heartbeat n)
    (domain_node_type_to_grpc (cn_node_type n)).

Definition cluster_state_to_grpc (cs : ClusterState) : GClusterState :=
  mkGClusterState (cs_epoch cs) (NodeId_to_string (cs_leader_id cs)) (cluster_node_to_grpc <$> cs_nodes cs)
    (Some (domain_partitions_to_grpc (cs_partitions cs))).

(** The [filter_map] over the nodes of a received snapshot: a node without an
    address is skipped ([Some None]), a bad id panics ([None]). *)
Definition grpc_node_to_domain (n : GNode) : option (option ClusterNode) :=
  match gn_addr n with
  | Some addr =>
      id ← NodeId_from_string (gn_id n);
      Some (Some (mkClusterNode id (ga_host addr) (ga_port addr) (gn_last_heartbeat n)
                    (grpc_node_type_to_domain (gn_node_type n))))
  | None => Some None
  end.

(** A snapshot with its partitions present. *)
Definition grpc_cluster_state_to_domain (g : GClusterState) (ps : GPartitions) : option ClusterState :=
  leader_id ← NodeId_from_string (gcs_leader_id g);
  partitions ← grpc_partitions_to_domain ps;
  nodes ← mapM grpc_node_to_domain (gcs_nodes g);
  Some (mkClusterState (gcs_epoch g) leader_id (omap id nodes) partitions).

End conversions.

(** ** Round trips *)

Section roundtrip.
Context `{UuidLaws}.

(** Every id of a table is canonical and every partition id is a [u16]. *)
Definition table_ok {V} (P : V → Prop) (m : gmap PartitionId V) : Prop :=
  ∀ p v, m !! p = Some v → is_u16 (partition_id_u16 p) ∧ P v.
Definition partition_ok (p : Partition) : Prop := canonical (master p) ∧ set_Forall canonical (replicas p).
Definition partitions_ok (ps : Partitions) : Prop :=
  table_ok partition_ok (mapping ps) ∧ table_ok (set_Forall canonical) (old_replicas ps) ∧
  table_ok (set_Forall canonical) (new_replicas ps).
Definition cluster_state_ok (cs : ClusterState) : Prop :=
  canonical (cs_leader_id cs) ∧ Forall (λ n, canonical (cn_id n)) (cs_nodes cs) ∧ partitions_ok (cs_partitions cs).

Lemma node_type_roundtrip t : grpc_node_type_to_domain (domain_node_type_to_grpc t) = t.
Proof. by destruct t. Qed.

Lemma mapM_ids (l : list NodeId) :
  Forall canonical l → mapM NodeId_from_string (NodeId_to_string <$> l) = Some l.
Proof.
  intros Hl. apply mapM_fmap_Forall_Some. eapply Forall_impl; [exact Hl|]. intros x. apply from_to_string.
Qed.

Lemma replicas_roundtrip (X : gset NodeId) :
  set_Forall canonical X →
  ∃ l, mapM NodeId_from_string (NodeId_to_string <$> elements X) = Some l ∧ list_to_set l = X.
Proof.
  intros HX. exists (elements X). split; [|apply list_to_set_elements_L].
  apply mapM_ids, Forall_forall. intros x Hx%elem_of_elements. by apply HX.
Qed.

(** Encoding and decoding a map entry by entry gives the map back, whatever the
    iteration order of the intermediate hash map. *)
Lemma map_roundtrip {K V K' V'} `{Countable K, Countable K'} (enc : K * V → K' * V') (dec : K' * V' → option (K * V))
    (m : gmap K V) :
  (∀ p v, m !! p = Some v → dec (enc (p, v)) = Some (p, v)) →
  (∀ p v q w, m !! p = Some v → m !! q = Some w → (enc (p, v)).1 = (enc (q, w)).1 → p = q) →
  collect_map <$> mapM dec (map_to_list (collect_map (enc <$> map_to_list m))) = Some m.
Proof.
  intros Hdec Hinj.
  assert (NoDup (enc <$> map_to_list m).*1) as Hnd.
  { rewrite <-list_fmap_compose. apply NoDup_fmap_2_strong; [|apply NoDup_map_to_list].
    intros [p v] [q w] Hp%elem_of_map_to_list Hq%elem_of_map_to_list Heq.
    pose proof (Hinj _ _ _ _ Hp Hq Heq) as ->. rewrite Hp in Hq. by injection Hq as ->. }
  rewrite (collect_map_NoDup (enc <$> map_to_list m)) by done.
  pose proof (map_to_list_to_map (M := gmap K') (enc <$> map_to_list m) Hnd) as Hperm.
  apply Permutation_map_inv in Hperm as (L & HL & HpL).
  change (map enc L) with (enc <$> L) in HL. rewrite HL.
  rewrite (mapM_fmap_Forall_Some dec enc L).
  - simpl. f_equal. rewrite collect_map_NoDup.
    + rewrite <-(list_to_map_to_list m). symmetry. apply list_to_map_proper; [apply NoDup_fst_map_to_list|done].
    + rewrite <-HpL. apply NoDup_fst_map_to_list.
  - apply Forall_forall. intros [p v] Hin. apply Hdec, elem_of_map_to_list. by rewrite HpL.
Qed.

Lemma partition_id_roundtrip (p : PartitionId) :
  is_u16 (partition_id_u16 p) → mkPartitionId (as_u16 (as_u32 (partition_id_u16 p))) = p.
Proof.
  intros Hp. destruct p as [p]. simpl in *. rewrite as_u32_small by (unfold is_u16, is_u32, u16_modulus, u32_modulus in *; lia).
  by rewrite as_u16_small.
Qed.

Lemma partition_id_wire_inj (p q : PartitionId) :
  is_u16 (partition_id_u16 p) → is_u16 (partition_id_u16 q) →
  as_u32 (partition_id_u16 p) = as_u32 (partition_id_u16 q) → p = q.
Proof.
  intros Hp Hq E. rewrite <-(partition_id_roundtrip p), <-(partition_id_roundtrip q) by done. by rewrite E.
Qed.

Lemma mapping_roundtrip m :
  table_ok partition_ok m →
  grpc_partition_mapping_to_domain (domain_partition_mapping_to_grpc m) = Some m.
Proof.
  intros Hm. apply map_roundtrip.
  - intros p v Hp. destruct (Hm p v Hp) as [Hu [Hma Hre]]. simpl. rewrite from_to_string by done. simpl.
    destruct (replicas_roundtrip (replicas v) Hre) as (l & -> & Hl). simpl.
    rewrite Hl, partition_id_roundtrip by done. by destruct v.
  - intros p v q w Hp Hq. apply partition_id_wire_inj; [by eapply Hm|by eapply Hm].
Qed.

Lemma old_replicas_roundtrip m :
  table_ok (set_Forall canonical) m → grpc_old_replicas_to_domain (domain_old_replicas_to_grpc m) = Some m.
Proof.
  intros Hm. apply map_roundtrip.
  - intros p v Hp. destruct (Hm p v Hp) as [Hu Hv]. simpl.
    destruct (replicas_roundtrip v Hv) as (l & -> & Hl). simpl. by rewrite Hl, partition_id_roundtrip.
  - intros p v q w Hp Hq. apply partition_id_wire_inj; [by eapply Hm|by eapply Hm].
Qed.

Lemma partitions_roundtrip_lemma ps :
  partitions_ok ps → grpc_partitions_to_domain (domain_partitions_to_grpc ps) = Some ps.
Proof.
  intros (Hm & Ho & Hn). unfold grpc_partitions_to_domain, domain_partitions_to_grpc. simpl.
  rewrite mapping_roundtrip by done. simpl. rewrite !old_replicas_roundtrip by done. simpl. by destruct ps.
Qed.

Lemma cluster_node_roundtrip n :
  canonical (cn_id n) → grpc_node_to_domain (cluster_node_to_grpc n) = Some (Some n).
Proof.
  intros Hn. unfold grpc_node_to_domain, cluster_node_to_grpc. cbn [gn_addr gn_id].
  rewrite from_to_string by done. simpl. rewrite node_type_roundtrip. by destruct n.
Qed.

Lemma cluster_state_roundtrip_lemma cs :
  cluster_state_ok cs →
  grpc_cluster_state_to_domain (cluster_state_to_grpc cs) (domain_partitions_to_grpc (cs_partitions cs)) = Some cs.
Proof.
  intros (Hl & Hn & Hp). unfold grpc_cluster_state_to_domain. simpl. rewrite from_to_string by done. simpl.
  rewrite partitions_roundtrip_lemma by done. simpl.
  assert (mapM grpc_node_to_domain (cluster_node_to_grpc <$> cs_nodes cs) = Some (Some <$> cs_nodes cs)) as ->.
  { apply mapM_Some. apply Forall2_fmap, Forall_Forall2_diag. eapply Forall_impl; [exact Hn|]. intros n.
    apply cluster_node_roundtrip. }
  simpl. destruct cs as [e l ns ps]. simpl. do 2 f_equal. clear. induction ns as [|n ns IH]; [done|]. csimpl. by rewrite IH.
Qed.

End roundtrip.
