(* ===== verification/Grpc.v ===== *)
(** * Connections shared by both gRPC layers

    A session is one half of a bidirectional stream, with the flag
    [Sender::is_closed] reads; sending to an open session delivers.  A connection
    task is the list of its actions in order.  The channel to the service loop is
    open: it closes only when the process stops. *)

From S2P Require Import Prelude Common.

(** [CommunicationStreamEither], with the state of its channel. *)
Inductive StreamSide := Input | Output.
Record Stream := mkStream { side : StreamSide; is_closed : bool }.

(** [IOStreamExt::send]: whether the event was delivered and whether an error is
    returned.  On the [Input] side the error of a closed channel carries the
    event, not a status, and is dropped. *)
Definition stream_send (s : Stream) : bool * bool :=
  match side s with
  | Input => (negb (is_closed s), false)
  | Output => (negb (is_closed s), is_closed s)
  end.

(** [handle_common]: the sessions it leaves, whether the event was delivered, and
    whether a [NodeDisconnected] for [id] goes to the service. *)
Definition handle_common (sessions : gmap NodeId Stream) (id : NodeId) : gmap NodeId Stream * bool * bool :=
  match sessions !! id with
  | Some s =>
      if is_closed s then (delete id sessions, false, true)
      else (sessions, (stream_send s).1, false)
  | None => (sessions, false, false)
  end.

(** What the loop of an input task does with one payload; the panic of an id
    conversion is [None] of the option around it. *)
Inductive Handled (A : Type) :=
  | Forward (msg : A)
  | Stop.
Arguments Forward {_} _.
Arguments Stop {_}.

(** [while let Some(Ok(Event { payload: Some(payload) })) = input.next().await]:
    [None] in the list is the end of the stream, an error or an event without
    payload.  Returns the forwarded messages and whether the task panicked. *)
Fixpoint input_loop {E A} (f : E → option (Handled A)) (items : list (option E)) : list A * bool :=
  match items with
  | [] => ([], false)
  | None :: _ => ([], false)
  | Some payload :: items =>
      match f payload with
      | Some (Forward msg) => let '(msgs, panicked) := input_loop f items in (msg :: msgs, panicked)
      | Some Stop => ([], false)
      | None => ([], true)
      end
  end.

(** The actions of a connection task. *)
Inductive ConnAction (E A : Type) :=
  | InsertSession (id : NodeId) (s : StreamSide)
  | SendEvent (event : E)
  | ToService (msg : A)
  | RemoveSession (id : NodeId).
Arguments InsertSession {_ _} _ _.
Arguments SendEvent {_ _} _.
Arguments ToService {_ _} _.
Arguments RemoveSession {_ _} _.

(** Dialling a node: the transport fails, the call fails, or the stream is open;
    then [alive] is whether the first event could be sent, [first] the answer to
    it and [items] what follows. *)
Inductive DialOutcome (E : Type) :=
  | ConnectFailed
  | OpenFailed
  | Opened (alive : bool) (first : option E) (items : list (option E)).
Arguments ConnectFailed {_}.
Arguments OpenFailed {_}.
Arguments Opened {_} _ _ _.

(** The end of every connection task: forward the input, then, unless the task
    panicked, remove the session and tell the service. *)
Definition run_input {E A} (id : NodeId) (disconnected : A) (input : list A * bool) : list (ConnAction E A) :=
  (ToService <$> input.1) ++
  (if input.2 then [] else [RemoveSession id; ToService disconnected]).

Definition service_messages {E A} (l : list (ConnAction E A)) : list A :=
  omap (λ a, match a with ToService m => Some m | _ => None end) l.

(** ** Lemmas *)

Lemma input_loop_forwarded {E A} (f : E → option (Handled A)) items m :
  m ∈ (input_loop f items).1 → ∃ e, Some e ∈ items ∧ f e = Some (Forward m).
Proof.
  induction items as [|[e|] items IH]; simpl; [by intros ?%not_elem_of_nil| |by intros ?%not_elem_of_nil].
  destruct (f e) as [[m'|]|] eqn:He; [|by intros ?%not_elem_of_nil..].
  destruct (input_loop f items) as [ms p]. simpl in *. intros [->|Hm]%elem_of_cons.
  - exists e. split; [by left|done].
  - destruct (IH Hm) as (e' & ? & ?). exists e'. split; [by right|done].
Qed.

Lemma service_messages_app {E A} (l1 l2 : list (ConnAction E A)) :
  service_messages (l1 ++ l2) = service_messages l1 ++ service_messages l2.
Proof. apply omap_app. Qed.

Lemma service_messages_to_service {E A} (l : list A) :
  service_messages (ToService <$> l : list (ConnAction E A)) = l.
Proof. induction l as [|a l IH]; [done|]. unfold service_messages in *. csimpl. by rewrite IH. Qed.

Lemma handle_common_open sessions id s :
  sessions !! id = Some s → is_closed s = false → handle_common sessions id = (sessions, true, false).
Proof. intros Hs Hc. unfold handle_common, stream_send. rewrite Hs, Hc. by destruct (side s). Qed.
