(* ===== verification/ManagerGrpc.v ===== *)
(** * The manager's gRPC layer (manager/grpc.rs, manager/grpc/)

    The output task (one protocol message at a time, with the session tables),
    the input tasks of manager and worker connections, and the connection
    handlers.  Opening the transport itself is an action ([Dial]). *)

From S2P Require Import Prelude Common Conversions Grpc.

Record Sessions := mkSessions {
  manager_sessions : gmap NodeId Stream;
  worker_sessions : gmap NodeId Stream;
  client_sessions : gmap NodeId bool;  (* the [is_closed] flag of the client's channel *)
}.

(** What the output task puts on the network. *)
Inductive Sent :=
  | ToManager (id : NodeId) (event : ManagerEvent.t)
  | ToWorker (id : NodeId) (event : WorkerEvent.t)
  | ToClient (id : NodeId) (state : GClusterState)
  | Dial (host : string) (port : Z) (replication_factor : Z).

Section grpc.
Context `{UuidApi}.

(** [handle_common] on the manager and on the worker sessions. *)
Definition send_manager (ss : Sessions) (id : NodeId) (event : ManagerEvent.t)
    : Sessions * list Sent * list ManagerProtocol.t :=
  let '(ms, delivered, gone) := handle_common (manager_sessions ss) id in
  (mkSessions ms (worker_sessions ss) (client_sessions ss),
   if delivered then [ToManager id event] else [],
   if gone then [ManagerProtocol.NodeDisconnected id] else []).

Definition send_worker (ss : Sessions) (id : NodeId) (event : WorkerEvent.t)
    : Sessions * list Sent * list ManagerProtocol.t :=
  let '(ws, delivered, gone) := handle_common (worker_sessions ss) id in
  (mkSessions (manager_sessions ss) ws (client_sessions ss),
   if delivered then [ToWorker id event] else [],
   if gone then [ManagerProtocol.NodeDisconnected id] else []).

(** [if is_worker { .. } else { .. }] of several handlers. *)
Definition send_either (ss : Sessions) (id : NodeId) (to_worker : WorkerEvent.t) (to_manager : ManagerEvent.t)
    : Sessions * list Sent * list ManagerProtocol.t :=
  match worker_sessions ss !! id with
  | Some _ => send_worker ss id to_worker
  | None => send_manager ss id to_manager
  end.

Definition handle_output_leader (me : Me) (ss : Sessions) (id : NodeId) (epoch ts : Z) :=
  send_either ss id (WorkerEvent.ManagerLeader (NodeId_to_string (me_id me)) epoch ts)
    (ManagerEvent.Leader (NodeId_to_string (me_id me)) epoch ts).

Definition handle_output_vote_response (ss : Sessions) (id leader_id : NodeId) (ts : Z) :=
  send_manager ss id (ManagerEvent.VoteResponse (NodeId_to_string leader_id) ts).

Definition handle_output_vote_request (ss : Sessions) (id : NodeId) (epoch ts : Z) :=
  send_manager ss id (ManagerEvent.VoteRequest epoch ts).

Definition handle_output_get_cluster_state (ss : Sessions) (id : NodeId) :=
  send_manager ss id ManagerEvent.GetClusterState.

Definition handle_output_heartbeat (ss : Sessions) (id node_id : NodeId) (ts : Z) :=
  send_either ss id (WorkerEvent.Heartbeat (NodeId_to_string node_id) ts)
    (ManagerEvent.Heartbeat (NodeId_to_string node_id) ts).

Definition handle_output_remove_partition_from_replica (ss : Sessions) (recipient_id replica_id : NodeId)
    (partition_id : PartitionId) :=
  send_either ss recipient_id
    (WorkerEvent.RemovePartitionFromReplica (NodeId_to_string replica_id) (as_u32 (partition_id_u16 partition_id)))
    (ManagerEvent.RemovePartitionFromReplica (NodeId_to_string replica_id) (as_u32 (partition_id_u16 partition_id))).

(** A snapshot goes to its recipient, and to every connected client; clients
    whose channel is closed are dropped, unless they are the recipient. *)
Definition handle_output_cluster_state (ss : Sessions) (id : NodeId) (cs : ClusterState)
    : Sessions * list Sent * list ManagerProtocol.t :=
  let state := cluster_state_to_grpc cs in
  let '(ss, sent, msgs) :=
    match client_sessions ss !! id with
    | Some closed => (ss, if closed : bool then [] else [ToClient id state], [])
    | None => send_either ss id (WorkerEvent.ClusterState state) (ManagerEvent.ClusterState state)
    end in
  let others := filter (λ c : NodeId * bool, c.1 ≠ id) (map_to_list (client_sessions ss)) in
  (mkSessions (manager_sessions ss) (worker_sessions ss)
     (map_retain (λ client_id closed, bool_decide (client_id = id) || negb closed) (client_sessions ss)),
   sent ++ omap (λ c : NodeId * bool, if c.2 then None else Some (ToClient c.1 state)) others,
   msgs).

(** One turn of [output]; [None] is the [unreachable!] of [NodeDisconnected] and of
    the replication factor of a worker configuration. *)
Definition output (me : Me) (config : Config) (ss : Sessions) (msg : ManagerProtocol.t)
    : option (Sessions * list Sent * list ManagerProtocol.t) :=
  match msg with
  | ManagerProtocol.RemovePartitionFromReplica id replica_id partition_id =>
      Some (handle_output_remove_partition_from_replica ss id replica_id partition_id)
  | ManagerProtocol.Heartbeat id hb => Some (handle_output_heartbeat ss id (hb_id hb) (hb_ts hb))
  | ManagerProtocol.NewConnection _ host port manager =>
      replication_factor ← Config_replication_factor config;
      Some (ss, if manager : bool then [Dial host port replication_factor] else [], [])
  | ManagerProtocol.GetClusterState id => Some (handle_output_get_cluster_state ss id)
  | ManagerProtocol.ClusterState recipient_id cs => Some (handle_output_cluster_state ss recipient_id cs)
  | ManagerProtocol.VoteRequest id epoch ts => Some (handle_output_vote_request ss id epoch ts)
  | ManagerProtocol.VoteResponse id leader_id ts => Some (handle_output_vote_response ss id leader_id ts)
  | ManagerProtocol.Leader id epoch ts => Some (handle_output_leader me ss id epoch ts)
  | ManagerProtocol.NodeDisconnected _ => None
  end.

(** ** manager/grpc/input.rs *)

Definition worker_payload (id : NodeId) (payload : WorkerEvent.t) : option (Handled ManagerProtocol.t) :=
  match payload with
  | WorkerEvent.RemovePartitionFromReplica replica_id partition_id =>
      replica_id ← NodeId_from_string replica_id;
      Some (Forward (ManagerProtocol.RemovePartitionFromReplica id replica_id (mkPartitionId (as_u16 partition_id))))
  | WorkerEvent.Heartbeat node_id ts =>
      node_id ← NodeId_from_string node_id;
      Some (Forward (ManagerProtocol.Heartbeat id (mkHeartbeat node_id ts)))
  | WorkerEvent.GetClusterState => Some (Forward (ManagerProtocol.GetClusterState id))
  | WorkerEvent.ClusterState _ | WorkerEvent.ManagerLeader _ _ _ | WorkerEvent.Connect _
  | WorkerEvent.ConnectResponse _ => Some Stop
  end.

Definition input_from_worker (items : list (option WorkerEvent.t)) (id : NodeId) (host : string) (port : Z)
    : list ManagerProtocol.t * bool :=
  let '(msgs, panicked) := input_loop (worker_payload id) items in
  (ManagerProtocol.NewConnection (Some id) host port false :: msgs, panicked).

Definition manager_payload (me : Me) (id : NodeId) (payload : ManagerEvent.t) : option (Handled ManagerProtocol.t) :=
  match payload with
  | ManagerEvent.RemovePartitionFromReplica replica_id partition_id =>
      replica_id ← NodeId_from_string replica_id;
      Some (Forward (ManagerProtocol.RemovePartitionFromReplica id replica_id (mkPartitionId (as_u16 partition_id))))
  | ManagerEvent.Heartbeat node_id ts =>
      node_id ← NodeId_from_string node_id;
      Some (Forward (ManagerProtocol.Heartbeat id (mkHeartbeat node_id ts)))
  | ManagerEvent.GetClusterState => Some (Forward (ManagerProtocol.GetClusterState id))
  | ManagerEvent.ClusterState g =>
      match gcs_partitions g with
      | Some partitions =>
          cs ← grpc_cluster_state_to_domain g partitions;
          Some (Forward (ManagerProtocol.ClusterState (me_id me) cs))
      | None => Some Stop
      end
  | ManagerEvent.VoteRequest epoch ts => Some (Forward (ManagerProtocol.VoteRequest id epoch ts))
  | ManagerEvent.VoteResponse leader_id ts =>
      leader_id ← NodeId_from_string leader_id;
      Some (Forward (ManagerProtocol.VoteResponse id leader_id ts))
  | ManagerEvent.Leader leader epoch ts =>
      leader ← NodeId_from_string leader;
      Some (Forward (ManagerProtocol.Leader leader epoch ts))
  | ManagerEvent.Connect _ | ManagerEvent.ConnectResponse _ => Some Stop
  end.

Definition input_from_manager (me : Me) (items : list (option ManagerEvent.t)) (id : NodeId) (host : string) (port : Z)
    : list ManagerProtocol.t * bool :=
  let '(msgs, panicked) := input_loop (manager_payload me id) items in
  (ManagerProtocol.NewConnection (Some id) host port true :: msgs, panicked).

(** ** Connection handlers (manager/grpc.rs, manager_connection.rs)

    [alive] is whether the response channel of the connection still accepts the
    [ConnectResponse].  A handler whose first event is not an acceptable [Connect]
    does nothing; a [Connect] with a malformed id panics before it did anything. *)

(** [open_client_connection]: the client is registered and asks for a snapshot. *)
Definition open_client_connection (id : string) : option (list (ConnAction GClusterState ManagerProtocol.t)) :=
  id ← NodeId_from_string id;
  Some [InsertSession id Input; ToService (ManagerProtocol.GetClusterState id)].

(** The configuration change of [open_connection] comes with its actions. *)
Definition open_connection (me : Me) (config : Config) (first : option ManagerEvent.t)
    (items : list (option ManagerEvent.t)) (alive : bool)
    : option (Config * list (ConnAction ManagerEvent.t ManagerProtocol.t)) :=
  match first with
  | Some (ManagerEvent.Connect (mkGConnect id (Some addr) (Some replication_factor))) =>
      config ← Config_replication_factor_mut replication_factor config;
      match NodeId_from_string id with
      | None => Some (config, [])
      | Some id =>
          Some (config,
                InsertSession id Input ::
                (if alive then [SendEvent (ManagerEvent.ConnectResponse (NodeId_to_string (me_id me)))] else []) ++
                run_input id (ManagerProtocol.NodeDisconnected id)
                  (if alive then input_from_manager me items id (ga_host addr) (ga_port addr) else ([], false)))
      end
  | _ => Some (config, [])
  end.

Definition open_worker_connection (me : Me) (first : option WorkerEvent.t) (items : list (option WorkerEvent.t))
    (alive : bool) : list (ConnAction WorkerEvent.t ManagerProtocol.t) :=
  match first with
  | Some (WorkerEvent.Connect (mkGConnect id (Some addr) _)) =>
      match NodeId_from_string id with
      | None => []
      | Some id =>
          InsertSession id Input ::
          (if alive then [SendEvent (WorkerEvent.ConnectResponse (NodeId_to_string (me_id me)))] else []) ++
          run_input id (ManagerProtocol.NodeDisconnected id)
            (if alive then input_from_worker items id (ga_host addr) (ga_port addr) else ([], false))
      end
  | _ => []
  end.

(** [new_manager_connection] once the transport is up: [alive] is whether the
    [Connect] could be sent, [first] the answer to it. *)
Definition start_communication_with_manager (me : Me) (host : string) (port replication_factor : Z) (alive : bool)
    (first : option ManagerEvent.t) (items : list (option ManagerEvent.t))
    : list (ConnAction ManagerEvent.t ManagerProtocol.t) :=
  if alive then
    SendEvent (ManagerEvent.Connect
      (mkGConnect (NodeId_to_string (me_id me)) (Some (mkGAddr (me_host me) (me_port me)))
         (Some (as_u32 replication_factor)))) ::
    match first with
    | Some (ManagerEvent.ConnectResponse id) =>
        match NodeId_from_string id with
        | None => []
        | Some id =>
            InsertSession id Output ::
            run_input id (ManagerProtocol.NodeDisconnected id) (input_from_manager me items id host port)
        end
    | _ => []
    end
  else [].

Definition new_manager_connection (me : Me) (host : string) (port replication_factor : Z)
    (outcome : DialOutcome ManagerEvent.t) : list (ConnAction ManagerEvent.t ManagerProtocol.t) :=
  match outcome with
  | ConnectFailed | OpenFailed => []
  | Opened alive first items => start_communication_with_manager me host port replication_factor alive first items
  end.

End grpc.
