(* ===== verification/WorkerGrpc.v ===== *)
(** * The worker's gRPC layer (worker/grpc.rs, worker/grpc/)

    The client API (requests against the shared store), the output task, the
    input tasks of the connections to other workers and to managers, and the
    connection handlers. *)

From S2P Require Import Prelude Containers Common RuntimeStore Conversions Grpc.

(** ** The client API *)

Section client_api.
Context {M : Type → Type} `{SkipMap M} {D : Type → Type} `{DashMap PartitionId D}.

(** The body of the loop of [open_client_connection] for one request.  [now] is
    the clock read of the branch taken (the default deletion time, or the read of
    [get_versioned]). *)
Definition handle_client_request (now : Z) (request : ClientRequest) (st : RuntimeStore M D)
    : RuntimeStore M D * WorkerResponse :=
  let get :=
    let '(option, st) := get_versioned now (cr_key request) st in
    (st,
     match option with
     | Some (Put record) =>
         mkWorkerResponse (cr_id request)
           (Some (mkGRecord (cr_key request) (value record) (expiration_time_ms record)
                    (creation_time_ms record) false)) None
     | Some (Delete deletion_time_ms) => mkWorkerResponse (cr_id request) None (Some deletion_time_ms)
     | None => mkWorkerResponse (cr_id request) None None
     end) in
  let delete_or_get :=
    if cr_request_type request =? REQUEST_DELETE
    then (delete_at (cr_key request) (default now (cr_creation_time request)) st,
          mkWorkerResponse (cr_id request) None None)
    else get in
  match cr_value request, cr_creation_time request with
  | Some bytes, Some creation_time_ms =>
      if cr_request_type request =? REQUEST_PUT
      then (put (cr_key request) (mkRecord (default 0 (cr_ttl request)) creation_time_ms bytes) st,
            mkWorkerResponse (cr_id request) None None)
      else delete_or_get
  | _, _ => delete_or_get
  end.

End client_api.

(** ** Sessions (worker/grpc/session.rs, [handle_common] of output.rs) *)

(** [Sender::send] on a channel that may be closed: what is queued, and the value
    given back by the error. *)
Definition channel_send {X} (closed : bool) (x : X) : list X * option X :=
  if closed then ([], Some x) else ([x], None).

(** [CommunicationStreamEither<Status, Event>] as the error of [send]. *)
Inductive StreamError (Event : Type) :=
  | InputError (status : string)
  | OutputError (event : Event).
Arguments InputError {_} _.
Arguments OutputError {_} _.

(** The trait [IOStreamExt]: the events [send] delivers and the error it returns,
    if any, and whether the stream is closed. *)
Class IOStreamExt (Event : Type) := {
  io_send : Stream → Event → list Event * option (StreamError Event);
  io_is_closed : Stream → bool;
}.

(** The streams between workers.  The [Input] side sends a [Result]; the value an
    error gives back is the [Ok] that was sent, so that no error is returned. *)
Definition ClientApiWorkerIOStream : IOStreamExt PeerEvent.t := {|
  io_send s event :=
    match side s with
    | Input =>
        let '(sent, error) := channel_send (is_closed s) (inl event : PeerEvent.t + string) in
        (omap (λ r, match r with inl e => Some e | inr _ => None end) sent,
         result ← error; match result with inr status => Some (InputError status) | inl _ => None end)
    | Output =>
        let '(sent, error) := channel_send (is_closed s) event in
        (sent, OutputError <$> error)
    end;
  io_is_closed s := match side s with Input => is_closed s | Output => is_closed s end;
|}.
#[export] Existing Instance ClientApiWorkerIOStream.

(** The streams to managers. *)
Definition WorkerIOStream : IOStreamExt WorkerEvent.t := {|
  io_send s event :=
    match side s with
    | Input =>
        let '(sent, error) := channel_send (is_closed s) (inl event : WorkerEvent.t + string) in
        (omap (λ r, match r with inl e => Some e | inr _ => None end) sent,
         result ← error; match result with inr status => Some (InputError status) | inl _ => None end)
    | Output =>
        let '(sent, error) := channel_send (is_closed s) event in
        (sent, OutputError <$> error)
    end;
  io_is_closed s := match side s with Input => is_closed s | Output => is_closed s end;
|}.
#[export] Existing Instance WorkerIOStream.

(** [handle_common]: the sessions it leaves, the events it delivers, and whether a
    [NodeDisconnected] for [id] goes to the service. *)
Definition handle_common_worker {Event} `{IOStreamExt Event} (sessions : gmap NodeId Stream) (id : NodeId)
    (event : Event) : gmap NodeId Stream * list Event * bool :=
  let closed := match sessions !! id with Some sender => io_is_closed sender | None => false end in
  if closed then (delete id sessions, [], true)
  else
    match sessions !! id with
    | Some sender => (sessions, (io_send sender event).1, false)
    | None => (sessions, [], false)
    end.

(** ** The output task (worker/grpc/output.rs) *)

Record Sessions := mkSessions {
  manager_sessions : gmap NodeId Stream;
  worker_sessions : gmap NodeId Stream;
}.

Inductive Sent :=
  | ToManager (id : NodeId) (event : WorkerEvent.t)
  | ToPeer (id : NodeId) (event : PeerEvent.t)
  | DialManager (host : string) (port : Z)
  | DialPeer (host : string) (port : Z).

Definition record_to_grpc (r : Record_) : GRecord :=
  mkGRecord (rec_key r) (rec_value r) (rec_ttl r) (rec_creation_time_ms r) (rec_deleted r).

Definition grpc_to_record (r : GRecord) : Record_ :=
  mkRecord_ (grec_key r) (grec_value r) (grec_ttl r) (grec_creation_time r) (grec_deleted r).

Section grpc.
Context `{UuidApi}.

Definition send_manager (ss : Sessions) (id : NodeId) (event : WorkerEvent.t)
    : Sessions * list Sent * list WorkerProtocol.t :=
  let '(ms, delivered, gone) := handle_common_worker (manager_sessions ss) id event in
  (mkSessions ms (worker_sessions ss),
   ToManager id <$> delivered,
   if gone then [WorkerProtocol.NodeDisconnected id] else []).

Definition send_peer (ss : Sessions) (id : NodeId) (event : PeerEvent.t)
    : Sessions * list Sent * list WorkerProtocol.t :=
  let '(ws, delivered, gone) := handle_common_worker (worker_sessions ss) id event in
  (mkSessions (manager_sessions ss) ws,
   ToPeer id <$> delivered,
   if gone then [WorkerProtocol.NodeDisconnected id] else []).

Definition handle_sync_batch (ss : Sessions) (recipient_id : NodeId) (request : SyncBatchRequest) :=
  send_peer ss recipient_id (PeerEvent.SyncBatchRequest (record_to_grpc <$> req_records request)).

Definition handle_sync_batch_response (ss : Sessions) (recipient_id : NodeId) (acks : gmap PartitionId Key) :=
  send_peer ss recipient_id
    (PeerEvent.SyncBatchResponse
       (collect_map ((λ pk : PartitionId * Key, (as_u32 (partition_id_u16 pk.1), pk.2)) <$> map_to_list acks))).

Definition handle_output_remove_partition_from_replica (ss : Sessions) (recipient_id replica_id : NodeId)
    (partition_id : PartitionId) :=
  send_manager ss recipient_id
    (WorkerEvent.RemovePartitionFromReplica (NodeId_to_string replica_id) (as_u32 (partition_id_u16 partition_id))).

Definition handle_output_get_cluster_state (ss : Sessions) (id : NodeId) :=
  send_manager ss id WorkerEvent.GetClusterState.

Definition handle_output_heartbeat (ss : Sessions) (id node_id : NodeId) (ts : Z) :=
  send_manager ss id (WorkerEvent.Heartbeat (NodeId_to_string node_id) ts).

(** One turn of [output]; [None] is the [unreachable!] of [NodeDisconnected]. *)
Definition output (ss : Sessions) (msg : WorkerProtocol.t)
    : option (Sessions * list Sent * list WorkerProtocol.t) :=
  match msg with
  | WorkerProtocol.SyncBatchResponse recipient_id acks => Some (handle_sync_batch_response ss recipient_id acks)
  | WorkerProtocol.SyncBatch recipient_id request => Some (handle_sync_batch ss recipient_id request)
  | WorkerProtocol.RemovePartitionFromReplica id replica_id partition_id =>
      Some (handle_output_remove_partition_from_replica ss id replica_id partition_id)
  | WorkerProtocol.Heartbeat id hb => Some (handle_output_heartbeat ss id (hb_id hb) (hb_ts hb))
  | WorkerProtocol.GetClusterState id => Some (handle_output_get_cluster_state ss id)
  | WorkerProtocol.NewConnection _ host port manager =>
      Some (ss, [if manager : bool then DialManager host port else DialPeer host port], [])
  | WorkerProtocol.ClusterState _ => Some (ss, [], [])
  | WorkerProtocol.Leader _ _ _ => Some (ss, [], [])
  | WorkerProtocol.NodeDisconnected _ => None
  end.

(** ** worker/grpc/input.rs *)

Definition peer_payload (me : Me) (id : NodeId) (payload : PeerEvent.t) : option (Handled WorkerProtocol.t) :=
  match payload with
  | PeerEvent.SyncBatchRequest records =>
      Some (Forward (WorkerProtocol.SyncBatch (me_id me) (mkSyncBatchRequest id (grpc_to_record <$> records))))
  | PeerEvent.SyncBatchResponse acks =>
      Some (Forward (WorkerProtocol.SyncBatchResponse id
        (collect_map ((λ pk : Z * Z, (mkPartitionId (as_u16 pk.1), pk.2)) <$> map_to_list acks))))
  | PeerEvent.Connect _ _ | PeerEvent.ConnectResponse _ => Some Stop
  end.

Definition input_from_worker (items : list (option PeerEvent.t)) (id : NodeId) (host : string) (port : Z) (me : Me)
    : list WorkerProtocol.t * bool :=
  let '(msgs, panicked) := input_loop (peer_payload me id) items in
  (WorkerProtocol.NewConnection (Some id) host port false :: msgs, panicked).

Definition manager_payload (id : NodeId) (payload : WorkerEvent.t) : option (Handled WorkerProtocol.t) :=
  match payload with
  | WorkerEvent.RemovePartitionFromReplica replica_id partition_id =>
      replica_id ← NodeId_from_string replica_id;
      Some (Forward (WorkerProtocol.RemovePartitionFromReplica id replica_id (mkPartitionId (as_u16 partition_id))))
  | WorkerEvent.Heartbeat node_id ts =>
      node_id ← NodeId_from_string node_id;
      Some (Forward (WorkerProtocol.Heartbeat id (mkHeartbeat node_id ts)))
  | WorkerEvent.ClusterState g =>
      match gcs_partitions g with
      | Some partitions =>
          cs ← grpc_cluster_state_to_domain g partitions;
          Some (Forward (WorkerProtocol.ClusterState cs))
      | None => Some Stop
      end
  | WorkerEvent.ManagerLeader leader epoch ts =>
      leader ← NodeId_from_string leader;
      Some (Forward (WorkerProtocol.Leader leader epoch ts))
  | WorkerEvent.GetClusterState | WorkerEvent.Connect _ | WorkerEvent.ConnectResponse _ => Some Stop
  end.

(** The connection is announced with [manager: false]. *)
Definition input_from_manager (items : list (option WorkerEvent.t)) (id : NodeId) (host : string) (port : Z)
    : list WorkerProtocol.t * bool :=
  let '(msgs, panicked) := input_loop (manager_payload id) items in
  (WorkerProtocol.NewConnection (Some id) host port false :: msgs, panicked).

(** ** Connection handlers (worker/grpc.rs, worker_connection.rs, manager_connection.rs) *)

Definition open_worker_connection (me : Me) (first : option PeerEvent.t) (items : list (option PeerEvent.t))
    (alive : bool) : list (ConnAction PeerEvent.t WorkerProtocol.t) :=
  match first with
  | Some (PeerEvent.Connect id (Some addr)) =>
      match NodeId_from_string id with
      | None => []
      | Some id =>
          InsertSession id Input ::
          (if alive then [SendEvent (PeerEvent.ConnectResponse (NodeId_to_string (me_id me)))] else []) ++
          run_input id (WorkerProtocol.NodeDisconnected id)
            (if alive then input_from_worker items id (ga_host addr) (ga_port addr) me else ([], false))
      end
  | _ => []
  end.

(** The dialling side, once the transport is up: [alive] is whether the [Connect]
    could be sent, [first] the answer to it. *)
Definition start_communication_with_worker (me : Me) (host : string) (port : Z) (alive : bool)
    (first : option PeerEvent.t) (items : list (option PeerEvent.t))
    : list (ConnAction PeerEvent.t WorkerProtocol.t) :=
  if alive then
    SendEvent (PeerEvent.Connect (NodeId_to_string (me_id me)) (Some (mkGAddr (me_host me) (me_port me)))) ::
    match first with
    | Some (PeerEvent.ConnectResponse id) =>
        match NodeId_from_string id with
        | None => []
        | Some id =>
            InsertSession id Output ::
            run_input id (WorkerProtocol.NodeDisconnected id) (input_from_worker items id host port me)
        end
    | _ => []
    end
  else [].

Definition start_communication_with_manager (me : Me) (host : string) (port : Z) (alive : bool)
    (first : option WorkerEvent.t) (items : list (option WorkerEvent.t))
    : list (ConnAction WorkerEvent.t WorkerProtocol.t) :=
  if alive then
    SendEvent (WorkerEvent.Connect
      (mkGConnect (NodeId_to_string (me_id me)) (Some (mkGAddr (me_host me) (me_port me))) None)) ::
    match first with
    | Some (WorkerEvent.ConnectResponse id) =>
        match NodeId_from_string id with
        | None => []
        | Some id =>
            InsertSession id Output ::
            run_input id (WorkerProtocol.NodeDisconnected id) (input_from_manager items id host port)
        end
    | _ => []
    end
  else [].

Definition new_worker_connection (me : Me) (host : string) (port : Z) (outcome : DialOutcome PeerEvent.t)
    : list (ConnAction PeerEvent.t WorkerProtocol.t) :=
  match outcome with
  | ConnectFailed | OpenFailed => []
  | Opened alive first items => start_communication_with_worker me host port alive first items
  end.

Definition new_manager_connection (me : Me) (host : string) (port : Z) (outcome : DialOutcome WorkerEvent.t)
    : list (ConnAction WorkerEvent.t WorkerProtocol.t) :=
  match outcome with
  | ConnectFailed | OpenFailed => []
  | Opened alive first items => start_communication_with_manager me host port alive first items
  end.

End grpc.
