(* ===== verification/GrpcTheorems.v ===== *)
(** * Properties of the gRPC layers

    What one node's output task sends, the other node's input task turns into
    the same protocol message readdressed to the sender; connections announce
    and withdraw their node in order; the client API is the store. *)

From S2P Require Import Prelude Containers Common RuntimeStore StoreSpec WorkerState WorkerSync WorkerService.
From S2P Require Import Conversions Grpc ManagerGrpc WorkerGrpc.

(** ** Reference definitions *)

(** The recipient of a manager's protocol message, if it is sent to a peer. *)
Definition manager_recipient (m : ManagerProtocol.t) : option NodeId :=
  match m with
  | ManagerProtocol.NewConnection _ _ _ _ | ManagerProtocol.NodeDisconnected _ => None
  | ManagerProtocol.Heartbeat id _ | ManagerProtocol.GetClusterState id | ManagerProtocol.ClusterState id _
  | ManagerProtocol.VoteRequest id _ _ | ManagerProtocol.VoteResponse id _ _ | ManagerProtocol.Leader id _ _
  | ManagerProtocol.RemovePartitionFromReplica id _ _ => Some id
  end.

(** The message as the receiving manager [y] sees it, from [x]. *)
Definition readdress (x y : NodeId) (m : ManagerProtocol.t) : ManagerProtocol.t :=
  match m with
  | ManagerProtocol.NewConnection _ _ _ _ | ManagerProtocol.NodeDisconnected _ => m
  | ManagerProtocol.Heartbeat _ hb => ManagerProtocol.Heartbeat x hb
  | ManagerProtocol.GetClusterState _ => ManagerProtocol.GetClusterState x
  | ManagerProtocol.ClusterState _ cs => ManagerProtocol.ClusterState y cs
  | ManagerProtocol.VoteRequest _ e ts => ManagerProtocol.VoteRequest x e ts
  | ManagerProtocol.VoteResponse _ l ts => ManagerProtocol.VoteResponse x l ts
  | ManagerProtocol.Leader _ e ts => ManagerProtocol.Leader x e ts
  | ManagerProtocol.RemovePartitionFromReplica _ r p => ManagerProtocol.RemovePartitionFromReplica x r p
  end.

(** The message as a worker sees it, for the kinds managers send to workers. *)
Definition as_worker_message (x : NodeId) (m : ManagerProtocol.t) : option WorkerProtocol.t :=
  match m with
  | ManagerProtocol.Heartbeat _ hb => Some (WorkerProtocol.Heartbeat x hb)
  | ManagerProtocol.ClusterState _ cs => Some (WorkerProtocol.ClusterState cs)
  | ManagerProtocol.Leader _ e ts => Some (WorkerProtocol.Leader x e ts)
  | ManagerProtocol.RemovePartitionFromReplica _ r p => Some (WorkerProtocol.RemovePartitionFromReplica x r p)
  | _ => None
  end.

Lemma mapM_pure {A B} (f : A → B) (l : list A) : mapM (λ x, Some (f x)) l = Some (f <$> l).
Proof. apply mapM_Some. apply Forall2_fmap_r, Forall_Forall2_diag, Forall_forall. done. Qed.

Section theorems.
Context `{UuidLaws}.

(** Node ids are canonical and partition ids are 16 bits wide, as in every
    message a node produces. *)
Definition manager_message_ok (m : ManagerProtocol.t) : Prop :=
  match m with
  | ManagerProtocol.Heartbeat _ hb => canonical (hb_id hb)
  | ManagerProtocol.ClusterState _ cs => cluster_state_ok cs
  | ManagerProtocol.VoteResponse _ l _ => canonical l
  | ManagerProtocol.RemovePartitionFromReplica _ r p => canonical r ∧ is_u16 (partition_id_u16 p)
  | _ => True
  end.

Definition session_open (sessions : gmap NodeId Stream) (id : NodeId) : Prop :=
  ∃ s, sessions !! id = Some s ∧ is_closed s = false.

(** ** Lemmas *)

Lemma send_manager_open ss id ev :
  session_open (ManagerGrpc.manager_sessions ss) id →
  ManagerGrpc.send_manager ss id ev = (ss, [ManagerGrpc.ToManager id ev], []).
Proof.
  intros (s & Hs & Hc). unfold ManagerGrpc.send_manager.
  rewrite (handle_common_open _ _ s) by done. by destruct ss.
Qed.

Lemma send_worker_open ss id ev :
  session_open (ManagerGrpc.worker_sessions ss) id →
  ManagerGrpc.send_worker ss id ev = (ss, [ManagerGrpc.ToWorker id ev], []).
Proof.
  intros (s & Hs & Hc). unfold ManagerGrpc.send_worker.
  rewrite (handle_common_open _ _ s) by done. by destruct ss.
Qed.

Lemma send_either_manager ss id wev mev :
  session_open (ManagerGrpc.manager_sessions ss) id → ManagerGrpc.worker_sessions ss !! id = None →
  ManagerGrpc.send_either ss id wev mev = (ss, [ManagerGrpc.ToManager id mev], []).
Proof. intros Ho Hw. unfold ManagerGrpc.send_either. rewrite Hw. by apply send_manager_open. Qed.

Lemma send_either_worker ss id wev mev :
  session_open (ManagerGrpc.worker_sessions ss) id →
  ManagerGrpc.send_either ss id wev mev = (ss, [ManagerGrpc.ToWorker id wev], []).
Proof.
  intros Ho. unfold ManagerGrpc.send_either. destruct Ho as (s & Hs & Hc). rewrite Hs.
  apply send_worker_open. by exists s.
Qed.

(** The two layers' [handle_common] agree, whatever the events. *)
Class StreamLaws (Event : Type) `{IOStreamExt Event} : Prop := {
  io_is_closed_flag s : io_is_closed s = is_closed s;
  io_send_delivers s event : (io_send s event).1 = if (stream_send s).1 then [event] else [];
  io_send_error s event : bool_decide (is_Some (io_send s event).2) = (stream_send s).2;
}.

#[export] Instance peer_stream_laws : StreamLaws PeerEvent.t.
Proof. split; intros [[] []]; reflexivity. Qed.

#[export] Instance manager_stream_laws : StreamLaws WorkerEvent.t.
Proof. split; intros [[] []]; reflexivity. Qed.

Lemma handle_common_agree {Event} `{StreamLaws Event} sessions id (event : Event) :
  handle_common_worker sessions id event =
  let '(kept, delivered, gone) := handle_common sessions id in
  (kept, if delivered : bool then [event] else [], gone).
Proof.
  unfold handle_common_worker, handle_common. destruct (sessions !! id) as [s|]; [|done].
  rewrite io_is_closed_flag. destruct (is_closed s); [done|]. by rewrite io_send_delivers.
Qed.

Lemma worker_send_manager_open ss id ev :
  session_open (WorkerGrpc.manager_sessions ss) id →
  WorkerGrpc.send_manager ss id ev = (ss, [WorkerGrpc.ToManager id ev], []).
Proof.
  intros (s & Hs & Hc). unfold WorkerGrpc.send_manager.
  rewrite handle_common_agree, (handle_common_open _ _ s) by done. by destruct ss.
Qed.

Lemma send_peer_open ss id ev :
  session_open (WorkerGrpc.worker_sessions ss) id →
  WorkerGrpc.send_peer ss id ev = (ss, [WorkerGrpc.ToPeer id ev], []).
Proof.
  intros (s & Hs & Hc). unfold WorkerGrpc.send_peer.
  rewrite handle_common_agree, (handle_common_open _ _ s) by done. by destruct ss.
Qed.

(** A received snapshot is the sent one. *)
Lemma snapshot_received cs :
  cluster_state_ok cs →
  match gcs_partitions (cluster_state_to_grpc cs) with
  | Some ps => grpc_cluster_state_to_domain (cluster_state_to_grpc cs) ps = Some cs
  | None => False
  end.
Proof. intros Hok. simpl. by apply cluster_state_roundtrip_lemma. Qed.

Lemma record_roundtrip r : grpc_to_record (record_to_grpc r) = r.
Proof. by destruct r. Qed.

Lemma acks_roundtrip (acks : gmap PartitionId Key) :
  (∀ p k, acks !! p = Some k → is_u16 (partition_id_u16 p)) →
  collect_map ((λ pk : Z * Z, (mkPartitionId (as_u16 pk.1), pk.2)) <$>
    map_to_list (collect_map ((λ pk : PartitionId * Key, (as_u32 (partition_id_u16 pk.1), pk.2)) <$> map_to_list acks)))
  = acks.
Proof.
  intros Hok. pose proof (map_roundtrip (λ pk : PartitionId * Key, (as_u32 (partition_id_u16 pk.1), pk.2))
    (λ pk : Z * Z, Some (mkPartitionId (as_u16 pk.1), pk.2)) acks) as Hr.
  rewrite (mapM_pure (λ pk : Z * Z, (mkPartitionId (as_u16 pk.1), pk.2))) in Hr. simpl in Hr.
  specialize (Hr ltac:(intros p k Hp; simpl; by rewrite partition_id_roundtrip by eauto)).
  specialize (Hr ltac:(intros p k q k' Hp Hq; simpl; apply partition_id_wire_inj; eauto)).
  by injection Hr.
Qed.

(** ** Claims *)

(** C32: messages between managers arrive as sent.  With a session to [y] open and
    [y] not known as a worker or a client, the output task of [x] sends one event
    to [y] for each message to it, and the input task of [y] turns that event into
    the same message readdressed to [x] (a leader announcement names [x] as leader,
    a snapshot names [y] as recipient), without panicking. *)
Theorem manager_wire_roundtrip me_x me_y config ss m y :
  canonical (me_id me_x) → manager_message_ok m → manager_recipient m = Some y →
  session_open (ManagerGrpc.manager_sessions ss) y →
  ManagerGrpc.worker_sessions ss !! y = None → client_sessions ss !! y = None →
  ∃ ss' sent msgs ev, ManagerGrpc.output me_x config ss m = Some (ss', sent, msgs) ∧
    ManagerGrpc.ToManager y ev ∈ sent ∧
    ManagerGrpc.manager_payload me_y (me_id me_x) ev = Some (Forward (readdress (me_id me_x) (me_id me_y) m)).
Proof.
  intros Hx Hm Hrec Ho Hw Hcl. destruct m as [|id hb|id|id cs|id e ts|id l ts|id e ts|id|id r p]; simplify_eq/=.
  - eexists _, _, _, _. split; [unfold ManagerGrpc.handle_output_heartbeat; by rewrite send_either_manager|].
    split; [by left|]. simpl. rewrite from_to_string by done. by destruct hb.
  - eexists _, _, _, _. split; [unfold ManagerGrpc.handle_output_get_cluster_state; by rewrite send_manager_open|].
    by split; [left|].
  - eexists _, _, _, _. split; [unfold ManagerGrpc.handle_output_cluster_state; by rewrite Hcl, send_either_manager|].
    split; [apply elem_of_app; left; by left|]. simpl. pose proof (snapshot_received cs Hm) as E. simpl in E. by rewrite E.
  - eexists _, _, _, _. split; [unfold ManagerGrpc.handle_output_vote_request; by rewrite send_manager_open|]. by split; [left|].
  - eexists _, _, _, _. split; [unfold ManagerGrpc.handle_output_vote_response; by rewrite send_manager_open|].
    split; [by left|]. simpl. by rewrite from_to_string.
  - eexists _, _, _, _. split; [unfold ManagerGrpc.handle_output_leader; by rewrite send_either_manager|].
    split; [by left|]. simpl. by rewrite from_to_string.
  - destruct Hm as [Hr Hp]. eexists _, _, _, _.
    split; [unfold ManagerGrpc.handle_output_remove_partition_from_replica; by rewrite send_either_manager|].
    split; [by left|]. simpl. rewrite from_to_string by done. simpl. by rewrite partition_id_roundtrip.
Qed.

(** What a manager sends to a worker arrives as sent: heartbeats, snapshots,
    leader announcements and partition releases reach the worker's service loop
    with their content unchanged. *)
Theorem manager_to_worker_wire me_x config ss m y w :
  canonical (me_id me_x) → manager_message_ok m → manager_recipient m = Some y →
  as_worker_message (me_id me_x) m = Some w →
  session_open (ManagerGrpc.worker_sessions ss) y → client_sessions ss !! y = None →
  ∃ ss' sent msgs ev, ManagerGrpc.output me_x config ss m = Some (ss', sent, msgs) ∧
    ManagerGrpc.ToWorker y ev ∈ sent ∧
    WorkerGrpc.manager_payload (me_id me_x) ev = Some (Forward w).
Proof.
  intros Hx Hm Hrec Hw Ho Hcl. destruct m as [|id hb|id|id cs|id e ts|id l ts|id e ts|id|id r p]; simplify_eq/=.
  - eexists _, _, _, _. split; [unfold ManagerGrpc.handle_output_heartbeat; by rewrite send_either_worker|].
    split; [by left|]. simpl. rewrite from_to_string by done. by destruct hb.
  - eexists _, _, _, _. split; [unfold ManagerGrpc.handle_output_cluster_state; by rewrite Hcl, send_either_worker|].
    split; [apply elem_of_app; left; by left|]. simpl. pose proof (snapshot_received cs Hm) as E. simpl in E. by rewrite E.
  - eexists _, _, _, _. split; [unfold ManagerGrpc.handle_output_leader; by rewrite send_either_worker|].
    split; [by left|]. simpl. by rewrite from_to_string.
  - destruct Hm as [Hr Hp]. eexists _, _, _, _.
    split; [unfold ManagerGrpc.handle_output_remove_partition_from_replica; by rewrite send_either_worker|].
    split; [by left|]. simpl. rewrite from_to_string by done. simpl. by rewrite partition_id_roundtrip.
Qed.

(** Batches and acknowledgements between workers arrive as sent: the receiver
    of a batch sees the same records with the connection's peer as their sender,
    so its acknowledgement goes back to that peer, and the acknowledgement names
    the same keys for the same partitions. *)
Theorem worker_sync_wire me_x me_y ss req acks y :
  session_open (WorkerGrpc.worker_sessions ss) y →
  (∀ p k, acks !! p = Some k → is_u16 (partition_id_u16 p)) →
  (∃ ev, WorkerGrpc.output ss (WorkerProtocol.SyncBatch y req) = Some (ss, [ToPeer y ev], []) ∧
     peer_payload me_y (me_id me_x) ev =
       Some (Forward (WorkerProtocol.SyncBatch (me_id me_y) (mkSyncBatchRequest (me_id me_x) (req_records req))))) ∧
  (∃ ev, WorkerGrpc.output ss (WorkerProtocol.SyncBatchResponse y acks) = Some (ss, [ToPeer y ev], []) ∧
     peer_payload me_y (me_id me_x) ev = Some (Forward (WorkerProtocol.SyncBatchResponse (me_id me_x) acks))).
Proof.
  intros Ho Hacks. split; eexists; simpl.
  - split; [unfold WorkerGrpc.handle_sync_batch; by rewrite send_peer_open|]. simpl. do 4 f_equal.
    rewrite <-list_fmap_compose. rewrite <-(list_fmap_id (req_records req)) at 2.
    apply list_fmap_ext. intros _ r _. apply record_roundtrip.
  - split; [unfold WorkerGrpc.handle_sync_batch_response; by rewrite send_peer_open|]. simpl.
    by rewrite acks_roundtrip.
Qed.

(** The life of a connection as the service sees it.  Whatever a peer sends on
    a connection to the manager, the messages this connection produces are none,
    or (when the handler did not panic on a malformed id) first the announcement
    of the node, then its traffic, containing neither another announcement nor a
    disconnection, and last its disconnection. *)
Theorem manager_connection_lifecycle me first items alive :
  let msgs := service_messages (ManagerGrpc.open_worker_connection me first items alive) in
  msgs = [] ∨
  ∃ id, (alive = false ∧ msgs = [ManagerProtocol.NodeDisconnected id]) ∨
    ∃ host port traffic ending, msgs = ManagerProtocol.NewConnection (Some id) host port false :: traffic ++ ending ∧
      (ending = [ManagerProtocol.NodeDisconnected id] ∨
       ending = [] ∧ (input_loop (worker_payload id) items).2 = true) ∧
      Forall (λ m, manager_recipient m = Some id) traffic.
Proof.
  cbv zeta. unfold ManagerGrpc.open_worker_connection.
  destruct first as [[[c [addr|] rf]| | | | | |]|]; try by left.
  destruct (NodeId_from_string c) as [id|]; [right; exists id|by left].
  change (service_messages (InsertSession id Input :: ?l)) with (service_messages l).
  rewrite service_messages_app.
  destruct alive; [right|left; by split].
  change (service_messages [SendEvent _]) with (@nil ManagerProtocol.t). rewrite app_nil_l.
  unfold run_input, ManagerGrpc.input_from_worker.
  pose proof (λ m, input_loop_forwarded (worker_payload id) items m) as Hf.
  destruct (input_loop (worker_payload id) items) as [ms p]. simpl in Hf.
  exists (ga_host addr), (ga_port addr), ms, (if p then [] else [ManagerProtocol.NodeDisconnected id]).
  rewrite service_messages_app, service_messages_to_service. split_and!.
  - by destruct p.
  - destruct p; auto.
  - apply Forall_forall. intros m (e & _ & He)%Hf. destruct e; simpl in He; simplify_eq; try done.
    + destruct (NodeId_from_string _); by simplify_eq/=.
    + destruct (NodeId_from_string _); by simplify_eq/=.
Qed.

(** A worker takes the managers it is connected to for workers: the
    connection task announces them with [manager: false], so a leader
    announcement from such a manager is not accepted, whatever its epoch. *)
Theorem worker_ignores_its_manager {M D} `{!SkipMap M, !DashMap PartitionId D} now now' me items id host port
    (s : WorkerState.State) (st : RuntimeStore M D) e ts :
  ∃ m rest, (WorkerGrpc.input_from_manager items id host port).1 = m :: rest ∧
  let '(s1, st1, _) := WorkerService.dispatch now m me s st in
  let '(s2, _, _) := WorkerService.dispatch now' (WorkerProtocol.Leader id e ts) me s1 st1 in
  WorkerState.elected_leader_id s2 = WorkerState.elected_leader_id s ∧
  WorkerState.epoch s2 = WorkerState.epoch s.
Proof.
  unfold WorkerGrpc.input_from_manager. destruct (input_loop _ items) as [ms p]. eexists _, _. split; [done|].
  simpl. unfold WorkerState.handle_leader. simpl. rewrite lookup_insert_eq. simpl.
  by destruct (WorkerState.epoch_lt _ _).
Qed.

End theorems.

(** ** The client API *)

Section client_api.
Context {M : Type → Type} `{!SkipMap M, !SkipMapLaws M}.
Context {D : Type → Type} `{!DashMap PartitionId D, !DashMapLaws PartitionId D}.
Implicit Types st : RuntimeStore M D.


End client_api.

(** ** Witnesses *)

Section witnesses.

(** A parser that accepts every text as canonical. *)
Definition any_uuid : UuidApi := {| parse_str s := Some s |}.

Lemma any_uuid_laws : UuidLaws (H := any_uuid).
Proof. split. intros s t [= ->]. done. Qed.

Definition gx : Me := mkMe (mkNodeId "x") "host-x" 1.
Definition gy : Me := mkMe (mkNodeId "y") "host-y" 2.
Definition gsessions : ManagerGrpc.Sessions :=
  ManagerGrpc.mkSessions {[ mkNodeId "y" := mkStream Output false ]} {[ mkNodeId "w" := mkStream Input false ]} ∅.
Definition gconfig : Config := ManagerConfig 1 ("host-x", 1) None 2.

Lemma session_open_y : session_open (ManagerGrpc.manager_sessions gsessions) (mkNodeId "y").
Proof. exists (mkStream Output false). split; reflexivity. Qed.
Lemma session_open_w : session_open (ManagerGrpc.worker_sessions gsessions) (mkNodeId "w").
Proof. exists (mkStream Input false). split; reflexivity. Qed.

Lemma manager_wire_roundtrip_witness :
  ∃ ss' sent msgs ev,
    ManagerGrpc.output gx gconfig gsessions (ManagerProtocol.VoteRequest (mkNodeId "y") 1 2) = Some (ss', sent, msgs) ∧
    ManagerGrpc.ToManager (mkNodeId "y") ev ∈ sent ∧
    ManagerGrpc.manager_payload (H := any_uuid) gy (mkNodeId "x") ev =
      Some (Forward (ManagerProtocol.VoteRequest (mkNodeId "x") 1 2)).
Proof.
  apply (manager_wire_roundtrip (H := any_uuid) gx gy gconfig gsessions
    (ManagerProtocol.VoteRequest (mkNodeId "y") 1 2) (mkNodeId "y"));
    [reflexivity|exact I|reflexivity|apply session_open_y|reflexivity|reflexivity].
Defined.

Lemma manager_to_worker_wire_witness :
  ∃ ss' sent msgs ev,
    ManagerGrpc.output gx gconfig gsessions (ManagerProtocol.Leader (mkNodeId "w") 1 2) = Some (ss', sent, msgs) ∧
    ManagerGrpc.ToWorker (mkNodeId "w") ev ∈ sent ∧
    WorkerGrpc.manager_payload (H := any_uuid) (mkNodeId "x") ev =
      Some (Forward (WorkerProtocol.Leader (mkNodeId "x") 1 2)).
Proof.
  apply (manager_to_worker_wire (H := any_uuid) gx gconfig gsessions
    (ManagerProtocol.Leader (mkNodeId "w") 1 2) (mkNodeId "w"));
    [reflexivity|exact I|reflexivity|reflexivity|apply session_open_w|reflexivity].
Defined.

Lemma worker_sync_wire_witness :
  ∃ ev, WorkerGrpc.output (WorkerGrpc.mkSessions ∅ {[ mkNodeId "w" := mkStream Input false ]})
          (WorkerProtocol.SyncBatchResponse (mkNodeId "w") {[ mkPartitionId 1 := 5 ]}) =
        Some (WorkerGrpc.mkSessions ∅ {[ mkNodeId "w" := mkStream Input false ]}, [ToPeer (mkNodeId "w") ev], []) ∧
    peer_payload gy (mkNodeId "x") ev =
      Some (Forward (WorkerProtocol.SyncBatchResponse (mkNodeId "x") {[ mkPartitionId 1 := 5 ]})).
Proof.
  apply (worker_sync_wire gx gy (WorkerGrpc.mkSessions ∅ {[ mkNodeId "w" := mkStream Input false ]})
    (mkSyncBatchRequest (mkNodeId "x") []) {[ mkPartitionId 1 := 5 ]} (mkNodeId "w")).
  - apply session_open_w.
  - intros p k [<- _]%lookup_singleton_Some. unfold is_u16, u16_modulus. simpl. lia.
Defined.

Definition put_request : ClientRequest := mkClientRequest 3 REQUEST_PUT 7 (Some 5) (Some [1]) None.


End witnesses.
