(* ===== verification/Sessions.v ===== *)
(** * Session tables under interleaving (grpc/session.rs, grpc.rs of both layers)

    A session table is shared, behind a lock, by every connection task of its
    kind and by the output task.  Connection tasks run their actions one at a
    time and in any order with the others; the output task runs [handle_common]
    with the three lock acquisitions it has, so that a connection may come or go
    between its look-up and its removal.  The theorems are proved against the
    interface [SessionTasks] (what a connection task does to the table), which
    the handlers of both layers implement. *)

From S2P Require Import Prelude Common Conversions Grpc ManagerGrpc WorkerGrpc GrpcTheorems.

(** ** What a connection task does to its table *)

Section task_shape.
Context {E A : Type} (disconnected : NodeId → A).

(** A task that is registered under [id]: it removes [id] at most once, and then
    only reports it. *)
Fixpoint live_ok (id : NodeId) (l : list (ConnAction E A)) : Prop :=
  match l with
  | [] => True
  | InsertSession _ _ :: _ => False
  | RemoveSession id' :: rest => id' = id ∧ rest = [ToService (disconnected id)]
  | SendEvent _ :: rest | ToService _ :: rest => live_ok id rest
  end.

(** A task that is not registered yet. *)
Fixpoint fresh_ok (l : list (ConnAction E A)) : Prop :=
  match l with
  | [] => True
  | InsertSession id _ :: rest => live_ok id rest
  | RemoveSession _ :: _ => False
  | SendEvent _ :: rest | ToService _ :: rest => fresh_ok rest
  end.

Lemma live_ok_forward id (ms : list A) l : live_ok id l → live_ok id ((ToService <$> ms) ++ l).
Proof. by induction ms. Qed.

Lemma run_input_live id input : live_ok id (run_input id (disconnected id) input).
Proof. apply live_ok_forward. by destruct (input.2). Qed.

End task_shape.

(** The connection tasks that share one session table. *)
Class SessionTasks (E A : Type) := {
  disconnected : NodeId → A;
  spawned : list (ConnAction E A) → Prop;
  spawned_ok l : spawned l → fresh_ok disconnected l;
}.

(** ** The interleaving *)

(** Where the output task is in [handle_common]: before the removal of a session
    it found closed, before the report of it, before it takes the session to send
    to, and before it sends on the session it took. *)
Inductive OutState :=
  | OutIdle
  | OutRemoving (id : NodeId)
  | OutReporting (id : NodeId)
  | OutFetching (id : NodeId)
  | OutSending (stream : nat).

(** The registrations in the table and the messages to the service loop, oldest
    first. *)
Inductive Entry (A : Type) :=
  | Registered (id : NodeId)
  | Told (msg : A).
Arguments Registered {_} _.
Arguments Told {_} _.

(** A session is named by the task that registered it; [closed] holds the streams
    whose receiving end is gone, [delivered] those an event was sent on. *)
Record World (E A : Type) := mkWorld {
  table : gmap NodeId (nat * StreamSide);
  closed : gset nat;
  tasks : list (list (ConnAction E A));
  out : OutState;
  log : list (Entry A);
  delivered : list nat;
}.
Arguments mkWorld {_ _} _ _ _ _ _ _.
Arguments table {_ _} _.
Arguments closed {_ _} _.
Arguments tasks {_ _} _.
Arguments out {_ _} _.
Arguments log {_ _} _.
Arguments delivered {_ _} _.

Inductive Event :=
  | Run (i : nat)            (* the next action of task [i] *)
  | Close (i : nat)          (* the peer of task [i] goes away *)
  | Address (id : NodeId)    (* the output task takes a message for [id] *)
  | OutStep.                 (* the output task goes on *)

Section interleaving.
Context {E A : Type} `{SessionTasks E A}.

Definition start (ts : list (list (ConnAction E A))) : World E A := mkWorld ∅ ∅ ts OutIdle [] [].

Definition run_action (i : nat) (a : ConnAction E A) (rest : list (ConnAction E A)) (w : World E A) : World E A :=
  let ts := <[i := rest]> (tasks w) in
  match a with
  | InsertSession id s =>
      mkWorld (<[id := (i, s)]> (table w)) (closed w) ts (out w) (log w ++ [Registered id]) (delivered w)
  | SendEvent _ => mkWorld (table w) (closed w) ts (out w) (log w) (delivered w)
  | ToService m => mkWorld (table w) (closed w) ts (out w) (log w ++ [Told m]) (delivered w)
  | RemoveSession id => mkWorld (delete id (table w)) (closed w) ts (out w) (log w) (delivered w)
  end.

(** [sessions.read().await.get(&id).is_some_and(|sender| sender.is_closed())] *)
Definition found_closed (id : NodeId) (w : World E A) : bool :=
  match table w !! id with
  | Some (i, _) => bool_decide (i ∈ closed w)
  | None => false
  end.

Definition out_step (w : World E A) : World E A :=
  match out w with
  | OutIdle => w
  | OutRemoving id =>
      mkWorld (delete id (table w)) (closed w) (tasks w) (OutReporting id) (log w) (delivered w)
  | OutReporting id =>
      mkWorld (table w) (closed w) (tasks w) OutIdle (log w ++ [Told (disconnected id)]) (delivered w)
  | OutFetching id =>
      mkWorld (table w) (closed w) (tasks w)
        (match table w !! id with Some (i, _) => OutSending i | None => OutIdle end) (log w) (delivered w)
  | OutSending i =>
      mkWorld (table w) (closed w) (tasks w) OutIdle (log w)
        (delivered w ++ (if bool_decide (i ∈ closed w) then [] else [i]))
  end.

Definition step (w : World E A) (ev : Event) : World E A :=
  match ev with
  | Run i =>
      match tasks w !! i with
      | Some (a :: rest) => run_action i a rest w
      | _ => w
      end
  | Close i => mkWorld (table w) ({[i]} ∪ closed w) (tasks w) (out w) (log w) (delivered w)
  | Address id =>
      match out w with
      | OutIdle =>
          mkWorld (table w) (closed w) (tasks w) (if found_closed id w then OutRemoving id else OutFetching id)
            (log w) (delivered w)
      | _ => w
      end
  | OutStep => out_step w
  end.

Definition run (w : World E A) (evs : list Event) : World E A := foldl step w evs.

(** The table as [handle_common] of the atomic model sees it. *)
Definition streams (w : World E A) : gmap NodeId Stream :=
  (λ t : nat * StreamSide, mkStream t.2 (bool_decide (t.1 ∈ closed w))) <$> table w.

(** Task [i] is registered under [id] and still has to remove it. *)
Definition holds (w : World E A) (i : nat) (id : NodeId) : Prop :=
  ∃ l, tasks w !! i = Some l ∧ live_ok disconnected id l ∧ RemoveSession id ∈ l.

(** A step registers a node only while no other task holds it. *)
Definition exclusive (w : World E A) (ev : Event) : Prop :=
  ∀ i id s rest j, ev = Run i → tasks w !! i = Some (InsertSession id s :: rest) → ¬ holds w j id.

Fixpoint exclusive_run (w : World E A) (evs : list Event) : Prop :=
  match evs with
  | [] => True
  | ev :: evs => exclusive w ev ∧ exclusive_run (step w ev) evs
  end.

(** The same as a check on a concrete run. *)
Definition serves (id : NodeId) (l : list (ConnAction E A)) : bool :=
  existsb (λ a, match a with RemoveSession id' => bool_decide (id' = id) | _ => false end) l &&
  forallb (λ a, match a with InsertSession _ _ => false | _ => true end) l.

Fixpoint exclusive_runb (w : World E A) (evs : list Event) : bool :=
  match evs with
  | [] => true
  | ev :: evs =>
      match ev with
      | Run i =>
          match tasks w !! i with
          | Some (InsertSession id _ :: _) => forallb (λ l, negb (serves id l)) (tasks w)
          | _ => true
          end
      | _ => true
      end && exclusive_runb (step w ev) evs
  end.

(** [id] was registered, and the service loop was not told since that it is gone. *)
Definition believed (id : NodeId) (l : list (Entry A)) : Prop :=
  ∃ l1 l2, l = l1 ++ Registered id :: l2 ∧ Told (disconnected id) ∉ l2.

(** A report of [id] is on its way. *)
Definition reporting (w : World E A) (id : NodeId) : Prop :=
  out w = OutReporting id ∨ ∃ i, tasks w !! i = Some [ToService (disconnected id)].

(** Every task is a suffix of the one that was spawned. *)
Definition tasks_from (ts : list (list (ConnAction E A))) (w : World E A) : Prop :=
  ∀ i l, tasks w !! i = Some l → ∃ l0, ts !! i = Some (l0 ++ l).

(** A node that is not reported as gone is in the table or about to be reported. *)
Definition accounted (w : World E A) : Prop :=
  ∀ id, believed id (log w) → is_Some (table w !! id) ∨ reporting w id.

End interleaving.

(** ** Lemmas *)

Section shape_lemmas.
Context {E A : Type} (d : NodeId → A).
Implicit Types l rest : list (ConnAction E A).

Lemma live_ok_no_insert id l id' s : live_ok d id l → InsertSession id' s ∉ l.
Proof.
  induction l as [|[] l IH]; simpl; intros Hl; set_solver.
Qed.

Lemma live_ok_remove id l id' : live_ok d id l → RemoveSession id' ∈ l → id' = id.
Proof.
  induction l as [|[] l IH]; simpl; set_solver.
Qed.

Lemma live_ok_removed id id' rest : live_ok d id (RemoveSession id' :: rest) → rest = [ToService (d id')].
Proof. by intros [-> ->]. Qed.

(** In a task that is well shaped as a whole, what precedes the registration
    removes nothing and what follows it is registered. *)
Lemma fresh_ok_insert l1 id s l2 :
  fresh_ok d (l1 ++ InsertSession id s :: l2) → live_ok d id l2 ∧ ∀ id', RemoveSession id' ∉ l1.
Proof.
  induction l1 as [|[] l1 IH]; simpl; intros Hl; [set_solver| |set_solver..].
  destruct (live_ok_no_insert _ _ id s Hl). set_solver.
Qed.

Lemma fresh_ok_remove l1 id l2 :
  fresh_ok d (l1 ++ RemoveSession id :: l2) → l2 = [ToService (d id)].
Proof.
  induction l1 as [|a l1 IH]; simpl; [done|]. destruct a as [id' s| | |]; [|done..].
  clear IH. induction l1 as [|b l1 IH]; simpl; [by intros [-> ->]|].
  destruct b; [done|done|done|]. intros [-> Hr]. by destruct l1 as [|? [|]]; simplify_eq/=.
Qed.

End shape_lemmas.

Section interleaving_lemmas.
Context {E A : Type} `{!SessionTasks E A}.
Implicit Types (w : World E A) (lg : list (Entry A)) (ts : list (list (ConnAction E A))).

Lemma believed_registered id id' lg : believed id (lg ++ [Registered id']) → id = id' ∨ believed id lg.
Proof.
  intros (l1 & l2 & Heq & Hl2). destruct l2 as [|e l2 _] using rev_ind.
  { apply app_inj_tail in Heq as [_ Heq]. simplify_eq. by left. }
  right. rewrite app_comm_cons, app_assoc in Heq. apply app_inj_tail in Heq as [-> <-].
  exists l1, l2. set_solver.
Qed.

Lemma believed_told id m lg : believed id (lg ++ [Told m]) → believed id lg ∧ m ≠ disconnected id.
Proof.
  intros (l1 & l2 & Heq & Hl2). destruct l2 as [|e l2 _] using rev_ind.
  { apply app_inj_tail in Heq as [_ Heq]. simplify_eq. }
  rewrite app_comm_cons, app_assoc in Heq. apply app_inj_tail in Heq as [-> <-].
  split; [exists l1, l2; set_solver|]. intros ->. set_solver.
Qed.

Lemma run_action_tasks i a rest w : tasks (run_action i a rest w) = <[i := rest]> (tasks w).
Proof. by destruct a. Qed.

Lemma out_step_tasks w : tasks (out_step w) = tasks w.
Proof. unfold out_step. by destruct (out w). Qed.

Lemma step_tasks_from ts w ev : tasks_from ts w → tasks_from ts (step w ev).
Proof.
  intros Hts. destruct ev as [i| |id|]; simpl; try done.
  - destruct (tasks w !! i) as [[|a rest]|] eqn:Hi; [done| |done].
    intros j l. rewrite run_action_tasks. intros [(-> & <- & _)|[_ Hj]]%list_lookup_insert_Some; [|by apply Hts].
    destruct (Hts _ _ Hi) as [l0 Hl0]. exists (l0 ++ [a]). by rewrite <- app_assoc.
  - by destruct (out w).
  - intros j l. rewrite out_step_tasks. apply Hts.
Qed.

Lemma reporting_other w w' id i a rest :
  reporting w id → tasks w !! i = Some (a :: rest) → a ≠ ToService (disconnected id) →
  out w' = out w → tasks w' = <[i := rest]> (tasks w) → reporting w' id.
Proof.
  intros [Ho|[j Hj]] Hi Ha Hout Hts; [left; congruence|]. right. exists j.
  rewrite Hts, list_lookup_insert_ne; [done|]. intros ->. congruence.
Qed.

Lemma run_action_accounted i a rest w :
  tasks w !! i = Some (a :: rest) → (∀ id, a = RemoveSession id → rest = [ToService (disconnected id)]) →
  accounted w → accounted (run_action i a rest w).
Proof.
  intros Hi Hrem Hacc id Hb. destruct a as [id' s|e|m|id']; simpl in *.
  - destruct (decide (id' = id)) as [->|Hne]; [left; rewrite lookup_insert_eq; eauto|].
    apply believed_registered in Hb as [?|Hb]; [congruence|]. rewrite lookup_insert_ne by done.
    destruct (Hacc id Hb); [by left|right; by eapply reporting_other].
  - destruct (Hacc id Hb); [by left|right; by eapply reporting_other].
  - apply believed_told in Hb as [Hb Hm].
    destruct (Hacc id Hb); [by left|right]. eapply reporting_other; eauto; congruence.
  - destruct (decide (id' = id)) as [->|Hne].
    + right. right. exists i. simpl. rewrite list_lookup_insert_eq by (by eapply lookup_lt_Some).
      by rewrite (Hrem id).
    + rewrite lookup_delete_ne by done. destruct (Hacc id Hb); [by left|right; by eapply reporting_other].
Qed.

Lemma out_step_accounted w : accounted w → accounted (out_step w).
Proof.
  intros Hacc id. unfold out_step. destruct (out w) as [|id'|id'|id'|i] eqn:Ho; simpl; intros Hb.
  - by apply Hacc.
  - destruct (decide (id' = id)) as [->|Hne]; [right; by left|]. simpl. rewrite lookup_delete_ne by done.
    destruct (Hacc id Hb) as [?|[?|?]]; [by left|congruence|right; by right].
  - apply believed_told in Hb as [Hb Hm].
    destruct (Hacc id Hb) as [?|[?|?]]; [by left|congruence|right; by right].
  - destruct (Hacc id Hb) as [?|[?|?]]; [by left|congruence|right; by right].
  - destruct (Hacc id Hb) as [?|[?|?]]; [by left|congruence|right; by right].
Qed.

Lemma step_accounted ts w ev :
  Forall spawned ts → tasks_from ts w → accounted w → accounted (step w ev).
Proof.
  intros Hsp Hts Hacc. destruct ev as [i|i|id|]; simpl.
  - destruct (tasks w !! i) as [[|a rest]|] eqn:Hi; [done| |done].
    apply run_action_accounted; [done| |done]. intros id ->.
    destruct (Hts _ _ Hi) as [l0 Hl0]. eapply fresh_ok_remove, spawned_ok.
    eapply Forall_lookup; eauto.
  - intros id Hb. by apply Hacc.
  - destruct (out w) eqn:Ho; [|by apply Hacc..]. intros id' Hb.
    destruct (Hacc id' Hb) as [?|[?|?]]; [by left|congruence|right; by right].
  - by apply out_step_accounted.
Qed.

Lemma run_accounted ts evs w :
  Forall spawned ts → tasks_from ts w → accounted w → accounted (run w evs).
Proof.
  intros Hsp. revert w. induction evs as [|ev evs IH]; intros w Hts Hacc; [done|].
  apply IH; [by apply step_tasks_from|by eapply step_accounted].
Qed.

Lemma start_tasks_from ts : tasks_from ts (start ts).
Proof. intros i l Hl. by exists []. Qed.

(** ** Ownership *)

(** A session in the table belongs to a task that has not removed it. *)
Definition owned ts w : Prop :=
  ∀ id i s, table w !! id = Some (i, s) →
    ∃ l0 l, ts !! i = Some (l0 ++ l) ∧ tasks w !! i = Some l ∧ live_ok disconnected id l ∧ RemoveSession id ∉ l0.

Definition undisputed w : Prop :=
  ∀ id i j s, holds w i id → table w !! id = Some (j, s) → j = i.

Lemma owned_same ts w w' :
  (∀ id t, table w' !! id = Some t → table w !! id = Some t) → tasks w' = tasks w → owned ts w → owned ts w'.
Proof. intros Ht Hts How id i s Hid. rewrite Hts. apply (How id i s). by apply Ht. Qed.

Lemma out_step_table w id t : table (out_step w) !! id = Some t → table w !! id = Some t.
Proof. unfold out_step. destruct (out w); simpl; [done| |done..]. by intros [_ ?]%lookup_delete_Some. Qed.

(** The owner of a session after one action of task [i] that does not register. *)
Lemma owned_advance ts w w' i a rest :
  tasks w !! i = Some (a :: rest) → tasks w' = <[i := rest]> (tasks w) →
  (∀ id s, a ≠ InsertSession id s) →
  (∀ id t, table w' !! id = Some t → table w !! id = Some t ∧ a ≠ RemoveSession id) →
  owned ts w → owned ts w'.
Proof.
  intros Hi Hts Hins Ht How id j s Hid. apply Ht in Hid as [Hid Hrem].
  destruct (How id j s Hid) as (l0 & l & H0 & Hl & Hlive & Hnot). rewrite Hts.
  destruct (decide (i = j)) as [->|Hne]; [|exists l0, l; by rewrite list_lookup_insert_ne].
  rewrite Hi in Hl. simplify_eq. exists (l0 ++ [a]), rest.
  rewrite list_lookup_insert_eq by (by eapply lookup_lt_Some). rewrite <- app_assoc.
  split_and!; [done|done| |set_solver].
  destruct a as [id' s'| | |id']; simpl in Hlive; [done|done|done|]. by destruct Hlive as [-> _].
Qed.

Lemma step_owned ts w ev : Forall spawned ts → tasks_from ts w → owned ts w → owned ts (step w ev).
Proof.
  intros Hsp Hfrom How. destruct ev as [i|i|id|]; simpl.
  - destruct (tasks w !! i) as [[|a rest]|] eqn:Hi; [done| |done].
    destruct a as [id s|e|m|id]; [|eapply owned_advance; try done; simpl; naive_solver..|].
    + intros id' j s'. simpl. destruct (Hfrom _ _ Hi) as [l0 Hl0].
      destruct (fresh_ok_insert disconnected l0 id s rest) as [Hlive Hnot].
      { eapply spawned_ok, Forall_lookup; eauto. }
      intros [[-> ?]|[Hne Hid]]%lookup_insert_Some; simplify_eq.
      * exists (l0 ++ [InsertSession id' s']), rest. rewrite <- app_assoc.
        rewrite list_lookup_insert_eq by (by eapply lookup_lt_Some). set_solver.
      * destruct (How id' j s' Hid) as (l1 & l & H0 & Hl & Hl' & Hn). exists l1, l.
        rewrite list_lookup_insert_ne; [done|]. intros ->. rewrite Hi in Hl. by simplify_eq/=.
    + eapply owned_advance; try done; simpl. intros id' t [? ?]%lookup_delete_Some. naive_solver.
  - by eapply owned_same.
  - destruct (out w); [|done..]. by eapply owned_same.
  - eapply owned_same; [apply out_step_table|apply out_step_tasks|done].
Qed.

(** Only registering gives a task a node to hold. *)
Lemma holds_before w w' i a rest j id :
  tasks w !! i = Some (a :: rest) → tasks w' = <[i := rest]> (tasks w) → holds w' j id →
  (∀ id' s, a = InsertSession id' s → live_ok disconnected id' rest) →
  (∀ id', a = RemoveSession id' → rest = [ToService (disconnected id')]) →
  holds w j id ∨ j = i ∧ ∃ s, a = InsertSession id s.
Proof.
  intros Hi Hts (l & Hl & Hlive & Hin) Hins Hrem. rewrite Hts in Hl.
  apply list_lookup_insert_Some in Hl as [(-> & -> & _)|[Hne Hl]]; [|left; by exists l].
  destruct a as [id' s|e|m|id'].
  - right. rewrite (live_ok_remove disconnected id' l id); eauto.
  - left. exists (SendEvent e :: l). set_solver.
  - left. exists (ToService m :: l). set_solver.
  - rewrite (Hrem id') in Hin by done. set_solver.
Qed.

Lemma holds_same w w' i id : tasks w' = tasks w → holds w' i id → holds w i id.
Proof. unfold holds. by intros ->. Qed.

Lemma step_undisputed ts w ev :
  Forall spawned ts → tasks_from ts w → exclusive w ev → undisputed w → undisputed (step w ev).
Proof.
  intros Hsp Hfrom Hex Hun. destruct ev as [i|i|id|]; simpl.
  - destruct (tasks w !! i) as [[|a rest]|] eqn:Hi; [done| |done].
    destruct (Hfrom _ _ Hi) as [l0 Hl0].
    assert (fresh_ok disconnected (l0 ++ a :: rest)) as Hok by (eapply spawned_ok, Forall_lookup; eauto).
    intros id j k s Hh Hid.
    destruct (holds_before w _ i a rest j id Hi (run_action_tasks i a rest w) Hh) as [Hh'|[-> [s' ->]]].
    + intros id' s' ->. by eapply fresh_ok_insert.
    + intros id' ->. by eapply fresh_ok_remove.
    + destruct a as [id' s'|e|m|id']; simpl in Hid; [|by eapply Hun..|].
      * destruct (decide (id' = id)) as [->|Hne].
        -- by destruct (Hex i id s' rest j eq_refl Hi).
        -- rewrite lookup_insert_ne in Hid by done. by eapply Hun.
      * apply lookup_delete_Some in Hid as [_ Hid]. by eapply Hun.
    + simpl in Hid. rewrite lookup_insert_eq in Hid. by simplify_eq.
  - intros id j k s Hh. apply (Hun id j k s). by eapply holds_same.
  - destruct (out w); [|done..]. intros id' j k s Hh. apply (Hun id' j k s). by eapply holds_same.
  - intros id j k s Hh Hid%out_step_table. eapply Hun; [|done]. eapply holds_same; [|done]. apply out_step_tasks.
Qed.

Lemma run_owned ts evs w :
  Forall spawned ts → tasks_from ts w → exclusive_run w evs → owned ts w → undisputed w →
  owned ts (run w evs) ∧ undisputed (run w evs).
Proof.
  intros Hsp. revert w. induction evs as [|ev evs IH]; intros w Hts Hex How Hun; [done|].
  destruct Hex as [He Hex]. apply IH; [by apply step_tasks_from|done| |].
  - by apply step_owned.
  - by eapply step_undisputed.
Qed.

Lemma holds_serves w i id : holds w i id → ∃ l, l ∈ tasks w ∧ serves id l = true.
Proof.
  intros (l & Hl & Hlive & Hin). exists l. split; [by eapply list_elem_of_lookup_2|].
  apply andb_true_iff. split.
  - apply existsb_exists. exists (RemoveSession id). rewrite <- list_elem_of_In. by rewrite bool_decide_eq_true.
  - apply forallb_forall. intros a Ha%list_elem_of_In. destruct a; [|done..].
    by eapply live_ok_no_insert in Ha.
Qed.

Lemma exclusive_runb_sound w evs : exclusive_runb w evs = true → exclusive_run w evs.
Proof.
  revert w. induction evs as [|ev evs IH]; intros w; simpl; [done|]. intros [Hev Hevs]%andb_true_iff.
  split; [|by apply IH]. intros i id s rest j -> Hi Hh. rewrite Hi in Hev.
  destruct (holds_serves _ _ _ Hh) as (l & Hl & Hs).
  rewrite forallb_forall in Hev. specialize (Hev l). rewrite <- list_elem_of_In, Hs in Hev. by apply Hev in Hl.
Qed.

(** ** The atomic model *)

(** Uninterrupted, the output task does to the table, the stream and the service
    what [handle_common] does. *)
Lemma handle_common_uninterrupted w id :
  out w = OutIdle →
  let w' := run w [Address id; OutStep; OutStep] in
  let '(ss, sent, gone) := handle_common (streams w) id in
  out w' = OutIdle ∧ streams w' = ss ∧ tasks w' = tasks w ∧
  log w' = log w ++ (if gone : bool then [Told (disconnected id)] else []) ∧
  ∃ l, delivered w' = delivered w ++ l ∧ (sent = true ↔ l ≠ []).
Proof.
  intros Ho. unfold run, streams, handle_common. cbn [foldl step]. rewrite Ho. unfold found_closed.
  rewrite lookup_fmap. destruct (table w !! id) as [[i s]|] eqn:Hid; cbn; unfold out_step; simpl.
  - case_bool_decide as Hc; simpl.
    + rewrite fmap_delete. split_and!; [done..|]. exists []. by rewrite app_nil_r.
    + rewrite Hid. simpl. rewrite bool_decide_eq_false_2 by done. unfold stream_send. simpl.
      rewrite app_nil_r. split_and!; [done..|]. exists [i]. split; [done|]. by destruct s.
  - rewrite Hid. simpl. rewrite app_nil_r. split_and!; [done..|]. exists []. by rewrite app_nil_r.
Qed.

End interleaving_lemmas.

(** ** The connection handlers *)

Section handlers.
Context `{UuidApi}.

Lemma accepted_fresh {E A} (d : NodeId → A) id s (e : E) (alive : bool) input :
  fresh_ok d (InsertSession id s :: (if alive then [SendEvent e] else []) ++ run_input id (d id) input).
Proof. destruct alive; apply run_input_live. Qed.

Lemma open_connection_fresh me config first items alive config' l :
  ManagerGrpc.open_connection me config first items alive = Some (config', l) →
  fresh_ok ManagerProtocol.NodeDisconnected l.
Proof.
  unfold ManagerGrpc.open_connection. intros Hl.
  destruct first as [[[id [addr|] [rf|]]| | | | | | | |]|]; simplify_eq/=; try done.
  destruct (Config_replication_factor_mut rf config); simplify_eq/=.
  destruct (NodeId_from_string id); simplify_eq; [apply accepted_fresh|done].
Qed.

Lemma new_manager_connection_fresh me host port rf outcome :
  fresh_ok ManagerProtocol.NodeDisconnected (ManagerGrpc.new_manager_connection me host port rf outcome).
Proof.
  destruct outcome as [| |[] first items]; [done..| |done]. simpl.
  repeat (case_match; try done). apply run_input_live.
Qed.

Lemma manager_open_worker_fresh me first items alive :
  fresh_ok ManagerProtocol.NodeDisconnected (ManagerGrpc.open_worker_connection me first items alive).
Proof.
  unfold ManagerGrpc.open_worker_connection. repeat first [done|apply accepted_fresh|case_match].
Qed.

Lemma open_peer_fresh me first items alive :
  fresh_ok WorkerProtocol.NodeDisconnected (WorkerGrpc.open_worker_connection me first items alive).
Proof.
  unfold WorkerGrpc.open_worker_connection. repeat first [done|apply accepted_fresh|case_match].
Qed.

Lemma new_worker_connection_fresh me host port outcome :
  fresh_ok WorkerProtocol.NodeDisconnected (WorkerGrpc.new_worker_connection me host port outcome).
Proof.
  destruct outcome as [| |[] first items]; [done..| |done]. simpl.
  repeat (case_match; try done). apply run_input_live.
Qed.

Lemma worker_new_manager_fresh me host port outcome :
  fresh_ok WorkerProtocol.NodeDisconnected (WorkerGrpc.new_manager_connection me host port outcome).
Proof.
  destruct outcome as [| |[] first items]; [done..| |done]. simpl.
  repeat (case_match; try done). apply run_input_live.
Qed.

(** A manager's connections with other managers, which it accepts or dials. *)
#[export] Program Instance manager_manager_tasks : SessionTasks ManagerEvent.t ManagerProtocol.t := {|
  disconnected := ManagerProtocol.NodeDisconnected;
  spawned l :=
    (∃ me config first items alive config',
       ManagerGrpc.open_connection me config first items alive = Some (config', l)) ∨
    (∃ me host port rf outcome, l = ManagerGrpc.new_manager_connection me host port rf outcome);
|}.
Next Obligation.
  intros l [(?&?&?&?&?&?&Hl)|(?&?&?&?&?&->)]; [by eapply open_connection_fresh|apply new_manager_connection_fresh].
Qed.

(** A manager's connections with workers, which it accepts. *)
#[export] Program Instance manager_worker_tasks : SessionTasks WorkerEvent.t ManagerProtocol.t := {|
  disconnected := ManagerProtocol.NodeDisconnected;
  spawned l := ∃ me first items alive, l = ManagerGrpc.open_worker_connection me first items alive;
|}.
Next Obligation. intros l (?&?&?&?&->). apply manager_open_worker_fresh. Qed.

(** A worker's connections with other workers, which it accepts or dials. *)
#[export] Program Instance worker_worker_tasks : SessionTasks PeerEvent.t WorkerProtocol.t := {|
  disconnected := WorkerProtocol.NodeDisconnected;
  spawned l :=
    (∃ me first items alive, l = WorkerGrpc.open_worker_connection me first items alive) ∨
    (∃ me host port outcome, l = WorkerGrpc.new_worker_connection me host port outcome);
|}.
Next Obligation.
  intros l [(?&?&?&?&->)|(?&?&?&?&->)]; [apply open_peer_fresh|apply new_worker_connection_fresh].
Qed.

(** A worker's connections with managers, which it dials. *)
#[export] Program Instance worker_manager_tasks : SessionTasks WorkerEvent.t WorkerProtocol.t := {|
  disconnected := WorkerProtocol.NodeDisconnected;
  spawned l := ∃ me host port outcome, l = WorkerGrpc.new_manager_connection me host port outcome;
|}.
Next Obligation. intros l (?&?&?&?&->). apply worker_new_manager_fresh. Qed.

End handlers.

(** ** Theorems *)

Section theorems.
Context {E A : Type} `{!SessionTasks E A}.

(** C10: However the connection tasks and the output task of a session table
    interleave, no session is lost in silence: a node that was registered and
    that the service loop was not told since to be gone is in the table, or the
    report that it is gone is the next thing its reporter does.  When the output
    task is idle and every connection task has ended, the node is in the table. *)
Theorem no_silent_loss (ts : list (list (ConnAction E A))) evs id :
  Forall spawned ts →
  let w := run (start ts) evs in
  believed id (log w) →
  (is_Some (table w !! id) ∨ reporting w id) ∧
  (out w = OutIdle → (∀ i l, tasks w !! i = Some l → l = []) → is_Some (table w !! id)).
Proof.
  intros Hsp w Hb.
  assert (is_Some (table w !! id) ∨ reporting w id) as Hacc.
  { apply (run_accounted ts); [done|apply start_tasks_from| |done].
    intros id' (l1 & l2 & Heq & _). by destruct l1. }
  split; [done|]. intros Ho Hts. destruct Hacc as [?|[Hr|[i Hi]]]; [done|congruence|].
  by apply Hts in Hi.
Qed.

(** C11: As long as no node is registered while another task still serves it, a
    session table is exact about ownership in every interleaving: the session a
    task finds under the node it serves is its own, so that its clean-up never
    removes another connection's session; and a session in the table belongs to
    a task that will remove it, unless the task is one that never removes its
    session (its input loop panics). *)
Theorem session_owned (ts : list (list (ConnAction E A))) evs :
  Forall spawned ts → exclusive_run (start ts) evs →
  let w := run (start ts) evs in
  (∀ id i j s, holds w i id → table w !! id = Some (j, s) → j = i) ∧
  (∀ id i s l, table w !! id = Some (i, s) → ts !! i = Some l → RemoveSession id ∈ l → holds w i id).
Proof.
  intros Hsp Hex w.
  destruct (run_owned ts evs (start ts)) as [How Hun];
    [done|apply start_tasks_from|done|by intros ???|by intros ?????|].
  split; [exact Hun|]. intros id i s l Hid Hl Hin.
  destruct (How id i s Hid) as (l0 & l' & H0 & Hl' & Hlive & Hnot). simplify_eq.
  exists l'. set_solver.
Qed.

End theorems.

(** ** Witnesses and races *)

Section witnesses.
#[local] Instance sessions_uuid : UuidApi := any_uuid.

(** Two connections of worker [w] to a manager, one heartbeat on the first. *)
Definition conn (items : list (option WorkerEvent.t)) : list (ConnAction WorkerEvent.t ManagerProtocol.t) :=
  ManagerGrpc.open_worker_connection gx
    (Some (WorkerEvent.Connect (mkGConnect "w" (Some (mkGAddr "host-w" 3)) None))) items true.

Definition two_conns : list (list (ConnAction WorkerEvent.t ManagerProtocol.t)) :=
  [conn [Some (WorkerEvent.Heartbeat "w" 7)]; conn []].

Lemma two_conns_spawned : Forall spawned two_conns.
Proof. repeat constructor; by eexists _, _, _, _. Qed.

(** The first connection ends, then the second comes. *)
Definition in_turn : list Event := replicate 6 (Run 0) ++ replicate 3 (Run 1).

Lemma no_silent_loss_witness :
  is_Some (table (run (start two_conns) in_turn) !! mkNodeId "w").
Proof.
  destruct (no_silent_loss two_conns in_turn (mkNodeId "w") two_conns_spawned) as [[Hw|Hr] _].
  - eexists [_; _; _; _], [_]. split; [vm_compute; reflexivity|]. by intros ?%list_elem_of_singleton.
  - exact Hw.
  - vm_compute. by eexists.
Defined.

Lemma session_owned_witness :
  exclusive_run (start two_conns) in_turn ∧ holds (run (start two_conns) in_turn) 1 (mkNodeId "w").
Proof.
  assert (exclusive_run (start two_conns) in_turn) as Hex by (apply exclusive_runb_sound; vm_compute; reflexivity).
  split; [exact Hex|].
  apply (proj2 (session_owned two_conns in_turn two_conns_spawned Hex) (mkNodeId "w") 1%nat Input (conn []));
    [vm_compute; reflexivity..|]. vm_compute. set_solver.
Defined.

(** The second connection of a node comes before the first has ended: the end of
    the first takes the second's session out of the table and reports the node
    gone, while the second is still served. *)
Lemma overlap_loses_session :
  let w := run (start two_conns) (replicate 4 (Run 0) ++ replicate 3 (Run 1) ++ replicate 2 (Run 0)) in
  table w !! mkNodeId "w" = None ∧
  last (log w) = Some (Told (ManagerProtocol.NodeDisconnected (mkNodeId "w"))) ∧
  holds w 1 (mkNodeId "w") ∧ 1%nat ∉ closed w.
Proof.
  vm_compute. split_and!; [reflexivity..| |set_solver]. eexists. split; [reflexivity|]. split; [done|]. constructor.
Qed.

(** Even without an overlap: the output task finds the first session closed, the
    first connection ends, the second comes, and then the output task removes the
    session it finds, which is the second's. *)
Lemma stale_removal_loses_session :
  let evs := replicate 4 (Run 0) ++ [Close 0; Address (mkNodeId "w")] ++ replicate 2 (Run 0) ++
             replicate 3 (Run 1) ++ [OutStep; OutStep] in
  let w := run (start two_conns) evs in
  exclusive_runb (start two_conns) evs = true ∧
  table w !! mkNodeId "w" = None ∧ holds w 1 (mkNodeId "w") ∧ 1%nat ∉ closed w.
Proof.
  vm_compute. split_and!; [reflexivity..| |set_solver]. eexists. split; [reflexivity|]. split; [done|]. constructor.
Qed.

End witnesses.
