(* ===== verification/Handshake.v ===== *)
(** * Handshakes between nodes

    The dialling side of one node composed with the accepting side of another:
    the event one sends first is the one the other reads first. *)

From S2P Require Import Prelude Common Conversions Grpc ManagerGrpc WorkerGrpc GrpcTheorems.

(** What a connection task does to its session table and tells its service: the
    session it registers and the announcement it makes. *)
Definition registered {E A} (l : list (ConnAction E A)) : option (NodeId * StreamSide) :=
  head (omap (λ a, match a with InsertSession id s => Some (id, s) | _ => None end) l).

Section handshake.
Context `{UuidLaws}.

(** Identifiers are the texts of UUIDs. *)
Definition id_ok (id : NodeId) : Prop := ∃ text, parse_str text = Some (node_id_string id).

Lemma id_roundtrip id : id_ok id → NodeId_from_string (NodeId_to_string id) = Some id.
Proof.
  intros [text Ht%parse_str_canonical]. unfold NodeId_from_string, NodeId_to_string. rewrite Ht. by destruct id.
Qed.

(** C31: When manager [a] dials manager [b], the two handlers meet: [a]'s first
    event makes [b] adopt [a]'s replication factor, register a session for [a],
    announce [a] with the address [a] listens on and answer; the answer makes
    [a] register a session for [b] and announce [b] with the address it dialled.
    A dial that fails leaves no session and no message. *)
Theorem manager_handshake me_a me_b host port rf config items_a items_b :
  id_ok (me_id me_a) → id_ok (me_id me_b) → is_u32 rf →
  ∃ connect response,
    let dial := ManagerGrpc.new_manager_connection me_a host port rf in
    dial ConnectFailed = [] ∧ dial OpenFailed = [] ∧
    head (dial (Opened true (Some response) items_a)) = Some (SendEvent connect) ∧
    registered (dial (Opened true (Some response) items_a)) = Some (me_id me_b, Output) ∧
    head (service_messages (dial (Opened true (Some response) items_a))) =
      Some (ManagerProtocol.NewConnection (Some (me_id me_b)) host port true) ∧
    match config with
    | ManagerConfig grpc_port self_hp manager_hp _ =>
        ∃ acts, open_connection me_b config (Some connect) items_b true =
            Some (ManagerConfig grpc_port self_hp manager_hp rf, InsertSession (me_id me_a) Input :: SendEvent response :: acts) ∧
          head (service_messages acts) =
            Some (ManagerProtocol.NewConnection (Some (me_id me_a)) (me_host me_a) (me_port me_a) true)
    | WorkerConfig _ _ _ _ => open_connection me_b config (Some connect) items_b true = None
    end.
Proof.
  intros Ha Hb Hrf.
  exists (ManagerEvent.Connect (mkGConnect (NodeId_to_string (me_id me_a))
           (Some (mkGAddr (me_host me_a) (me_port me_a))) (Some (as_u32 rf)))),
    (ManagerEvent.ConnectResponse (NodeId_to_string (me_id me_b))).
  assert (as_u32 rf = rf) as Hu by (by apply as_u32_small).
  unfold ManagerGrpc.new_manager_connection, ManagerGrpc.start_communication_with_manager, registered.
  rewrite (id_roundtrip _ Hb). split_and!; try done.
  - unfold run_input, ManagerGrpc.input_from_manager. by destruct (input_loop _ _) as [ms p].
  - destruct config; simpl; [|done]. rewrite (id_roundtrip _ Ha), Hu. eexists. split; [done|].
    unfold run_input, ManagerGrpc.input_from_manager. by destruct (input_loop _ _) as [ms p].
Qed.

(** When worker [a] dials worker [b], both register a session and each announces
    the other as a worker, [b] with the address [a] listens on; when it dials a
    manager, the manager announces it as a worker. *)
Theorem worker_handshake me_a me_b host port items_a items_b items_m items_w :
  id_ok (me_id me_a) → id_ok (me_id me_b) →
  (∃ connect response acts,
     let dial := new_worker_connection me_a host port in
     dial ConnectFailed = [] ∧ dial OpenFailed = [] ∧
     head (dial (Opened true (Some response) items_a)) = Some (SendEvent connect) ∧
     registered (dial (Opened true (Some response) items_a)) = Some (me_id me_b, Output) ∧
     head (service_messages (dial (Opened true (Some response) items_a))) =
       Some (WorkerProtocol.NewConnection (Some (me_id me_b)) host port false) ∧
     WorkerGrpc.open_worker_connection me_b (Some connect) items_b true =
       InsertSession (me_id me_a) Input :: SendEvent response :: acts ∧
     head (service_messages acts) =
       Some (WorkerProtocol.NewConnection (Some (me_id me_a)) (me_host me_a) (me_port me_a) false)) ∧
  (∃ connect response acts,
     let dial := WorkerGrpc.new_manager_connection me_a host port in
     dial ConnectFailed = [] ∧ dial OpenFailed = [] ∧
     head (dial (Opened true (Some response) items_m)) = Some (SendEvent connect) ∧
     registered (dial (Opened true (Some response) items_m)) = Some (me_id me_b, Output) ∧
     ManagerGrpc.open_worker_connection me_b (Some connect) items_w true =
       InsertSession (me_id me_a) Input :: SendEvent response :: acts ∧
     head (service_messages acts) =
       Some (ManagerProtocol.NewConnection (Some (me_id me_a)) (me_host me_a) (me_port me_a) false)).
Proof.
  intros Ha Hb. split.
  - exists (PeerEvent.Connect (NodeId_to_string (me_id me_a)) (Some (mkGAddr (me_host me_a) (me_port me_a)))),
      (PeerEvent.ConnectResponse (NodeId_to_string (me_id me_b))).
    eexists. unfold new_worker_connection, start_communication_with_worker, registered, WorkerGrpc.open_worker_connection.
    rewrite (id_roundtrip _ Ha), (id_roundtrip _ Hb). split_and!; try done;
      unfold run_input, WorkerGrpc.input_from_worker; by destruct (input_loop _ _) as [ms p].
  - exists (WorkerEvent.Connect (mkGConnect (NodeId_to_string (me_id me_a))
             (Some (mkGAddr (me_host me_a) (me_port me_a))) None)),
      (WorkerEvent.ConnectResponse (NodeId_to_string (me_id me_b))).
    eexists. unfold WorkerGrpc.new_manager_connection, WorkerGrpc.start_communication_with_manager, registered,
      ManagerGrpc.open_worker_connection.
    rewrite (id_roundtrip _ Ha), (id_roundtrip _ Hb). split_and!; try done;
      unfold run_input, ManagerGrpc.input_from_worker; by destruct (input_loop _ _) as [ms p].
Qed.

End handshake.

(** ** Witnesses *)

Lemma manager_handshake_witness :
  ∃ connect response acts,
    registered (ManagerGrpc.new_manager_connection (H := any_uuid) gx "host-y" 2 3 (Opened true (Some response) [])) =
      Some (me_id gy, Output) ∧
    open_connection (H := any_uuid) gy (ManagerConfig 2 ("host-y", 2) None 1) (Some connect) [] true =
      Some (ManagerConfig 2 ("host-y", 2) None 3, InsertSession (me_id gx) Input :: SendEvent response :: acts).
Proof.
  destruct (manager_handshake (H := any_uuid) (H0 := any_uuid_laws) gx gy "host-y" 2 3 (ManagerConfig 2 ("host-y", 2) None 1) [] [])
    as (connect & response & _ & _ & _ & Hr & _ & acts & Ho & _).
  - by exists "x"%string.
  - by exists "y"%string.
  - done.
  - by exists connect, response, acts.
Defined.

Lemma worker_handshake_witness :
  ∃ response, registered (new_worker_connection (H := any_uuid) gx "host-y" 2 (Opened true (Some response) [])) =
    Some (me_id gy, Output).
Proof.
  destruct (worker_handshake (H := any_uuid) (H0 := any_uuid_laws) gx gy "host-y" 2 [] [] [] [])
    as [(connect & response & acts & _ & _ & _ & Hr & _) _].
  - by exists "x"%string.
  - by exists "y"%string.
  - by exists response.
Defined.
