(* ===== verification/Process.v ===== *)
(** * A node process (manager/mod.rs, worker/mod.rs, the loops of service.rs)

    Both kinds of node run the same two tasks: the service loop, which owns the
    state machine, and the output task of the gRPC layer.  They are joined by two
    bounded channels; the connection tasks push into the one towards the service
    and change the session tables.  The state machines are parameters here
    ([ServiceApi], [OutputApi]); what the process relies on is [NodeLaws].

    A process is driven by actions: one turn of a task, or what the surroundings
    do.  [act] is executable; it tells an action that has to wait ([Blocked])
    from one that panics.  The other ends of both channels live as long as the
    process, so that no send fails and [recv] does not return [None]. *)

From S2P Require Import Prelude.

(** [CHANNEL_BUFFER_SIZE] of both [run]s. *)
Definition CHANNEL_BUFFER_SIZE : nat := 100.

(** The state machine of a service: [In] is what a turn reads of the clock and the
    random generator, [Env] what other tasks do to the data it shares.  [None] is
    a panic. *)
Class ServiceApi (Svc Msg In Env : Type) := {
  sv_process : In → Msg → Svc → option (Svc * list Msg);
  sv_tick : In → Svc → option (Svc * list Msg);
  sv_env : Env → Svc → Svc;
}.

(** One turn of the output task on the session tables: what it puts on the network
    and what it reports to the service. *)
Class OutputApi (Svc Msg Ses Net : Type) := {
  ot_turn : Svc → Ses → Msg → option (Ses * list Net * list Msg);
}.

Inductive Outcome (P : Type) :=
  | Next (p : P)
  | Blocked
  | Panicked.
Arguments Next {_} _.
Arguments Blocked {_}.
Arguments Panicked {_}.

Section process.
Context {Svc Msg In Env Ses Net : Type} `{ServiceApi Svc Msg In Env} `{OutputApi Svc Msg Ses Net}.

(** [p_sending] is the rest of [output.drain(..)] the service is sending,
    [p_reporting] what the output task is still reporting.  The two logs are
    ghosts: the messages taken by the service and by the output task. *)
Record Process := mkProcess {
  p_service : Svc;
  p_sending : list Msg;
  p_to_grpc : list Msg;
  p_to_service : list Msg;
  p_sessions : Ses;
  p_reporting : list Msg;
  p_network : list Net;
  p_cancelled : bool;
  p_running : bool;
  p_accepted : list Msg;
  p_processed : list Msg;
  p_emitted : list Msg;
  p_handled : list Msg;
}.

Inductive Action :=
  | ServiceTurn (i : In)  (* one [select!] of the service loop *)
  | ServiceSend           (* one [tx.send] of the service *)
  | OutputTurn            (* one message handled by the output task *)
  | OutputReport          (* one [tx.send] of the output task *)
  | InputMessage (m : Msg)
  | SharedChange (e : Env)
  | SessionChange (g : Ses)
  | Cancel.

(** The actions of the process itself. *)
Definition internal (a : Action) : bool :=
  match a with ServiceTurn _ | ServiceSend | OutputTurn | OutputReport => true | _ => false end.

(** The state after [start_service] was called with its initial messages. *)
Definition process_start (svc : Svc) (init : list Msg) (g : Ses) : Process :=
  mkProcess svc init [] [] g [] [] false true [] [] init [].

Definition has_room (channel : list Msg) : bool := bool_decide (length channel < CHANNEL_BUFFER_SIZE)%nat.

(** The service's state and the messages it now has to send. *)
Definition set_service (svc : Svc) (out : list Msg) (p : Process) : Process :=
  mkProcess svc out (p_to_grpc p) (p_to_service p) (p_sessions p) (p_reporting p) (p_network p) (p_cancelled p)
    (p_running p) (p_accepted p) (p_processed p) (p_emitted p ++ out) (p_handled p).

(** [rx.recv()] of the service. *)
Definition take_message (m : Msg) (rest : list Msg) (p : Process) : Process :=
  mkProcess (p_service p) (p_sending p) (p_to_grpc p) rest (p_sessions p) (p_reporting p) (p_network p)
    (p_cancelled p) (p_running p) (p_accepted p) (p_processed p ++ [m]) (p_emitted p) (p_handled p).

(** One turn of the service's [select!], in the order of [biased]: cancellation,
    then a message, then the ticker. *)
Definition service_turn (i : In) (p : Process) : Outcome Process :=
  match p_sending p with
  | _ :: _ => Blocked
  | [] =>
      if p_cancelled p then
        Next (mkProcess (p_service p) [] (p_to_grpc p) (p_to_service p) (p_sessions p) (p_reporting p) (p_network p)
                true false (p_accepted p) (p_processed p) (p_emitted p) (p_handled p))
      else
        match p_to_service p with
        | m :: rest =>
            match sv_process i m (p_service p) with
            | Some (svc, out) => Next (set_service svc out (take_message m rest p))
            | None => Panicked
            end
        | [] =>
            match sv_tick i (p_service p) with
            | Some (svc, out) => Next (set_service svc out p)
            | None => Panicked
            end
        end
  end.

Definition service_send (p : Process) : Outcome Process :=
  match p_sending p with
  | m :: rest =>
      if has_room (p_to_grpc p) then
        Next (mkProcess (p_service p) rest (p_to_grpc p ++ [m]) (p_to_service p) (p_sessions p) (p_reporting p)
                (p_network p) (p_cancelled p) (p_running p) (p_accepted p) (p_processed p) (p_emitted p) (p_handled p))
      else Blocked
  | [] => Blocked
  end.

(** [while let Some(message) = rx.recv().await] of the output task. *)
Definition output_turn (p : Process) : Outcome Process :=
  match p_reporting p, p_to_grpc p with
  | [], m :: rest =>
      match ot_turn (p_service p) (p_sessions p) m with
      | Some (g, sent, reports) =>
          Next (mkProcess (p_service p) (p_sending p) rest (p_to_service p) g reports (p_network p ++ sent)
                  (p_cancelled p) (p_running p) (p_accepted p) (p_processed p) (p_emitted p) (p_handled p ++ [m]))
      | None => Panicked
      end
  | _, _ => Blocked
  end.

(** A message pushed into the channel towards the service. *)
Definition push_service (m : Msg) (p : Process) : Outcome Process :=
  if has_room (p_to_service p) then
    Next (mkProcess (p_service p) (p_sending p) (p_to_grpc p) (p_to_service p ++ [m]) (p_sessions p) (p_reporting p)
            (p_network p) (p_cancelled p) (p_running p) (p_accepted p ++ [m]) (p_processed p) (p_emitted p) (p_handled p))
  else Blocked.

Definition set_reporting (l : list Msg) (p : Process) : Process :=
  mkProcess (p_service p) (p_sending p) (p_to_grpc p) (p_to_service p) (p_sessions p) l (p_network p)
    (p_cancelled p) (p_running p) (p_accepted p) (p_processed p) (p_emitted p) (p_handled p).

Definition output_report (p : Process) : Outcome Process :=
  match p_reporting p with
  | m :: rest => push_service m (set_reporting rest p)
  | [] => Blocked
  end.

Definition act (a : Action) (p : Process) : Outcome Process :=
  if p_running p then
    match a with
    | ServiceTurn i => service_turn i p
    | ServiceSend => service_send p
    | OutputTurn => output_turn p
    | OutputReport => output_report p
    | InputMessage m => push_service m p
    | SharedChange e =>
        Next (mkProcess (sv_env e (p_service p)) (p_sending p) (p_to_grpc p) (p_to_service p) (p_sessions p)
                (p_reporting p) (p_network p) (p_cancelled p) (p_running p) (p_accepted p) (p_processed p)
                (p_emitted p) (p_handled p))
    | SessionChange g =>
        Next (mkProcess (p_service p) (p_sending p) (p_to_grpc p) (p_to_service p) g (p_reporting p) (p_network p)
                (p_cancelled p) (p_running p) (p_accepted p) (p_processed p) (p_emitted p) (p_handled p))
    | Cancel =>
        Next (mkProcess (p_service p) (p_sending p) (p_to_grpc p) (p_to_service p) (p_sessions p) (p_reporting p)
                (p_network p) true (p_running p) (p_accepted p) (p_processed p) (p_emitted p) (p_handled p))
    end
  else Blocked.

Fixpoint run (l : list Action) (p : Process) : Outcome Process :=
  match l with
  | [] => Next p
  | a :: l => match act a p with Next p' => run l p' | o => o end
  end.

(** What a process relies on: the service keeps an invariant under which it does
    not panic, and it emits only messages the output task handles. *)
Class NodeLaws (ok : Svc → Prop) (emits : Msg → Prop) : Prop := {
  law_process i m svc : ok svc →
    ∃ svc' out, sv_process i m svc = Some (svc', out) ∧ ok svc' ∧ Forall emits out;
  law_tick i svc : ok svc →
    ∃ svc' out, sv_tick i svc = Some (svc', out) ∧ ok svc' ∧ Forall emits out;
  law_env e svc : ok svc → ok (sv_env e svc);
  law_turn svc g m : ok svc → emits m → is_Some (ot_turn svc g m);
}.

(** Waiting for each other: the service for room towards the output task, the
    output task for room towards the service. *)
Definition deadlocked (p : Process) : Prop :=
  p_sending p ≠ [] ∧ (CHANNEL_BUFFER_SIZE <= length (p_to_grpc p))%nat ∧
  p_reporting p ≠ [] ∧ (CHANNEL_BUFFER_SIZE <= length (p_to_service p))%nat.

End process.

Arguments Process : clear implicits.
Arguments Action : clear implicits.

(** ** Theory of a process *)

Section theory.
Context {Svc Msg In Env Ses Net : Type} `{!ServiceApi Svc Msg In Env, !OutputApi Svc Msg Ses Net}.
Context (ok : Svc → Prop) (emits : Msg → Prop) `{!NodeLaws ok emits}.
Implicit Types p : Process Svc Msg Ses Net.

(** The process invariant: the service's own, the messages under way are ones the
    output task handles, and the channels are queues within their bounds. *)
Record process_inv p : Prop := {
  pv_service : ok (p_service p);
  pv_sending : Forall emits (p_sending p);
  pv_to_grpc : Forall emits (p_to_grpc p);
  pv_grpc_bound : (length (p_to_grpc p) <= CHANNEL_BUFFER_SIZE)%nat;
  pv_service_bound : (length (p_to_service p) <= CHANNEL_BUFFER_SIZE)%nat;
  pv_accepted : p_accepted p = p_processed p ++ p_to_service p;
  pv_emitted : p_emitted p = p_handled p ++ p_to_grpc p ++ p_sending p;
}.

Lemma process_inv_start svc init g : ok svc → Forall emits init → process_inv (process_start svc init g).
Proof. intros. split; simpl; try done; apply Nat.le_0_l. Qed.

Lemma has_room_app (l : list Msg) m :
  has_room l = true → (length (l ++ [m]) <= CHANNEL_BUFFER_SIZE)%nat.
Proof. intros ?%bool_decide_eq_true. rewrite length_app. simpl. lia. Qed.

Lemma push_service_inv m p p' : process_inv p → push_service m p = Next p' → process_inv p'.
Proof.
  intros [] Hs. unfold push_service in Hs. destruct (has_room _) eqn:E; [|done]. injection Hs as <-.
  split; simpl; try done; [by apply has_room_app|]. by rewrite pv_accepted0, app_assoc.
Qed.

Lemma service_turn_inv i p p' : process_inv p → service_turn i p = Next p' → process_inv p'.
Proof.
  intros [] Hs. unfold service_turn in Hs. destruct (p_sending p) eqn:Es; [|done].
  destruct (p_cancelled p); [injection Hs as <-; split; simpl; try done; by rewrite pv_emitted0|].
  destruct (p_to_service p) as [|m rest] eqn:Et.
  - destruct (law_tick i (p_service p) pv_service0) as (svc & out & E & ? & ?). rewrite E in Hs.
    injection Hs as <-. split; simpl; try done; [by rewrite Et|by rewrite Et|by rewrite pv_emitted0, app_nil_r, app_assoc].
  - destruct (law_process i m (p_service p) pv_service0) as (svc & out & E & ? & ?). rewrite E in Hs.
    injection Hs as <-. split; simpl in *; try done; [lia| |by rewrite pv_emitted0, app_nil_r, app_assoc].
    by rewrite pv_accepted0, <-app_assoc.
Qed.

Lemma service_send_inv p p' : process_inv p → service_send p = Next p' → process_inv p'.
Proof.
  intros [] Hs. unfold service_send in Hs. destruct (p_sending p) as [|m rest] eqn:Es; [done|].
  destruct (has_room _) eqn:E; [|done]. injection Hs as <-. apply Forall_cons in pv_sending0 as [? ?].
  split; simpl; try done; [by apply Forall_app_2; [|apply Forall_singleton]|by apply has_room_app|].
  by rewrite pv_emitted0, <-(app_assoc (p_to_grpc p)).
Qed.

Lemma output_turn_inv p p' : process_inv p → output_turn p = Next p' → process_inv p'.
Proof.
  intros [] Hs. unfold output_turn in Hs. destruct (p_reporting p); [|done].
  destruct (p_to_grpc p) as [|m rest] eqn:Et; [done|].
  destruct (ot_turn _ _ m) as [[[g sent] reports]|]; [|done]. injection Hs as <-.
  apply Forall_cons in pv_to_grpc0 as [? ?]. split; simpl in *; try done; [lia|].
  by rewrite pv_emitted0, <-app_assoc.
Qed.

Lemma act_inv a p p' : process_inv p → act a p = Next p' → process_inv p'.
Proof.
  intros Hi. unfold act. destruct (p_running p); [|done]. destruct a.
  - by apply service_turn_inv.
  - by apply service_send_inv.
  - by apply output_turn_inv.
  - unfold output_report. destruct (p_reporting p) as [|m rest]; [done|].
    apply push_service_inv. by destruct Hi; split.
  - by apply push_service_inv.
  - intros [= <-]. destruct Hi; split; simpl; try done. by apply (law_env (NodeLaws := NodeLaws0)).
  - intros [= <-]. by destruct Hi; split.
  - intros [= <-]. by destruct Hi; split.
Qed.

Lemma run_inv l p p' : process_inv p → run l p = Next p' → process_inv p'.
Proof.
  revert p. induction l as [|a l IH]; intros p Hi; simpl; [by intros [= <-]|].
  destruct (act a p) eqn:E; [|done..]. apply IH. by eapply act_inv.
Qed.

Lemma service_turn_no_panic i p : process_inv p → service_turn i p ≠ Panicked.
Proof.
  intros Hi. unfold service_turn. destruct (p_sending p); [|done]. destruct (p_cancelled p); [done|].
  destruct (p_to_service p) as [|m rest].
  - by destruct (law_tick i _ (pv_service _ Hi)) as (? & ? & -> & _).
  - by destruct (law_process i m _ (pv_service _ Hi)) as (? & ? & -> & _).
Qed.

Lemma service_turn_goes_on i p :
  process_inv p → p_cancelled p = false → p_sending p = [] →
  ∃ p', service_turn i p = Next p' ∧ p_running p' = p_running p.
Proof.
  intros Hi Hx Hs. unfold service_turn. rewrite Hs, Hx. destruct (p_to_service p) as [|m rest].
  - destruct (law_tick i _ (pv_service _ Hi)) as (? & ? & -> & _). by eexists.
  - destruct (law_process i m _ (pv_service _ Hi)) as (? & ? & -> & _). by eexists.
Qed.

Lemma act_no_panic a p : process_inv p → act a p ≠ Panicked.
Proof.
  intros Hi. unfold act. destruct (p_running p); [|done]. destruct a; try done.
  - by apply service_turn_no_panic.
  - unfold service_send. destruct (p_sending p); [done|]. by destruct (has_room _).
  - unfold output_turn. destruct (p_reporting p); [|done]. destruct (p_to_grpc p) as [|m rest] eqn:Et; [done|].
    destruct (law_turn (p_service p) (p_sessions p) m (pv_service _ Hi)) as [[[? ?] ?] ->]; [|done].
    pose proof (pv_to_grpc _ Hi) as Hf. rewrite Et in Hf. by apply Forall_cons in Hf as [? _].
  - unfold output_report, push_service. destruct (p_reporting p); [done|]. by destruct (has_room _).
  - unfold push_service. by destruct (has_room _).
Qed.

Lemma run_no_panic l p : process_inv p → run l p ≠ Panicked.
Proof.
  revert p. induction l as [|a l IH]; intros p Hi; simpl; [done|].
  destruct (act a p) eqn:E; [|done|by eapply act_no_panic in E]. apply IH. by eapply act_inv.
Qed.

Lemma has_room_false (l : list Msg) : has_room l = false ↔ (CHANNEL_BUFFER_SIZE <= length l)%nat.
Proof. unfold has_room. rewrite bool_decide_eq_false. lia. Qed.

(** A running process can make a step of its own unless its tasks wait for each
    other. *)
Lemma progress p (i0 : In) :
  process_inv p → p_running p = true →
  (∃ (a : Action Msg In Env Ses) p', internal a = true ∧ act a p = Next p') ∨ deadlocked p.
Proof.
  intros Hi Hr. unfold act, deadlocked. rewrite Hr. destruct (p_sending p) as [|m rest] eqn:Es.
  { left. exists (ServiceTurn i0). unfold service_turn. rewrite Es.
    destruct (p_cancelled p) eqn:Ec; [by eexists|].
    destruct (service_turn_goes_on i0 p Hi Ec Es) as (p' & Ht & _). exists p'. split; [done|].
    by rewrite <-Ht; unfold service_turn; rewrite Es, Ec. }
  destruct (has_room (p_to_grpc p)) eqn:Eg.
  { left. exists ServiceSend. unfold service_send. rewrite Es, Eg. by eexists. }
  apply has_room_false in Eg. destruct (p_reporting p) as [|r rs] eqn:Er.
  { left. exists OutputTurn. unfold output_turn. rewrite Er.
    destruct (p_to_grpc p) as [|m' rest'] eqn:Et; [simpl in Eg; unfold CHANNEL_BUFFER_SIZE in Eg; lia|].
    destruct (law_turn (p_service p) (p_sessions p) m' (pv_service _ Hi)) as [[[? ?] ?] ->]; [|by eexists].
    pose proof (pv_to_grpc _ Hi) as Hf. rewrite Et in Hf. by apply Forall_cons in Hf as [? _]. }
  destruct (has_room (p_to_service p)) eqn:E.
  { left. exists OutputReport. unfold output_report, push_service. rewrite Er. simpl. rewrite E. by eexists. }
  right. apply has_room_false in E. done.
Qed.

(** ... in which case none of them can, and no message reaches the service. *)
Lemma deadlocked_stuck p (a : Action Msg In Env Ses) :
  deadlocked p → (internal a = true ∨ ∃ m, a = InputMessage m) → act a p = Blocked.
Proof.
  intros (Hs & Hg & Hrep & Ht) Ha. apply has_room_false in Hg, Ht.
  unfold act. destruct (p_running p); [|done].
  destruct a; try (by destruct Ha as [?|[? ?]]);
    unfold service_turn, service_send, output_turn, output_report, push_service; simpl.
  - by destruct (p_sending p).
  - destruct (p_sending p); [done|]. by rewrite Hg.
  - by destruct (p_reporting p).
  - destruct (p_reporting p); [done|]. simpl. by rewrite Ht.
  - by rewrite Ht.
Qed.

(** Nothing the surroundings do ends the waiting. *)
Lemma deadlocked_forever p p' (a : Action Msg In Env Ses) : deadlocked p → act a p = Next p' → deadlocked p'.
Proof.
  intros Hd Ha. destruct a; try (by rewrite (deadlocked_stuck p) in Ha by eauto);
    unfold act in Ha; destruct (p_running p); by simplify_eq/=.
Qed.

End theory.
