(* ===== verification/ManagerProcess.v ===== *)
(** * The manager process (manager/mod.rs)

    The manager's service and output task as a [Process]: what [run] wires
    together.  The shared data other tasks change is the configuration, whose
    replication factor a connecting manager overwrites.

    The theorems discharge the process laws for the manager: no run panics,
    messages keep their order through both channels, and the only way for the
    process to stop making progress is the two tasks waiting for each other, a
    state that is reachable ([manager_process_can_deadlock]). *)

From S2P Require Import Prelude Common ManagerState ManagerElection ManagerPartitions ManagerService.
From S2P Require Import ManagerTheorems Conversions Grpc ManagerGrpc Process.

(** A turn reads the clock of the handlers and what [tick] reads. *)
#[export] Instance manager_service : ServiceApi ManagerService ManagerProtocol.t (Z * TickInput) Z := {|
  sv_process i msg svc := process i.1 i.2 msg svc;
  sv_tick i svc := tick i.2 svc;
  sv_env rf svc :=
    match Config_replication_factor_mut rf (config svc) with
    | Some c => mkManagerService (me svc) (state svc) (elections svc) c
    | None => svc
    end;
|}.

(** Session tables of a new [ManagerApiService]. *)
Definition ManagerApiService_new : Sessions := mkSessions ∅ ∅ ∅.

(** [run] up to its [select!]: the tasks, their channels and the initial messages. *)
Definition manager_run (me : Me) (config : Config) (now : Z) : Process ManagerService ManagerProtocol.t Sessions Sent :=
  let '(svc, init) := get_init_messages now (ManagerService_new me config) in
  process_start svc init ManagerApiService_new.

(** One turn of the loop of [start_service]. *)
Definition start_service_turn (i : Z * TickInput) (p : Process ManagerService ManagerProtocol.t Sessions Sent)
    : Outcome (Process ManagerService ManagerProtocol.t Sessions Sent) :=
  service_turn i p.

(** ** What the service emits *)

(** Everything but [NodeDisconnected], which the output task calls unreachable. *)
Definition emitted (msg : ManagerProtocol.t) : Prop :=
  match msg with ManagerProtocol.NodeDisconnected _ => False | _ => True end.

Create HintDb manager_emits.
#[local] Hint Resolve Forall_fmap_all Forall_nil_2 : manager_emits.
#[local] Hint Extern 1 (Forall emitted [_]) => (by repeat constructor) : manager_emits.
#[local] Hint Extern 1 (emitted _) => exact I : manager_emits.

Lemma manager_merge_cluster_node_emits items ns out :
  Forall emitted out → Forall emitted (foldl merge_cluster_node (ns, out) items).2.
Proof.
  revert ns out. induction items as [|item items IH]; intros ns out Ho; simpl; [done|].
  destruct (ns !! cn_id item); [by apply IH|]. destruct (cn_node_type item); apply IH; [|done].
  apply Forall_app_2; [done|by repeat constructor].
Qed.

Lemma manager_dispatch_emits now msg me s es : Forall emitted (dispatch now msg me s es).2.
Proof.
  destruct msg; simpl.
  - unfold handle_new_connection. repeat case_match; simplify_eq/=; auto with manager_emits.
  - unfold handle_heartbeat. repeat case_match; simplify_eq/=; auto with manager_emits.
  - unfold handle_get_cluster_state. repeat case_match; auto with manager_emits.
  - unfold handle_cluster_state. destruct (accept_cluster_state _ _ _) as [s'|]; simpl; [|auto with manager_emits].
    pose proof (manager_merge_cluster_node_emits (cs_nodes state)
      (retain_snapshot_nodes (me_id me) (cs_nodes state) (nodes s')) []) as Hm.
    destruct (foldl _ _ _) as [ns out]. simpl in *. by apply Hm.
  - unfold handle_vote_request. repeat case_match; simplify_eq/=; auto with manager_emits.
  - unfold handle_vote_response. repeat case_match; simplify_eq/=; auto with manager_emits.
  - unfold handle_leader. repeat case_match; simplify_eq/=; auto with manager_emits.
  - auto with manager_emits.
  - unfold handle_remove_old_partition. simpl. case_match; auto with manager_emits.
Qed.

Lemma worker_partitions_emits s me rf s' out : worker_partitions s me rf = Some (s', out) → Forall emitted out.
Proof.
  unfold worker_partitions. case_bool_decide as Hl; [|intros [= _ <-]; auto with manager_emits].
  destruct (_ || _); [|intros [= _ <-]; auto with manager_emits].
  set (vec := merge_sort _ _). destruct (length vec =? 0)%nat; [intros [= _ <-]; auto with manager_emits|].
  unfold calculate_new_mapping. destruct (build_mapping PARTITIONS_AMOUNT rf vec) as [m|]; [|done].
  cbn [mbind option_bind]. destruct (create_new_workers_state _) as [ws|]; [|done].
  cbn [mbind option_bind]. intros [= _ <-]. auto with manager_emits.
Qed.

Lemma manager_tick_emits i svc svc' out : tick i svc = Some (svc', out) → Forall emitted out.
Proof.
  unfold tick. destruct (state svc) as [s|]; [|intros [= _ <-]; auto with manager_emits].
  assert (Forall emitted (heartbeats (hb_now i) (hb_rnd i) s (me svc)).2) as H1.
  { unfold heartbeats. repeat case_match; simplify_eq/=; auto with manager_emits. }
  destruct (heartbeats _ _ _ _) as [s1 out1]. simpl in H1.
  assert (Forall emitted (start_election_if_needed (el_now i) (el_rnd i) s1 (elections svc) (me svc)).2) as H2.
  { unfold start_election_if_needed. destruct (epoch s1); [|apply Forall_nil_2].
    destruct (_ && _); [|apply Forall_nil_2].
    destruct (match last_key_value _ with Some _ => _ | None => _ end); simpl; auto with manager_emits. }
  destruct (start_election_if_needed _ _ _ _ _) as [es out2]. simpl in H2.
  destruct (Config_replication_factor (config svc)) as [rf|]; [|done]. cbn [mbind option_bind].
  destruct (worker_partitions s1 (me svc) rf) as [[s2 out3]|] eqn:Hw; [|done]. cbn [mbind option_bind].
  intros [= _ <-]. apply Forall_app_2; [done|]. apply Forall_app_2; [done|]. by eapply worker_partitions_emits.
Qed.

Lemma manager_process_emits now i msg svc svc' out : process now i msg svc = Some (svc', out) → Forall emitted out.
Proof.
  unfold process. destruct (state svc) as [s|] eqn:Hs.
  - pose proof (manager_dispatch_emits now msg (me svc) s (elections svc)) as Hd.
    destruct (dispatch _ _ _ _ _) as [[s' es'] out1]. simpl in Hd.
    destruct (tick i _) as [[svc1 out2]|] eqn:Ht; [|done]. simpl. intros [= _ <-].
    apply Forall_app_2; [done|by eapply manager_tick_emits].
  - destruct (tick i svc) as [[svc1 out2]|] eqn:Ht; [|done]. simpl. intros [= _ <-]. by eapply manager_tick_emits.
Qed.

Section process.
Context `{UuidApi}.

#[export] Instance manager_output : OutputApi ManagerService ManagerProtocol.t Sessions Sent := {|
  ot_turn svc ss msg := ManagerGrpc.output (me svc) (config svc) ss msg;
|}.

#[export] Instance manager_laws : NodeLaws service_ok emitted.
Proof.
  split.
  - intros [now i] m svc Hok. simpl. destruct (process_total now i m svc Hok) as [[svc' out] E].
    exists svc', out. split; [done|]. split; [by eapply process_ok|by eapply manager_process_emits].
  - intros [now i] svc Hok. simpl. destruct (tick_total i svc Hok) as [[svc' out] E].
    exists svc', out. split; [done|]. split; [by eapply tick_ok|by eapply manager_tick_emits].
  - intros rf svc [Hl Hc He]. simpl. destruct (config svc) eqn:E; [|done]. by split; simpl.
  - intros svc g m [_ Hc _] He. destruct m; try done. simpl. destruct (config svc); [|done]. by eexists.
Qed.

Lemma manager_run_inv me config now :
  is_manager_config config → process_inv service_ok emitted (manager_run me config now).
Proof.
  intros Hc. unfold manager_run.
  pose proof (service_reachable_ok me config _ Hc (sr_init me config now)) as Hok.
  unfold get_init_messages in *. simpl in *.
  destruct (Config_manager_host_port config) as [[h pt]|]; simpl in *; apply process_inv_start; try done;
    auto with manager_emits.
Qed.


(** Progress of the manager process: while it runs, some task can make its
    next step, except in one situation, when the service waits for room in the
    channel to the output task while the output task, reporting a lost
    connection, waits for room in the channel to the service; and that situation
    lasts, whatever happens around it. *)
Theorem manager_process_progress me config now l p :
  is_manager_config config → run l (manager_run me config now) = Next p → p_running p = true →
  ((∃ a p', internal a = true ∧ act a p = Next p') ∨ deadlocked p) ∧
  (deadlocked p → ∀ a p', act a p = Next p' → internal a = false ∧ deadlocked p').
Proof.
  intros Hc Hp Hr. pose proof (run_inv service_ok emitted _ _ _ (manager_run_inv me config now Hc) Hp) as Hi.
  split; [by apply (progress service_ok emitted _ (0, mkTickInput 0 0 0 0))|].
  intros Hd a p' Ha. split; [|by eapply deadlocked_forever].
  destruct (internal a) eqn:E; [|done]. rewrite (deadlocked_stuck p) in Ha by eauto. done.
Qed.

End process.

(** ** A deadlock *)

Definition deadlocked_b (p : Process ManagerService ManagerProtocol.t Sessions Sent) : bool :=
  bool_decide (length (p_sending p) ≠ 0%nat) && bool_decide (CHANNEL_BUFFER_SIZE <= length (p_to_grpc p))%nat &&
  bool_decide (length (p_reporting p) ≠ 0%nat) && bool_decide (CHANNEL_BUFFER_SIZE <= length (p_to_service p))%nat.

Lemma deadlocked_b_true p : deadlocked_b p = true → deadlocked p.
Proof.
  unfold deadlocked_b, deadlocked. rewrite !andb_true_iff, !bool_decide_eq_true, !length_zero_iff_nil. tauto.
Qed.

(** Sixty other managers connect; then all their sessions break at once, one tick
    emits a heartbeat and a vote request for each of them, and while the output
    task reports the first broken session, the connection tasks fill the channel
    to the service. *)
Definition peer (k : nat) : NodeId := mkNodeId (String.concat "" (replicate k "n")).

Definition connect_peer (k : nat) : list (Action ManagerProtocol.t (Z * TickInput) Z Sessions) :=
  [InputMessage (ManagerProtocol.NewConnection (Some (peer k)) "host" 9000 true);
   ServiceTurn (1000, mkTickInput 1000 500 1000 500)] ++
  concat (replicate (if (k =? 1)%nat then 2 else 1) [ServiceSend; OutputTurn]).

Definition deadlock_schedule : list (Action ManagerProtocol.t (Z * TickInput) Z Sessions) :=
  concat (connect_peer <$> seq 1 60) ++
  [SessionChange (mkSessions (list_to_map ((λ k, (peer k, mkStream Output true)) <$> seq 1 60)) ∅ ∅);
   ServiceTurn (2000, mkTickInput 2000 500 5000 500); ServiceSend; OutputTurn] ++
  replicate 100 (InputMessage (ManagerProtocol.Heartbeat (peer 2) (mkHeartbeat (peer 2) 2000))) ++
  replicate 100 ServiceSend.

(** The two tasks can wait for each other for ever: each sends into a full bounded
    channel only the other one drains. *)
Theorem manager_process_can_deadlock :
  ∃ l p, run l (manager_run me_a config_a 1000) = Next p ∧ p_running p = true ∧ deadlocked p.
Proof.
  exists deadlock_schedule.
  assert (match run deadlock_schedule (manager_run me_a config_a 1000) with
          | Next p => p_running p && deadlocked_b p | _ => false end = true) as Hd by (vm_compute; reflexivity).
  destruct (run deadlock_schedule (manager_run me_a config_a 1000)) as [p| |]; [|done..].
  apply andb_true_iff in Hd as [? ?%deadlocked_b_true]. by exists p.
Qed.

(** ** Witnesses *)


Lemma manager_process_progress_witness :
  ∃ p, run (connect_peer 1) (manager_run me_a config_a 1000) = Next p ∧
    ((∃ a p', internal a = true ∧ act a p = Next p') ∨ deadlocked p).
Proof.
  destruct (run (connect_peer 1) (manager_run me_a config_a 1000)) as [p| |] eqn:E; [|vm_compute in E; discriminate..].
  exists p. split; [done|].
  refine (proj1 (manager_process_progress me_a config_a 1000 (connect_peer 1) p I E _)).
  assert (match run (connect_peer 1) (manager_run me_a config_a 1000) with Next p => p_running p | _ => false end = true)
    as Hr by (vm_compute; reflexivity).
  by rewrite E in Hr.
Defined.
