(* ===== verification/WorkerProcess.v ===== *)
(** * The worker process (worker/mod.rs)

    The worker's service and output task as a [Process], with what [run] starts
    beside them: the client API and the removal of expired records, which change
    the shared store.  The theorems discharge the process laws for the worker. *)

From S2P Require Import Prelude Containers Common RuntimeStore WorkerState WorkerSync WorkerService.
From S2P Require Import Conversions Grpc WorkerGrpc Process.

(** What other tasks do to the shared store. *)
Inductive StoreUse :=
  | Serve (now : Z) (request : ClientRequest)  (* a task of [open_client_connection] *)
  | Sweep (now : Z).                           (* the task of [start_expired_cleanup] *)

(** How [run] starts: an error it returns, a panic, or the running process. *)
Inductive Start (P : Type) :=
  | Started (p : P)
  | StartError
  | StartPanic.
Arguments Started {_} _.
Arguments StartError {_}.
Arguments StartPanic {_}.

Section worker.
Context {M : Type → Type} `{SkipMap M} {D : Type → Type} `{DashMap PartitionId D}.
Implicit Types (svc : WorkerService M D) (st : RuntimeStore M D).

(** One turn of the loop of [start_expired_cleanup]: nothing once cancelled, else a
    sweep at the clock's time. *)
Definition expired_cleanup_turn (cancelled : bool) (now : Z) st : option (RuntimeStore M D * Z) :=
  if cancelled then None else Some (remove_expired now st).

(** A turn reads the clock of the handlers, the one of [heartbeats] and the ones of
    [sync_partitions]. *)
#[export] Instance worker_service : ServiceApi (WorkerService M D) WorkerProtocol.t (Z * Z * Clock) StoreUse := {|
  sv_process i msg svc := Some (process i.1.1 i.1.2 i.2 msg svc);
  sv_tick i svc := Some (tick i.1.2 i.2 svc);
  sv_env use svc :=
    match use with
    | Serve now request => set_store (handle_client_request now request (runtime_store svc)).1 svc
    | Sweep now =>
        match expired_cleanup_turn false now (runtime_store svc) with
        | Some (st, _) => set_store st svc
        | None => svc
        end
    end;
|}.

#[export] Instance worker_output : OutputApi (WorkerService M D) WorkerProtocol.t Sessions Sent := {|
  ot_turn _ ss msg := WorkerGrpc.output ss msg;
|}.

(** Session tables of a new [WorkerApiService]; the ones for managers are only
    known to the output task. *)
Definition WorkerApiService_new : Sessions := mkSessions ∅ ∅.

(** [run] up to its [select!]. *)
Definition worker_run (me : Me) (config : Config) (now : Z)
    : Start (Process (WorkerService M D) WorkerProtocol.t Sessions Sent) :=
  match Config_manager_host_port config with
  | None => StartError
  | Some _ =>
      match Config_expired_cleanup_interval_secs config with
      | None => StartPanic
      | Some _ =>
          match get_init_messages now (WorkerService_new me config RuntimeStore_new) with
          | Some (svc, init) => Started (process_start svc init WorkerApiService_new)
          | None => StartPanic
          end
      end
  end.

(** One turn of the loop of [start_service]. *)
Definition start_service_turn (i : Z * Z * Clock) (p : Process (WorkerService M D) WorkerProtocol.t Sessions Sent)
    : Outcome (Process (WorkerService M D) WorkerProtocol.t Sessions Sent) :=
  service_turn i p.

(** ** What the service emits *)

Definition emitted (msg : WorkerProtocol.t) : Prop :=
  match msg with WorkerProtocol.NodeDisconnected _ => False | _ => True end.

Lemma ask_managers_emits me s : Forall emitted (ask_managers me s).
Proof. by apply Forall_fmap_all. Qed.

Create HintDb worker_emits.
#[local] Hint Resolve Forall_fmap_all ask_managers_emits Forall_nil_2 Forall_app_2 : worker_emits.
#[local] Hint Extern 1 (Forall emitted [_]) => (by repeat constructor) : worker_emits.
#[local] Hint Extern 1 (emitted _) => exact I : worker_emits.

Lemma worker_merge_cluster_node_emits items ns out :
  Forall emitted out → Forall emitted (foldl merge_cluster_node (ns, out) items).2.
Proof.
  revert ns out. induction items as [|item items IH]; intros ns out Ho; simpl; [done|].
  destruct (ns !! cn_id item); apply IH; auto with worker_emits.
Qed.

Lemma worker_dispatch_emits now msg me s st : Forall emitted (dispatch now msg me s st).2.
Proof.
  destruct msg; simpl; auto with worker_emits.
  - unfold handle_new_connection. repeat case_match; simplify_eq/=; auto with worker_emits.
  - unfold handle_heartbeat. repeat case_match; simplify_eq/=; auto with worker_emits.
  - unfold handle_cluster_state. destruct (accept_cluster_state _ _ _) as [s'|]; simpl; [|auto with worker_emits].
    match goal with |- context [foldl merge_cluster_node (?r, []) ?l] =>
      pose proof (worker_merge_cluster_node_emits l r [] (Forall_nil_2 _)) as Hm; destruct (foldl merge_cluster_node (r, []) l) end.
    done.
  - unfold handle_leader. repeat case_match; simplify_eq/=; auto with worker_emits.
  - unfold handle_remove_old_partition. case_match; auto with worker_emits.
  - unfold WorkerSync.handle_sync_batch. destruct (foldl _ _ _). simpl. auto with worker_emits.
Qed.

Lemma sync_batch_emits st rid pid after me : Forall emitted (sync_batch st rid pid after me).2.
Proof. unfold sync_batch. case_match; simpl; auto with worker_emits. Qed.

Lemma sync_change_batch_emits st rid pid after me : Forall emitted (sync_change_batch st rid pid after me).2.
Proof. unfold sync_change_batch. repeat case_match; simpl; auto with worker_emits. Qed.

Lemma continue_changes_emits now y st me pid rid r : Forall emitted (continue_changes now y st me pid rid r).1.2.
Proof.
  unfold continue_changes. pose proof (sync_change_batch_emits st rid pid r me) as Hc.
  destruct (sync_change_batch _ _ _ _ _) as [[[? ?]|] out]; simpl in *; [done|]. by destruct (bool_decide _).
Qed.

Lemma sync_to_recipient_emits clk rs st me pid rid :
  Forall emitted (sync_partition_to_recipient clk rs st me pid rid).1.2.
Proof.
  unfold sync_partition_to_recipient. destruct (rs !! rid) as [y|].
  - destruct (confirmed y).
    + unfold continue_confirmed_sync. destruct (phase y) as [r|r r'].
      * pose proof (sync_batch_emits st rid pid (Some (curr_max_key y)) me) as Hb.
        destruct (sync_batch _ _ _ _ _) as [[k|] out]; simpl in *; [done|].
        pose proof (continue_changes_emits (clk pid rid 0%nat) y st me pid rid r) as Hc.
        destruct (continue_changes _ _ _ _ _ _ _) as [[? out'] ?]. simpl in *. auto with worker_emits.
      * pose proof (continue_changes_emits (clk pid rid 0%nat) y st me pid rid r') as Hc.
        by destruct (continue_changes _ _ _ _ _ _ _) as [[? out'] ?].
    + unfold retry_timed_out_sync. destruct (_ <? _); [simpl; auto with worker_emits|].
      destruct (phase y) as [r|r r'].
      * pose proof (sync_batch_emits st rid pid (prev_max_key y) me) as Hb.
        by destruct (sync_batch _ _ _ _ _) as [[k|] out].
      * pose proof (sync_change_batch_emits st rid pid r me) as Hb.
        by destruct (sync_change_batch _ _ _ _ _) as [[[? k]|] out].
  - unfold start_sync. destruct (stable_partition_revision _ _); [|simpl; auto with worker_emits].
    pose proof (sync_batch_emits st rid pid None me) as Hb. by destruct (sync_batch _ _ _ _ _) as [[k|] out].
Qed.

Lemma sync_recipients_emits clk st me pid l s out :
  Forall emitted out → Forall emitted (foldl (sync_recipient clk st me pid) (s, out) l).2.
Proof.
  revert s out. induction l as [|rid l IH]; intros s out Ho; simpl; [done|].
  pose proof (sync_to_recipient_emits clk (default ∅ (sync s !! pid)) st me pid rid) as Hs.
  destruct (sync_partition_to_recipient _ _ _ _ _ _) as [[rs out'] completed]. simpl in Hs.
  destruct completed; simpl; apply IH; [|auto with worker_emits].
  apply Forall_app_2; [done|]. apply Forall_app_2; [done|]. case_match; auto with worker_emits.
Qed.

Lemma sync_partition_emits clk s st me pid rids : Forall emitted (sync_partition clk s st me pid rids).2.
Proof.
  unfold sync_partition.
  match goal with |- context [foldl (sync_recipient clk st me pid) (?s', []) ?l] =>
    pose proof (sync_recipients_emits clk st me pid l s' [] (Forall_nil_2 _)) as Hr;
    destruct (foldl (sync_recipient clk st me pid) (s', []) l) as [s1 out] end.
  simpl in Hr. by repeat case_match; simplify_eq/=.
Qed.

Lemma sync_all_emits clk cs me l s st out :
  Forall emitted out → Forall emitted (foldl (sync_one_partition clk cs me) (s, st, out) l).2.
Proof.
  revert s st out. induction l as [|pid l IH]; intros s st out Ho; [done|]. cbn [foldl].
  unfold sync_one_partition at 2.
  match goal with |- context [sync_partition clk s st me pid ?r] =>
    pose proof (sync_partition_emits clk s st me pid r) as Hp; destruct (sync_partition clk s st me pid r) as [[s1 st1] out1] end.
  apply IH. simpl in Hp. auto with worker_emits.
Qed.

Lemma worker_tick_emits now clk svc : Forall emitted (tick now clk svc).2.
Proof.
  unfold tick. destruct (state svc) as [s|]; [|auto with worker_emits].
  assert (Forall emitted (heartbeats now s (me svc)).2) as H1.
  { unfold heartbeats. repeat case_match; simplify_eq/=; auto with worker_emits. }
  destruct (heartbeats _ _ _) as [s1 out1]. unfold sync_partitions.
  pose proof (sync_all_emits clk (get_currently_synced_actual_nodes s1) (me svc) (partition_range PARTITIONS_AMOUNT)
    s1 (runtime_store svc) [] (Forall_nil_2 _)) as H2.
  revert H2. generalize (foldl (sync_one_partition clk (get_currently_synced_actual_nodes s1) (me svc))
    (s1, runtime_store svc, []) (partition_range PARTITIONS_AMOUNT)). intros [[s2 st2] out2] H2.
  destruct (remove_completed_syncs_and_obsolete_partitions s2 st2 (me svc)) as [s3 st3].
  cbn [snd] in *. by apply Forall_app_2.
Qed.

Lemma worker_process_emits now hb_now clk msg svc : Forall emitted (process now hb_now clk msg svc).2.
Proof.
  unfold process. destruct (state svc) as [s|].
  - pose proof (worker_dispatch_emits now msg (me svc) s (runtime_store svc)) as Hd.
    destruct (dispatch _ _ _ _ _) as [[s' st'] out1]. cbn [snd] in Hd.
    pose proof (worker_tick_emits hb_now clk (mkWorkerService (me svc) (Some s') (config svc) st')) as Ht.
    destruct (tick _ _ _) as [svc2 out2]. cbn [snd] in *. by apply Forall_app_2.
  - pose proof (worker_tick_emits hb_now clk svc) as Ht. by destruct (tick _ _ _).
Qed.

#[export] Instance worker_laws : NodeLaws (λ _ : WorkerService M D, True) emitted.
Proof.
  split.
  - intros i m svc _. cbn [sv_process worker_service].
    pose proof (worker_process_emits i.1.1 i.1.2 i.2 m svc) as He. destruct (process _ _ _ _ _) as [svc' out]. by exists svc', out.
  - intros i svc _. cbn [sv_tick worker_service].
    pose proof (worker_tick_emits i.1.2 i.2 svc) as He. destruct (tick _ _ _) as [svc' out]. by exists svc', out.
  - done.
  - intros svc g m _ He. destruct m; try done; by eexists.
Qed.

Lemma worker_run_inv me gp hp mhp secs now :
  ∃ p0, worker_run me (WorkerConfig gp hp mhp secs) now = Started p0 ∧
    process_inv (λ _ : WorkerService M D, True) emitted p0.
Proof.
  unfold worker_run. destruct mhp as [h pt]. simpl. eexists. split; [done|].
  apply process_inv_start; auto with worker_emits.
Qed.


End worker.
