(* ===== verification/Client.v ===== *)
(** * The client library (no-sql-store-client)

    Keys, topology snapshots, the choice of nodes for reads and writes, requests
    with retries, and [get], [put] and [delete].  The network is a parameter: a
    world [W] in which connecting to an endpoint and exchanging a request with a
    node may fail.  Requests the library issues concurrently run one after the
    other here, in the order of the set they come from. *)

From stdpp Require Import pretty.
From S2P Require Import Prelude Common Conversions.

Definition PARTITIONS_AMOUNT : Z := 4096.

(** ** Keys *)

(** The third-party hash: 32 bytes of output. *)
Class Blake3 := { blake3_hash : list Z → list Z }.
Class Blake3Laws `{Blake3} : Prop := {
  blake3_length m : length (blake3_hash m) = 32%nat;
  blake3_bytes m b : b ∈ blake3_hash m → 0 <= b < 256;
}.

(** The bytes of ["no-sql-store:key:v1\0"]. *)
Definition KEY_HASH_DOMAIN : list Z :=
  [110; 111; 45; 115; 113; 108; 45; 115; 116; 111; 114; 101; 58; 107; 101; 121; 58; 118; 49; 0].

(** [u64::from_le_bytes]. *)
Fixpoint from_le_bytes (bytes : list Z) : Z :=
  match bytes with
  | [] => 0
  | b :: bytes => b + 256 * from_le_bytes bytes
  end.

Definition hash_key `{Blake3} (key : list Z) : Z :=
  from_le_bytes (take 8 (blake3_hash (KEY_HASH_DOMAIN ++ key))).

(** [StoreKey]: integers of any width and sign by [as u64], texts and byte
    strings by their hash. *)
Inductive ClientKey := IntKey (x : Z) | BytesKey (bytes : list Z).
Definition to_store_key `{Blake3} (k : ClientKey) : Z :=
  match k with IntKey x => as_u64 x | BytesKey bytes => hash_key bytes end.

Definition partition (key : Z) : Z := as_u32 (key `mod` PARTITIONS_AMOUNT).

(** ** Errors and configuration *)

Inductive Error :=
  | NoManagerAddress
  | ManagerUnavailable (errors : string)
  | PartitionUnavailable (partition_id : Z)
  | UnknownWorker (node_id : string)
  | WorkerRequest (node_id reason : string)
  | Timeout
  | InvalidSystemTime
  | TtlOverflow.

Definition error_to_string (e : Error) : string :=
  match e with
  | NoManagerAddress => "at least one manager address is required"
  | ManagerUnavailable errors => "could not connect to any configured manager: " +:+ errors
  | PartitionUnavailable p => "cluster has no mapping for partition " +:+ pretty p
  | UnknownWorker id => "cluster state references unknown worker " +:+ id
  | WorkerRequest id reason => "worker " +:+ id +:+ " request failed: " +:+ reason
  | Timeout => "operation timed out"
  | InvalidSystemTime => "system clock is before the Unix epoch"
  | TtlOverflow => "TTL is too large"
  end.

Inductive Result (A : Type) := Ok (a : A) | Err (e : Error).
Arguments Ok {_} _.
Arguments Err {_} _.

(** Durations in nanoseconds; [Duration::MAX] is [u64::MAX] seconds and 999999999 ns. *)
Definition DURATION_MAX : Z := (u64_modulus - 1) * 1000000000 + 999999999.
Definition saturating_mul (d k : Z) : Z := Z.min (d * k) DURATION_MAX.
Definition as_millis (d : Z) : Z := d `div` 1000000.

Record ClientConfig := mkClientConfig {
  retry_attempts : Z;
  initial_retry_delay : Z;
  request_timeout : Z;
  manager_connect_timeout : Z;
}.
Definition ClientConfig_default : ClientConfig :=
  mkClientConfig 3 (50 * 1000000) (5 * 1000000000) (5 * 1000000000).

(** ** Topology *)

Record CNode := mkCNode { n_endpoint : string; n_node_type : Z }.

Record Topology := mkTopology {
  t_epoch : Z;
  t_leader_id : string;
  t_nodes : gmap string CNode;
  t_mapping : gmap Z GPartition;
  t_old_replicas : gmap Z (list string);
  t_new_replicas : gmap Z (list string);
}.
Definition Topology_default : Topology := mkTopology 0 "" ∅ ∅ ∅ ∅.

Definition normalize_endpoint (endpoint : string) : string :=
  if String.prefix "http://" endpoint || String.prefix "https://" endpoint
  then endpoint else "http://" +:+ endpoint.

Definition endpoint (host : string) (port : Z) : string := normalize_endpoint (host +:+ ":" +:+ pretty port).

(** Whether [apply_state] ignores a snapshot. *)
Definition stale_state (state : GClusterState) (t : Topology) : bool :=
  (gcs_epoch state <? t_epoch t) ||
  ((gcs_epoch state =? t_epoch t) && negb (bool_decide (t_leader_id t = "")) &&
   negb (bool_decide (gcs_leader_id state = t_leader_id t))).

Definition state_nodes (nodes : list GNode) : gmap string CNode :=
  collect_map
    (omap (λ node, address ← gn_addr node;
                   Some (gn_id node, mkCNode (endpoint (ga_host address) (ga_port address)) (gn_node_type node)))
       nodes).

Definition apply_state (state : GClusterState) (t : Topology) : Topology :=
  if stale_state state t then t
  else
    let nodes := match gcs_nodes state with [] => t_nodes t | _ => state_nodes (gcs_nodes state) end in
    match gcs_partitions state with
    | Some ps =>
        mkTopology (gcs_epoch state) (gcs_leader_id state) nodes (gps_mapping ps)
          (gr_replicas <$> gps_old_replicas ps) (gr_replicas <$> gps_new_replicas ps)
    | None =>
        mkTopology (gcs_epoch state) (gcs_leader_id state) nodes (t_mapping t)
          (t_old_replicas t) (t_new_replicas t)
    end.

(** The master, and the other nodes that may hold the key: replicas, former and
    new owners. *)
Definition read_targets (key : Z) (t : Topology) : Result (string * list string) :=
  match t_mapping t !! partition key with
  | None => Err (PartitionUnavailable (partition key))
  | Some current =>
      let fallback : gset string :=
        (list_to_set (gp_replicas current) ∪
         list_to_set (default [] (t_old_replicas t !! partition key)) ∪
         list_to_set (default [] (t_new_replicas t !! partition key))) ∖ {[ gp_master current ]} in
      Ok (gp_master current, elements fallback)
  end.

(** The nodes [write_all] sends to. *)
Definition write_targets (key : Z) (t : Topology) : Result (gset string) :=
  match t_mapping t !! partition key with
  | None => Err (PartitionUnavailable (partition key))
  | Some m => Ok (list_to_set (gp_replicas m) ∪ {[ gp_master m ]})
  end.

(** ** Requests *)

Definition request (request_type key : Z) (value : option (list Z)) (creation_time ttl : option Z) : ClientRequest :=
  mkClientRequest 0 request_type key creation_time value ttl.

Definition set_request_id (id : Z) (r : ClientRequest) : ClientRequest :=
  mkClientRequest id (cr_request_type r) (cr_key r) (cr_creation_time r) (cr_value r) (cr_ttl r).

(** connection.rs: the record a response stands for; a deletion time is a
    tombstone record. *)
Definition decode_response (response : WorkerResponse) : option GRecord :=
  match wr_record response with
  | Some r => Some r
  | None => (λ deletion_time, mkGRecord 0 [] 0 deletion_time true) <$> wr_deletion_time response
  end.

(** [fetch_add(1)] on an [AtomicI32]. *)
Definition next_i32 (x : Z) : Z := if x =? 2147483647 then -2147483648 else x + 1.

Record Inner := mkInner {
  i_config : ClientConfig;
  i_state : Topology;
  i_workers : gset string;
  i_next_request_id : Z;
}.
Definition set_workers (ws : gset string) (c : Inner) : Inner :=
  mkInner (i_config c) (i_state c) ws (i_next_request_id c).
Definition bump_request_id (c : Inner) : Inner :=
  mkInner (i_config c) (i_state c) (i_workers c) (next_i32 (i_next_request_id c)).

Section network.
(** The network: connecting to an endpoint ([Some] is the failure) and one
    exchange with a node over its connection (a record or the reason it failed,
    a timeout included). *)
Context {W : Type} (net_connect : W → string → W * option string)
        (net_exchange : W → string → ClientRequest → W * (option GRecord + string)).

Definition worker (node_id : string) (c : Inner) (w : W) : W * Inner * Result unit :=
  if bool_decide (node_id ∈ i_workers c) then (w, c, Ok tt)
  else
    match t_nodes (i_state c) !! node_id with
    | None => (w, c, Err (UnknownWorker node_id))
    | Some node =>
        match net_connect w (n_endpoint node) with
        | (w, Some reason) => (w, c, Err (WorkerRequest node_id reason))
        | (w, None) => (w, set_workers (i_workers c ∪ {[ node_id ]}) c, Ok tt)
        end
    end.

(** The [for attempt in 0..attempts] loop; the extra result lists the delays slept. *)
Fixpoint request_loop (attempts : nat) (node_id : string) (req : ClientRequest) (delay : Z) (last_reason : string)
    (c : Inner) (w : W) : W * Inner * list Z * Result (option GRecord) :=
  match attempts with
  | O => (w, c, [], Err (WorkerRequest node_id last_reason))
  | S attempts =>
      let req := set_request_id (i_next_request_id c) req in
      let c := bump_request_id c in
      let '(w, c, outcome) :=
        match worker node_id c w with
        | (w, c, Ok _) => let '(w, r) := net_exchange w node_id req in (w, c, r)
        | (w, c, Err e) => (w, c, inr (error_to_string e))
        end in
      match outcome with
      | inl response => (w, c, [], Ok response)
      | inr reason =>
          let c := set_workers (i_workers c ∖ {[ node_id ]}) c in
          match attempts with
          | O => request_loop attempts node_id req delay reason c w
          | S _ =>
              let '(w, c, slept, r) := request_loop attempts node_id req (saturating_mul delay 2) reason c w in
              (w, c, delay :: slept, r)
          end
      end
  end.

Definition request_with_retry (node_id : string) (req : ClientRequest) (c : Inner) (w : W)
    : W * Inner * list Z * Result (option GRecord) :=
  request_loop (Z.to_nat (Z.max (retry_attempts (i_config c)) 1)) node_id req
    (initial_retry_delay (i_config c)) "" c w.

(** [join_all] over nodes, one request each. *)
Fixpoint request_all (nodes : list string) (req : ClientRequest) (c : Inner) (w : W)
    : W * Inner * list (Result (option GRecord)) :=
  match nodes with
  | [] => (w, c, [])
  | node :: nodes =>
      let '(w, c, _, r) := request_with_retry node req c w in
      let '(w, c, rs) := request_all nodes req c w in
      (w, c, r :: rs)
  end.

(** [for result in results { result?; }] *)
Fixpoint first_error (results : list (Result (option GRecord))) : Result unit :=
  match results with
  | [] => Ok tt
  | Ok _ :: results => first_error results
  | Err e :: _ => Err e
  end.

Definition write_all (key : Z) (template : ClientRequest) (c : Inner) (w : W) : W * Inner * Result unit :=
  match write_targets key (i_state c) with
  | Err e => (w, c, Err e)
  | Ok targets =>
      let '(w, c, results) := request_all (elements targets) template c w in
      (w, c, first_error results)
  end.

(** One turn of the loop over the fallback responses: (newest, successful, last_error). *)
Definition merge_response (acc : option GRecord * bool * option Error) (response : Result (option GRecord))
    : option GRecord * bool * option Error :=
  let '(newest, successful, last_error) := acc in
  match response with
  | Ok (Some record) =>
      (if from_option (λ current, grec_creation_time current <? grec_creation_time record) true newest
       then Some record else newest, true, last_error)
  | Ok None => (newest, true, last_error)
  | Err e => (newest, successful, Some e)
  end.

(** [(!record.deleted).then_some(record.value)] *)
Definition live_value (r : GRecord) : option (list Z) := if grec_deleted r then None else Some (grec_value r).

Definition get_key (key : Z) (c : Inner) (w : W) : W * Inner * Result (option (list Z)) :=
  match read_targets key (i_state c) with
  | Err e => (w, c, Err e)
  | Ok (primary, fallback) =>
      let req := request REQUEST_GET key None None None in
      match request_with_retry primary req c w with
      | (w, c, _, Err e) => (w, c, Err e)
      | (w, c, _, Ok (Some record)) => (w, c, Ok (live_value record))
      | (w, c, _, Ok None) =>
          match fallback with
          | [] => (w, c, Ok None)
          | _ =>
              let '(w, c, responses) := request_all fallback req c w in
              let '(newest, successful, last_error) := foldl merge_response (None, false, None) responses in
              (w, c, if successful : bool then Ok (newest ≫= live_value)
                     else Err (default Timeout last_error))
          end
      end
  end.

(** The expiration of a [put]: [u64::try_from], then [checked_add]. *)
Definition expiration (creation_time : Z) (ttl : option Z) : Result (option Z) :=
  match ttl with
  | None => Ok None
  | Some ttl =>
      if (as_millis ttl <? u64_modulus) && (creation_time + as_millis ttl <? u64_modulus)
      then Ok (Some (creation_time + as_millis ttl)) else Err TtlOverflow
  end.

(** [now] is [now_millis()]: [None] when the clock is before 1970 or out of range. *)
Definition put_key (now : option Z) (key : Z) (value : list Z) (ttl : option Z) (c : Inner) (w : W)
    : W * Inner * Result unit :=
  match now with
  | None => (w, c, Err InvalidSystemTime)
  | Some creation_time =>
      match expiration creation_time ttl with
      | Err e => (w, c, Err e)
      | Ok expiration_time =>
          write_all key (request REQUEST_PUT key (Some value) (Some creation_time) expiration_time) c w
      end
  end.

Definition delete_key (now : option Z) (key : Z) (c : Inner) (w : W) : W * Inner * Result unit :=
  match now with
  | None => (w, c, Err InvalidSystemTime)
  | Some deletion_time => write_all key (request REQUEST_DELETE key None (Some deletion_time) None) c w
  end.

(** [ensure_connections]: connect to every worker not connected yet (a failure is
    ignored) and subscribe to every manager endpoint not subscribed yet. *)
Definition ensure_connection (acc : W * Inner * gset string * list string) (id_node : string * CNode)
    : W * Inner * gset string * list string :=
  let '(w, c, managers, subscribed) := acc in
  let '(id, node) := id_node in
  if n_node_type node =? 1 then
    if bool_decide (id ∈ i_workers c) then acc
    else
      match net_connect w (n_endpoint node) with
      | (w, None) => (w, set_workers (i_workers c ∪ {[ id ]}) c, managers, subscribed)
      | (w, Some _) => (w, c, managers, subscribed)
      end
  else if n_node_type node =? 0 then
    if bool_decide (n_endpoint node ∈ managers) then acc
    else (w, c, managers ∪ {[ n_endpoint node ]}, subscribed ++ [n_endpoint node])
  else acc.

Definition ensure_connections (c : Inner) (managers : gset string) (w : W) : W * Inner * gset string * list string :=
  foldl ensure_connection (w, c, managers, []) (map_to_list (t_nodes (i_state c))).

(** [connect_with_config]: what subscribing to an address and waiting for the first
    event yields is a parameter: a snapshot, or the text of the failure (the
    address is put in front of it by the library). *)
Fixpoint bootstrap (net_subscribe : string → GClusterState + string) (addresses : list string) (errors : list string)
    : (string * GClusterState) + list string :=
  match addresses with
  | [] => inr errors
  | address :: addresses =>
      match net_subscribe address with
      | inl state => inl (address, state)
      | inr error => bootstrap net_subscribe addresses (errors ++ [address +:+ ": " +:+ error])
      end
  end.

Definition connect_with_config (net_subscribe : string → GClusterState + string) (manager_addresses : list string)
    (config : ClientConfig) (w : W) : W * Result (Inner * gset string) :=
  match normalize_endpoint <$> manager_addresses with
  | [] => (w, Err NoManagerAddress)
  | addresses =>
      match bootstrap net_subscribe addresses [] with
      | inr errors => (w, Err (ManagerUnavailable (String.concat "; " errors)))
      | inl (bootstrap_address, initial_state) =>
          let c := mkInner config (apply_state initial_state Topology_default) ∅ 1 in
          let '(w, c, managers, _) := ensure_connections c {[ bootstrap_address ]} w in
          (w, Ok (c, managers))
      end
  end.

(** The public operations, on keys of any kind. *)
Definition get `{Blake3} (key : ClientKey) := get_key (to_store_key key).
Definition put `{Blake3} (now : option Z) (key : ClientKey) := put_key now (to_store_key key).
Definition delete `{Blake3} (now : option Z) (key : ClientKey) := delete_key now (to_store_key key).

End network.

(** ** connection.rs: matching responses to requests

    The waiting requests by id; a value is the tag of the waiting caller. *)

Abbreviation Pending := (gmap Z nat) (only parsing).

(** [WorkerConnection::request] up to its wait; [sent] is whether the outbound
    channel took the request. *)
Definition conn_request (id : Z) (caller : nat) (sent : bool) (p : Pending) : Pending * option string :=
  if sent then (<[id := caller]> p, None) else (base.delete id p, Some "worker stream closed").

(** A response: who is woken, with what. *)
Definition conn_response (response : WorkerResponse) (p : Pending) : Pending * option (nat * option GRecord) :=
  match p !! wr_request_id response with
  | Some caller => (base.delete (wr_request_id response) p, Some (caller, decode_response response))
  | None => (p, None)
  end.

(** [drain]: everybody waiting gets the reason. *)
Definition drain (reason : string) (p : Pending) : Pending * list (nat * string) :=
  (∅, (λ ic : Z * nat, (ic.2, reason)) <$> map_to_list p).
