(* ===== verification/ClientTheorems.v ===== *)
(** * Properties of the client, alone and against workers *)

From S2P Require Import Prelude Containers Common RuntimeStore StoreSpec Conversions Grpc WorkerGrpc Client.

(** ** A network of workers *)

Section network.
Context {M : Type → Type} `{!SkipMap M, !SkipMapLaws M}.
Context {D : Type → Type} `{!DashMap PartitionId D, !DashMapLaws PartitionId D}.

(** The stores of the running workers by node id. *)
Abbreviation Workers := (gmap string (RuntimeStore M D)).

(** Every endpoint can be reached, and a worker answers with what its client API
    computes; [now] is the workers' clock. *)
Definition net_connect (w : Workers) (endpoint : string) : Workers * option string := (w, None).
Definition net_exchange (now : Z) (w : Workers) (node : string) (req : ClientRequest)
    : Workers * (option GRecord + string) :=
  match w !! node with
  | Some st =>
      let '(st, resp) := handle_client_request now req st in
      (<[node := st]> w, inl (decode_response resp))
  | None => (w, inr "no such worker")
  end.

(** The client can reach the node: it has a connection or knows the address. *)
Definition reachable (c : Inner) (node : string) : Prop :=
  node ∈ i_workers c ∨ is_Some (t_nodes (i_state c) !! node).

(** ** Lemmas *)

Lemma handle_client_request_id now id req (st : RuntimeStore M D) :
  (handle_client_request now (set_request_id id req) st).1 = (handle_client_request now req st).1 ∧
  decode_response (handle_client_request now (set_request_id id req) st).2 =
    decode_response (handle_client_request now req st).2.
Proof.
  unfold handle_client_request, set_request_id. simpl.
  destruct (cr_value req), (cr_creation_time req), (cr_request_type req =? REQUEST_PUT),
    (cr_request_type req =? REQUEST_DELETE); try done;
    destruct (get_versioned now (cr_key req) st) as [[[]|] ?]; done.
Qed.

(** A request to a running, reachable worker is answered at the first attempt. *)
Lemma request_answered now node req c (w : Workers) st :
  w !! node = Some st → reachable c node →
  ∃ c', request_with_retry net_connect (net_exchange now) node req c w =
    (<[node := (handle_client_request now req st).1]> w, c', [],
     Ok (decode_response (handle_client_request now req st).2)) ∧
    i_state c' = i_state c ∧ i_workers c ⊆ i_workers c'.
Proof.
  intros Hw Hr. unfold request_with_retry.
  destruct (Z.to_nat (Z.max (retry_attempts (i_config c)) 1)) as [|n] eqn:Hn; [lia|].
  cbn [request_loop]. set (c1 := bump_request_id c).
  assert (∃ c2, worker net_connect node c1 w = (w, c2, Ok tt) ∧ i_state c2 = i_state c ∧ i_workers c ⊆ i_workers c2)
    as (c2 & -> & Hst & Hws).
  { unfold worker. case_bool_decide as Hin; [exists c1; done|].
    destruct Hr as [Hr|[nd Hr]]; [done|]. change (i_state c1) with (i_state c). rewrite Hr. simpl.
    eexists. split; [done|]. split; [done|]. simpl. set_solver. }
  unfold net_exchange. rewrite Hw.
  destruct (handle_client_request_id now (i_next_request_id c) req st) as [E1 E2].
  destruct (handle_client_request now (set_request_id (i_next_request_id c) req) st) as [st' resp].
  simpl in E1, E2. subst st'. rewrite E2. exists c2. done.
Qed.

Lemma request_all_answered now nodes req c (w : Workers) :
  NoDup nodes → (∀ n, n ∈ nodes → is_Some (w !! n) ∧ reachable c n) →
  ∃ w' c' rs, request_all net_connect (net_exchange now) nodes req c w = (w', c', rs) ∧
    first_error rs = Ok tt ∧ i_state c' = i_state c ∧ i_workers c ⊆ i_workers c' ∧
    (∀ n, n ∈ nodes → w' !! n = (λ st, (handle_client_request now req st).1) <$> w !! n) ∧
    (∀ n, n ∉ nodes → w' !! n = w !! n).
Proof.
  revert c w. induction nodes as [|n nodes IH]; intros c w Hnd Hn; cbn [request_all].
  { eexists _, _, _. split; [done|]. split_and!; try done. by intros n ?%not_elem_of_nil. }
  apply NoDup_cons in Hnd as [Hni Hnd]. destruct (Hn n) as [[st Hst] Hrn]; [by left|].
  destruct (request_answered now n req c w st Hst Hrn) as (c1 & -> & Hc1 & Hw1).
  destruct (IH c1 (<[n := (handle_client_request now req st).1]> w)) as (w' & c' & rs & -> & Hfe & Hs & Hw & Hin & Hout).
  { done. }
  { intros k Hk. destruct (Hn k) as [Hk1 Hk2]; [by right|]. assert (n ≠ k) by (by intros ->). split.
    - by rewrite lookup_insert_ne.
    - unfold reachable in *. rewrite Hc1. set_solver. }
  eexists _, _, _. split; [done|]. split_and!; [done|congruence|set_solver| |].
  - intros k [->|Hk]%elem_of_cons.
    + by rewrite Hout, lookup_insert_eq, Hst.
    + assert (n ≠ k) by (by intros ->). by rewrite Hin, lookup_insert_ne.
  - intros k [Hk1 Hk2]%not_elem_of_cons. by rewrite Hout, lookup_insert_ne.
Qed.

(** A write reaches every owner of the partition. *)
Lemma write_all_answered now key req c (w : Workers) gp :
  t_mapping (i_state c) !! Client.partition key = Some gp →
  (∀ n, n = gp_master gp ∨ n ∈ gp_replicas gp → is_Some (w !! n) ∧ reachable c n) →
  ∃ w1 c1, write_all net_connect (net_exchange now) key req c w = (w1, c1, Ok tt) ∧
    i_state c1 = i_state c ∧ reachable c1 (gp_master gp) ∧
    w1 !! gp_master gp = (λ st, (handle_client_request now req st).1) <$> w !! gp_master gp.
Proof.
  intros Hgp Hall. unfold write_all, write_targets. rewrite Hgp.
  set (targets := list_to_set (gp_replicas gp) ∪ {[gp_master gp]} : gset string).
  assert (∀ n, n ∈ elements targets ↔ n = gp_master gp ∨ n ∈ gp_replicas gp) as Ht
    by (intros n; unfold targets; rewrite elem_of_elements; set_solver).
  destruct (request_all_answered now (elements targets) req c w) as (w1 & c1 & rs & -> & -> & Hs & Hws & Hin & _).
  { apply NoDup_elements. }
  { intros n Hn%Ht. by apply Hall. }
  eexists _, _. split; [done|]. split_and!; [done| |].
  - destruct (Hall (gp_master gp)) as [_ Hr]; [by left|]. unfold reachable in *. rewrite Hs. set_solver.
  - apply Hin, Ht. by left.
Qed.

(** What a read returns to the client. *)
Lemma get_response now key (st : RuntimeStore M D) :
  decode_response (handle_client_request now (request REQUEST_GET key None None None) st).2 =
    match visible now (lookup_store key st) with
    | Some (Put r) => Some (mkGRecord key (value r) (expiration_time_ms r) (creation_time_ms r) false)
    | Some (Delete t) => Some (mkGRecord 0 [] 0 t true)
    | None => None
    end.
Proof.
  unfold handle_client_request. simpl. destruct (lookup_get_versioned now key st) as [<- _].
  by destruct (get_versioned now key st) as [[[]|] ?].
Qed.

Lemma lookup_apply_newer key m (st : RuntimeStore M D) :
  (∀ o, lookup_store key st = Some o → version o <= version m) →
  lookup_store key (apply_mutation key m st) = Some m.
Proof.
  intros Hv. rewrite lookup_apply_mutation, decide_True by done. unfold lww.
  destruct (lookup_store key st) as [o|]; [|done]. specialize (Hv o eq_refl).
  by assert ((version o <=? version m) = true) as -> by lia.
Qed.

(** ** Claims *)

(** C7: read your write.  With every owner of the key's partition running and
    known to the client, and no owner holding a newer version, a [put] at time
    [now] whose time to live does not overflow succeeds, and a [get] that reaches
    the master before the record expires returns the value. *)
Theorem client_put_then_get now now' key value ttl c (w : Workers) gp exp :
  t_mapping (i_state c) !! Client.partition key = Some gp →
  (∀ n, n = gp_master gp ∨ n ∈ gp_replicas gp → reachable c n ∧
     ∃ st, w !! n = Some st ∧ ∀ m, lookup_store key st = Some m → version m <= now) →
  expiration now ttl = Ok exp → from_option (λ e, now' < e) True exp → 0 <= now' →
  let '(w1, c1, r1) := put_key net_connect (net_exchange now) (Some now) key value ttl c w in
  let '(w2, c2, r2) := get_key net_connect (net_exchange now') key c1 w1 in
  r1 = Ok tt ∧ r2 = Ok (Some value).
Proof.
  intros Hgp Hall Hexp Hlive Hpos. unfold put_key. rewrite Hexp.
  set (req := request REQUEST_PUT key (Some value) (Some now) exp).
  destruct (write_all_answered now key req c w gp Hgp) as (w1 & c1 & -> & Hs & Hreach1 & Hw1).
  { intros n Hn. destruct (Hall n Hn) as (? & st & ? & _). split; [by eexists|done]. }
  destruct (Hall (gp_master gp)) as (_ & st & Hst & Hver); [by left|].
  rewrite Hst in Hw1. simpl in Hw1.
  unfold get_key, read_targets. rewrite Hs, Hgp.
  destruct (request_answered now' (gp_master gp) (request REQUEST_GET key None None None) c1 w1 _ Hw1 Hreach1)
    as (c2 & -> & _ & _).
  rewrite get_response.
  change (RuntimeStore.put key ?r st) with (apply_mutation key (Put r) st).
  rewrite (lookup_apply_newer key (Put (mkRecord (default 0 exp) now value)) st Hver). unfold visible. simpl.
  assert (negb (default 0 exp =? 0) && (default 0 exp <=? now') = false) as -> by (destruct exp; simpl in *; lia).
  done.
Qed.

(** A [delete] hides the key: under the same conditions a [delete] succeeds, and
    every later [get] that reaches the master finds the tombstone and returns
    nothing, without asking the replicas. *)
Theorem client_delete_then_get now now' key c (w : Workers) gp :
  t_mapping (i_state c) !! Client.partition key = Some gp →
  (∀ n, n = gp_master gp ∨ n ∈ gp_replicas gp → reachable c n ∧
     ∃ st, w !! n = Some st ∧ ∀ m, lookup_store key st = Some m → version m <= now) →
  let '(w1, c1, r1) := delete_key net_connect (net_exchange now) (Some now) key c w in
  let '(w2, c2, r2) := get_key net_connect (net_exchange now') key c1 w1 in
  r1 = Ok tt ∧ r2 = Ok None.
Proof.
  intros Hgp Hall. unfold delete_key.
  set (req := request REQUEST_DELETE key None (Some now) None).
  destruct (write_all_answered now key req c w gp Hgp) as (w1 & c1 & -> & Hs & Hreach1 & Hw1).
  { intros n Hn. destruct (Hall n Hn) as (? & st & ? & _). split; [by eexists|done]. }
  destruct (Hall (gp_master gp)) as (_ & st & Hst & Hver); [by left|].
  rewrite Hst in Hw1. simpl in Hw1.
  unfold get_key, read_targets. rewrite Hs, Hgp.
  destruct (request_answered now' (gp_master gp) (request REQUEST_GET key None None None) c1 w1 _ Hw1 Hreach1)
    as (c2 & -> & _ & _).
  rewrite get_response. change (delete_at key now st) with (apply_mutation key (Delete now) st).
  rewrite (lookup_apply_newer key (Delete now) st Hver). done.
Qed.

End network.

(** ** Keys *)

Lemma from_le_bytes_range l :
  (∀ b, b ∈ l → 0 <= b < 256) → 0 <= from_le_bytes l < 256 ^ Z.of_nat (length l).
Proof.
  induction l as [|b l IH]; intros Hb; [simpl; lia|]. cbn [from_le_bytes length].
  specialize (IH ltac:(set_solver)). specialize (Hb b ltac:(set_solver)).
  rewrite Nat2Z.inj_succ, Z.pow_succ_r by lia. nia.
Qed.

(** Client and workers agree on where a key lives.  Every key, whatever its
    type, is mapped to 64 bits, and the partition the client routes it to is the
    partition in which a worker stores it, one of the 4096. *)
Theorem client_worker_partition_agree `{Blake3Laws} (k : ClientKey) :
  is_u64 (to_store_key k) ∧
  Client.partition (to_store_key k) = partition_id_u16 (Key_partition (to_store_key k)) ∧
  0 <= Client.partition (to_store_key k) < Common.PARTITIONS_AMOUNT.
Proof.
  split.
  - destruct k as [x|bytes]; simpl; [by apply Z.mod_pos_bound|]. unfold hash_key, is_u64.
    set (h := blake3_hash _).
    assert (length (take 8 h) = 8%nat) as Hl by (rewrite length_take; unfold h; by rewrite blake3_length).
    pose proof (from_le_bytes_range (take 8 h)) as Hr. rewrite Hl in Hr. apply Hr.
    intros b Hb%elem_of_take_weak. by apply (blake3_bytes (KEY_HASH_DOMAIN ++ bytes)).
  - generalize (to_store_key k) as key. intros key. unfold Client.partition, Key_partition. simpl.
    pose proof (Z.mod_pos_bound key 4096 ltac:(lia)) as Hb.
    change Common.PARTITIONS_AMOUNT with 4096. change Client.PARTITIONS_AMOUNT with 4096.
    rewrite as_u32_small, as_u16_small by (unfold is_u32, is_u16, u32_modulus, u16_modulus; lia). done.
Qed.

(** ** Topology *)


(** ** Retries and fallback reads *)

Section retries.
Context {W : Type} (nc : W → string → W * option string)
        (ne : W → string → ClientRequest → W * (option GRecord + string)).

Definition backoff (initial : Z) (i : nat) : Z := Z.min (initial * 2 ^ Z.of_nat i) DURATION_MAX.

Lemma backoff_double initial i :
  0 <= initial → saturating_mul (backoff initial i) 2 = backoff initial (S i).
Proof.
  intros Hi. unfold saturating_mul, backoff. rewrite Nat2Z.inj_succ, Z.pow_succ_r by lia.
  assert (0 < DURATION_MAX) by done. assert (0 <= initial * 2 ^ Z.of_nat i) by (apply Z.mul_nonneg_nonneg; lia). lia.
Qed.

Lemma request_loop_backoff n i node req initial reason c w :
  0 <= initial →
  let '(_, c', slept, r) := request_loop nc ne n node req (backoff initial i) reason c w in
  slept = (backoff initial <$> seq i (length slept)) ∧ (length slept <= pred n)%nat ∧
  match r with
  | Ok _ => True
  | Err e => length slept = pred n ∧ (∃ reason, e = WorkerRequest node reason) ∧
             (n ≠ 0%nat → node ∉ i_workers c')
  end.
Proof.
  intros Hinit. revert i req reason c w. induction n as [|n IH]; intros i req reason c w; cbn [request_loop].
  { split_and!; [done|simpl; lia|done|by eexists|done]. }
  set (req1 := set_request_id _ _). set (c1 := bump_request_id c).
  destruct (match worker nc node c1 w with (w0, c0, Ok _) => _ | (w0, c0, Err e) => _ end) as [[w2 c2] [resp|reason2]].
  { split_and!; [done|simpl; lia|done]. }
  set (c3 := set_workers (i_workers c2 ∖ {[node]}) c2). destruct n as [|n].
  { cbn [request_loop]. split_and!; [done|simpl; lia|done|by eexists|]. intros _. simpl. set_solver. }
  rewrite backoff_double by done. specialize (IH (S i) req1 reason2 c3 w2).
  destruct (request_loop nc ne (S n) node req1 (backoff initial (S i)) reason2 c3 w2) as [[[w4 c4] slept] r].
  destruct IH as (Hsl & Hle & Hr). split_and!.
  - simpl. f_equal. exact Hsl.
  - simpl in *. lia.
  - destruct r as [|e]; [done|]. destruct Hr as (Hlen & Hreason & Hnode). split_and!; [simpl in *; lia|done|].
    intros _. by apply Hnode.
Qed.

(** C40: retries are bounded and back off exponentially.  A request sleeps at most
    one time less than the configured attempts (at least one attempt is made),
    before the i-th retry for the initial delay times 2^i, saturating; it fails only
    after all attempts, with the error of that worker, and then the worker's
    connection has been dropped so that the next request reconnects. *)
Theorem client_retry_backoff node req c w :
  0 <= initial_retry_delay (i_config c) <= DURATION_MAX →
  let attempts := Z.to_nat (Z.max (retry_attempts (i_config c)) 1) in
  let '(_, c', slept, r) := request_with_retry nc ne node req c w in
  slept = (backoff (initial_retry_delay (i_config c)) <$> seq 0 (length slept)) ∧
  (length slept <= pred attempts)%nat ∧
  match r with
  | Ok _ => True
  | Err e => length slept = pred attempts ∧ (∃ reason, e = WorkerRequest node reason) ∧ node ∉ i_workers c'
  end.
Proof.
  intros Hd. cbv zeta. unfold request_with_retry. set (n := Z.to_nat _).
  pose proof (request_loop_backoff n 0 node req (initial_retry_delay (i_config c)) "" c w ltac:(lia)) as Hl.
  assert (backoff (initial_retry_delay (i_config c)) 0 = initial_retry_delay (i_config c)) as E
    by (unfold backoff; simpl; lia).
  rewrite E in Hl. destruct (request_loop _ _ _ _ _ _ _ _ _) as [[[w' c'] slept] r].
  destruct Hl as (? & ? & Hr). split_and!; [done..|]. destruct r; [done|].
  destruct Hr as (? & ? & Hn). split_and!; [done..|]. apply Hn. unfold n. lia.
Qed.
End retries.

(** The records of the successful responses. *)
Definition answered (responses : list (Result (option GRecord))) : list GRecord :=
  omap (λ r, match r with Ok (Some rec) => Some rec | _ => None end) responses.

Lemma merge_responses_spec responses :
  let '(newest, successful, last_error) := foldl merge_response (None, false, None) responses in
  match newest with
  | Some rec => rec ∈ answered responses ∧
      ∀ r, r ∈ answered responses → grec_creation_time r <= grec_creation_time rec
  | None => answered responses = []
  end ∧
  (successful = true ↔ ∃ r, Ok r ∈ responses) ∧
  (successful = false → responses ≠ [] → is_Some last_error).
Proof.
  induction responses as [|resp responses IH] using rev_ind.
  { simpl. split_and!; [done| |done]. split; [done|]. by intros (r & ?%not_elem_of_nil). }
  rewrite foldl_app. destruct (foldl merge_response (None, false, None) responses) as [[newest successful] last_error].
  destruct IH as (Hn & Hs & He). unfold answered in *. rewrite omap_app. simpl.
  destruct resp as [[rec|]|e]; simpl.
  - split_and!; [|split; [|done]; intros _; exists (Some rec); set_solver|done].
    destruct newest as [cur|]; simpl.
    + destruct Hn as [Hin Hmax]. destruct (Z.ltb_spec (grec_creation_time cur) (grec_creation_time rec)).
      * split; [set_solver|]. intros r [Hr|Hr]%elem_of_app; [specialize (Hmax r Hr); lia|].
        apply list_elem_of_singleton in Hr as ->. lia.
      * split; [set_solver|]. intros r [Hr|Hr]%elem_of_app; [by apply Hmax|].
        apply list_elem_of_singleton in Hr as ->. lia.
    + rewrite Hn. split; [set_solver|]. intros r Hr%list_elem_of_singleton. by subst.
  - rewrite app_nil_r. split_and!; [done|split; [|done]; intros _; exists None; set_solver|done].
  - rewrite app_nil_r. split_and!; [done| |by eexists]. rewrite Hs. split; intros (r & Hr); exists r; set_solver.
Qed.

(** C38: a fallback read takes the newest answer.  When the master has nothing and
    other nodes may hold the key, the read returns the live value of an answer with
    the greatest version among all answers (nothing if that answer is a tombstone
    or nobody has the key), and it fails only when every one of them failed. *)
Theorem client_fallback_newest {W} (nc : W → string → W * option string) ne key c w primary node rest w1 c1 slept :
  read_targets key (i_state c) = Ok (primary, node :: rest) →
  request_with_retry nc ne primary (request REQUEST_GET key None None None) c w = (w1, c1, slept, Ok None) →
  ∃ responses, (request_all nc ne (node :: rest) (request REQUEST_GET key None None None) c1 w1).2 = responses ∧
  match (get_key nc ne key c w).2 with
  | Ok v => (∃ r, Ok r ∈ responses) ∧
      ((answered responses = [] ∧ v = None) ∨
       ∃ rec, rec ∈ answered responses ∧ v = live_value rec ∧
         ∀ r, r ∈ answered responses → grec_creation_time r <= grec_creation_time rec)
  | Err _ => ∀ r, r ∈ responses → ∃ e, r = Err e
  end.
Proof.
  intros Ht Hr. eexists. split; [done|]. unfold get_key. rewrite Ht, Hr.
  destruct (request_all nc ne (node :: rest) _ c1 w1) as [[w2 c2] responses]. simpl.
  pose proof (merge_responses_spec responses) as Hm.
  destruct (foldl merge_response (None, false, None) responses) as [[newest successful] last_error].
  destruct Hm as (Hn & Hs & He). destruct successful; simpl.
  - split; [by apply Hs|]. destruct newest as [rec|]; simpl; [right|left; done]. exists rec. naive_solver.
  - intros [r|e] Hin; [|by eexists]. exfalso. enough (false = true) by done. apply Hs. eauto.
Qed.

(** ** Witnesses *)

Definition zero_hash : Blake3 := {| blake3_hash _ := replicate 32 0 |}.
Lemma zero_hash_laws : Blake3Laws (H := zero_hash).
Proof.
  split; [intros m; reflexivity|]. intros m b. simpl. intros Hb. change (b ∈ replicate 32 0) in Hb.
  apply elem_of_replicate_inv in Hb as ->. lia.
Qed.

Lemma client_worker_partition_agree_witness :
  Client.partition (to_store_key (H := zero_hash) (BytesKey [1; 2])) =
    partition_id_u16 (Key_partition (to_store_key (H := zero_hash) (BytesKey [1; 2]))).
Proof. apply (client_worker_partition_agree (H := zero_hash) (H0 := zero_hash_laws) (BytesKey [1; 2])). Defined.

(** A client of a cluster in which partition 5 has master "a" and replica "b". *)
Definition two_workers : gmap string (RuntimeStore (gmap Z) (gmap PartitionId)) :=
  <["a" := RuntimeStore_new]> {[ "b" := RuntimeStore_new ]}.
Definition client_ab : Inner :=
  mkInner ClientConfig_default
    (mkTopology 1 "m" (<["a" := mkCNode "http://a:1" 1]> {[ "b" := mkCNode "http://b:1" 1 ]})
       {[ 5 := mkGPartition "a" ["b"] ]} ∅ ∅) ∅ 1.

Lemma owners_ready n :
  n = "a" ∨ n ∈ ["b"] → reachable client_ab n ∧
  ∃ st, two_workers !! n = Some st ∧ ∀ m, lookup_store 5 st = Some m → version m <= 100.
Proof.
  intros [->|Hn%list_elem_of_singleton].
  - split; [right; by eexists|]. eexists. split; [reflexivity|]. by vm_compute.
  - subst n. split; [right; by eexists|]. eexists. split; [reflexivity|]. by vm_compute.
Qed.

Lemma client_put_then_get_witness :
  (let '(w1, c1, r1) :=
     put_key net_connect (net_exchange 100) (Some 100) 5 [7] (Some 1000000000) client_ab two_workers in
   let '(_, _, r2) := get_key net_connect (net_exchange 200) 5 c1 w1 in r2) = Ok (Some [7]).
Proof.
  pose proof (client_put_then_get 100 200 5 [7] (Some 1000000000) client_ab two_workers (mkGPartition "a" ["b"])
    (Some 1100)) as H.
  destruct (put_key net_connect (net_exchange 100) (Some 100) 5 [7] (Some 1000000000) client_ab two_workers)
    as [[w1 c1] r1].
  destruct (get_key net_connect (net_exchange 200) 5 c1 w1) as [[w2 c2] r2].
  apply H; [reflexivity|exact owners_ready|reflexivity|simpl; lia|lia].
Defined.

Lemma client_delete_then_get_witness :
  (let '(w1, c1, r1) := delete_key net_connect (net_exchange 100) (Some 100) 5 client_ab two_workers in
   let '(_, _, r2) := get_key net_connect (net_exchange 200) 5 c1 w1 in r2) = Ok None.
Proof.
  pose proof (client_delete_then_get 100 200 5 client_ab two_workers (mkGPartition "a" ["b"])) as H.
  destruct (delete_key net_connect (net_exchange 100) (Some 100) 5 client_ab two_workers) as [[w1 c1] r1].
  destruct (get_key net_connect (net_exchange 200) 5 c1 w1) as [[w2 c2] r2].
  apply H; [reflexivity|exact owners_ready].
Defined.

Lemma client_retry_backoff_witness :
  (let '(_, _, slept, _) :=
     request_with_retry net_connect (net_exchange 100) "c" (request REQUEST_GET 5 None None None) client_ab two_workers in
   (length slept <= 2)%nat).
Proof.
  pose proof (client_retry_backoff net_connect (net_exchange 100) "c" (request REQUEST_GET 5 None None None)
    client_ab two_workers ltac:(split; vm_compute; discriminate)) as H. cbv zeta in H.
  destruct (request_with_retry _ _ _ _ _ _) as [[[w' c'] slept] r]. apply H.
Defined.

Lemma client_fallback_newest_witness :
  ∃ responses,
    (request_all net_connect (net_exchange 100) ["b"] (request REQUEST_GET 5 None None None)
       (request_with_retry net_connect (net_exchange 100) "a" (request REQUEST_GET 5 None None None)
          client_ab two_workers).1.1.2
       (request_with_retry net_connect (net_exchange 100) "a" (request REQUEST_GET 5 None None None)
          client_ab two_workers).1.1.1).2 = responses ∧ ∃ r, Ok r ∈ responses.
Proof.
  destruct (client_fallback_newest net_connect (net_exchange 100) 5 client_ab two_workers "a" "b" []
    (request_with_retry net_connect (net_exchange 100) "a" (request REQUEST_GET 5 None None None)
       client_ab two_workers).1.1.1
    (request_with_retry net_connect (net_exchange 100) "a" (request REQUEST_GET 5 None None None)
       client_ab two_workers).1.1.2 []) as (responses & Hr & Hres).
  - vm_compute. reflexivity.
  - vm_compute. reflexivity.
  - exists responses. split; [exact Hr|]. assert ((get_key net_connect (net_exchange 100) 5 client_ab two_workers).2 = Ok None) as E
      by (vm_compute; reflexivity). rewrite E in Hres. apply Hres.
Defined.
