(* ===== verification/EndToEnd.v ===== *)
(** * Compositions across nodes

    A client after a handover: the worker that gave a partition away, the worker
    that received it and a client that reads from it.  A rebalance: the leader's
    new assignment, the wire, and whom a worker then sends to.  The release of a handed
    over partition: the worker's report, the wire, the leader's bookkeeping and
    what the leader tells the other workers. *)

From S2P Require Import Prelude Containers Common RuntimeStore StoreSpec.
From S2P Require Import ManagerState ManagerPartitions ManagerService PartitionSpec PartitionTheorems ManagerTheorems.
From S2P Require Import Conversions Grpc ManagerGrpc WorkerGrpc GrpcTheorems Handshake Client ClientTheorems.
From S2P Require Import WorkerState WorkerSync WorkerService WorkerSpec WorkerMigration WorkerTheorems WorkerHandover.

(** ** Reading after a handover *)

Section reads.
Context {M : Type → Type} `{!SkipMap M, !SkipMapLaws M}.
Context {D : Type → Type} `{!DashMap PartitionId D, !DashMapLaws PartitionId D}.

(** What a client gets for a stored mutation. *)
Definition answer (mu : Mutation) : option (list Z) :=
  match mu with Put r => Some (value r) | Delete _ => None end.

(** A [get] at a master that holds an unexpired version of the key. *)
Lemma get_key_answer now x cl (ws : gmap string (RuntimeStore M D)) gp st mu :
  t_mapping (i_state cl) !! Client.partition x = Some gp → ws !! gp_master gp = Some st → reachable cl (gp_master gp) →
  lookup_store x st = Some mu → expired now mu = false →
  (get_key net_connect (net_exchange now) x cl ws).2 = Ok (answer mu).
Proof.
  intros Hgp Hst Hr Hx Hexp. unfold get_key, read_targets. rewrite Hgp.
  destruct (request_answered now (gp_master gp) (request REQUEST_GET x None None None) cl ws st Hst Hr)
    as (c' & -> & _ & _).
  rewrite get_response, Hx. unfold visible. simpl. rewrite Hexp. by destruct mu.
Qed.


End reads.

(** ** A rebalance *)

Section rebalance.
Context `{UuidLaws}.
Context {M : Type → Type} `{!SkipMap M} {D : Type → Type} `{!DashMap PartitionId D}.

(** The identifiers a manager's state holds are canonical and its partition
    identifiers 16 bits wide. *)
Record manager_ids_ok (s : ManagerState.State) : Prop := {
  mi_nodes n : is_Some (ManagerState.nodes s !! n) → canonical n;
  mi_partitions : partitions_ok (ManagerState.partitions s);
}.

Lemma current_workers_known s n : n ∈ current_workers s → is_Some (ManagerState.nodes s !! n).
Proof. unfold current_workers. rewrite elem_of_dom. intros [x [Hx _]%map_lookup_filter_Some]. by exists x. Qed.

Lemma holders_key s pid n :
  partitions_ok (ManagerState.partitions s) → n ∈ holders (ManagerState.partitions s) pid → is_u16 (partition_id_u16 pid).
Proof.
  intros (Hm & Ho & _). unfold holders. rewrite elem_of_union. intros [Hn|Hn].
  - destruct (old_replicas _ !! pid) as [X|] eqn:E; [by eapply Ho|set_solver].
  - destruct (mapping _ !! pid) as [q|] eqn:E; [by eapply Hm|set_solver].
Qed.

(** The assignment a rebalance announces can be sent. *)
Lemma rebalanced_ok s (ps : Partitions) rf m :
  manager_ids_ok s → current_workers s ≠ ∅ → 1 <= rf →
  build_mapping Common.PARTITIONS_AMOUNT rf (worker_list (current_workers s)) = Some m → mapping ps = m →
  (∀ pid, old_replicas ps !! pid =
     let X := holders (ManagerState.partitions s) pid ∩ current_workers s in if decide (X = ∅) then None else Some X) →
  (∀ pid, new_replicas ps !! pid =
     match mapping (ManagerState.partitions s) !! pid, m !! pid with
     | Some old, Some new => Some (owners new ∖ owners old)
     | _, _ => new_replicas (ManagerState.partitions s) !! pid
     end) →
  partitions_ok ps.
Proof.
  intros [Hn Hp] Hne Hrf Hb Hm Hold Hnew.
  assert (∀ w, w ∈ current_workers s → canonical w) as Hcan by (intros w Hw; by apply Hn, current_workers_known).
  assert (∀ pid q, m !! pid = Some q → is_u16 (partition_id_u16 pid) ∧ ∀ w, w ∈ owners q → canonical w) as Hmap.
  { intros pid q Hq. destruct (build_mapping_owners rf _ m pid q (worker_list_pos _ Hne) Hrf Hb Hq) as [Hr Hw].
    clear Hb. unfold is_u16, u16_modulus, Common.PARTITIONS_AMOUNT in *. split; [lia|]. intros w Hin%Hw. apply Hcan.
    by rewrite <- elem_of_elements, <- worker_list_perm. }
  clear Hb. split_and!.
  - intros pid q Hq. rewrite Hm in Hq. destruct (Hmap pid q Hq) as [? Hc]. split; [done|]. unfold partition_ok, owners in *.
    split; [apply Hc; set_solver|]. intros w Hw. apply Hc. set_solver.
  - intros pid X HX. rewrite Hold in HX. cbv zeta in HX. case_decide as E; simplify_eq.
    destruct (set_choose_L _ E) as [w Hw]. split; [apply (holders_key s pid w Hp); set_solver|].
    intros v Hv. apply Hcan. set_solver.
  - intros pid X HX. rewrite Hnew in HX. destruct Hp as (_ & _ & Hp).
    destruct (mapping (ManagerState.partitions s) !! pid), (m !! pid) as [q|] eqn:Eq; [|by apply Hp..].
    simplify_eq. destruct (Hmap pid q Eq) as [? Hc]. split; [done|]. intros w Hw. apply Hc. set_solver.
Qed.

(** A worker that knows no newer leader adopts an announced assignment. *)
Lemma worker_adopts now ws e leader ps me :
  epoch_lt (epoch ws) e = true ∨ (epoch ws = Some e ∧ elected_leader_id ws = Some leader) →
  ∃ ws', WorkerState.handle_cluster_state now ws e leader [] ps me = (ws', []) ∧
    partitions ws' = ps ∧ nodes ws' = nodes ws.
Proof.
  intros Hacc. unfold WorkerState.handle_cluster_state.
  assert (∃ ws1, WorkerState.accept_cluster_state ws e leader = Some ws1 ∧ nodes ws1 = nodes ws) as (ws1 & -> & Hns).
  { unfold WorkerState.accept_cluster_state. destruct Hacc as [->|[-> ->]].
    - rewrite orb_true_r. eauto.
    - destruct (_ || _); [eauto|]. rewrite !bool_decide_eq_true_2 by done. eauto. }
  cbn [foldl]. eexists. split; [done|]. split; [done|]. by case_bool_decide.
Qed.


End rebalance.

(** ** Releasing a partition *)

Section release.
Context `{UuidLaws}.

(** C15: The release of a partition reaches everybody.  The report of a worker that
    handed partition [pid] over goes out on its open session with the leader; the
    leader's input task turns it into a message of this worker; handling it takes
    this worker, and nothing else, from the old replicas of [pid], leaves the
    assignment and the elections alone, and makes the leader tell every other
    worker it has a session with, whose input task in turn forwards the release of
    the same partition by the same replica. *)
Theorem release_end_to_end me_w me_m ss pid s es now :
  id_ok (me_id me_w) → is_u16 (partition_id_u16 pid) →
  session_open (WorkerGrpc.manager_sessions ss) (me_id me_m) →
  (∀ q old, old_replicas (ManagerState.partitions s) !! q = Some old → old ≠ ∅) →
  ∃ ev m,
    WorkerGrpc.output ss (WorkerProtocol.RemovePartitionFromReplica (me_id me_m) (me_id me_w) pid) =
      Some (ss, [WorkerGrpc.ToManager (me_id me_m) ev], []) ∧
    ManagerGrpc.worker_payload (me_id me_w) ev = Some (Forward m) ∧
    let '(s', es', out) := ManagerService.dispatch now m me_m s es in
    es' = es ∧ mapping (ManagerState.partitions s') = mapping (ManagerState.partitions s) ∧
    new_replicas (ManagerState.partitions s') = new_replicas (ManagerState.partitions s) ∧
    (∀ q n, n ∈ default ∅ (old_replicas (ManagerState.partitions s') !! q) ↔
            n ∈ default ∅ (old_replicas (ManagerState.partitions s) !! q) ∧ ¬ (q = pid ∧ n = me_id me_w)) ∧
    (ManagerState.elected_leader_id s = Some (me_id me_m) →
     ∀ v mss config, is_Some (ManagerState.nodes s !! v) → v ≠ me_id me_w → v ≠ me_id me_m →
       session_open (ManagerGrpc.worker_sessions mss) v →
       ∃ relay ev', relay ∈ out ∧
         ManagerGrpc.output me_m config mss relay = Some (mss, [ManagerGrpc.ToWorker v ev'], []) ∧
         WorkerGrpc.manager_payload (me_id me_m) ev' =
           Some (Forward (WorkerProtocol.RemovePartitionFromReplica (me_id me_m) (me_id me_w) pid))).
Proof.
  intros Hid Hp Ho Hne. eexists _, _. split; [|split].
  - simpl. unfold WorkerGrpc.handle_output_remove_partition_from_replica. by rewrite worker_send_manager_open.
  - simpl. rewrite id_roundtrip by done. simpl. by rewrite partition_id_roundtrip.
  - cbn [ManagerService.dispatch].
    pose proof (remove_old_partition_exact s (me_id me_w) (me_id me_w) pid me_m Hne) as Hex.
    destruct (ManagerState.handle_remove_old_partition _ _ _ _ _) as [s' out].
    destruct Hex as (Hold & _ & Hmap & Hnew & Hout). split_and!; [done..|].
    intros Hl v mss config Hv Hvw Hvm Hsv.
    eexists (ManagerProtocol.RemovePartitionFromReplica v (me_id me_w) pid), _. split_and!.
    + apply Hout. split; [done|]. by exists v.
    + simpl. unfold ManagerGrpc.handle_output_remove_partition_from_replica. by rewrite send_either_worker.
    + simpl. rewrite id_roundtrip by done. simpl. by rewrite partition_id_roundtrip.
Qed.

End release.

(** ** Witnesses *)

(** Worker [wa] of [WorkerHandover] drops key 1 after the acknowledgement of [wb];
    a client that has [wb] as the master of partition 1 still reads it. *)
Definition after_ack := tick 70 clk100 (cl_svc cluster_acked).
Definition client_of_b : Inner :=
  mkInner ClientConfig_default
    (mkTopology 1 "m" {[ NodeId_to_string worker_b := mkCNode "http://b:1" 1 ]}
       {[ 1 := mkGPartition (NodeId_to_string worker_b) [] ]} ∅ ∅) ∅ 1.
Definition stores_b : gmap string (RuntimeStore (gmap Z) (gmap PartitionId)) :=
  {[ NodeId_to_string worker_b := peer_drained (send after_ack.2 (cl_peers cluster_acked) worker_b) ]}.


(** The read returns the record that was dropped. *)
Example client_reads_b : (get_key net_connect (net_exchange 80) 1 client_of_b stores_b).2 = Ok (Some (value rec_1)).
Proof. vm_compute. reflexivity. Qed.

Section release_witness.
#[local] Instance release_uuid : UuidApi := any_uuid.

(** Manager [y] leads worker [x], which holds partition 7; worker [z] has joined. *)
Definition joined : ManagerState.State :=
  ManagerState.mkState (Some 1) (Some (mkNodeId "y"))
    (<[mkNodeId "y" := mkNode "host-y" 2 0 Manager]>
      (<[mkNodeId "z" := mkNode "host-z" 3 0 Worker]> {[ mkNodeId "x" := mkNode "host-x" 1 0 Worker ]}))
    (mkPartitions {[ mkPartitionId 7 := mkPartition (mkNodeId "x") ∅ ]} ∅ ∅) {[ mkNodeId "x" ]}.

Lemma joined_ids_ok : manager_ids_ok joined.
Proof.
  split; [done|]. split_and!; simpl.
  - intros p v [<- <-]%lookup_singleton_Some. split; [unfold is_u16, u16_modulus; simpl; lia|]. split; [done|].
    intros w Hw. set_solver.
  - intros p v Hv. by rewrite lookup_empty in Hv.
  - intros p v Hv. by rewrite lookup_empty in Hv.
Qed.


Lemma release_end_to_end_witness :
  ∃ ev, WorkerGrpc.output (WorkerGrpc.mkSessions {[ mkNodeId "y" := mkStream Output false ]} ∅)
          (WorkerProtocol.RemovePartitionFromReplica (mkNodeId "y") (mkNodeId "x") (mkPartitionId 7)) =
        Some (WorkerGrpc.mkSessions {[ mkNodeId "y" := mkStream Output false ]} ∅,
              [WorkerGrpc.ToManager (mkNodeId "y") ev], []).
Proof.
  destruct (release_end_to_end (H0 := any_uuid_laws) gx gy
    (WorkerGrpc.mkSessions {[ mkNodeId "y" := mkStream Output false ]} ∅) (mkPartitionId 7)
    (ManagerState.set_partitions (mkPartitions ∅ {[ mkPartitionId 7 := {[ mkNodeId "x" ]} ]} ∅) state_ab)
    ∅ 0) as (ev & m & Ho & _).
  - by exists "x"%string.
  - unfold is_u16, u16_modulus. simpl. lia.
  - exists (mkStream Output false). split; reflexivity.
  - simpl. intros q old [<- <-]%lookup_singleton_Some. set_solver.
  - exists ev. exact Ho.
Defined.

End release_witness.
