(* ===== verification/ClientConnection.v ===== *)
(** * A client's connection to a worker, both ends (connection.rs, worker/grpc.rs)

    One stream between [WorkerConnection] of the client library and the task that
    [open_client_connection] spawns on the worker: requests in flight, the store
    behind the task, responses in flight, and the table of waiting callers.  Any
    number of callers share the connection; other tasks change the store. *)

From S2P Require Import Prelude Containers Common RuntimeStore Conversions WorkerGrpc Client.

(** What a caller of [request] gets. *)
Abbreviation Answer := (option GRecord + string)%type (only parsing).

Section connection.
Context {M : Type → Type} `{SkipMap M} {D : Type → Type} `{DashMap PartitionId D}.

(** The last four fields are ghosts: the requests issued with their callers, the
    requests served with their responses, and the callers woken, each in order. *)
Record Link := mkLink {
  lk_pending : Pending;
  lk_outbound : list ClientRequest;
  lk_inbound : list WorkerResponse;
  lk_store : RuntimeStore M D;
  lk_open : bool;
  lk_issued : list (nat * ClientRequest);
  lk_served : list (ClientRequest * WorkerResponse);
  lk_woken : list (nat * Answer);
}.

(** [WorkerConnection::connect]. *)
Definition link_connect (st : RuntimeStore M D) : Link := mkLink ∅ [] [] st true [] [] [].

(** The worker's loop: one request taken, answered on the same stream. *)
Definition link_serve (now : Z) (req : ClientRequest) (rest : list ClientRequest) (l : Link) : Link :=
  let '(st, resp) := handle_client_request now req (lk_store l) in
  mkLink (lk_pending l) rest (lk_inbound l ++ [resp]) st (lk_open l) (lk_issued l) (lk_served l ++ [(req, resp)])
    (lk_woken l).

(** The client's response task: one response taken, its caller woken. *)
Definition link_deliver (resp : WorkerResponse) (rest : list WorkerResponse) (l : Link) : Link :=
  let '(pending, woken) := conn_response resp (lk_pending l) in
  mkLink pending (lk_outbound l) rest (lk_store l) (lk_open l) (lk_issued l) (lk_served l)
    (lk_woken l ++ match woken with Some (caller, record) => [(caller, inl record)] | None => [] end).

(** The end of the stream: the response task drains the table. *)
Definition link_close (reason : string) (l : Link) : Link :=
  let '(pending, woken) := drain reason (lk_pending l) in
  mkLink pending [] [] (lk_store l) false (lk_issued l) (lk_served l)
    (lk_woken l ++ ((λ cw : nat * string, (cw.1, inr cw.2)) <$> woken)).

(** [request] up to its wait, on a connection whose response task still runs. *)
Definition link_request (caller : nat) (req : ClientRequest) (l : Link) : Link :=
  mkLink (conn_request (cr_id req) caller true (lk_pending l)).1 (lk_outbound l ++ [req]) (lk_inbound l) (lk_store l)
    (lk_open l) (lk_issued l ++ [(caller, req)]) (lk_served l) (lk_woken l).

(** [request] after the response task ended: the outbound channel may still take
    the request ([sent]), which then waits for its timeout, or refuse it. *)
Definition link_request_late (caller : nat) (req : ClientRequest) (sent : bool) (l : Link) : Link :=
  let '(pending, refused) := conn_request (cr_id req) caller sent (lk_pending l) in
  mkLink pending [] [] (lk_store l) false (lk_issued l ++ [(caller, req)]) (lk_served l)
    (lk_woken l ++ match refused with Some reason => [(caller, inr reason)] | None => [] end).

(** Request identifiers do not repeat on a connection (they come from a 32-bit
    counter, [request_ids_distinct]). *)
Definition fresh (caller : nat) (req : ClientRequest) (l : Link) : Prop :=
  (caller ∉ (lk_issued l).*1) ∧ cr_id req ∉ ((cr_id ∘ snd) <$> lk_issued l).

Inductive link_step : Link → Link → Prop :=
  | ls_request l caller req :
      lk_open l = true → fresh caller req l → link_step l (link_request caller req l)
  | ls_late l caller req sent :
      lk_open l = false → fresh caller req l → link_step l (link_request_late caller req sent l)
  | ls_serve l now req rest :
      lk_open l = true → lk_outbound l = req :: rest → link_step l (link_serve now req rest l)
  | ls_deliver l resp rest :
      lk_open l = true → lk_inbound l = resp :: rest → link_step l (link_deliver resp rest l)
  | ls_close l reason : lk_open l = true → link_step l (link_close reason l)
  | ls_store l st :
      link_step l (mkLink (lk_pending l) (lk_outbound l) (lk_inbound l) st (lk_open l) (lk_issued l) (lk_served l)
                     (lk_woken l)).

Inductive link_reachable : Link → Prop :=
  | lr_connect st : link_reachable (link_connect st)
  | lr_step l l' : link_reachable l → link_step l l' → link_reachable l'.

(** ** The invariant *)

Lemma response_id now req (st : RuntimeStore M D) : wr_request_id (handle_client_request now req st).2 = cr_id req.
Proof. unfold handle_client_request. destruct (get_versioned _ _ _) as [[[]|] ?]; by repeat case_match. Qed.

Abbreviation Exchange := (nat * ClientRequest * WorkerResponse)%type (only parsing).

(** The table of waiting callers. *)
Definition table (waiting : list (nat * ClientRequest)) : Pending :=
  list_to_map ((λ i, (cr_id i.2, i.1)) <$> waiting).

(** A response is what the worker computed for the request. *)
Definition computed (x : Exchange) : Prop := ∃ now (st : RuntimeStore M D), x.2 = (handle_client_request now x.1.2 st).2.

Definition answer (x : Exchange) : nat * Answer := (x.1.1, inl (decode_response x.2)).

(** An open connection is a queue: the requests issued are those answered [d],
    those whose response is in flight [s] and those in flight [o]. *)
Record link_inv (l : Link) (d s : list Exchange) (o : list (nat * ClientRequest)) : Prop := {
  li_issued : lk_issued l = d.*1 ++ s.*1 ++ o;
  li_served : lk_served l = (λ x : Exchange, (x.1.2, x.2)) <$> d ++ s;
  li_outbound : lk_outbound l = o.*2;
  li_inbound : lk_inbound l = s.*2;
  li_woken : lk_woken l = answer <$> d;
  li_pending : lk_pending l = table (s.*1 ++ o);
  li_computed : Forall computed (d ++ s);
  li_ids : NoDup ((cr_id ∘ snd) <$> lk_issued l);
  li_callers : NoDup (lk_issued l).*1;
}.

Lemma link_inv_connect st : link_inv (link_connect st) [] [] [].
Proof. split; simpl; try done; constructor. Qed.

Lemma table_keys waiting : ((λ i : nat * ClientRequest, (cr_id i.2, i.1)) <$> waiting).*1 = (cr_id ∘ snd) <$> waiting.
Proof. by rewrite <-list_fmap_compose. Qed.

Lemma link_inv_request l d s o caller req :
  link_inv l d s o → fresh caller req l → link_inv (link_request caller req l) d s (o ++ [(caller, req)]).
Proof.
  intros [] [Hc Hid]. split; simpl; try done.
  - by rewrite li_issued0, <-!app_assoc.
  - by rewrite li_outbound0, fmap_app.
  - rewrite li_pending0. unfold table. rewrite app_assoc, (fmap_app _ (s.*1 ++ o)). symmetry. apply list_to_map_snoc.
    rewrite table_keys. rewrite li_issued0, fmap_app in Hid. intros Hin. apply Hid, elem_of_app. by right.
  - rewrite fmap_app, NoDup_app. split_and!; [done| |apply NoDup_singleton].
    intros x Hx ->%list_elem_of_singleton. done.
  - rewrite fmap_app, NoDup_app. split_and!; [done| |apply NoDup_singleton].
    intros x Hx ->%list_elem_of_singleton. done.
Qed.

Lemma link_inv_serve l d s o now req rest :
  link_inv l d s o → lk_outbound l = req :: rest →
  ∃ caller o', link_inv (link_serve now req rest l) d (s ++ [((caller, req), (handle_client_request now req (lk_store l)).2)]) o'.
Proof.
  intros [] Ho. rewrite Ho in li_outbound0. destruct o as [|[caller req'] o']; simplify_eq/=.
  exists caller, o'. unfold link_serve.
  assert (∃ now' st, (handle_client_request now req' (lk_store l)).2 = (handle_client_request now' req' st).2) as Hc by eauto.
  destruct (handle_client_request now req' (lk_store l)) as [st' resp]. simpl in *.
  split; simpl; try done.
  - by rewrite li_issued0, fmap_app, <-app_assoc.
  - by rewrite li_served0, app_assoc, (fmap_app _ (d ++ s)).
  - by rewrite li_inbound0, fmap_app.
  - by rewrite li_pending0, fmap_app, <-app_assoc.
  - rewrite app_assoc. apply Forall_app_2; [done|]. by apply Forall_singleton.
Qed.

Lemma link_inv_deliver l d s o resp rest :
  link_inv l d s o → lk_inbound l = resp :: rest →
  ∃ x s', link_inv (link_deliver resp rest l) (d ++ [x]) s' o.
Proof.
  intros [] Ho. rewrite Ho in li_inbound0. destruct s as [|[[caller req] resp'] s']; simplify_eq/=.
  exists ((caller, req), resp'), s'.
  assert (wr_request_id resp' = cr_id req) as Hid.
  { rewrite Forall_app, Forall_cons in li_computed0. destruct li_computed0 as [_ [(now & st & E) _]]. simpl in E.
    rewrite E. apply response_id. }
  assert (cr_id req ∉ ((cr_id ∘ snd) <$> s'.*1 ++ o)) as Hfresh.
  { rewrite li_issued0, fmap_app in li_ids0. apply NoDup_app in li_ids0 as (_ & _ & Hnd).
    simpl in Hnd. by apply NoDup_cons in Hnd as [? _]. }
  unfold link_deliver, conn_response. rewrite li_pending0, Hid.
  assert (table ((caller, req) :: s'.*1 ++ o) = <[cr_id req := caller]> (table (s'.*1 ++ o))) as -> by done.
  rewrite lookup_insert_eq.
  split; simpl; try done.
  - by rewrite li_issued0, fmap_app, <-app_assoc.
  - by rewrite li_served0, <-app_assoc.
  - by rewrite li_woken0, fmap_app.
  - rewrite delete_insert_id; [done|]. apply not_elem_of_list_to_map. by rewrite table_keys.
  - by rewrite <-app_assoc.
Qed.

(** What holds of any connection, open or not. *)
Record link_ok (l : Link) : Prop := {
  lo_answers caller record : (caller, inl record) ∈ lk_woken l →
    ∃ req now st, (caller, req) ∈ lk_issued l ∧ record = decode_response (handle_client_request now req (st : RuntimeStore M D)).2;
  lo_once : NoDup (lk_woken l).*1;
  lo_issued caller : caller ∈ (lk_woken l).*1 → caller ∈ (lk_issued l).*1;
  lo_waiting caller req : (caller, req) ∈ lk_issued l → caller ∈ (lk_woken l).*1 ∨ lk_pending l !! cr_id req = Some caller;
  lo_order : (lk_served l).*1 `prefix_of` (lk_issued l).*2;
}.

Lemma woken_callers (d : list Exchange) : (answer <$> d).*1 = d.*1.*1.
Proof. by rewrite <-!list_fmap_compose. Qed.

Lemma served_requests (d : list Exchange) : ((λ x : Exchange, (x.1.2, x.2)) <$> d).*1 = d.*1.*2.
Proof. by rewrite <-!list_fmap_compose. Qed.

Lemma lookup_table waiting caller req :
  NoDup ((cr_id ∘ snd) <$> waiting) → (caller, req) ∈ waiting → table waiting !! cr_id req = Some caller.
Proof.
  intros Hnd Hin. apply elem_of_list_to_map_1; [by rewrite table_keys|].
  apply list_elem_of_fmap. by exists (caller, req).
Qed.

Lemma link_inv_ok l d s o : link_inv l d s o → link_ok l.
Proof.
  intros []. split.
  - intros caller record Hin. rewrite li_woken0 in Hin. apply list_elem_of_fmap in Hin as ([[c req] resp] & [= -> ->] & Hx).
    rewrite Forall_app, !Forall_forall in li_computed0. destruct li_computed0 as [Hcomp _].
    destruct (Hcomp _ Hx) as (now & st & E). simpl in E. exists req, now, st. split; [|by rewrite E].
    rewrite li_issued0. apply elem_of_app. left. apply list_elem_of_fmap. by exists ((c, req), resp).
  - rewrite li_woken0, woken_callers. rewrite li_issued0, fmap_app in li_callers0. by apply NoDup_app in li_callers0 as [? _].
  - intros caller Hin. rewrite li_woken0, woken_callers in Hin. rewrite li_issued0, fmap_app, elem_of_app. by left.
  - intros caller req Hin. rewrite li_issued0, elem_of_app in Hin. destruct Hin as [Hin|Hin].
    + left. rewrite li_woken0, woken_callers. apply list_elem_of_fmap. by exists (caller, req).
    + right. rewrite li_pending0. apply lookup_table; [|done].
      rewrite li_issued0, fmap_app in li_ids0. by apply NoDup_app in li_ids0 as (_ & _ & ?).
  - rewrite li_served0, served_requests, li_issued0, app_assoc, <-fmap_app, (fmap_app snd). by apply prefix_app_r.
Qed.

(** Closing wakes everybody who waits. *)
Lemma link_close_wakes l d s o reason :
  link_inv l d s o → (lk_woken (link_close reason l)).*1 ≡ₚ (lk_issued l).*1.
Proof.
  intros []. simpl. rewrite li_woken0, fmap_app, woken_callers, li_issued0, fmap_app. apply Permutation_app_head.
  rewrite <-!list_fmap_compose. rewrite li_pending0. unfold table.
  etrans; [apply fmap_Permutation, map_to_list_to_map|].
  - rewrite table_keys. rewrite li_issued0, fmap_app in li_ids0. by apply NoDup_app in li_ids0 as (_ & _ & ?).
  - rewrite <-list_fmap_compose. done.
Qed.

Lemma link_close_ok l d s o reason : link_inv l d s o → link_ok (link_close reason l).
Proof.
  intros Hi. pose proof (link_inv_ok _ _ _ _ Hi) as [Ha Ho Hiss Hw Hord].
  pose proof (link_close_wakes _ _ _ _ reason Hi) as Hp. split.
  - intros caller record. simpl. rewrite elem_of_app. intros [Hin|Hin]; [by apply Ha|].
    by apply list_elem_of_fmap in Hin as (? & ? & _).
  - rewrite Hp. apply Hi.
  - intros caller. by rewrite Hp.
  - intros caller req Hin. left. rewrite Hp. apply list_elem_of_fmap. by exists (caller, req).
  - done.
Qed.

Lemma link_late_ok l caller req sent :
  link_ok l → fresh caller req l → (∀ id c, lk_pending l !! id = Some c → id ≠ cr_id req) →
  link_ok (link_request_late caller req sent l).
Proof.
  intros [Ha Ho Hiss Hw Hord] [Hc Hid] Hpend. unfold link_request_late, conn_request.
  assert (caller ∉ (lk_woken l).*1) as Hcw by (intros Hin; by apply Hc, Hiss).
  destruct sent; split; simpl; rewrite ?app_nil_r; try done.
  - intros c record Hin. destruct (Ha _ _ Hin) as (r & now & st & ? & ?). exists r, now, st.
    split; [apply elem_of_app; by left|done].
  - intros c Hin. rewrite fmap_app, elem_of_app. left. by apply Hiss.
  - intros c r [Hin|[= -> ->]%list_elem_of_singleton]%elem_of_app; [|right; by rewrite lookup_insert_eq].
    destruct (Hw _ _ Hin) as [?|Hp]; [by left|right]. rewrite lookup_insert_ne; [done|].
    intros Heq. by apply (Hpend _ _ Hp).
  - rewrite fmap_app. by apply prefix_app_r.
  - intros c record [Hin|[=]%list_elem_of_singleton]%elem_of_app. destruct (Ha _ _ Hin) as (r & now & st & ? & ?). exists r, now, st.
    split; [apply elem_of_app; by left|done].
  - rewrite fmap_app, NoDup_app. split_and!; [done| |apply NoDup_singleton]. intros x Hx ->%list_elem_of_singleton. done.
  - intros c. rewrite !fmap_app, !elem_of_app. intros [Hin|Hin]; [left; by apply Hiss|by right].
  - intros c r [Hin|[= -> ->]%list_elem_of_singleton]%elem_of_app; [|left; rewrite fmap_app, elem_of_app; right; by left].
    destruct (Hw _ _ Hin) as [?|Hp]; [left; rewrite fmap_app, elem_of_app; by left|right].
    rewrite lookup_delete_ne; [done|]. intros Heq. by apply (Hpend _ _ Hp).
  - rewrite fmap_app. by apply prefix_app_r.
Qed.

(** The identifiers of the table are those of issued requests. *)
Definition pending_issued (l : Link) : Prop :=
  ∀ id c, lk_pending l !! id = Some c → id ∈ ((cr_id ∘ snd) <$> lk_issued l).

Lemma link_reachable_inv l :
  link_reachable l →
  if lk_open l then ∃ d s o, link_inv l d s o else link_ok l ∧ pending_issued l.
Proof.
  induction 1 as [st|l l' _ IH Hs]; [exists [], [], []; apply link_inv_connect|].
  destruct Hs as [l caller req Ho Hf|l caller req sent Ho Hf|l now req rest Ho Hout|l resp rest Ho Hin|l reason Ho|l st];
    rewrite ?Ho in IH.
  - destruct IH as (d & s & o & Hi). simpl. rewrite Ho. do 3 eexists. by apply link_inv_request.
  - destruct IH as [Hok Hp].
    assert (lk_open (link_request_late caller req sent l) = false) as -> by (by destruct sent). split.
    + apply link_late_ok; [done..|]. intros id c Hid Heq. subst id. destruct Hf as [_ Hf]. by apply Hf, (Hp _ c).
    + intros id c. unfold link_request_late, conn_request. destruct sent; simpl; rewrite fmap_app, elem_of_app.
      * intros [[<- _]|[_ ?]]%lookup_insert_Some; [right; by left|left; by eapply Hp].
      * intros [_ ?]%lookup_delete_Some. left. by eapply Hp.
  - destruct IH as (d & s & o & Hi). destruct (link_inv_serve l d s o now req rest Hi Hout) as (caller & o' & Hi').
    assert (lk_open (link_serve now req rest l) = true) as -> by (unfold link_serve; by destruct (handle_client_request _ _ _)).
    by eauto.
  - destruct IH as (d & s & o & Hi). destruct (link_inv_deliver l d s o resp rest Hi Hin) as (x & s' & Hi').
    assert (lk_open (link_deliver resp rest l) = true) as -> by (unfold link_deliver; by destruct (conn_response _ _)).
    by eauto.
  - destruct IH as (d & s & o & Hi). simpl. split; [by eapply link_close_ok|]. intros id c. simpl. by rewrite lookup_empty.
  - simpl. destruct (lk_open l).
    + destruct IH as (d & s & o & []). exists d, s, o. by split.
    + destruct IH as [[] ?]. by split; [split|].
Qed.


End connection.

(** ** Request identifiers *)

(** The identifiers [fetch_add] hands out, from 1. *)
Definition request_id (n : nat) : Z := Nat.iter n next_i32 1.

Lemma request_id_value n :
  (Z.of_nat n < 2 ^ 31 - 1 → request_id n = 1 + Z.of_nat n) ∧
  (2 ^ 31 - 1 <= Z.of_nat n < 2 ^ 32 → request_id n = 1 + Z.of_nat n - 2 ^ 32).
Proof.
  induction n as [|n [IH1 IH2]]; [split; [done|lia]|].
  change (request_id (S n)) with (next_i32 (request_id n)). unfold next_i32. split; intros Hn.
  - rewrite IH1 by lia. destruct (Z.eqb_spec (1 + Z.of_nat n) 2147483647); lia.
  - destruct (Z.ltb_spec (Z.of_nat n) (2 ^ 31 - 1)).
    + rewrite IH1 by lia. destruct (Z.eqb_spec (1 + Z.of_nat n) 2147483647); lia.
    + rewrite IH2 by lia. destruct (Z.eqb_spec (1 + Z.of_nat n - 2 ^ 32) 2147483647); lia.
Qed.

(** The counter repeats only after 2^32 requests. *)
Lemma request_ids_distinct n m :
  Z.of_nat n < 2 ^ 32 → Z.of_nat m < 2 ^ 32 → request_id n = request_id m → n = m.
Proof.
  intros Hn Hm. destruct (request_id_value n) as [N1 N2], (request_id_value m) as [M1 M2].
  destruct (Z.ltb_spec (Z.of_nat n) (2 ^ 31 - 1)), (Z.ltb_spec (Z.of_nat m) (2 ^ 31 - 1));
    rewrite ?N1, ?N2, ?M1, ?M2 by lia; lia.
Qed.

(** ** Witness *)

(** Two callers share a connection: a write and a read, answered in order. *)
Definition sample_put : ClientRequest := mkClientRequest 1 REQUEST_PUT 5 (Some 10) (Some [7]) None.
Definition sample_get : ClientRequest := mkClientRequest 2 REQUEST_GET 5 None None None.

Definition sample_link : Link (M := gmap Z) (D := gmap PartitionId) :=
  let l := link_request 1 sample_get (link_request 0 sample_put (link_connect RuntimeStore_new)) in
  let l := link_serve 20 sample_get [] (link_serve 20 sample_put [sample_get] l) in
  foldl (λ l resp, link_deliver resp (tail (lk_inbound l)) l) l (lk_inbound l).

