(* ===== verification/ClientStreams.v ===== *)
(** * Following the managers (lib.rs of the client)

    The background tasks of the client: one per manager endpoint, started by
    [connect_with_config] or [ensure_manager], each holding the stream of
    snapshots of that manager or trying to get it back ([spawn_manager_stream],
    [subscribe]).  A step is what one task does next. *)

From S2P Require Import Prelude Common Conversions Client.

(** What a task is doing: the first subscription of [ensure_manager], reading the
    stream, sleeping after it ended or after a failed subscription, subscribing
    again. *)
Inductive TaskState := FirstSubscribe | Streaming | Sleeping | Resubscribe.

(** The outcome of [subscribe]: the endpoint cannot be parsed, the connection times
    out, fails, or the call fails; each with its text; or the stream. *)
Inductive Subscribed :=
  | Malformed (error : string)
  | ConnectTimeout
  | ConnectError (error : string)
  | CallError (error : string)
  | Stream.

Definition subscribe (outcome : Subscribed) : unit + string :=
  match outcome with
  | Malformed error | ConnectError error | CallError error => inr error
  | ConnectTimeout => inr "connection timeout"
  | Stream => inl tt
  end.

Section streams.
Context {W : Type} (net_connect : W → string → W * option string).

(** The client with its tasks; [f_applied] is a ghost: the snapshots received. *)
Record Follower := mkFollower {
  f_inner : Inner;
  f_managers : gset string;
  f_tasks : list (string * TaskState);
  f_world : W;
  f_applied : list GClusterState;
}.

Definition set_tasks (tasks : list (string * TaskState)) (f : Follower) : Follower :=
  mkFollower (f_inner f) (f_managers f) tasks (f_world f) (f_applied f).

(** [apply_state] and then [ensure_connections], whose new manager endpoints each
    get a task. *)
Definition on_state (state : GClusterState) (f : Follower) : Follower :=
  let c := f_inner f in
  let c := mkInner (i_config c) (apply_state state (i_state c)) (i_workers c) (i_next_request_id c) in
  let '(w, c, managers, subscribed) := ensure_connections net_connect c (f_managers f) (f_world f) in
  mkFollower c managers (f_tasks f ++ ((λ endpoint, (endpoint, FirstSubscribe)) <$> subscribed)) w
    (f_applied f ++ [state]).

(** [connect_with_config] once a manager answered. *)
Definition follow_start (config : ClientConfig) (bootstrap_address : string) (initial_state : GClusterState) (w : W)
    : Follower :=
  on_state initial_state
    (mkFollower (mkInner config Topology_default ∅ 1) {[ bootstrap_address ]} [(bootstrap_address, Streaming)] w []).

(** The result of the first subscription, in the task of [ensure_manager]. *)
Definition first_subscription (endpoint : string) (l1 l2 : list (string * TaskState)) (outcome : Subscribed)
    (f : Follower) : Follower :=
  match subscribe outcome with
  | inl _ => set_tasks (l1 ++ (endpoint, Streaming) :: l2) f
  | inr _ =>
      mkFollower (f_inner f) (f_managers f ∖ {[ endpoint ]}) (l1 ++ l2) (f_world f) (f_applied f)
  end.

(** The result of a later one, in the loop of [spawn_manager_stream]. *)
Definition resubscription (endpoint : string) (l1 l2 : list (string * TaskState)) (outcome : Subscribed)
    (f : Follower) : Follower :=
  set_tasks (l1 ++ (endpoint, match subscribe outcome with inl _ => Streaming | inr _ => Sleeping end) :: l2) f.

(** An event of the stream; one without a snapshot is ignored. *)
Definition stream_event (state : option GClusterState) (f : Follower) : Follower :=
  match state with Some state => on_state state f | None => f end.

Inductive follow_step : Follower → Follower → Prop :=
  | fs_first f endpoint l1 l2 outcome :
      f_tasks f = l1 ++ (endpoint, FirstSubscribe) :: l2 →
      follow_step f (first_subscription endpoint l1 l2 outcome f)
  | fs_event f endpoint state :
      (endpoint, Streaming) ∈ f_tasks f → follow_step f (stream_event state f)
  | fs_end f endpoint l1 l2 :
      f_tasks f = l1 ++ (endpoint, Streaming) :: l2 →
      follow_step f (set_tasks (l1 ++ (endpoint, Sleeping) :: l2) f)
  | fs_wake f endpoint l1 l2 :
      f_tasks f = l1 ++ (endpoint, Sleeping) :: l2 →
      follow_step f (set_tasks (l1 ++ (endpoint, Resubscribe) :: l2) f)
  | fs_again f endpoint l1 l2 outcome :
      f_tasks f = l1 ++ (endpoint, Resubscribe) :: l2 →
      follow_step f (resubscription endpoint l1 l2 outcome f)
  | fs_requests f workers id w :
      (* requests of the application use and drop worker connections *)
      follow_step f (mkFollower (mkInner (i_config (f_inner f)) (i_state (f_inner f)) workers id) (f_managers f)
                       (f_tasks f) w (f_applied f)).

Inductive follow_reachable (config : ClientConfig) : Follower → Prop :=
  | fr_start address state w : follow_reachable config (follow_start config address state w)
  | fr_step f f' : follow_reachable config f → follow_step f f' → follow_reachable config f'.

(** ** The invariant *)

(** One task per registered endpoint, and the topology is what the snapshots
    received so far make of it. *)
Record follow_inv (f : Follower) : Prop := {
  fi_unique : NoDup (f_tasks f).*1;
  fi_managers endpoint : endpoint ∈ f_managers f ↔ endpoint ∈ (f_tasks f).*1;
  fi_topology : i_state (f_inner f) = foldl (λ t s, apply_state s t) Topology_default (f_applied f);
}.

(** What [ensure_connections] does to the registered endpoints. *)
Record ensured (c : Inner) (managers : gset string) (l : list (string * CNode)) (c' : Inner) (managers' : gset string)
    (subscribed : list string) : Prop := {
  en_state : i_state c' = i_state c;
  en_config : i_config c' = i_config c;
  en_unique : NoDup subscribed;
  en_managers : managers' = managers ∪ list_to_set subscribed;
  en_new e : e ∈ subscribed → e ∉ managers;
  en_all id n : (id, n) ∈ l → n_node_type n = 0 → n_endpoint n ∈ managers';
}.

Lemma ensure_connection_ensured c managers l id n w c1 m1 s1 :
  ensured c managers l c1 m1 s1 →
  let '(w', c', m', s') := ensure_connection net_connect (w, c1, m1, s1) (id, n) in
  ensured c managers (l ++ [(id, n)]) c' m' s'.
Proof.
  intros [Hst Hcf Hu Hm Hn Ha]. unfold ensure_connection.
  assert (∀ m', m1 ⊆ m' → (n_node_type n = 0 → n_endpoint n ∈ m') →
    ∀ i x, (i, x) ∈ (l ++ [(id, n)]) → n_node_type x = 0 → n_endpoint x ∈ m') as Hall.
  { intros m' Hsub Hx i x [Hin|Heq%list_elem_of_singleton]%elem_of_app Ht; [apply Hsub; by eapply Ha|].
    simplify_eq. by apply Hx. }
  destruct (Z.eqb_spec (n_node_type n) 1) as [Hw|Hw].
  - assert (∀ c', i_state c' = i_state c → i_config c' = i_config c → ensured c managers (l ++ [(id, n)]) c' m1 s1) as Hsame.
    { intros c' ? ?. split; try done. apply Hall; [done|]. intros; lia. }
    case_bool_decide; [by apply Hsame|]. destruct (net_connect w (n_endpoint n)) as [w' [e|]]; by apply Hsame.
  - destruct (Z.eqb_spec (n_node_type n) 0) as [H0|H0]; [|split; try done; by apply Hall].
    case_bool_decide as Hin; [split; try done; by apply Hall|]. split; try done.
    + rewrite NoDup_app. split_and!; [done| |apply NoDup_singleton]. intros x Hx ->%list_elem_of_singleton.
      apply Hin. rewrite Hm. apply elem_of_union_r. by apply elem_of_list_to_set.
    + rewrite Hm, list_to_set_app_L. simpl. set_solver.
    + intros e [He| ->%list_elem_of_singleton]%elem_of_app; [by apply Hn|]. set_solver.
    + apply Hall; [set_solver|set_solver].
Qed.

Lemma ensure_connections_ensured c managers w :
  let '(_, c', managers', subscribed) := ensure_connections net_connect c managers w in
  ensured c managers (map_to_list (t_nodes (i_state c))) c' managers' subscribed.
Proof.
  unfold ensure_connections. generalize (map_to_list (t_nodes (i_state c))) as l. intros l.
  induction l as [|[id n] l IH] using rev_ind.
  - simpl. split; try done; [constructor|set_solver|by intros ? ?%not_elem_of_nil|by intros ? ? ?%not_elem_of_nil].
  - rewrite foldl_app. destruct (foldl _ _ l) as [[[w1 c1] m1] s1]. cbn [foldl].
    by apply (ensure_connection_ensured c managers l id n w1).
Qed.

Lemma tasks_moved f endpoint t t' l1 l2 :
  f_tasks f = l1 ++ (endpoint, t) :: l2 → (l1 ++ (endpoint, t') :: l2).*1 = (f_tasks f).*1.
Proof. intros ->. by rewrite !fmap_app. Qed.

Lemma set_tasks_inv f tasks : follow_inv f → tasks.*1 = (f_tasks f).*1 → follow_inv (set_tasks tasks f).
Proof. intros [] Ht. split; simpl; by rewrite ?Ht. Qed.

Lemma on_state_inv state f : follow_inv f → follow_inv (on_state state f).
Proof.
  intros [Hu Hm Ht]. unfold on_state. set (c := mkInner _ _ _ _).
  pose proof (ensure_connections_ensured c (f_managers f) (f_world f)) as He.
  destruct (ensure_connections _ _ _ _) as [[[w c'] managers'] subscribed]. destruct He as [Hst _ Hsu -> Hn _].
  assert ((f_tasks f ++ ((λ endpoint, (endpoint, FirstSubscribe)) <$> subscribed)).*1 = (f_tasks f).*1 ++ subscribed) as Hfst.
  { rewrite fmap_app, <-list_fmap_compose. f_equal. apply list_fmap_id. }
  split; simpl; rewrite ?Hfst.
  - rewrite NoDup_app. split_and!; [done| |done]. intros x Hx Hs. apply (Hn _ Hs). by apply Hm.
  - intros e. by rewrite elem_of_union, elem_of_list_to_set, elem_of_app, Hm.
  - rewrite Hst. unfold c. simpl. by rewrite foldl_app, <-Ht.
Qed.

Lemma follow_step_inv f f' : follow_inv f → follow_step f f' → follow_inv f'.
Proof.
  intros Hi Hs. destruct Hs as [f e l1 l2 outcome Ht|f e state _|f e l1 l2 Ht|f e l1 l2 Ht|f e l1 l2 outcome Ht|f ws id w].
  - unfold first_subscription. destruct (subscribe outcome); [by eapply set_tasks_inv, tasks_moved|].
    destruct Hi as [Hu Hm Htop]. rewrite Ht, fmap_app in Hu. apply NoDup_app in Hu as (Hu1 & Hd & Hu2).
    simpl in *. apply NoDup_cons in Hu2 as [Hne Hu2].
    assert (e ∉ l1.*1) as Hn1 by (intros Hin; apply (Hd _ Hin); by left).
    split; simpl; [|intros x|done].
    + rewrite fmap_app. apply NoDup_app. split_and!; [done| |done]. intros x Hx Hx2. apply (Hd _ Hx). by right.
    + rewrite elem_of_difference, elem_of_singleton, Hm, Ht, !fmap_app, !elem_of_app. simpl. rewrite elem_of_cons.
      split; [tauto|]. intros [?|?]; (split; [tauto|]); by intros ->.
  - unfold stream_event. destruct state; [by apply on_state_inv|done].
  - by eapply set_tasks_inv, tasks_moved.
  - by eapply set_tasks_inv, tasks_moved.
  - unfold resubscription. by eapply set_tasks_inv, tasks_moved.
  - destruct Hi. by split.
Qed.

Lemma follow_start_inv config address state w : follow_inv (follow_start config address state w).
Proof.
  apply on_state_inv. split; simpl; [apply NoDup_singleton| |done].
  intros e. by rewrite elem_of_singleton, list_elem_of_singleton.
Qed.

(** C24: The client follows every manager it knows of, each with one task: at any
    moment at most one task reads or reopens the stream of an endpoint, and the
    registered endpoints are exactly those with a task (a failed first
    subscription unregisters its endpoint, so a later snapshot tries again; a
    broken stream keeps its task).  The topology is the result of the snapshots
    received, in order, and after a snapshot every manager it lists has a task. *)
Theorem client_follows_managers config f :
  follow_reachable config f →
  NoDup (f_tasks f).*1 ∧
  (∀ endpoint, endpoint ∈ f_managers f ↔ endpoint ∈ (f_tasks f).*1) ∧
  i_state (f_inner f) = foldl (λ t s, apply_state s t) Topology_default (f_applied f) ∧
  ∀ endpoint state, (endpoint, Streaming) ∈ f_tasks f →
    let f' := stream_event (Some state) f in
    follow_step f f' ∧ i_state (f_inner f') = apply_state state (i_state (f_inner f)) ∧
    ∀ id n, t_nodes (i_state (f_inner f')) !! id = Some n → n_node_type n = 0 → n_endpoint n ∈ (f_tasks f').*1.
Proof.
  intros Hr. assert (follow_inv f) as Hi.
  { induction Hr; [apply follow_start_inv|by eapply follow_step_inv]. }
  pose proof Hi as [Hu Hm Ht]. split_and!; [done..|]. intros endpoint state Hin f'.
  assert (follow_step f f') as Hs by (by eapply fs_event). split; [done|]. unfold f' in *. clear f'.
  pose proof (follow_step_inv _ _ Hi Hs) as [_ Hm' _]. simpl in *.
  unfold on_state in *. set (c := mkInner _ _ _ _) in *.
  pose proof (ensure_connections_ensured c (f_managers f) (f_world f)) as He.
  destruct (ensure_connections _ _ _ _) as [[[w c'] managers'] subscribed]. destruct He as [Hst _ _ _ _ Ha]. simpl in *.
  split; [by rewrite Hst|]. intros id n Hl Hn. apply Hm'. eapply Ha; [|done]. apply elem_of_map_to_list.
  rewrite Hst in Hl. done.
Qed.

End streams.

(** ** Witness *)

Definition no_network (w : unit) (endpoint : string) : unit * option string := (w, Some "unreachable"%string).

Definition two_managers : GClusterState :=
  mkGClusterState 1 "m1" [mkGNode "m1" (Some (mkGAddr "host-1" 9001)) 0 0; mkGNode "m2" (Some (mkGAddr "host-2" 9002)) 0 0] None.

Lemma client_follows_managers_witness :
  NoDup (f_tasks (follow_start no_network ClientConfig_default "http://host-1:9001" two_managers tt)).*1 ∧
  (f_tasks (follow_start no_network ClientConfig_default "http://host-1:9001" two_managers tt)).*1 =
    ["http://host-1:9001"; "http://host-2:9002"]%string.
Proof.
  split; [|vm_compute; reflexivity].
  apply (client_follows_managers no_network ClientConfig_default). apply fr_start.
Defined.
