(* ===== verification/ClientErrors.v ===== *)
(** * The client's results and errors

    What the results of the public operations mean, over any network: an error
    names its cause and the causes known in advance send nothing; success of a
    write means that every owner answered. *)

From S2P Require Import Prelude Common Conversions Client.

Section errors.
Context {W : Type} (net_connect : W → string → W * option string)
        (net_exchange : W → string → ClientRequest → W * (option GRecord + string)).

(** The node answered the request (under some identifier). *)
Definition answered_by (node : string) (req : ClientRequest) (response : option GRecord) : Prop :=
  ∃ w w' id, net_exchange w node (set_request_id id req) = (w', inl response).

Lemma worker_state node c w : i_state (worker net_connect node c w).1.2 = i_state c.
Proof.
  unfold worker. case_bool_decide; [done|]. destruct (t_nodes (i_state c) !! node); [|done].
  by destruct (net_connect w _) as [? [?|]].
Qed.

(** What the result of a request with retries says. *)
Definition request_outcome (node : string) (req : ClientRequest) (r : Result (option GRecord)) : Prop :=
  match r with
  | Ok response => answered_by node req response
  | Err e => ∃ reason, e = WorkerRequest node reason
  end.

Lemma request_loop_result n node req delay reason c w :
  let '(_, c', _, r) := request_loop net_connect net_exchange n node req delay reason c w in
  i_state c' = i_state c ∧ request_outcome node req r.
Proof.
  revert req delay reason c w. induction n as [|n IH]; intros req delay reason c w; [simpl; by eauto|].
  cbn [request_loop]. pose proof (worker_state node (bump_request_id c) w) as Hst.
  destruct (worker net_connect node (bump_request_id c) w) as [[w1 c1] r1]. simpl in Hst.
  set (req' := set_request_id (i_next_request_id c) req).
  assert (∀ (c2 : Inner) w2 reason2 delay2, i_state c2 = i_state c →
    let '(_, c', _, r) := request_loop net_connect net_exchange n node req' delay2 reason2 c2 w2 in
    i_state c' = i_state c ∧ request_outcome node req r) as Hnext.
  { intros c2 w2 reason2 delay2 Hc2. specialize (IH req' delay2 reason2 c2 w2).
    destruct (request_loop _ _ n _ _ _ _ _ _) as [[[w' c'] sl] r]. destruct IH as [-> Ho]. split; [done|].
    destruct r; [|done]. destruct Ho as (wa & wb & id & E). by exists wa, wb, id. }
  destruct r1 as [[]|e].
  - destruct (net_exchange w1 node req') as [w2 [response|reason2]] eqn:Hx; [split; [done|by do 3 eexists]|].
    destruct n; [by apply Hnext|]. set (c2 := set_workers _ _).
    specialize (Hnext c2 w2 reason2 (saturating_mul delay 2) Hst).
    by destruct (request_loop _ _ (S n) _ _ _ _ _ _) as [[[w' c'] sl] r].
  - destruct n; [by apply Hnext|]. set (c2 := set_workers _ _).
    specialize (Hnext c2 w1 (error_to_string e) (saturating_mul delay 2) Hst).
    by destruct (request_loop _ _ (S n) _ _ _ _ _ _) as [[[w' c'] sl] r].
Qed.

Lemma request_all_result nodes req c w :
  let '(_, c', rs) := request_all net_connect net_exchange nodes req c w in
  i_state c' = i_state c ∧ Forall2 (λ node r, request_outcome node req r) nodes rs.
Proof.
  revert c w. induction nodes as [|node nodes IH]; intros c w; simpl; [split; [done|constructor]|].
  unfold request_with_retry at 1.
  pose proof (request_loop_result (Z.to_nat (Z.max (retry_attempts (i_config c)) 1)) node req
    (initial_retry_delay (i_config c)) "" c w) as Hr.
  destruct (request_loop _ _ _ _ _ _ _ _ _) as [[[w1 c1] sl] r]. destruct Hr as [Hc1 Hr].
  specialize (IH c1 w1). destruct (request_all _ _ nodes req c1 w1) as [[w2 c2] rs]. destruct IH as [Hc2 Hrs].
  split; [congruence|by constructor].
Qed.

Lemma first_error_result nodes req rs :
  Forall2 (λ node r, request_outcome node req r) nodes rs →
  match first_error rs with
  | Ok _ => ∀ node, node ∈ nodes → ∃ response, answered_by node req response
  | Err e => ∃ node reason, node ∈ nodes ∧ e = WorkerRequest node reason
  end.
Proof.
  induction 1 as [|node r nodes rs Hr Hrs IH]; simpl; [by intros node ?%not_elem_of_nil|].
  destruct r as [response|e].
  - destruct (first_error rs).
    + intros node' [->|Hin]%elem_of_cons; [by eexists|by apply IH].
    + destruct IH as (node' & reason & ? & ?). exists node', reason. split; [by right|done].
  - destruct Hr as [reason ->]. exists node, reason. split; [by left|done].
Qed.

(** A write by its outcome. *)
Definition write_outcome (key : Z) (req : ClientRequest) (c : Inner) (r : Result unit) : Prop :=
  match r with
  | Ok _ => ∃ m, t_mapping (i_state c) !! partition key = Some m ∧
      ∀ node, node = gp_master m ∨ node ∈ gp_replicas m → ∃ response, answered_by node req response
  | Err e =>
      (e = PartitionUnavailable (partition key) ∧ t_mapping (i_state c) !! partition key = None) ∨
      ∃ m node reason, t_mapping (i_state c) !! partition key = Some m ∧
        (node = gp_master m ∨ node ∈ gp_replicas m) ∧ e = WorkerRequest node reason
  end.

Lemma write_all_result key req c w :
  write_outcome key req c (write_all net_connect net_exchange key req c w).2.
Proof.
  unfold write_all, write_targets, write_outcome. destruct (t_mapping (i_state c) !! partition key) as [m|]; [|by left].
  set (targets := list_to_set (gp_replicas m) ∪ {[ gp_master m ]} : gset string).
  assert (∀ node, node ∈ elements targets ↔ node = gp_master m ∨ node ∈ gp_replicas m) as Ht.
  { intros node. unfold targets. rewrite elem_of_elements, elem_of_union, elem_of_list_to_set, elem_of_singleton. tauto. }
  pose proof (request_all_result (elements targets) req c w) as Hr.
  destruct (request_all _ _ _ _ _ _) as [[w' c'] rs]. destruct Hr as [_ Hr]. simpl.
  pose proof (first_error_result _ _ _ Hr) as Hf. destruct (first_error rs).
  - exists m. split; [done|]. intros node Hn. by apply Hf, Ht.
  - destruct Hf as (node & reason & Hn & ->). right. exists m, node, reason. split; [done|]. split; [by apply Ht|done].
Qed.


End errors.
