(* ===== verification/Cli.v ===== *)
(** * Command line and configuration (cli.rs, common.rs)

    The value parsers, the commands and the configuration built from them.  The
    splitting of the command line into these values is clap's. *)

From S2P Require Import Prelude Common.
From Stdlib Require Import Ascii.

(** ** [str::parse] for [u64] and 64-bit [usize] *)

Definition digit_of (a : ascii) : option Z :=
  let n := Z.of_nat (nat_of_ascii a) in
  if (48 <=? n) && (n <=? 57) then Some (n - 48) else None.

(** The digit loop with its two checked operations. *)
Fixpoint parse_digits (acc : Z) (s : string) : option Z :=
  match s with
  | EmptyString => Some acc
  | String a s =>
      d ← digit_of a;
      if u64_modulus <=? acc * 10 then None
      else if u64_modulus <=? acc * 10 + d then None
      else parse_digits (acc * 10 + d) s
  end.

(** A single leading [+] is allowed; the empty text and a lone sign are not. *)
Definition parse_u64 (s : string) : option Z :=
  match s with
  | EmptyString => None
  | String "+" EmptyString => None
  | String "+" s => parse_digits 0 s
  | _ => parse_digits 0 s
  end.

(** ** cli.rs *)

Definition parse_replication_factor (value : string) : Z + string :=
  match parse_u64 value with
  | None => inr "replication_factor must be a positive integer"
  | Some value => if value =? 0 then inr "replication_factor must be at least 1" else inl value
  end.

Definition parse_positive_u64 (value : string) : Z + string :=
  match parse_u64 value with
  | None => inr "value must be a positive integer"
  | Some value => if value =? 0 then inr "value must be at least 1" else inl value
  end.

Record CommonArgs := mkCommonArgs { grpc_port : Z; self_host : string; self_port_arg : option Z }.

Definition self_port (c : CommonArgs) : Z := default (grpc_port c) (self_port_arg c).

Inductive Command :=
  | ManagerCommand (common : CommonArgs) (manager_host : option string) (manager_port : option Z)
      (replication_factor : Z)
  | WorkerCommand (common : CommonArgs) (manager_host : string) (manager_port : Z)
      (expired_cleanup_interval_secs : Z).

(** [From<Cli> for Config]. *)
Definition Config_from_cli (command : Command) : Config :=
  match command with
  | ManagerCommand common manager_host manager_port replication_factor =>
      ManagerConfig (grpc_port common) (self_host common, self_port common)
        match manager_host, manager_port with Some h, Some p => Some (h, p) | _, _ => None end
        replication_factor
  | WorkerCommand common manager_host manager_port expired_cleanup_interval_secs =>
      WorkerConfig (grpc_port common) (self_host common, self_port common) (manager_host, manager_port)
        expired_cleanup_interval_secs
  end.

(** ** Reference: decimal notation *)

(** The digits of a text, if it consists of digits only. *)
Fixpoint digits (s : string) : option (list Z) :=
  match s with
  | EmptyString => Some []
  | String a s => d ← digit_of a; ds ← digits s; Some (d :: ds)
  end.

Definition decimal (acc : Z) (ds : list Z) : Z := foldl (λ v d, v * 10 + d) acc ds.

Lemma digit_of_range a d : digit_of a = Some d → 0 <= d <= 9.
Proof. unfold digit_of. destruct (_ && _) eqn:E; [|done]. intros [= <-]. lia. Qed.

Lemma decimal_mono acc ds : 0 <= acc → (∀ d, d ∈ ds → 0 <= d) → acc <= decimal acc ds.
Proof.
  unfold decimal. revert acc. induction ds as [|d ds IH]; intros acc Ha Hd; simpl; [lia|].
  pose proof (Hd d ltac:(set_solver)). specialize (IH (acc * 10 + d) ltac:(lia) ltac:(set_solver)). lia.
Qed.

Lemma digits_range s ds : digits s = Some ds → ∀ d, d ∈ ds → 0 <= d.
Proof.
  revert ds. induction s as [|a s IH]; intros ds; simpl.
  - intros [= <-] d ?%not_elem_of_nil. done.
  - destruct (digit_of a) as [d0|] eqn:Hd; [|done]. simpl. destruct (digits s) as [ds'|]; [|done]. simpl.
    intros [= <-] d [->|Hin]%elem_of_cons; [apply digit_of_range in Hd; lia|by eapply IH].
Qed.

(** The digit loop computes the decimal value, or fails on a non-digit or when
    the value does not fit. *)
Lemma parse_digits_decimal s acc :
  0 <= acc < u64_modulus →
  parse_digits acc s = ds ← digits s; if decimal acc ds <? u64_modulus then Some (decimal acc ds) else None.
Proof.
  revert acc. induction s as [|a s IH]; intros acc Ha; simpl.
  - by assert ((acc <? u64_modulus) = true) as -> by lia.
  - destruct (digit_of a) as [d|] eqn:Hd; [|done]. simpl. pose proof (digit_of_range _ _ Hd).
    assert (∀ ds, digits s = Some ds → acc * 10 + d <= decimal acc (d :: ds)) as Hge.
    { intros ds Hds. apply (decimal_mono (acc * 10 + d)); [lia|by eapply digits_range]. }
    destruct (Z.leb_spec u64_modulus (acc * 10)); [|destruct (Z.leb_spec u64_modulus (acc * 10 + d))].
    + destruct (digits s) as [ds|]; [|done]. cbn [mbind option_bind]. specialize (Hge ds eq_refl).
      by assert ((decimal acc (d :: ds) <? u64_modulus) = false) as -> by lia.
    + destruct (digits s) as [ds|]; [|done]. cbn [mbind option_bind]. specialize (Hge ds eq_refl).
      by assert ((decimal acc (d :: ds) <? u64_modulus) = false) as -> by lia.
    + rewrite IH by lia. by destruct (digits s).
Qed.

Lemma parse_digits_range s v : parse_digits 0 s = Some v → 0 <= v < u64_modulus.
Proof.
  rewrite parse_digits_decimal by done. destruct (digits s) as [ds|] eqn:Hds; [|done]. simpl.
  destruct (Z.ltb_spec (decimal 0 ds) u64_modulus); [|done]. intros [= <-]. split; [|done].
  apply (decimal_mono 0); [lia|by eapply digits_range].
Qed.

Lemma parse_u64_range s v : parse_u64 s = Some v → 0 <= v < u64_modulus.
Proof. unfold parse_u64. repeat case_match; try done; apply parse_digits_range. Qed.

(** A text of digits has no sign. *)
Lemma parse_u64_digits s ds :
  digits s = Some ds → s ≠ EmptyString →
  parse_u64 s = if decimal 0 ds <? u64_modulus then Some (decimal 0 ds) else None.
Proof.
  intros Hds Hne. assert (parse_u64 s = parse_digits 0 s) as ->.
  { destruct s as [|a s]; [done|]. simpl in Hds. destruct (digit_of a) eqn:Ha; [|done].
    unfold parse_u64. destruct a as [[] [] [] [] [] [] [] []]; done. }
  rewrite parse_digits_decimal by done. by rewrite Hds.
Qed.

(** ** Claim *)

(** Option values are validated.  A text of decimal digits is accepted by both
    parsers exactly when its value is between 1 and 2^64 - 1, and then parsed to
    that value; whatever they accept lies in that range, so a manager starts with
    a replication factor of at least 1 and a worker with a cleanup interval of at
    least one second. *)
Theorem cli_values_validated s ds :
  digits s = Some ds → s ≠ EmptyString →
  (if (1 <=? decimal 0 ds) && (decimal 0 ds <? u64_modulus)
   then parse_replication_factor s = inl (decimal 0 ds) ∧ parse_positive_u64 s = inl (decimal 0 ds)
   else (∃ e, parse_replication_factor s = inr e) ∧ (∃ e, parse_positive_u64 s = inr e)) ∧
  (∀ t v, parse_replication_factor t = inl v ∨ parse_positive_u64 t = inl v → 1 <= v < u64_modulus).
Proof.
  intros Hds Hne. split.
  - unfold parse_replication_factor, parse_positive_u64. rewrite (parse_u64_digits s ds Hds Hne).
    pose proof (decimal_mono 0 ds ltac:(lia) (digits_range _ _ Hds)).
    destruct (Z.ltb_spec (decimal 0 ds) u64_modulus); [|rewrite andb_false_r; split; by eexists].
    rewrite andb_true_r. destruct (Z.leb_spec 1 (decimal 0 ds)).
    + by assert ((decimal 0 ds =? 0) = false) as -> by lia.
    + assert ((decimal 0 ds =? 0) = true) as -> by lia. split; by eexists.
  - intros t v. unfold parse_replication_factor, parse_positive_u64.
    destruct (parse_u64 t) as [x|] eqn:Hx; [|by intros [|]]. apply parse_u64_range in Hx.
    destruct (Z.eqb_spec x 0); intros [Hv|Hv]; simplify_eq; lia.
Qed.

Lemma cli_values_validated_witness : parse_replication_factor "42" = inl 42.
Proof.
  destruct (cli_values_validated "42" [4; 2]) as [H _]; [reflexivity|discriminate|].
  change ((1 <=? decimal 0 [4; 2]) && (decimal 0 [4; 2] <? u64_modulus)) with true in H. apply H.
Defined.
