(* ===== verification/CliArgs.v ===== *)
(** * Declared arguments (cli.rs)

    The arguments as the attributes declare them.  The parser that clap derives
    from a declaration is third-party code: a parameter ([Clap]) with its
    documented behaviour ([ClapLaws]).  Whatever it accepts is a command with the
    ranges the rest of the development relies on. *)

From S2P Require Import Prelude Common Cli.
From Stdlib Require Import Ascii.

Inductive Value := VInt (n : Z) | VText (s : string).

(** One [#[arg(long, ..)]]: its name, whether it must be given (neither [Option] nor
    defaulted), its default, the argument it requires and its value parser. *)
Record ArgSpec := mkArg {
  long : string;
  required : bool;
  default_value : option Value;
  requires : option string;
  value_parser : string → option Value;
}.

(** clap's parser of [u16] values, and the parser derived from subcommands: the
    name of the subcommand and the values of its arguments. *)
Class Clap := {
  clap_u16 : string → option Z;
  clap_parse : list (string * list ArgSpec) → list string → option (string * gmap string Value);
}.

(** ** Declarations *)

Section declarations.
Context `{Clap}.

Definition u16_parser (s : string) : option Value := VInt <$> clap_u16 s.
Definition text_parser (s : string) : option Value := Some (VText s).
Definition fn_parser (f : string → Z + string) (s : string) : option Value :=
  match f s with inl v => Some (VInt v) | inr _ => None end.

Definition CommonArgs_args : list ArgSpec :=
  [mkArg "grpc-port" true None None u16_parser;
   mkArg "self-host" true None None text_parser;
   mkArg "self-port" false None None u16_parser].

Definition manager_args : list ArgSpec :=
  CommonArgs_args ++
  [mkArg "manager-host" false None (Some "manager-port"%string) text_parser;
   mkArg "manager-port" false None (Some "manager-host"%string) u16_parser;
   mkArg "replication-factor" false (Some (VInt 3)) None (fn_parser parse_replication_factor)].

Definition worker_args : list ArgSpec :=
  CommonArgs_args ++
  [mkArg "manager-host" true None None text_parser;
   mkArg "manager-port" true None None u16_parser;
   mkArg "expired-cleanup-interval-secs" false (Some (VInt 300)) None (fn_parser parse_positive_u64)].

Definition subcommands : list (string * list ArgSpec) :=
  [("manager"%string, manager_args); ("worker"%string, worker_args)].

(** ** The command built from the values *)

Definition get_int (m : gmap string Value) (name : string) : option Z :=
  match m !! name with Some (VInt n) => Some n | _ => None end.
Definition get_text (m : gmap string Value) (name : string) : option string :=
  match m !! name with Some (VText s) => Some s | _ => None end.

Definition CommonArgs_from_matches (m : gmap string Value) : option CommonArgs :=
  grpc_port ← get_int m "grpc-port";
  self_host ← get_text m "self-host";
  Some (mkCommonArgs grpc_port self_host (get_int m "self-port")).

Definition Command_from_matches (name : string) (m : gmap string Value) : option Command :=
  common ← CommonArgs_from_matches m;
  if String.eqb name "manager" then
    replication_factor ← get_int m "replication-factor";
    Some (ManagerCommand common (get_text m "manager-host") (get_int m "manager-port") replication_factor)
  else if String.eqb name "worker" then
    manager_host ← get_text m "manager-host";
    manager_port ← get_int m "manager-port";
    expired_cleanup_interval_secs ← get_int m "expired-cleanup-interval-secs";
    Some (WorkerCommand common manager_host manager_port expired_cleanup_interval_secs)
  else None.

(** [Cli::parse]; [None] is the exit with a usage error. *)
Definition Cli_parse (argv : list string) : option Command :=
  '(name, m) ← clap_parse subcommands argv;
  Command_from_matches name m.

End declarations.

(** What an accepted line satisfies, argument by argument. *)
Record arg_ok (m : gmap string Value) (a : ArgSpec) : Prop := {
  ok_value v : m !! long a = Some v → default_value a = Some v ∨ ∃ text, value_parser a text = Some v;
  ok_required : required a = true → is_Some (m !! long a);
  ok_default : is_Some (default_value a) → is_Some (m !! long a);
  ok_requires b : requires a = Some b → is_Some (m !! long a) → is_Some (m !! b);
}.

Class ClapLaws `{Clap} : Prop := {
  clap_u16_range s v : clap_u16 s = Some v → is_u16 v;
  clap_parse_ok subs argv name m : clap_parse subs argv = Some (name, m) →
    ∃ args, (name, args) ∈ subs ∧ ∀ a, a ∈ args → arg_ok m a;
}.

Definition common_valid (c : CommonArgs) : Prop :=
  is_u16 (grpc_port c) ∧ ∀ p, self_port_arg c = Some p → is_u16 p.

Definition command_valid (c : Command) : Prop :=
  match c with
  | ManagerCommand common host port replication_factor =>
      common_valid common ∧ (is_Some host ↔ is_Some port) ∧ (∀ p, port = Some p → is_u16 p) ∧
      1 <= replication_factor < u64_modulus
  | WorkerCommand common _ port secs => common_valid common ∧ is_u16 port ∧ 1 <= secs < u64_modulus
  end.

Section theorems.
Context `{ClapLaws}.
Implicit Types m : gmap string Value.

Lemma arg_u16 m name req requires v :
  arg_ok m (mkArg name req None requires u16_parser) → m !! name = Some v → ∃ n, v = VInt n ∧ is_u16 n.
Proof.
  intros Ha Hv. destruct (ok_value _ _ Ha v Hv) as [?|[text Ht]]; [done|]. simpl in Ht. unfold u16_parser in Ht.
  apply fmap_Some in Ht as (n & Hn & ->). exists n. split; [done|]. by eapply clap_u16_range.
Qed.

Lemma arg_text m name req requires v :
  arg_ok m (mkArg name req None requires text_parser) → m !! name = Some v → ∃ s, v = VText s.
Proof.
  intros Ha Hv. destruct (ok_value _ _ Ha v Hv) as [?|[text Ht]]; [done|].
  simpl in Ht. unfold text_parser in Ht. simplify_eq. by eexists.
Qed.

(** A numeric option with a default in range and a parser that checks its range. *)
Lemma arg_number m name d f :
  1 <= d < u64_modulus → (∀ s v, f s = inl v → 1 <= v < u64_modulus) →
  arg_ok m (mkArg name false (Some (VInt d)) None (fn_parser f)) →
  ∃ n, get_int m name = Some n ∧ 1 <= n < u64_modulus.
Proof.
  intros Hd Hf Ha. destruct (ok_default _ _ Ha) as [v Hv]; [by eexists|]. simpl in Hv. unfold get_int. rewrite Hv.
  destruct (ok_value _ _ Ha v Hv) as [Hv'|[text Ht]].
  - simplify_eq/=. by exists d.
  - simpl in Ht. unfold fn_parser in Ht. destruct (f text) as [n|] eqn:E; [|done]. simplify_eq. exists n. eauto.
Qed.

Lemma get_int_u16 m name req requires :
  arg_ok m (mkArg name req None requires u16_parser) →
  (∀ p, get_int m name = Some p → is_u16 p) ∧ (is_Some (m !! name) ↔ is_Some (get_int m name)).
Proof.
  intros Ha. unfold get_int. destruct (m !! name) as [v|] eqn:Hv.
  - destruct (arg_u16 m name req requires v Ha Hv) as (n & -> & Hn). split; [by intros p [= <-]|].
    split; by eexists.
  - split; [done|]. split; by intros [? ?].
Qed.

Lemma get_text_some m name req requires :
  arg_ok m (mkArg name req None requires text_parser) → (is_Some (m !! name) ↔ is_Some (get_text m name)).
Proof.
  intros Ha. unfold get_text. destruct (m !! name) as [v|] eqn:Hv; [|split; by intros [? ?]].
  destruct (arg_text m name req requires v Ha Hv) as (s & ->). split; by eexists.
Qed.

Lemma common_from_matches m :
  (∀ a, a ∈ CommonArgs_args → arg_ok m a) → ∃ c, CommonArgs_from_matches m = Some c ∧ common_valid c.
Proof.
  intros Hall.
  assert (arg_ok m (mkArg "grpc-port" true None None u16_parser)) as Hg by (apply Hall; set_solver).
  assert (arg_ok m (mkArg "self-host" true None None text_parser)) as Hh by (apply Hall; set_solver).
  assert (arg_ok m (mkArg "self-port" false None None u16_parser)) as Hs by (apply Hall; set_solver).
  destruct (get_int_u16 _ _ _ _ Hg) as [Hgr Hgs], (get_int_u16 _ _ _ _ Hs) as [Hsr _].
  pose proof (proj1 (get_text_some _ _ _ _ Hh) (ok_required _ _ Hh eq_refl)) as [h Eh].
  pose proof (proj1 Hgs (ok_required _ _ Hg eq_refl)) as [g Eg].
  unfold CommonArgs_from_matches. rewrite Eg, Eh. simpl. eexists. split; [done|]. split; simpl; auto.
Qed.

Lemma replication_factor_range s v : parse_replication_factor s = inl v → 1 <= v < u64_modulus.
Proof.
  unfold parse_replication_factor. destruct (parse_u64 s) as [n|] eqn:E; [|done]. apply parse_u64_range in E.
  destruct (Z.eqb_spec n 0); [done|]. intros [= <-]. lia.
Qed.

Lemma positive_u64_range s v : parse_positive_u64 s = inl v → 1 <= v < u64_modulus.
Proof.
  unfold parse_positive_u64. destruct (parse_u64 s) as [n|] eqn:E; [|done]. apply parse_u64_range in E.
  destruct (Z.eqb_spec n 0); [done|]. intros [= <-]. lia.
Qed.

Lemma manager_from_matches m :
  (∀ a, a ∈ manager_args → arg_ok m a) →
  ∃ common host port rf, Command_from_matches "manager" m = Some (ManagerCommand common host port rf) ∧
    command_valid (ManagerCommand common host port rf).
Proof.
  intros Hok. unfold Command_from_matches.
  destruct (common_from_matches m) as (c & -> & Hc); [intros a Ha; apply Hok; set_solver|].
  cbn [mbind option_bind]. simpl String.eqb. cbv iota.
  assert (arg_ok m (mkArg "manager-host" false None (Some "manager-port"%string) text_parser)) as Hh by (apply Hok; set_solver).
  assert (arg_ok m (mkArg "manager-port" false None (Some "manager-host"%string) u16_parser)) as Hq by (apply Hok; set_solver).
  assert (arg_ok m (mkArg "replication-factor" false (Some (VInt 3)) None (fn_parser parse_replication_factor))) as Hr
    by (apply Hok; set_solver).
  destruct (arg_number m _ 3 _ ltac:(done) replication_factor_range Hr) as (rf & -> & Hrf).
  destruct (get_int_u16 _ _ _ _ Hq) as [Hqr Hqs]. eexists _, _, _, _. split; [done|]. simpl. split_and!; try done; try lia.
  rewrite <- Hqs, <- (get_text_some _ _ _ _ Hh).
  split; [apply (ok_requires _ _ Hh "manager-port" eq_refl)|apply (ok_requires _ _ Hq "manager-host" eq_refl)].
Qed.

Lemma worker_from_matches m :
  (∀ a, a ∈ worker_args → arg_ok m a) →
  ∃ common host port secs, Command_from_matches "worker" m = Some (WorkerCommand common host port secs) ∧
    command_valid (WorkerCommand common host port secs).
Proof.
  intros Hok. unfold Command_from_matches.
  destruct (common_from_matches m) as (c & -> & Hc); [intros a Ha; apply Hok; set_solver|].
  cbn [mbind option_bind]. simpl String.eqb. cbv iota.
  assert (arg_ok m (mkArg "manager-host" true None None text_parser)) as Hh by (apply Hok; set_solver).
  assert (arg_ok m (mkArg "manager-port" true None None u16_parser)) as Hq by (apply Hok; set_solver).
  assert (arg_ok m (mkArg "expired-cleanup-interval-secs" false (Some (VInt 300)) None (fn_parser parse_positive_u64))) as Hr
    by (apply Hok; set_solver).
  destruct (arg_number m _ 300 _ ltac:(done) positive_u64_range Hr) as (secs & -> & Hsecs).
  destruct (get_int_u16 _ _ _ _ Hq) as [Hqr Hqs].
  destruct (proj1 (get_text_some _ _ _ _ Hh) (ok_required _ _ Hh eq_refl)) as [h ->].
  destruct (proj1 Hqs (ok_required _ _ Hq eq_refl)) as [p Ep]. rewrite Ep. simpl.
  eexists _, _, _, _. split; [done|]. simpl. split_and!; [apply Hc..|by apply Hqr|lia|lia].
Qed.

(** C28: An accepted command line is a valid command.  For every argument list clap
    accepts, the derived command exists (no declared argument is missing or of the
    wrong kind), its ports are 16 bits wide, a manager's optional manager address
    is given completely or not at all, the replication factor and the cleanup
    interval are at least one and fit their types, and the configuration built
    from it has a replication factor exactly when it is a manager's. *)
Theorem cli_accepts_valid argv :
  is_Some (clap_parse subcommands argv) →
  ∃ command, Cli_parse argv = Some command ∧ command_valid command ∧
    is_u16 (Config_grpc_port (Config_from_cli command)) ∧
    (is_Some (Config_replication_factor (Config_from_cli command)) ↔
       match command with ManagerCommand _ _ _ _ => True | WorkerCommand _ _ _ _ => False end).
Proof.
  intros [[name m] Hp]. unfold Cli_parse. rewrite Hp. cbn [mbind option_bind].
  destruct (clap_parse_ok _ _ _ _ Hp) as (args & Hin & Hok).
  unfold subcommands in Hin. rewrite !elem_of_cons in Hin.
  destruct Hin as [[= -> ->]|[[= -> ->]|[]%not_elem_of_nil]].
  - destruct (manager_from_matches m Hok) as (common & host & port & rf & -> & Hv). eexists. split; [done|].
    split; [done|]. split; [exact (proj1 (proj1 Hv))|]. simpl. split; eauto.
  - destruct (worker_from_matches m Hok) as (common & host & port & secs & -> & Hv). eexists. split; [done|].
    split; [done|]. split; [exact (proj1 (proj1 Hv))|]. simpl. split; [by intros [? ?]|done].
Qed.

End theorems.

(** ** A parser with this behaviour

    Options as pairs of words after the subcommand; for the witness and for the
    unit tests of cli.rs. *)

#[export] Instance Value_eq_dec : EqDecision Value.
Proof. solve_decision. Defined.

Fixpoint word_pairs (argv : list string) : option (gmap string string) :=
  match argv with
  | [] => Some ∅
  | String "-"%char (String "-"%char name) :: text :: argv => m ← word_pairs argv; Some (<[name := text]> m)
  | _ => None
  end.

Definition arg_value (texts : gmap string string) (a : ArgSpec) : option Value :=
  match texts !! long a with Some text => value_parser a text | None => default_value a end.

Definition values (texts : gmap string string) (args : list ArgSpec) : gmap string Value :=
  collect_map (omap (λ a, (λ v, (long a, v)) <$> arg_value texts a) args).

Definition given (m : gmap string Value) (name : string) : bool :=
  match m !! name with Some _ => true | None => false end.

Definition check_arg (texts : gmap string string) (m : gmap string Value) (a : ArgSpec) : bool :=
  bool_decide (m !! long a = arg_value texts a) &&
  implb (required a || bool_decide (texts !! long a ≠ None) || bool_decide (default_value a ≠ None)) (given m (long a)) &&
  match requires a with Some b => implb (given m (long a)) (given m b) | None => true end.

Definition pair_clap : Clap := {|
  clap_u16 s := n ← parse_u64 s; if n <? u16_modulus then Some n else None;
  clap_parse subs argv :=
    match argv with
    | _ :: name :: rest =>
        '(_, args) ← head (filter (λ sub : string * list ArgSpec, sub.1 = name) subs);
        texts ← word_pairs rest;
        let m := values texts args in
        if forallb (check_arg texts m) args && forallb (λ n, existsb (λ a, String.eqb (long a) n) args) (map_to_list texts).*1
        then Some (name, m) else None
    | _ => None
    end;
|}.

Lemma given_Some m name : given m name = true ↔ is_Some (m !! name).
Proof. unfold given. destruct (m !! name); split; [by eexists|done|done|by intros [? ?]]. Qed.

Lemma check_arg_ok texts m a : check_arg texts m a = true → arg_ok m a.
Proof.
  unfold check_arg. rewrite !andb_true_iff, bool_decide_eq_true. intros [[Hv Hg] Hr].
  split.
  - intros v Hm. rewrite Hm in Hv. symmetry in Hv. unfold arg_value in Hv.
    destruct (texts !! long a) as [text|]; [right; by exists text|by left].
  - intros Hreq. rewrite Hreq in Hg. by apply given_Some.
  - intros [d Hd]. apply given_Some. rewrite Hd in Hg. rewrite orb_true_r in Hg. exact Hg.
  - intros b Hb Ha%given_Some. rewrite Hb, Ha in Hr. by apply given_Some.
Qed.

Lemma pair_clap_laws : ClapLaws (H := pair_clap).
Proof.
  split.
  - simpl. intros s v. destruct (parse_u64 s) as [n|] eqn:E; [|done]. apply parse_u64_range in E. simpl.
    destruct (Z.ltb_spec n u16_modulus); [|done]. intros [= <-]. unfold is_u16. lia.
  - intros subs [|bin [|name rest]] name' m; simpl; [done..|].
    destruct (head _) as [[name0 args]|] eqn:Hh; [|done]. simpl.
    assert ((name0, args) ∈ filter (λ sub : string * list ArgSpec, sub.1 = name) subs) as Hin.
    { destruct (filter _ _) as [|x l]; simplify_eq/=. by left. }
    apply list_elem_of_filter in Hin as [Hn Hin]. simpl in Hn. subst name0.
    destruct (word_pairs rest) as [texts|]; [|done]. simpl.
    destruct (_ && _) eqn:E; [|done]. intros [= <- <-]. apply andb_true_iff in E as [E _].
    exists args. split; [done|]. intros a Ha%list_elem_of_In. rewrite forallb_forall in E.
    by eapply check_arg_ok, E.
Qed.

Definition worker_line : list string :=
  ["bin"; "worker"; "--grpc-port"; "5001"; "--self-host"; "127.0.0.1"; "--manager-host"; "10.0.0.1";
   "--manager-port"; "6000"]%string.

Lemma cli_accepts_valid_witness :
  ∃ command, Cli_parse (H := pair_clap) worker_line = Some command ∧ command_valid command.
Proof.
  destruct (cli_accepts_valid (H := pair_clap) (H0 := pair_clap_laws) worker_line) as (c & Hc & Hv & _).
  - vm_compute. by eexists.
  - exists c. exact (conj Hc Hv).
Defined.
