(* ===== verification/Conformance.v ===== *)
(** * The unit tests of cli.rs, common.rs, worker/service/cluster_state.rs and of the client

    Each test as a boolean that evaluates to [true].  The tests of cli.rs and
    common.rs that parse a command line run on the declarations of CliArgs with the
    parser [pair_clap] in clap's place; [now_millis()] is read as [test_now]. *)

From S2P Require Import Prelude Common Conversions Client Cli CliArgs.
From S2P Require Import WorkerState RuntimeStore ConformanceStore ConformanceWorker.

(** ** cli.rs *)

Definition is_err {A B} (r : A + B) : bool := match r with inr _ => true | inl _ => false end.

Definition parse_replication_factor_rejects_zero : bool := is_err (parse_replication_factor "0").

Definition parse_replication_factor_rejects_non_positive_or_non_int : bool :=
  is_err (parse_replication_factor "-1") && is_err (parse_replication_factor "abc").

Definition parse_replication_factor_accepts_positive_int : bool :=
  bool_decide (parse_replication_factor "1" = inl 1) && bool_decide (parse_replication_factor "3" = inl 3).

Definition common_args_self_port_defaults_to_grpc_port : bool :=
  self_port (mkCommonArgs 1234 "127.0.0.1" None) =? 1234.

Definition common_args_self_port_overrides_grpc_port : bool :=
  self_port (mkCommonArgs 1234 "127.0.0.1" (Some 5678)) =? 5678.

Section command_lines.
Open Scope string_scope.
#[local] Instance test_clap : Clap := pair_clap.

Definition rejected (argv : list string) : bool := match Cli_parse argv with None => true | Some _ => false end.

Definition manager_requires_host_and_port_together : bool :=
  rejected ["bin"; "manager"; "--grpc-port"; "5000"; "--self-host"; "127.0.0.1"; "--manager-host"; "10.0.0.1"] &&
  rejected ["bin"; "manager"; "--grpc-port"; "5000"; "--self-host"; "127.0.0.1"; "--manager-port"; "6000"].

Definition manager_replication_factor_defaults_to_3 : bool :=
  match Cli_parse ["bin"; "manager"; "--grpc-port"; "5000"; "--self-host"; "127.0.0.1"] with
  | Some (ManagerCommand _ _ _ replication_factor) => (replication_factor =? 3)%Z
  | _ => false
  end.

Definition manager_replication_factor_is_validated_by_clap_value_parser : bool :=
  rejected ["bin"; "manager"; "--grpc-port"; "5000"; "--self-host"; "127.0.0.1"; "--replication-factor"; "0"].

Definition parsed_common_args_self_port_defaults_to_grpc_port : bool :=
  match Cli_parse ["bin"; "worker"; "--grpc-port"; "5001"; "--self-host"; "127.0.0.1"; "--manager-host"; "10.0.0.1";
                   "--manager-port"; "6000"] with
  | Some (WorkerCommand common _ _ _) => (self_port common =? 5001)%Z
  | _ => false
  end.

Definition worker_expired_cleanup_interval_defaults_to_five_minutes : bool :=
  match Cli_parse ["bin"; "worker"; "--grpc-port"; "5001"; "--self-host"; "127.0.0.1"; "--manager-host"; "10.0.0.1";
                   "--manager-port"; "6000"] with
  | Some (WorkerCommand _ _ _ expired_cleanup_interval_secs) => (expired_cleanup_interval_secs =? 300)%Z
  | _ => false
  end.

Definition worker_expired_cleanup_interval_must_be_positive : bool :=
  rejected ["bin"; "worker"; "--grpc-port"; "5001"; "--self-host"; "127.0.0.1"; "--manager-host"; "10.0.0.1";
            "--manager-port"; "6000"; "--expired-cleanup-interval-secs"; "0"].

(** ** common.rs *)

Definition config_from_cli_manager_sets_replication_factor_and_optional_manager_addr : bool :=
  match Config_from_cli <$> Cli_parse ["bin"; "manager"; "--grpc-port"; "5000"; "--self-host"; "127.0.0.1";
                                       "--replication-factor"; "5"] with
  | Some (ManagerConfig grpc_port self_host_port manager_host_port replication_factor) =>
      (grpc_port =? 5000)%Z && bool_decide (self_host_port = ("127.0.0.1", 5000%Z)) &&
      bool_decide (manager_host_port = None) && (replication_factor =? 5)%Z
  | _ => false
  end.

Definition config_from_cli_worker_sets_manager_addr_and_has_no_replication_factor : bool :=
  match Config_from_cli <$> Cli_parse ["bin"; "worker"; "--grpc-port"; "5001"; "--self-host"; "127.0.0.1";
                                       "--self-port"; "7777"; "--manager-host"; "10.0.0.1"; "--manager-port"; "6000"] with
  | Some (WorkerConfig grpc_port self_host_port manager_host_port expired_cleanup_interval_secs) =>
      (grpc_port =? 5001)%Z && bool_decide (self_host_port = ("127.0.0.1", 7777%Z)) &&
      bool_decide (manager_host_port = ("10.0.0.1", 6000%Z)) && (expired_cleanup_interval_secs =? 300)%Z
  | _ => false
  end.

End command_lines.

Lemma command_line_tests_pass :
  forallb id
    [parse_replication_factor_rejects_zero; parse_replication_factor_rejects_non_positive_or_non_int;
     parse_replication_factor_accepts_positive_int; common_args_self_port_defaults_to_grpc_port;
     common_args_self_port_overrides_grpc_port; manager_requires_host_and_port_together;
     manager_replication_factor_defaults_to_3; manager_replication_factor_is_validated_by_clap_value_parser;
     parsed_common_args_self_port_defaults_to_grpc_port; worker_expired_cleanup_interval_defaults_to_five_minutes;
     worker_expired_cleanup_interval_must_be_positive;
     config_from_cli_manager_sets_replication_factor_and_optional_manager_addr;
     config_from_cli_worker_sets_manager_addr_and_has_no_replication_factor] = true.
Proof. vm_compute. reflexivity. Qed.

(** ** worker/service/cluster_state.rs *)

Definition has_node (id : NodeId) (s : State) : bool := match nodes s !! id with Some _ => true | None => false end.

Definition full_snapshot_removes_absent_nodes_but_keeps_self : bool :=
  let me := mkMe (node_id 1) "me.local" 9000 in
  let retained := node_id 2 in
  let stale := node_id 3 in
  let state := State_new (cluster_nodes [me_id me; retained; stale]) in
  let '(state, _) :=
    handle_cluster_state test_now state 1 retained
      [mkClusterNode retained "manager.local" 9001 10 Manager] Partitions_default me in
  has_node (me_id me) state && has_node retained state && negb (has_node stale state).

Definition partitions_only_snapshot_preserves_membership : bool :=
  let me := mkMe (node_id 1) "me.local" 9000 in
  let peer := node_id 2 in
  let state := State_new (cluster_nodes [me_id me; peer]) in
  let partitions := mkPartitions {[ mkPartitionId 1 := mkPartition (me_id me) ∅ ]} ∅ ∅ in
  let '(state, _) := handle_cluster_state test_now state 1 peer [] partitions me in
  has_node peer state &&
  match mapping (WorkerState.partitions state) !! mkPartitionId 1 with Some _ => true | None => false end.

(** ** The client *)

Definition partition_matches_worker_algorithm : bool :=
  (Client.partition 0 =? 0) && (Client.partition 4095 =? 4095) && (Client.partition 4096 =? 0) &&
  (Client.partition 8193 =? 1).

Definition read_fallback_includes_current_old_and_new_replicas : bool :=
  let t :=
    apply_state
      (mkGClusterState 1 "leader" [mkGNode "master" (Some (mkGAddr "localhost" 1)) 0 (domain_node_type_to_grpc Worker)]
         (Some (mkGPartitions {[ 7 := mkGPartition "master" ["current"] ]} {[ 7 := mkGReplicas ["new"] ]}
                  {[ 7 := mkGReplicas ["old"] ]})))
      Topology_default in
  match read_targets 7 t with
  | Ok (master, fallback) =>
      bool_decide (master = "master") &&
      bool_decide (list_to_set fallback =@{gset string} {[ "current"; "old"; "new" ]})
  | Err _ => false
  end.

Definition stale_cluster_state_is_ignored : bool :=
  let t := apply_state (mkGClusterState 2 "new" [] None) Topology_default in
  let t := apply_state (mkGClusterState 1 "old" [] None) t in
  (t_epoch t =? 2) && bool_decide (t_leader_id t = "new").

Lemma state_and_client_tests_pass :
  forallb id
    [full_snapshot_removes_absent_nodes_but_keeps_self; partitions_only_snapshot_preserves_membership;
     partition_matches_worker_algorithm; read_fallback_includes_current_old_and_new_replicas;
     stale_cluster_state_is_ignored] = true.
Proof. vm_compute. reflexivity. Qed.
