(* ===== verification/ConformanceManager.v ===== *)
(** * The unit tests of the manager on the model

    The files manager/service/**/tests.rs and manager/grpc/*/tests.rs: each test as a
    boolean, the state it builds, the calls it makes and the conjunction of its
    assertions, and that all of them are [true].  [now_millis()] is read as the
    constant [test_now], [get_random_number()] as [test_rnd]; the tokio channels of the
    gRPC tests are the lists of what the tasks send. *)

From S2P Require Import Prelude Common ManagerState ManagerElection ManagerPartitions ManagerService PartitionSpec PartitionTheorems.
From S2P Require Import Conversions Grpc ManagerGrpc GrpcTheorems.

(** ** manager/service/test_support.rs *)

Definition test_now : Z := 1000000.
Definition test_rnd : Z := 700.
Definition test_tick : TickInput := mkTickInput test_now test_rnd test_now test_rnd.

Open Scope string_scope.

Definition id_1 : NodeId := mkNodeId "11111111-1111-1111-1111-111111111111".
Definition id_2 : NodeId := mkNodeId "22222222-2222-2222-2222-222222222222".
Definition id_3 : NodeId := mkNodeId "33333333-3333-3333-3333-333333333333".
Definition id_4 : NodeId := mkNodeId "44444444-4444-4444-4444-444444444444".
Definition id_5 : NodeId := mkNodeId "55555555-5555-5555-5555-555555555555".
Definition id_6 : NodeId := mkNodeId "66666666-6666-6666-6666-666666666666".

Definition test_me (id : NodeId) : Me := mkMe id "127.0.0.1" 7000.

Definition shared_config (manager_host_port : option (string * Z)) : Config :=
  ManagerConfig 8080 ("127.0.0.1", 7000%Z) manager_host_port 3.

Definition service (me : Me) : ManagerService := ManagerService_new me (shared_config (Some ("manager.local", 9000%Z))).

(** [service.state = Some(..)]. *)
Definition service_with (me : Me) (s : State) (es : gmap Z Election) : ManagerService :=
  mkManagerService me (Some s) es (config (service me)).

Definition fresh_node (me : Me) (last_heartbeat : Z) : Node := mkNode (me_host me) (me_port me) last_heartbeat Manager.
Definition node (host : string) (port last_heartbeat : Z) : Node := mkNode host port last_heartbeat Manager.
Definition worker_node (host : string) (port last_heartbeat : Z) : Node := mkNode host port last_heartbeat Worker.

Definition plain_state (epoch : option Z) (leader : option NodeId) (ns : list (NodeId * Node)) : State :=
  mkState epoch leader (collect_map ns) Partitions_default ∅.

Definition me : Me := test_me id_1.

Close Scope string_scope.

(** Assertions. *)
Definition same_id (a b : NodeId) : bool := bool_decide (a = b).
Definition knows (id : NodeId) (s : State) : bool := bool_decide (is_Some (nodes s !! id)).
Definition heartbeat_of (id : NodeId) (s : State) : option Z := last_heartbeat <$> nodes s !! id.
Definition asks_only (id : NodeId) (out : list ManagerProtocol.t) : bool :=
  match out with [ManagerProtocol.GetClusterState id'] => same_id id' id | _ => false end.
Definition forwards_only (to from : NodeId) (ts : Z) (out : list ManagerProtocol.t) : bool :=
  match out with
  | [ManagerProtocol.Heartbeat id hb] => same_id id to && same_id (hb_id hb) from && (hb_ts hb =? ts)
  | _ => false
  end.
Definition is_nil {A} (l : list A) : bool := match l with [] => true | _ => false end.

(** A call of [process] or [tick] on a service, then the assertions on its state, its
    elections and its output. *)
Definition run_test (r : option (ManagerService * list ManagerProtocol.t))
    (f : State → gmap Z Election → list ManagerProtocol.t → bool) : bool :=
  match r with
  | Some (svc, out) => match state svc with Some s => f s (elections svc) out | None => false end
  | None => false
  end.

(** ** manager/service/tests.rs *)

Definition init_with_manager_connection_requests_connection_and_sets_state : bool :=
  let '(svc, out) := get_init_messages test_now (service me) in
  match out with
  | [ManagerProtocol.NewConnection _ host port manager] =>
      bool_decide (host = "manager.local"%string) && (port =? 9000) && manager
  | _ => false
  end &&
  match state svc with
  | Some s => bool_decide (epoch s = None) && bool_decide (elected_leader_id s = None) && knows (me_id me) s
  | None => false
  end.

Definition init_without_manager_starts_as_epoch_zero : bool :=
  let '(svc, out) := get_init_messages test_now (ManagerService_new me (shared_config None)) in
  is_nil out &&
  match state svc with
  | Some s => bool_decide (epoch s = Some 0) && bool_decide (elected_leader_id s = None) &&
      bool_decide (size (nodes s) = 1%nat) && knows (me_id me) s
  | None => false
  end.

(** ** manager/service/heartbeat/tests.rs *)

Definition heartbeat_from_unknown_node_requests_cluster_state_from_peers : bool :=
  let s := plain_state (Some 1) (Some (me_id me)) [(me_id me, fresh_node me test_now); (id_2, node "peer.local" 9001 0)] in
  run_test (process test_now test_tick (ManagerProtocol.Heartbeat (me_id me) (mkHeartbeat id_3 42)) (service_with me s ∅))
    (λ _ _ out, asks_only id_2 out).

Definition heartbeat_from_known_peer_is_forwarded_only_when_we_are_leader : bool :=
  let peer_one := id_2 in
  let peer_two := id_3 in
  let s := plain_state (Some 1) (Some (me_id me))
    [(me_id me, fresh_node me test_now); (peer_one, node "peer-one.local" 9001 0); (peer_two, node "peer-two.local" 9002 0)] in
  let '(s, forwarded) := handle_heartbeat s peer_one 42 me in
  let '(s, not_forwarded) := handle_heartbeat (set_leader (Some peer_two) s) peer_one 43 me in
  forwards_only peer_two peer_one 42 forwarded && is_nil not_forwarded && bool_decide (heartbeat_of peer_one s = Some 43).

Definition heartbeat_from_worker_updates_worker_without_forwarding : bool :=
  let worker := id_2 in
  let manager_peer := id_3 in
  let s := plain_state (Some 1) (Some (me_id me))
    [(me_id me, fresh_node me test_now); (worker, worker_node "worker.local" 9100 12); (manager_peer, node "manager.local" 9001 0)] in
  let '(s, out) := handle_heartbeat s worker 44 me in
  forwards_only manager_peer worker 44 out && bool_decide (heartbeat_of worker s = Some 44).

Definition older_heartbeat_does_not_move_last_heartbeat_backwards : bool :=
  let peer := id_2 in
  let s := plain_state (Some 1) (Some peer) [(me_id me, fresh_node me 100); (peer, node "peer.local" 9001 200)] in
  bool_decide (heartbeat_of peer (handle_heartbeat s peer 150 me).1 = Some 200).

Definition tick_emits_heartbeats_for_stale_self_heartbeat : bool :=
  let peer := id_2 in
  let s := plain_state (Some 1) (Some (me_id me))
    [(me_id me, fresh_node me (test_now - 1000)); (peer, node "peer.local" 9001 0)] in
  run_test (tick test_tick (service_with me s ∅)) (λ _ _ out,
    match out with
    | [ManagerProtocol.Heartbeat id hb] => same_id id peer && same_id (hb_id hb) (me_id me)
    | _ => false
    end).

Definition tick_clears_stale_remote_leader_without_emitting_messages : bool :=
  let leader := id_2 in
  let s := plain_state None (Some leader)
    [(me_id me, fresh_node me test_now); (leader, node "leader.local" 9001 (test_now - 1000))] in
  run_test (tick test_tick (service_with me s ∅)) (λ s _ out, is_nil out && bool_decide (elected_leader_id s = None)).

(** ** manager/service/connection/tests.rs *)

Definition new_connection_adds_node_and_requests_cluster_state : bool :=
  let s := plain_state None None [(me_id me, fresh_node me test_now)] in
  run_test (process test_now test_tick (ManagerProtocol.NewConnection (Some id_2) "peer.local" 9001 true) (service_with me s ∅))
    (λ s _ out, asks_only id_2 out && knows id_2 s).

Definition new_connection_while_we_are_leader_does_not_request_cluster_state : bool :=
  let s := plain_state (Some 1) (Some (me_id me)) [(me_id me, fresh_node me test_now); (id_2, node "peer.local" 9001 test_now)] in
  is_nil (handle_new_connection test_now s (Some id_3) "third.local" 9002 me true).2.

Definition node_disconnected_for_unknown_node_is_a_noop : bool :=
  let leader := id_2 in
  let s := plain_state (Some 1) (Some leader) [(me_id me, fresh_node me test_now); (leader, node "leader.local" 9001 test_now)] in
  let s := handle_node_disconnected s id_3 in
  knows (me_id me) s && knows leader s && bool_decide (elected_leader_id s = Some leader).

Definition node_disconnected_clears_current_leader : bool :=
  let leader := id_2 in
  let s := plain_state (Some 7) (Some leader) [(leader, node "leader.local" 9001 0)] in
  run_test (process test_now test_tick (ManagerProtocol.NodeDisconnected leader) (service_with me s ∅))
    (λ s _ out, is_nil out && bool_decide (elected_leader_id s = None) && negb (knows leader s)).

Lemma manager_service_tests_pass :
  forallb id
    [init_with_manager_connection_requests_connection_and_sets_state; init_without_manager_starts_as_epoch_zero;
     heartbeat_from_unknown_node_requests_cluster_state_from_peers;
     heartbeat_from_known_peer_is_forwarded_only_when_we_are_leader;
     heartbeat_from_worker_updates_worker_without_forwarding; older_heartbeat_does_not_move_last_heartbeat_backwards;
     tick_emits_heartbeats_for_stale_self_heartbeat; tick_clears_stale_remote_leader_without_emitting_messages;
     new_connection_adds_node_and_requests_cluster_state;
     new_connection_while_we_are_leader_does_not_request_cluster_state; node_disconnected_for_unknown_node_is_a_noop;
     node_disconnected_clears_current_leader] = true.
Proof. vm_compute. reflexivity. Qed.

(** ** manager/service/election/tests.rs *)

Definition votes_only (to leader : NodeId) (ts : Z) (out : list ManagerProtocol.t) : bool :=
  match out with
  | [ManagerProtocol.VoteResponse id leader_id ts'] => same_id id to && same_id leader_id leader && (ts' =? ts)
  | _ => false
  end.

Definition announces (to : NodeId) (m : ManagerProtocol.t) : bool :=
  match m with ManagerProtocol.Leader id _ _ => same_id id to | _ => false end.

Definition vote_request_adds_new_election_reuses_candidate_and_ignores_stale_epochs : bool :=
  let peer_one := id_2 in
  let peer_two := id_3 in
  let s := plain_state (Some 0) (Some (me_id me))
    [(me_id me, fresh_node me test_now); (peer_one, node "peer-one.local" 9001 test_now);
     (peer_two, node "peer-two.local" 9002 test_now)] in
  let request id epoch ts svc := process test_now test_tick (ManagerProtocol.VoteRequest id epoch ts) svc in
  match request peer_one 1 100 (service_with me s ∅) with
  | Some (svc, first) =>
      match request peer_two 1 200 svc with
      | Some (svc, second) =>
          match request peer_two 0 300 svc with
          | Some (_, stale) => votes_only peer_one peer_one 100 first && votes_only peer_two peer_one 100 second && is_nil stale
          | None => false
          end
      | None => false
      end
  | None => false
  end.

Definition mine_100 : gmap Z Election := {[ 1 := Mine 100 ∅ ]}.

Definition vote_response_for_unknown_leader_requests_cluster_state : bool :=
  let peer := id_2 in
  let unknown_leader := id_3 in
  let s := plain_state (Some 1) (Some (me_id me)) [(me_id me, fresh_node me test_now); (peer, node "peer.local" 9001 test_now)] in
  asks_only peer (handle_vote_response s peer unknown_leader 100 me mine_100).2.

Definition vote_responses_elect_self_and_broadcast_leader : bool :=
  let peer_one := id_2 in
  let peer_two := id_3 in
  let s := plain_state (Some 0) (Some (me_id me))
    [(me_id me, fresh_node me test_now); (peer_one, node "peer-one.local" 9001 0); (peer_two, node "peer-two.local" 9002 0)] in
  let '(s, es, first) := handle_vote_response s peer_one (me_id me) 100 me mine_100 in
  let '(s, es, second) := handle_vote_response s peer_two (me_id me) 100 me es in
  is_nil first && bool_decide (elected_leader_id s = Some (me_id me)) && bool_decide (epoch s = Some 1) &&
  match second with
  | [ManagerProtocol.Leader a epoch ts; ManagerProtocol.Leader b epoch2 ts2] =>
      (epoch =? 1) && (ts =? 100) && (epoch2 =? 1) && (ts2 =? 100) &&
      (same_id a peer_one && same_id b peer_two || same_id a peer_two && same_id b peer_one)
  | _ => false
  end.

Definition vote_responses_complete_election_with_worker_nodes_present : bool :=
  let manager_peer := id_2 in
  let worker_peer := id_3 in
  let s := plain_state (Some 0) (Some (me_id me))
    [(me_id me, fresh_node me test_now); (manager_peer, node "manager.local" 9001 0); (worker_peer, worker_node "worker.local" 9100 0)] in
  let '(s, _, out) := handle_vote_response s manager_peer (me_id me) 100 me mine_100 in
  bool_decide (elected_leader_id s = Some (me_id me)) && bool_decide (epoch s = Some 1) && (length out =? 2)%nat &&
  existsb (announces manager_peer) out && existsb (announces worker_peer) out.

Definition leader_message_updates_epoch_and_clears_pending_elections : bool :=
  let leader := id_2 in
  let s := plain_state (Some 1) None [(me_id me, fresh_node me test_now); (leader, node "leader.local" 9001 test_now)] in
  let '(s, es, _) := handle_leader s leader 2 (test_now + 10) me {[ 2 := Mine test_now {[ leader ]} ]} in
  bool_decide (epoch s = Some 2) && bool_decide (elected_leader_id s = Some leader) &&
  bool_decide (heartbeat_of leader s = Some (test_now + 10)) && bool_decide (size es = 0%nat).

Definition leader_with_unknown_id_requests_cluster_state_from_manager_peers_only : bool :=
  let manager_peer := id_2 in
  let worker_peer := id_3 in
  let leader := id_4 in
  let s := plain_state (Some 1) None
    [(me_id me, fresh_node me test_now); (manager_peer, node "manager.local" 9001 test_now);
     (worker_peer, worker_node "worker.local" 9100 test_now)] in
  asks_only manager_peer (handle_leader s leader 2 (test_now + 10) me ∅).2.

Definition leader_messages_only_move_state_forward : bool :=
  let leader := id_2 in
  let s := plain_state (Some 1) None [(me_id me, fresh_node me test_now); (leader, node "leader.local" 9001 test_now)] in
  let '(s, es, _) := handle_leader s leader 2 test_now me ∅ in
  let '(s', _, _) := handle_leader s (me_id me) 1 88 me es in
  bool_decide (epoch s = Some 2) && bool_decide (elected_leader_id s = Some leader) &&
  bool_decide (heartbeat_of leader s = Some test_now) &&
  bool_decide (epoch s' = Some 2) && bool_decide (elected_leader_id s' = Some leader).

(** A tick that asks one peer for its vote in an epoch. *)
Definition starts_election (peer : NodeId) (e : Z) (es : gmap Z Election) (out : list ManagerProtocol.t) : bool :=
  match out with
  | [ManagerProtocol.VoteRequest id epoch _] => same_id id peer && (epoch =? e)
  | _ => false
  end &&
  match last_key_value es with Some (epoch, Mine _ _) => epoch =? e | _ => false end.

Definition tick_starts_election_when_leader_is_missing : bool :=
  let peer := id_2 in
  let s := plain_state (Some 4) None [(me_id me, fresh_node me test_now); (peer, node "peer.local" 9001 0)] in
  run_test (tick test_tick (service_with me s ∅)) (λ _ es out, starts_election peer 5 es out).

Definition tick_starts_a_new_election_only_for_manager_peers : bool :=
  let manager_peer := id_2 in
  let worker_peer := id_3 in
  let future := test_now + 10000 in
  let s := plain_state (Some 7) None
    [(me_id me, fresh_node me future); (manager_peer, node "manager.local" 9001 0); (worker_peer, worker_node "worker.local" 9100 0)] in
  run_test (tick test_tick (service_with me s ∅)) (λ _ es out, starts_election manager_peer 8 es out).

Lemma manager_election_tests_pass :
  forallb id
    [vote_request_adds_new_election_reuses_candidate_and_ignores_stale_epochs;
     vote_response_for_unknown_leader_requests_cluster_state; vote_responses_elect_self_and_broadcast_leader;
     vote_responses_complete_election_with_worker_nodes_present;
     leader_message_updates_epoch_and_clears_pending_elections;
     leader_with_unknown_id_requests_cluster_state_from_manager_peers_only; leader_messages_only_move_state_forward;
     tick_starts_election_when_leader_is_missing; tick_starts_a_new_election_only_for_manager_peers] = true.
Proof. vm_compute. reflexivity. Qed.

(** ** manager/service/cluster_state/tests.rs *)

Definition cluster_node (id : NodeId) (host : string) (port last_heartbeat : Z) (node_type : NodeType) : ClusterNode :=
  mkClusterNode id host port last_heartbeat node_type.

Definition replicas_of (l : list NodeId) : gset NodeId := list_to_set l.

Definition get_cluster_state_returns_current_cluster_snapshot : bool :=
  let s := plain_state (Some 3) (Some (me_id me)) [(me_id me, fresh_node me test_now); (id_2, node "peer.local" 9001 120)] in
  run_test (process test_now test_tick (ManagerProtocol.GetClusterState id_2) (service_with me s ∅)) (λ _ _ out,
    match out with
    | [ManagerProtocol.ClusterState recipient_id cs] =>
        same_id recipient_id id_2 && (cs_epoch cs =? 3) && same_id (cs_leader_id cs) (me_id me) &&
        (length (cs_nodes cs) =? 2)%nat && bool_decide (size (mapping (cs_partitions cs)) = 0%nat) &&
        bool_decide (size (old_replicas (cs_partitions cs)) = 0%nat)
    | _ => false
    end).

Definition get_cluster_state_returns_worker_items_and_partition_mapping : bool :=
  let worker_id := id_2 in
  let s := mkState (Some 3) (Some (me_id me))
    (collect_map [(me_id me, fresh_node me test_now); (worker_id, worker_node "worker.local" 9100 (test_now - 5))])
    (mkPartitions {[ mkPartitionId 7 := mkPartition worker_id (replicas_of [me_id me]) ]} ∅ ∅) ∅ in
  match handle_get_cluster_state s worker_id with
  | [ManagerProtocol.ClusterState recipient_id cs] =>
      same_id recipient_id worker_id &&
      existsb (λ item, same_id (cn_id item) worker_id && bool_decide (cn_host item = "worker.local"%string) &&
                 (cn_port item =? 9100) && (cn_last_heartbeat item =? test_now - 5) &&
                 bool_decide (cn_node_type item = Worker)) (cs_nodes cs) &&
      bool_decide (mapping (cs_partitions cs) !! mkPartitionId 7 = Some (mkPartition worker_id (replicas_of [me_id me])))
  | _ => false
  end.

Definition cluster_state_updates_known_nodes_and_requests_unknown_managers : bool :=
  let peer := id_2 in
  let unknown := id_3 in
  let s := plain_state (Some 1) (Some (me_id me)) [(me_id me, fresh_node me test_now); (peer, node "peer.local" 9001 test_now)] in
  let '(s, out) := handle_cluster_state s 2 (me_id me)
    [cluster_node (me_id me) (me_host me) (me_port me) (test_now + 1) Manager;
     cluster_node unknown "unknown.local" 9002 (test_now + 2) Manager] Partitions_default me in
  match out with
  | [ManagerProtocol.NewConnection None host port manager] =>
      bool_decide (host = "unknown.local"%string) && (port =? 9002) && manager
  | _ => false
  end &&
  bool_decide (epoch s = Some 2) && bool_decide (elected_leader_id s = Some (me_id me)) &&
  bool_decide (heartbeat_of (me_id me) s = Some (test_now + 1)) && negb (knows peer s).

Definition cluster_state_accepts_new_epoch_same_leader_and_rejects_conflicts : bool :=
  let leader := id_2 in
  let other_leader := id_3 in
  let s := plain_state None None [(me_id me, fresh_node me test_now); (leader, node "leader.local" 9001 test_now)] in
  let myself ts := cluster_node (me_id me) (me_host me) (me_port me) ts Manager in
  let '(s1, first) := handle_cluster_state s 4 leader
    [myself test_now; cluster_node leader "leader.local" 9001 test_now Manager] Partitions_default me in
  let '(s2, same_epoch_same_leader) := handle_cluster_state s1 4 leader [myself (test_now + 1)] Partitions_default me in
  let '(s3, conflict) := handle_cluster_state s2 4 other_leader [myself (test_now + 2)] Partitions_default me in
  is_nil first && bool_decide (epoch s1 = Some 4) && is_nil same_epoch_same_leader &&
  bool_decide (heartbeat_of (me_id me) s2 = Some (test_now + 1)) && is_nil conflict && bool_decide (epoch s3 = Some 4) &&
  bool_decide (heartbeat_of (me_id me) s3 = Some (test_now + 1)).

Definition cluster_state_applies_partition_mapping_and_adds_unknown_workers : bool :=
  let worker := id_2 in
  let other_worker := id_3 in
  let s := plain_state (Some 1) (Some (me_id me))
    [(me_id me, fresh_node me test_now); (worker, worker_node "worker.local" 9100 test_now)] in
  let '(s, out) := handle_cluster_state s 2 (me_id me)
    [cluster_node worker "worker.local" 9100 (test_now + 10) Worker;
     cluster_node other_worker "worker-two.local" 9101 (test_now + 20) Worker]
    (mkPartitions {[ mkPartitionId 9 := mkPartition worker (replicas_of [other_worker]) ]}
       {[ mkPartitionId 8 := replicas_of [worker; other_worker] ]} ∅) me in
  is_nil out && bool_decide (heartbeat_of worker s = Some (test_now + 10)) &&
  match nodes s !! other_worker with
  | Some n => bool_decide (host n = "worker-two.local"%string) && (port n =? 9101) && bool_decide (node_type n = Worker)
  | None => false
  end &&
  bool_decide (mapping (partitions s) !! mkPartitionId 9 = Some (mkPartition worker (replicas_of [other_worker]))) &&
  bool_decide (old_replicas (partitions s) !! mkPartitionId 8 = Some (replicas_of [worker; other_worker])).

Definition get_cluster_state_is_ignored_until_the_cluster_is_known : bool :=
  is_nil (handle_get_cluster_state (plain_state None None [(me_id me, fresh_node me test_now)]) id_2).

Definition stale_cluster_state_is_ignored : bool :=
  let leader := id_2 in
  let s := plain_state (Some 3) (Some leader) [(me_id me, fresh_node me test_now); (leader, node "leader.local" 9001 test_now)] in
  let '(s, out) := handle_cluster_state s 2 (me_id me)
    [cluster_node (me_id me) (me_host me) (me_port me) (test_now + 50) Manager] Partitions_default me in
  is_nil out && bool_decide (epoch s = Some 3) && bool_decide (elected_leader_id s = Some leader) &&
  bool_decide (heartbeat_of (me_id me) s = Some test_now).

Lemma manager_cluster_state_tests_pass :
  forallb id
    [get_cluster_state_returns_current_cluster_snapshot; get_cluster_state_returns_worker_items_and_partition_mapping;
     cluster_state_updates_known_nodes_and_requests_unknown_managers;
     cluster_state_accepts_new_epoch_same_leader_and_rejects_conflicts;
     cluster_state_applies_partition_mapping_and_adds_unknown_workers;
     get_cluster_state_is_ignored_until_the_cluster_is_known; stale_cluster_state_is_ignored] = true.
Proof. vm_compute. reflexivity. Qed.

(** ** manager/service/partitions/tests.rs *)

Definition move_current_mapping_to_old_merges_existing_old_mapping_and_filters_stale_replicas : bool :=
  let current_master := id_2 in
  let current_replica := id_3 in
  let old_master := id_4 in
  let old_replica := id_5 in
  let stale_worker := id_6 in
  let s := mkState (Some 1) (Some (me_id me))
    (collect_map [(me_id me, fresh_node me test_now); (current_master, worker_node "worker.local" 9100 0);
                  (current_replica, worker_node "replica.local" 9101 0); (old_replica, worker_node "old-replica.local" 9102 0)])
    (mkPartitions {[ mkPartitionId 1 := mkPartition current_master (replicas_of [current_replica; old_replica]) ]}
       (collect_map [(mkPartitionId 1, replicas_of [old_master; old_replica]); (mkPartitionId 2, replicas_of [stale_worker])]) ∅) ∅ in
  let s := copy_current_mapping_to_old s [current_master; current_replica; old_replica] in
  negb (bool_decide (size (mapping (partitions s)) = 0%nat)) &&
  bool_decide (old_replicas (partitions s) !! mkPartitionId 1 = Some (replicas_of [current_master; current_replica; old_replica])) &&
  negb (bool_decide (old_master ∈ default ∅ (old_replicas (partitions s) !! mkPartitionId 1))) &&
  bool_decide (old_replicas (partitions s) !! mkPartitionId 2 = None) &&
  negb (existsb (λ e : PartitionId * gset NodeId, bool_decide (stale_worker ∈ e.2)) (map_to_list (old_replicas (partitions s)))).

Definition expected_master_for (partition : Z) (workers : list NodeId) : option NodeId :=
  workers !! Z.to_nat (partition `mod` Z.of_nat (length workers)).

Definition expected_replicas_for (partition replication_factor : Z) (workers : list NodeId) : gset NodeId :=
  let master_index := partition `mod` Z.of_nat (length workers) in
  list_to_set (omap (λ replica, i ← calc_replica_index (Z.of_nat (length workers)) master_index replica; workers !! Z.to_nat i)
                 (seqZ 1 (replication_factor - 1))).

Definition has_master (s : State) (workers : list NodeId) (partition : Z) : bool :=
  bool_decide (master <$> mapping (partitions s) !! mkPartitionId partition = expected_master_for partition workers).

Definition three_workers : list (NodeId * Node) :=
  [(id_2, worker_node "worker-a.local" 9100 0); (id_3, worker_node "worker-b.local" 9101 0); (id_4, worker_node "worker-c.local" 9102 0)].

Definition worker_partitions_recomputes_cluster_partition_mapping_and_broadcasts_cluster_state : bool :=
  let workers := [id_2; id_3] in
  let s := plain_state (Some 1) (Some (me_id me)) ((me_id me, fresh_node me test_now) :: take 2 three_workers) in
  match worker_partitions s me 3 with
  | Some (s, out) =>
      (length out =? 2)%nat &&
      forallb (λ m, match m with
                    | ManagerProtocol.ClusterState recipient_id cs =>
                        (same_id recipient_id id_2 || same_id recipient_id id_3) && is_nil (cs_nodes cs) &&
                        (Z.of_nat (size (mapping (cs_partitions cs))) =? PARTITIONS_AMOUNT) &&
                        (size (old_replicas (cs_partitions cs)) =? 0)%nat
                    | _ => false
                    end) out &&
      (Z.of_nat (size (mapping (partitions s))) =? PARTITIONS_AMOUNT) && (size (old_replicas (partitions s)) =? 0)%nat &&
      forallb (λ p, has_master s workers p &&
                 bool_decide (replicas <$> mapping (partitions s) !! mkPartitionId p = Some (expected_replicas_for p 3 workers)))
        [0; 1; 2; 4095]
  | None => false
  end.

Definition worker_partitions_recomputes_while_old_mapping_is_present_and_merges_transition_mapping : bool :=
  let s := mkState (Some 1) (Some (me_id me)) (collect_map ((me_id me, fresh_node me test_now) :: three_workers))
    (mkPartitions {[ mkPartitionId 1 := mkPartition id_2 ∅ ]} {[ mkPartitionId 1 := replicas_of [id_3] ]} ∅)
    (list_to_set [id_2; id_3]) in
  match worker_partitions s me 1 with
  | Some (s, out) =>
      (length out =? 3)%nat && (Z.of_nat (size (mapping (partitions s))) =? PARTITIONS_AMOUNT) &&
      (size (old_replicas (partitions s)) =? 1)%nat &&
      bool_decide (master <$> mapping (partitions s) !! mkPartitionId 1 = Some id_3) &&
      bool_decide (old_replicas (partitions s) !! mkPartitionId 1 = Some (replicas_of [id_2; id_3])) &&
      bool_decide (id_4 ∈ workers_with_calculated_partitions s)
  | None => false
  end.

Lemma manager_partition_tests_pass :
  forallb id
    [move_current_mapping_to_old_merges_existing_old_mapping_and_filters_stale_replicas;
     worker_partitions_recomputes_cluster_partition_mapping_and_broadcasts_cluster_state;
     worker_partitions_recomputes_while_old_mapping_is_present_and_merges_transition_mapping] = true.
Proof. vm_compute. reflexivity. Qed.

(** ** manager/grpc/input/tests.rs and manager/grpc/output/tests.rs *)

Section grpc_tests.
#[local] Instance tests_uuid : UuidApi := any_uuid.

Definition input_from_worker_forwards_messages_and_stops_when_stream_ends : bool :=
  let worker_id := id_2 in
  let '(msgs, panicked) := input_from_worker
    [Some (WorkerEvent.Heartbeat (NodeId_to_string worker_id) 44); Some WorkerEvent.GetClusterState; None]
    worker_id "worker.local" 9100 in
  match msgs with
  | [ManagerProtocol.NewConnection (Some id) host port manager; ManagerProtocol.Heartbeat recipient_id hb;
     ManagerProtocol.GetClusterState id'] =>
      same_id id worker_id && bool_decide (host = "worker.local"%string) && (port =? 9100) && negb manager &&
      same_id recipient_id worker_id && same_id (hb_id hb) worker_id && (hb_ts hb =? 44) && same_id id' worker_id
  | _ => false
  end && negb panicked.

Definition open_output : Stream := mkStream Output false.

Definition manager_session (id : NodeId) (stream : Stream) : Sessions := mkSessions {[ id := stream ]} ∅ ∅.
Definition worker_session (id : NodeId) (stream : Stream) : Sessions := mkSessions ∅ {[ id := stream ]} ∅.

Definition output_routes_leader_to_worker_session : bool :=
  let worker_id := id_2 in
  match (handle_output_leader me (worker_session worker_id open_output) worker_id 3 44).1.2 with
  | [ToWorker to (WorkerEvent.ManagerLeader id epoch ts)] =>
      same_id to worker_id && bool_decide (id = NodeId_to_string (me_id me)) && (epoch =? 3) && (ts =? 44)
  | _ => false
  end.

Definition output_routes_leader_to_manager_session : bool :=
  let manager_id := id_2 in
  match (handle_output_leader me (manager_session manager_id open_output) manager_id 7 99).1.2 with
  | [ToManager to (ManagerEvent.Leader id epoch ts)] =>
      same_id to manager_id && bool_decide (id = NodeId_to_string (me_id me)) && (epoch =? 7) && (ts =? 99)
  | _ => false
  end.

Definition is_wire_node (id : NodeId) (host : string) (port last_heartbeat node_type : Z) (n : GNode) : bool :=
  bool_decide (gn_id n = NodeId_to_string id) &&
  match gn_addr n with Some addr => bool_decide (ga_host addr = host) && (ga_port addr =? port) | None => false end &&
  (gn_last_heartbeat n =? last_heartbeat) && (gn_node_type n =? node_type).

Definition wire_set (l : list NodeId) : gset string := list_to_set (NodeId_to_string <$> l).

Definition output_routes_cluster_state_to_worker_session_includes_partitions : bool :=
  let worker_id := id_2 in
  let manager_node_id := id_3 in
  let worker_node_id := id_4 in
  let cs := mkClusterState 5 manager_node_id
    [mkClusterNode manager_node_id "manager.local" 9001 10 Manager; mkClusterNode worker_node_id "worker.local" 9100 11 Worker]
    (mkPartitions {[ mkPartitionId 7 := mkPartition worker_node_id {[ manager_node_id ]} ]}
       {[ mkPartitionId 6 := replicas_of [manager_node_id; worker_node_id] ]} ∅) in
  match (handle_output_cluster_state (worker_session worker_id open_output) worker_id cs).1.2 with
  | [ToWorker to (WorkerEvent.ClusterState g)] =>
      same_id to worker_id && (gcs_epoch g =? 5) && bool_decide (gcs_leader_id g = NodeId_to_string manager_node_id) &&
      (length (gcs_nodes g) =? 2)%nat && existsb (is_wire_node manager_node_id "manager.local" 9001 10 0) (gcs_nodes g) &&
      existsb (is_wire_node worker_node_id "worker.local" 9100 11 1) (gcs_nodes g) &&
      match gcs_partitions g with
      | Some ps =>
          match gps_mapping ps !! 7, gps_old_replicas ps !! 6 with
          | Some m, Some old =>
              bool_decide (gp_master m = NodeId_to_string worker_node_id) &&
              bool_decide (list_to_set (gp_replicas m) = wire_set [manager_node_id]) &&
              bool_decide (list_to_set (gr_replicas old) = wire_set [manager_node_id; worker_node_id])
          | _, _ => false
          end
      | None => false
      end
  | _ => false
  end.

Definition output_routes_cluster_state_to_manager_session_includes_partitions : bool :=
  let manager_id := id_2 in
  let cs := mkClusterState 2 (me_id me) [mkClusterNode (me_id me) "self.local" 7000 77 Manager] Partitions_default in
  match (handle_output_cluster_state (manager_session manager_id open_output) manager_id cs).1.2 with
  | [ToManager to (ManagerEvent.ClusterState g)] =>
      same_id to manager_id && (gcs_epoch g =? 2) && bool_decide (gcs_leader_id g = NodeId_to_string (me_id me)) &&
      match gcs_nodes g with [n] => is_wire_node (me_id me) "self.local" 7000 77 0 n | _ => false end &&
      match gcs_partitions g with Some ps => bool_decide (size (gps_mapping ps) = 0%nat) | None => false end
  | _ => false
  end.

Definition output_pushes_cluster_state_to_subscribed_clients : bool :=
  let cs := mkClusterState 9 id_1 [] Partitions_default in
  match (handle_output_cluster_state (mkSessions ∅ ∅ {[ id_3 := false ]}) id_2 cs).1.2 with
  | [ToClient to g] => same_id to id_3 && (gcs_epoch g =? 9)
  | _ => false
  end.

Definition output_removes_closed_manager_session : bool :=
  let manager_id := id_2 in
  let '(ss, _, msgs) := handle_output_heartbeat (manager_session manager_id (mkStream Output true)) manager_id (me_id me) 123 in
  bool_decide (manager_sessions ss !! manager_id = None) &&
  match msgs with [ManagerProtocol.NodeDisconnected id] => same_id id manager_id | _ => false end.

Lemma manager_grpc_tests_pass :
  forallb id
    [input_from_worker_forwards_messages_and_stops_when_stream_ends; output_routes_leader_to_worker_session;
     output_routes_leader_to_manager_session; output_routes_cluster_state_to_worker_session_includes_partitions;
     output_routes_cluster_state_to_manager_session_includes_partitions;
     output_pushes_cluster_state_to_subscribed_clients; output_removes_closed_manager_session] = true.
Proof. vm_compute. reflexivity. Qed.

End grpc_tests.
