(* ===== verification/Main.v ===== *)
(** * Start-up (main.rs)

    From a parsed command line to the running process of a node. *)

From S2P Require Import Prelude Containers Common RuntimeStore Conversions Grpc.
From S2P Require Import ManagerService ManagerTheorems ManagerGrpc ManagerProcess.
From S2P Require Import WorkerService WorkerGrpc WorkerProcess Process Cli.

Section main.
Context {M : Type → Type} `{SkipMap M} {D : Type → Type} `{DashMap PartitionId D}.

Inductive Node :=
  | ManagerNode (p : Process ManagerService.ManagerService ManagerProtocol.t ManagerGrpc.Sessions ManagerGrpc.Sent)
  | WorkerNode (p : WorkerProcess.Start
                      (Process (WorkerService.WorkerService M D) WorkerProtocol.t WorkerGrpc.Sessions WorkerGrpc.Sent)).

(** [Me::new] of both [run]s; the identifier is random. *)
Definition Me_new (id : NodeId) (config : Config) : Me :=
  let '(host, port) := Config_self_host_port config in mkMe id host port.

(** [main] after [Cli::parse]. *)
Definition main (id : NodeId) (now : Z) (command : Command) : Node :=
  let config := Config_from_cli command in
  match command with
  | ManagerCommand _ _ _ _ => ManagerNode (ManagerProcess.manager_run (Me_new id config) config now)
  | WorkerCommand _ _ _ _ => WorkerNode (WorkerProcess.worker_run (Me_new id config) config now)
  end.


End main.

(** ** The first expiry sweep *)

(** [Instant::now() + interval] of [start_expired_cleanup]: the seconds of an
    [Instant] are an [i64] (Linux), and the addition panics when they overflow. *)
Definition first_sweep (now_secs interval_secs : Z) : option Z :=
  if now_secs + interval_secs <? 2 ^ 63 then Some (now_secs + interval_secs) else None.

(** An interval the command line accepts can make the expiry task panic
    at its start; [run] then leaves its [select!] and the worker stops. *)
Theorem accepted_interval_overflows :
  ∃ text secs, parse_positive_u64 text = inl secs ∧ ∀ now_secs, 0 <= now_secs → first_sweep now_secs secs = None.
Proof.
  exists "9223372036854775808"%string, (2 ^ 63). split; [vm_compute; reflexivity|].
  intros now Hn. unfold first_sweep. by assert ((now + 2 ^ 63 <? 2 ^ 63) = false) as -> by lia.
Qed.
