(* ===== verification/Server.v ===== *)
(** * The gRPC servers and the end of a process (grpc.rs, mod.rs of both nodes)

    [start_server] formats the address it listens on and parses it back with the
    standard library's socket-address parser; the server itself is tonic's, its
    outcome is an input.  [run] ends when any of its tasks ends or a signal
    arrives, and then cancels the others. *)

From S2P Require Import Prelude Common Conversions Grpc ManagerGrpc WorkerGrpc.
From S2P Require Import Process ManagerProcess WorkerProcess Cli Main.
From Stdlib Require Import Ascii.

(** ** Text of an address *)

(** [Display] of an unsigned integer of at most [fuel + 1] digits, before [s]. *)
Fixpoint show_digits (fuel : nat) (n : Z) (s : string) : string :=
  let s := String (ascii_of_nat (Z.to_nat (48 + n mod 10))) s in
  if n <? 10 then s
  else match fuel with O => s | S fuel => show_digits fuel (n / 10) s end.

Definition show_u16 (n : Z) : string := show_digits 4 n EmptyString.

(** [format!("0.0.0.0:{grpc_port}")] *)
Definition format_address (grpc_port : Z) : string := ("0.0.0.0:" ++ show_u16 grpc_port)%string.

(** ** [SocketAddr::from_str], its IPv4 form (the other starts with a bracket) *)

(** The digit loop of [read_number]: value, number of digits and what is left. *)
Fixpoint read_digits (modulus acc : Z) (count : nat) (s : string) : option (Z * nat * string) :=
  match s with
  | EmptyString => Some (acc, count, s)
  | String a rest =>
      match digit_of a with
      | None => Some (acc, count, s)
      | Some d => if modulus <=? acc * 10 + d then None else read_digits modulus (acc * 10 + d) (S count) rest
      end
  end.

Definition read_number (modulus : Z) (max_digits : option nat) (allow_zero_prefix : bool) (s : string)
    : option (Z * string) :=
  let has_leading_zero := match s with String "0" _ => true | _ => false end in
  '(v, count, rest) ← read_digits modulus 0 0 s;
  if (count =? 0)%nat then None
  else if match max_digits with Some m => (m <? count)%nat | None => false end then None
  else if negb allow_zero_prefix && has_leading_zero && (1 <? count)%nat then None
  else Some (v, rest).

Definition read_given_char (c : ascii) (s : string) : option string :=
  match s with
  | String a rest => if Ascii.eqb a c then Some rest else None
  | EmptyString => None
  end.

Definition read_ipv4_addr (s : string) : option (Z * Z * Z * Z * string) :=
  let octet := read_number 256 (Some 3%nat) false in
  '(a, s) ← octet s;
  s ← read_given_char "." s; '(b, s) ← octet s;
  s ← read_given_char "." s; '(c, s) ← octet s;
  s ← read_given_char "." s; '(d, s) ← octet s;
  Some (a, b, c, d, s).

Record SocketAddrV4 := mkSocketAddrV4 { ip : Z * Z * Z * Z; socket_port : Z }.

Definition parse_socket_addr (s : string) : option SocketAddrV4 :=
  '(a, b, c, d, s) ← read_ipv4_addr s;
  s ← read_given_char ":" s;
  '(p, s) ← read_number u16_modulus None true s;
  match s with EmptyString => Some (mkSocketAddrV4 (a, b, c, d) p) | _ => None end.

(** ** start_server *)

Inductive ServerError := AddressError | TransportError.

(** [serve] is [serve_with_shutdown] of tonic: whether it ended without error. *)
Definition manager_start_server (config : Config) (serve : SocketAddrV4 → ManagerGrpc.Sessions → bool)
    : unit + ServerError :=
  match parse_socket_addr (format_address (Config_grpc_port config)) with
  | None => inr AddressError
  | Some grpc_address => if serve grpc_address ManagerApiService_new then inl tt else inr TransportError
  end.

Definition worker_start_server (config : Config) (serve : SocketAddrV4 → WorkerGrpc.Sessions → bool)
    : unit + ServerError :=
  match parse_socket_addr (format_address (Config_grpc_port config)) with
  | None => inr AddressError
  | Some grpc_address => if serve grpc_address WorkerApiService_new then inl tt else inr TransportError
  end.

(** ** Lemmas *)

Lemma digit_of_ascii n : 0 <= n < 10 → digit_of (ascii_of_nat (Z.to_nat (48 + n))) = Some n.
Proof.
  intros Hn. unfold digit_of. rewrite nat_ascii_embedding by lia. rewrite Z2Nat.id by lia.
  assert ((48 <=? 48 + n) && (48 + n <=? 57) = true) as -> by lia. f_equal. lia.
Qed.

(** Reading the digits of a number accumulates the number. *)
Lemma read_show_digits fuel modulus n count s :
  0 <= n < 10 ^ (Z.of_nat fuel + 1) → n < modulus →
  ∃ k, (0 < k)%nat ∧ read_digits modulus 0 count (show_digits fuel n s) = read_digits modulus n (count + k) s.
Proof.
  revert n s. induction fuel as [|fuel IH]; intros n s Hn Hm; cbn [show_digits].
  - exists 1%nat. split; [lia|]. assert ((n <? 10) = true) as -> by (simpl in Hn; lia).
    cbn [read_digits]. rewrite Z.mod_small, digit_of_ascii by (simpl in Hn; lia).
    assert ((modulus <=? 0 * 10 + n) = false) as -> by lia. by rewrite Nat.add_1_r.
  - pose proof (Z.mod_pos_bound n 10 ltac:(lia)). pose proof (Z_div_mod_eq_full n 10).
    destruct (Z.ltb_spec n 10).
    + exists 1%nat. split; [lia|]. cbn [read_digits]. rewrite digit_of_ascii by lia. rewrite Z.mod_small by lia.
      assert ((modulus <=? 0 * 10 + n) = false) as -> by lia. by rewrite Nat.add_1_r.
    + assert (n / 10 < 10 ^ (Z.of_nat fuel + 1)).
      { apply Z.div_lt_upper_bound; [lia|]. rewrite <- Z.pow_succ_r by lia.
        replace (Z.succ (Z.of_nat fuel + 1)) with (Z.of_nat (S fuel) + 1) by lia. lia. }
      destruct (IH (n / 10) (String (ascii_of_nat (Z.to_nat (48 + n mod 10))) s)) as (k & Hk & ->); [lia..|].
      exists (S k). split; [lia|]. cbn [read_digits]. rewrite digit_of_ascii by lia.
      replace (n / 10 * 10 + n mod 10) with n by lia.
      assert ((modulus <=? n) = false) as -> by lia. by rewrite Nat.add_succ_r.
Qed.

Lemma parse_format_address p : is_u16 p → parse_socket_addr (format_address p) = Some (mkSocketAddrV4 (0, 0, 0, 0) p).
Proof.
  intros Hp. unfold is_u16, u16_modulus in Hp. unfold parse_socket_addr, format_address, show_u16.
  destruct (read_show_digits 4 u16_modulus p 0 EmptyString) as (k & Hk & Hread); [unfold u16_modulus; simpl; lia..|].
  revert Hread. generalize (show_digits 4 p EmptyString) as s. intros s Hread.
  transitivity ('(p, s) ← read_number u16_modulus None true s;
    match s with EmptyString => Some (mkSocketAddrV4 (0, 0, 0, 0) p) | _ => None end); [reflexivity|].
  unfold read_number. rewrite Hread. cbn. by destruct k; [lia|].
Qed.

(** ** The end of a process *)

(** What [select!] of [run] waits for; the expiry task is the worker's only. *)
Inductive RunEnd :=
  | GrpcEnded (result : unit + ServerError)
  | ServiceEnded
  | CleanupEnded
  | Sigterm
  | Sigint
  | TokenCancelled.

(** [run] after its [select!]: whichever branch ends it, the token is cancelled
    and the result is [Ok], also when the server failed; [None] is a branch the
    [select!] does not have. *)
Definition manager_run_end {Msg In Env Ses} (e : RunEnd)
    : option (Action Msg In Env Ses * (unit + ServerError)) :=
  match e with
  | CleanupEnded => None
  | GrpcEnded _ | ServiceEnded | Sigterm | Sigint | TokenCancelled => Some (Cancel, inl tt)
  end.

Definition worker_run_end {Msg In Env Ses} (e : RunEnd)
    : option (Action Msg In Env Ses * (unit + ServerError)) :=
  match e with
  | GrpcEnded _ | ServiceEnded | CleanupEnded | Sigterm | Sigint | TokenCancelled => Some (Cancel, inl tt)
  end.

(** The server of either node listens on every interface at the configured
    port: the address text it formats parses back to that address for every
    16-bit port, so [start_server] fails only when the transport does. *)
Theorem server_address_valid config serve_m serve_w :
  is_u16 (Config_grpc_port config) →
  let address := mkSocketAddrV4 (0, 0, 0, 0) (Config_grpc_port config) in
  manager_start_server config serve_m =
    (if serve_m address ManagerApiService_new then inl tt else inr TransportError) ∧
  worker_start_server config serve_w =
    (if serve_w address WorkerApiService_new then inl tt else inr TransportError).
Proof.
  intros Hp address. unfold manager_start_server, worker_start_server. by rewrite parse_format_address.
Qed.

Lemma server_address_valid_witness :
  manager_start_server (Config_from_cli (ManagerCommand (mkCommonArgs 50051 "h" None) None None 1))
    (λ address _, socket_port address =? 50051) = inl tt.
Proof.
  rewrite (proj1 (server_address_valid
    (Config_from_cli (ManagerCommand (mkCommonArgs 50051 "h" None) None None 1))
    (λ address _, socket_port address =? 50051) (λ _ _, true) ltac:(unfold is_u16, u16_modulus; simpl; lia))).
  reflexivity.
Defined.
